(* ===== verification/_CoqProject ===== *)
-Q . S2P
Prelude.v
GoStrings.v
GoNet.v
Acl.v
Policy.v
Feed.v
DialRace.v
DialProps.v
StaticRace.v
Dial.v
GoHttp.v
GoUrl.v
UdpProtocol.v
Varint.v
UdpAdmission.v
UdpMetrics.v
UdpPump.v
UdpRun.v
UdpRelay.v
UdpServe.v
Padding.v
Headers.v
Auth.v
Handler.v
Proxy.v
Tunnel.v
HttpDialer.v
Caddyfile.v
Provision.v
Interop.v
Goroutines.v
ClientModes.v
ClientTrace.v
ClientMain.v
Probe.v
Diag.v
ProbeMain.v
