(* ===== verification/Prelude.v ===== *)
(** * A verification development of the forwardproxy Caddy module

    forwardproxy is a Caddy HTTP handler, written in Go, that serves as a
    forward proxy: it tunnels TCP for CONNECT, relays UDP for extended CONNECT
    with the connect-udp protocol (RFC 9298), forwards ordinary requests,
    authenticates its clients, filters destinations through an access control
    list, pads the first frames of a tunnel, and can hide that it is a proxy.
    This library translates that code into executable definitions and proves
    what makes it correct.

    ** The parts of the program and the files that model them

    Generic files.
    - [Prelude] (this file): bytes, Go strings, error values, the [result]
      type of fallible calls, HTTP statuses, and the automation: the hint
      databases [fproxy], [reflect_bools] and [go_cases].
    - [GoStrings], [GoNet], [GoHttp], [GoUrl]: what the program uses of the
      packages strings, strconv, net, net/netip, net/http, net/textproto and
      net/url, executable, with the lemmas the components need (an address
      survives printing and parsing, a host and port survive joining and
      splitting, a path segment survives escaping, a URL survives printing and
      parsing).

    Configuration.
    - [Caddyfile] (UnmarshalCaddyfile of caddyfile.go, readLinesFromFile): the
      parser over the class [Dispenser] of the operations of Caddy's token
      dispenser, with [DispenserLaws], and the meaning of the lines it refines.
    - [Provision] (Provision of forwardproxy.go): from the configuration to the
      handler, its policy, limits and upstream dialer.
    - [UdpMetrics] (initConnectUDPMetrics): the collectors, created once, and
      their registration over the class [Registry].

    Access control, used by every other part.
    - [Acl] (acl.go, and aclRules, hostIsAllowed, portIsAllowed and the rule
      list of Provision in forwardproxy.go): the rule kinds as the constructors
      of [aclRule] behind the class [TryMatch], which stands for the Go
      interface, newACLRule with its error branches, the first-match decision.
    - [Policy] (prepareTargetPolicy, resolveTargetCheckACL and the failures of
      native_udp_protocol.go and connect_dial.go): what happens to a target
      before any dial, with the HTTP status of each refusal.

    TCP tunnels.
    - [Feed] (tcpFamilyFeed of connect_dial_incremental.go and
      interleaveTCPAddresses of connect_dial.go): the record [tcpFamilyFeed]
      and one function per method; a method runs under the feed's mutex and is
      therefore one atomic function of the record.
    - [DialRace] and [DialProps] (dialTCPIncremental): the state [race] holds
      the feed, the locals of the scheduler loop ([sched]), the two lookup
      goroutines, the closing goroutine, and the dial goroutines by number.
      [lstep] is one atomic action of one of them; every interleaving is a
      path of [step].  [DialRace] has the model and the invariants of queues,
      windows and ownership, [DialProps] the counting and wake-up invariants,
      the termination measure, executable scripts ([run]) and the theorems.
    - [StaticRace] (dialTCPAddresses of connect_dial.go): the race over a fixed
      list that dialTCPIncremental was derived from, with the same delays and
      dial goroutines.  The program does not call it any more.
    - [Dial] (dialContextCheckACL): the call around the race, the upstream
      path and the error of each outcome.
    - [HttpDialer] (httpclient/httpclient.go): the dialer of an upstream proxy,
      HTTP/1 and HTTP/2 CONNECT with the cached connection; calls that overlap
      on that connection are not modelled.
    - [Padding] (negotiateNaivePadding, setNaivePaddingResponseHeaders,
      flushingIoCopy) and [Tunnel] (serveHijack, dualStream): one copy of a
      tunnel as a function with fuel, and both copies with the calls that close
      their ends as the transition system [tstep].

    CONNECT-UDP.
    - [UdpProtocol] (native_udp_protocol.go, native_udp_contract.go): request
      recognition, the URI template, canonical hosts, redaction, the datagram
      codec.  [Varint] is an RFC 9000 instance of the codec's class.
    - [UdpAdmission] (acquireConnectUDP, its release closure and the metric
      updates of native_udp_metrics.go): the two critical sections, each metric
      update and the steps of the compare-and-swap loop are single steps of a
      transition system over all requests in flight.
    - [UdpPump] (pumpH3ToUDP, pumpUDPToH3, countEvent, logEvent: a pump as a
      function of what its environment answers), [UdpRun]
      (connectUDPAssociation.run with its timer and contexts and the calls of
      its shutdown one by one, the pumps as the loop sees them), [UdpRelay] (run and both pumps together, call by call, as
      one transition system) and [UdpServe] (serveConnectUDP, dialConnectUDPTarget, clientAddressKey, and
      the unwrapping of native_udp_stream.go): the association from the
      request to the last deferred call.

    The handler.
    - [Headers] (removeHopByHop, forwardResponse), [Auth]
      (EncodeAuthCredentials of caddyfile.go, checkCredentials).
    - [Handler] (ServeHTTP with serveHiddenPage, servePacFile and the branches
      for CONNECT and forwarding): a request gives an [outcome], the answer, the
      response writer, the request as it is left, and what happened to target
      connections, in order.
    - [Proxy]: the handler with dialContextCheckACL and serveConnectUDP in the
      places of the functions its environment leaves open.

    Programs beside the module.
    - [Interop] (cmd/m4-rfc9298-client/main.go): the interoperability client
      over the class [Transport] of the operations of its HTTP/3 library, of
      which nothing is assumed, and its requests, datagrams and padded frames
      in front of [ServeHTTP], the codec and the tunnel.  [Goroutines]
      has goroutines as trees of calls and pools of them under a schedule, with
      a rule to reason about a pool one goroutine at a time; [ClientModes] the
      fixtures and the modes matrix, limits, idle and shutdown, with
      [ResourceLaws] for what is open; [ClientTrace] records every call of a
      mode with its result and says what a passing run has recorded;
      [ClientMain] the padding mode and main.
    - [Probe] (experiments/w2w3/realprobe/main.go) and [Diag] (its diagnostic):
      the DNS fixtures the probes point a resolver at; [ProbeMain] their main
      functions over the class [ProbeEnv].

    ** How the parts interact

    [Caddyfile] gives the configuration that [Provision] turns into a handler.
    [Handler.ServeHTTP] authenticates ([Auth]), routes, and for a tunnel calls
    [dialContextCheckACL] ([Dial]), which asks [Policy] and then runs the race
    ([DialRace]) over the feed ([Feed]) that admits the resolver's answers
    through the list ([Acl]), or dials through an upstream ([HttpDialer]); the
    connection goes to [Tunnel].  A CONNECT-UDP request goes to [UdpServe], which
    takes a place in [UdpAdmission], asks [Policy] for approved addresses,
    dials one and runs the association ([UdpRelay], whose loop is that of
    [UdpRun] and whose pumps are those of [UdpPump]) over the codec
    ([UdpProtocol]).  Where one part calls another
    through an interface of the program or a third-party package the models
    meet at a class or a record of functions: [TryMatch], [Dispenser],
    [Registry], [Transport], [UnicodeTables], [Idna], [QuicVarint] with their
    laws, [dialEnv], [serveEnv], [provisionEnv], [handlerEnv].

    ** What the theorems show

    - What can be reached: [Proxy.udp_reaches_approved],
      [Proxy.tunnel_reaches_approved], [DialProps.dialled_addresses],
      [Policy.resolveTargetCheckACL_addresses],
      [Policy.resolved_addresses_numeric], [Policy.refused_before_lookup],
      [Acl.provision_policy], [Acl.single_address_rule]: only addresses the
      list approved are dialled, as numeric text that is not resolved again,
      and a refused port or name is never looked up.
    - Who can use the proxy: [Handler.auth_gate],
      [Handler.probe_resistance_invisible], [Handler.own_host_not_proxied],
      [Auth.credentials_exact], [Provision.configured_users_only];
      [Proxy.udp_target_redacted] is about what the outer handlers see.
    - Configuration: [Caddyfile.caddyfile_refines] (the token parser computes
      the meaning of the lines), [Caddyfile.caddyfile_config_wf],
      [Caddyfile.caddyfile_roundtrip], [Provision.provision_guarantees],
      [UdpMetrics.metrics_registered_once].
    - The race: [DialProps.single_winner], [DialProps.no_lost_wakeup],
      [DialProps.race_terminates], [DialProps.starts_spaced],
      [DialProps.race_error], [Feed.drain_refines_interleave] (the lazy feed
      refines the static order of the addresses), [Dial.direct_dial_outcome],
      [StaticRace.static_race_sound], [StaticRace.static_race_ends].
    - Upstream proxies: [HttpDialer.dial_sound],
      [Provision.upstream_end_to_end] (the printed URL of an upstream gives a
      dialer whose requests that upstream accepts).
    - CONNECT-UDP: [UdpAdmission.admission_limits],
      [UdpAdmission.admission_quiescent], [UdpAdmission.acquire_release],
      [UdpServe.serve_effects], [UdpServe.capabilities_found],
      [UdpServe.client_key_by_address], [UdpProtocol.parse_target_sound],
      [UdpProtocol.parse_target_roundtrip], [UdpProtocol.datagram_codec],
      [UdpPump.pumpH3ToUDP_forwards], [UdpPump.pumpUDPToH3_forwards],
      [UdpPump.relay_transparent], [UdpPump.countEvent_logs],
      [UdpRun.run_returns_clean], [UdpRun.end_of_loop],
      [UdpRun.drain_completes]; and for every interleaving of the loop and the
      pumps [UdpRelay.relay_refines_parts] (the parts are refined),
      [UdpRelay.relay_delivers] (what arrives on one side is handed on at the
      other, in order), [UdpRelay.relay_returns], [UdpRelay.relay_terminates]
      and [UdpRelay.idle_expiry].
    - What crosses the proxy: [Padding.padding_roundtrip],
      [Padding.plain_copy_identity], [Padding.unpadded_is_io_copy],
      [Tunnel.tunnel_refines_copies], [Tunnel.padded_tunnel_transparent],
      [Tunnel.hijack_stream], [Tunnel.tunnel_ends],
      [Headers.removeHopByHop_exact], [Headers.forwardResponse_end_to_end],
      [Handler.forwarded_headers], [Handler.forwarded_once],
      [Handler.target_always_closed].
    - The client and the proxy: [Interop.client_request_served] (what
      ServeHTTP does with the client's request), [Interop.client_codec_agrees],
      [Interop.padding_exchange], [Interop.dns_fixture_answers];
      [ClientTrace.matrix_evidence] and [ClientTrace.limits_evidence] (what was
      observed when the client prints that its checks passed, over any transport
      and in every schedule of its goroutines);
      [ClientModes.modes_release_resources], [ClientMain.main_exit],
      [ClientMain.padding_mode_evidence] (what the client leaves behind and what
      its exit status means).
    - The fixtures: [Probe.fixture_answers_each], [Probe.response_reads_back],
      [Diag.diag_answers_as_probe], [Diag.short_packets_safe],
      [ProbeMain.diag_serves], [ProbeMain.probe_writes] (what the probe writes).

    ** Conventions, bounds and fuel

    - A Go string or byte slice is a list of 8-bit characters; an integer that
      cannot leave its width in the code is a [Z] or [nat], and the counters
      that can wrap (association identifiers, event counters) are reduced
      modulo 2^64 where the code adds to them.
    - A call that fails returns [result] or a sum; [Err] carries an [error]
      with what errors.Is and errors.As can see of it.  A run-time panic the
      code can reach is an outcome of its own ([Auth], [Handler], [Diag]).
    - Time is a [Z] of nanoseconds that only a step of the clock advances.
    - Ranging over a Go map has no fixed order: the order is an argument with
      the hypothesis that it enumerates the map.
    - [flushingIoCopy] takes fuel, one unit per round; the length of the stream, the
      number of frames and the padding rounds bound the rounds, and
      [plain_copy_identity] and [padding_roundtrip] give an amount that is
      enough.  [UnmarshalCaddyfile] takes fuel, one unit per line or directive,
      and [caddyfile_refines] shows that one more than the size of the lines is
      enough.  The name readers of [Probe] and [Diag] take the length of the
      packet ([read_labels_fuel]).  The search through response writers is
      bounded by sixteen in the code itself.  [race_terminates],
      [static_race_ends], [tunnel_ends] and [relay_terminates] have no fuel: the
      measure is proved to decrease in every step but the passing of time and,
      for the relay, the arrival of a datagram, which adds six to it.  A goroutine
      of [Goroutines] is a finite tree, so a pool needs no fuel.
    - One round of the scheduler up to its select, a critical section, a
      channel operation and an atomic operation are single steps; the code
      between two of them touches only locals of its goroutine.  A buffer that
      goroutines share is part of the state ([Probe]).

    ** What is not modelled

    - Third-party code: the resolver and the dialers, Caddy's host matcher and
      replacer and its token dispenser, the QUIC, HTTP/2 and HTTP/3 stacks, TLS,
      x/net/proxy, IDNA, the Prometheus registry and the tables of Unicode case
      mapping are parameters, with documented behaviour as laws where a theorem
      relies on it.  That a datagram arrives, or when the proxy learns that a
      stream was cancelled, is assumed nowhere.
    - Registration of the module and of its directive with Caddy, and the texts
      of its log entries.
    - Of the interoperability client its flags and its TLS settings; of the
      probes the clock, the sockets, the output file and the standard resolver,
      which are parameters, and the texts they print.
    - runtime.Gosched, which the pumps call every so many datagrams, has no
      effect a step could show. *)

From stdpp Require Import base decidable numbers list gmap strings.
From Stdlib Require Import ZArith Lia Ascii.

(** ** Bytes and Go strings

    A Go string is an immutable byte sequence and a [[]byte] is read here by
    value, so both are lists of 8-bit characters.  [go "text"] is the literal. *)

Abbreviation byte := ascii (only parsing).
Abbreviation gostring := (list ascii) (only parsing).

Definition go (s : string) : gostring := String.list_ascii_of_string s.

Arguments go !_ /.

(** The numeric value of a byte and Go's conversion [byte(n)], which truncates
    to eight bits. *)
Definition Z_of_byte (c : byte) : Z := Z.of_N (N_of_ascii c).
Definition byte_of_Z (z : Z) : byte := ascii_of_N (Z.to_N (z `mod` 256)).

Lemma Z_of_byte_range (c : byte) : (0 <= Z_of_byte c < 256)%Z.
Proof.
  unfold Z_of_byte. pose proof (N_ascii_bounded c). lia.
Qed.

Lemma Z_of_byte_of_Z (z : Z) : Z_of_byte (byte_of_Z z) = (z `mod` 256)%Z.
Proof.
  unfold Z_of_byte, byte_of_Z.
  pose proof (Z.mod_pos_bound z 256 ltac:(lia)).
  rewrite N_ascii_embedding by lia. lia.
Qed.

Lemma byte_of_Z_of_byte (c : byte) : byte_of_Z (Z_of_byte c) = c.
Proof.
  unfold byte_of_Z. rewrite Z.mod_small by apply Z_of_byte_range.
  unfold Z_of_byte. rewrite N2Z.id. apply ascii_N_embedding.
Qed.

Lemma Z_of_byte_inj (c d : byte) : Z_of_byte c = Z_of_byte d -> c = d.
Proof.
  intros H. rewrite <- (byte_of_Z_of_byte c), <- (byte_of_Z_of_byte d). by rewrite H.
Qed.

(** ** Error values

    The Go errors the program creates, compares or unwraps.  [errors.New] and
    [fmt.Errorf] without [%w] give [ErrMsg]; [net.Error] implementations are
    kept with their [Timeout()] answer; [*targetPolicyFailure] and
    [caddyhttp.HandlerError] carry the error they unwrap to. *)

(** [targetPolicyFailureKind] of native_udp_protocol.go. *)
Inductive targetPolicyFailureKind : Type :=
  | targetPolicyMalformed
  | targetPolicyPortDenied
  | targetPolicyDomainDenied
  | targetPolicyLookupFailed
  | targetPolicyNoAllowedAddress.

#[export] Instance targetPolicyFailureKind_eq_dec : EqDecision targetPolicyFailureKind.
Proof. solve_decision. Defined.

Inductive error : Type :=
  | ErrMsg (msg : gostring)
  | ErrDeadlineExceeded
  | ErrCanceled
  | ErrEOF
  | ErrUnexpectedEOF
  | ErrShortWrite
  | ErrNet (timeout : bool) (msg : gostring)
  | ErrDatagramTooLarge
  | ErrPolicy (kind : targetPolicyFailureKind) (cause : option error)
  | ErrHandler (status : Z) (err : error).

(** [errors.Is(err, context.DeadlineExceeded)] and
    [errors.As(err, &netErr) && netErr.Timeout()]: both walk the unwrap chain;
    [context.DeadlineExceeded] is itself a [net.Error] whose [Timeout()] holds. *)
Fixpoint is_timeout (e : error) : bool :=
  match e with
  | ErrDeadlineExceeded => true
  | ErrNet t _ => t
  | ErrPolicy _ (Some c) => is_timeout c
  | ErrHandler _ e' => is_timeout e'
  | _ => false
  end.

(** [errors.As(err, &policy)] for [*targetPolicyFailure]. *)
Fixpoint as_policy (e : error) : option (targetPolicyFailureKind * option error) :=
  match e with
  | ErrPolicy k c => Some (k, c)
  | ErrHandler _ e' => as_policy e'
  | _ => None
  end.

(** ** Fallible results

    A Go function returning [(T, error)] gives [Ok v] or [Err e].  The monad
    instances make stdpp's [x ← e; k] the early return on a non-nil error. *)
Inductive result (A : Type) : Type :=
  | Ok (a : A)
  | Err (e : error).
Arguments Ok {A} a.
Arguments Err {A} e.

#[export] Instance result_ret : MRet result := @Ok.
#[export] Instance result_bind : MBind result := fun A B k r =>
  match r with Ok a => k a | Err e => Err e end.

#[export] Instance Ok_inj {A} : Inj (=) (=) (@Ok A).
Proof. by intros x y [= ->]. Qed.

Lemma result_bind_Ok {A B} (r : result A) (k : A -> result B) b :
  r ≫= k = Ok b <-> exists a, r = Ok a /\ k a = Ok b.
Proof. destruct r; simpl; naive_solver. Qed.

(** ** HTTP status codes (net/http) *)
Definition StatusOK : Z := 200.
Definition StatusBadRequest : Z := 400.
Definition StatusForbidden : Z := 403.
Definition StatusProxyAuthRequired : Z := 407.
Definition StatusInternalServerError : Z := 500.
Definition StatusNotImplemented : Z := 501.
Definition StatusBadGateway : Z := 502.
Definition StatusServiceUnavailable : Z := 503.
Definition StatusGatewayTimeout : Z := 504.
Definition StatusHTTPVersionNotSupported : Z := 505.

(** The status a handler error carries, which Caddy sends to the client. *)
Definition error_status (e : error) : option Z :=
  match e with ErrHandler s _ => Some s | _ => None end.

(** ** Automation *)

Create HintDb fproxy discriminated.
Create Rewrite HintDb fproxy.
#[export] Hint Resolve Z_of_byte_range : fproxy.

(** Reflect the boolean tests of the code into propositions. *)
Ltac reflect_bools :=
  repeat match goal with
  | H : _ && _ = true |- _ => apply andb_true_iff in H as [? ?]
  | H : _ || _ = false |- _ => apply orb_false_iff in H as [? ?]
  | H : negb _ = true |- _ => apply negb_true_iff in H
  | H : negb _ = false |- _ => apply negb_false_iff in H
  | H : bool_decide _ = true |- _ => apply bool_decide_eq_true in H
  | H : bool_decide _ = false |- _ => apply bool_decide_eq_false in H
  | H : (_ =? _)%Z = true |- _ => apply Z.eqb_eq in H
  | H : (_ =? _)%Z = false |- _ => apply Z.eqb_neq in H
  | H : (_ <? _)%Z = true |- _ => apply Z.ltb_lt in H
  | H : (_ <? _)%Z = false |- _ => apply Z.ltb_ge in H
  | H : (_ <=? _)%Z = true |- _ => apply Z.leb_le in H
  | H : (_ <=? _)%Z = false |- _ => apply Z.leb_gt in H
  end.

(** Split the innermost [match] or [if] of the goal or a hypothesis, keeping
    the equation, then simplify. *)
Ltac step_match :=
  match goal with
  | |- context [match ?x with _ => _ end] =>
      lazymatch x with context [match _ with _ => _ end] => fail | _ => destruct x eqn:? end
  end.
Ltac step_match_in H :=
  match type of H with
  | context [match ?x with _ => _ end] =>
      lazymatch x with context [match _ with _ => _ end] => fail | _ => destruct x eqn:? end
  end.
Ltac go_cases := repeat (step_match; simplify_eq/=).
Ltac go_cases_in H := repeat (step_match_in H; simplify_eq/=).
