(* ===== verification/GoStrings.v ===== *)
(** * The parts of Go's [strings] and [strconv] packages the proxy uses

    Executable definitions over byte strings, with the lemmas the components
    need: splitting is inverse to joining, numbers survive printing and
    parsing, prefix and suffix tests agree with the list relations.  Case
    mapping of text outside ASCII needs the Unicode tables of the Go release
    and is an operation of the class [UnicodeTables]. *)

From stdpp Require Import base decidable numbers list gmap strings.
From Stdlib Require Import ZArith Lia Ascii.
From S2P Require Import Prelude.

(** ** Character classes *)

Definition in_range (lo hi c : byte) : bool :=
  (Z_of_byte lo <=? Z_of_byte c)%Z && (Z_of_byte c <=? Z_of_byte hi)%Z.

Definition is_digit (c : byte) : bool := in_range "0" "9" c.
Definition is_lower (c : byte) : bool := in_range "a" "z" c.
Definition is_upper (c : byte) : bool := in_range "A" "Z" c.
Definition is_ascii (c : byte) : bool := (Z_of_byte c <? 128)%Z.

Definition byte_eqb (c d : byte) : bool := bool_decide (c = d).

(** ** Prefixes, suffixes, membership *)

(** [strings.CutPrefix]: the rest of [s] after [p]. *)
Fixpoint CutPrefix (p s : gostring) : option gostring :=
  match p, s with
  | [], _ => Some s
  | c :: p', d :: s' => if byte_eqb c d then CutPrefix p' s' else None
  | _ :: _, [] => None
  end.

Definition HasPrefix (s p : gostring) : bool :=
  match CutPrefix p s with Some _ => true | None => false end.

Definition TrimPrefix (s p : gostring) : gostring :=
  match CutPrefix p s with Some r => r | None => s end.

Definition HasSuffix (s p : gostring) : bool := HasPrefix (reverse s) (reverse p).

(** [strings.IndexByte], [None] for -1. *)
Fixpoint IndexByte (s : gostring) (c : byte) : option nat :=
  match s with
  | [] => None
  | d :: s' => if byte_eqb d c then Some 0 else S <$> IndexByte s' c
  end.

Definition ContainsByte (s : gostring) (c : byte) : bool :=
  match IndexByte s c with Some _ => true | None => false end.

(** [strings.Contains] for a substring. *)
Fixpoint Contains (s p : gostring) : bool :=
  HasPrefix s p || match s with [] => false | _ :: s' => Contains s' p end.

(** [strings.ContainsAny] for a set of ASCII characters. *)
Definition ContainsAny (s chars : gostring) : bool :=
  existsb (fun c => ContainsByte chars c) s.

(** ** Splitting and joining at a one-byte separator *)

Fixpoint Split (s : gostring) (sep : byte) : list gostring :=
  match s with
  | [] => [[]]
  | c :: s' =>
      if byte_eqb c sep then [] :: Split s' sep
      else match Split s' sep with
           | [] => [[c]]
           | w :: ws => (c :: w) :: ws
           end
  end.

Fixpoint Join (ws : list gostring) (sep : gostring) : gostring :=
  match ws with
  | [] => []
  | [w] => w
  | w :: ws' => w ++ sep ++ Join ws' sep
  end.

(** ** White space: the UTF-8 encodings of [unicode.IsSpace] *)

Definition z_bytes (l : list Z) : gostring := byte_of_Z <$> l.

Definition space_encodings : list gostring :=
  z_bytes <$>
  ([[9]; [10]; [11]; [12]; [13]; [32]; [194; 133]; [194; 160]; [225; 154; 128];
    [226; 128; 128]; [226; 128; 129]; [226; 128; 130]; [226; 128; 131];
    [226; 128; 132]; [226; 128; 133]; [226; 128; 134]; [226; 128; 135];
    [226; 128; 136]; [226; 128; 137]; [226; 128; 138]; [226; 128; 168];
    [226; 128; 169]; [226; 128; 175]; [226; 129; 159]; [227; 128; 128]])%Z.

Fixpoint strip_first (encs : list gostring) (s : gostring) : option gostring :=
  match encs with
  | [] => None
  | e :: encs' =>
      match CutPrefix e s with Some r => Some r | None => strip_first encs' s end
  end.

(** Each round removes at least one byte, so [length s] rounds suffice. *)
Fixpoint strip_spaces (fuel : nat) (encs : list gostring) (s : gostring) : gostring :=
  match fuel with
  | O => s
  | S fuel' =>
      match strip_first encs s with
      | Some r => strip_spaces fuel' encs r
      | None => s
      end
  end.

Definition TrimSpace (s : gostring) : gostring :=
  let s1 := strip_spaces (length s) space_encodings s in
  reverse (strip_spaces (length s1) (reverse <$> space_encodings) (reverse s1)).

(** ** Case mapping *)

(** [strings.ToLower] and [strings.EqualFold] outside ASCII. *)
Class UnicodeTables : Type := {
  unicode_lower : gostring -> gostring;
  unicode_equal_fold : gostring -> gostring -> bool;
}.

Definition lower_byte (c : byte) : byte :=
  if is_upper c then byte_of_Z (Z_of_byte c + 32) else c.
Definition upper_byte (c : byte) : byte :=
  if is_lower c then byte_of_Z (Z_of_byte c - 32) else c.

Definition all_ascii (s : gostring) : bool := forallb is_ascii s.

Definition ToLower `{UnicodeTables} (s : gostring) : gostring :=
  if all_ascii s then lower_byte <$> s else unicode_lower s.

Definition EqualFold `{UnicodeTables} (s t : gostring) : bool :=
  if all_ascii s && all_ascii t then bool_decide (lower_byte <$> s = lower_byte <$> t)
  else unicode_equal_fold s t.

(** ** Numbers: [strconv.Atoi] and [strconv.Itoa] on a 64-bit [int] *)

Definition max_int : Z := 2 ^ 63 - 1.
Definition min_int : Z := - 2 ^ 63.

Definition digit_val (c : byte) : Z := Z_of_byte c - 48.
Definition digit_char (d : Z) : byte := byte_of_Z (d + 48).

(** The value of a digit string after the accumulated [acc]; [None] when a
    character is not a digit. *)
Fixpoint parse_digits (acc : Z) (s : gostring) : option Z :=
  match s with
  | [] => Some acc
  | c :: s' => if is_digit c then parse_digits (acc * 10 + digit_val c) s' else None
  end.

Definition parse_uint (s : gostring) : option Z :=
  match s with [] => None | _ => parse_digits 0 s end.

(** [None] is Atoi's error: a syntax error or a value outside [int]. *)
Definition Atoi (s : gostring) : option Z :=
  let in_int (z : Z) := if ((min_int <=? z) && (z <=? max_int))%Z then Some z else None in
  match s with
  | "-"%char :: r => parse_uint r ≫= fun n => in_int (- n)%Z
  | "+"%char :: r => parse_uint r ≫= in_int
  | _ => parse_uint s ≫= in_int
  end.

(** Decimal digits of a natural number, least significant last; the fuel
    bounds the number of digits. *)
Fixpoint dec_digits (fuel : nat) (n : Z) (acc : gostring) : gostring :=
  match fuel with
  | O => acc
  | S fuel' =>
      let acc' := digit_char (n `mod` 10) :: acc in
      if (n <? 10)%Z then acc' else dec_digits fuel' (n `div` 10) acc'
  end.

(** An [int] has at most nineteen decimal digits. *)
Definition Itoa (n : Z) : gostring :=
  if (n <? 0)%Z then "-"%char :: dec_digits 20 (- n) [] else dec_digits 20 n [].

(** ** Lemmas *)

Lemma byte_eqb_refl c : byte_eqb c c = true.
Proof. unfold byte_eqb. by rewrite bool_decide_true. Qed.

Lemma byte_eqb_true c d : byte_eqb c d = true <-> c = d.
Proof. unfold byte_eqb. by rewrite bool_decide_eq_true. Qed.

Lemma byte_eqb_false c d : byte_eqb c d = false <-> c <> d.
Proof. unfold byte_eqb. by rewrite bool_decide_eq_false. Qed.

#[export] Hint Rewrite byte_eqb_refl byte_eqb_true byte_eqb_false : fproxy.

(** Case analysis on a byte comparison. *)
Ltac case_byte c d :=
  let E := fresh "E" in
  destruct (byte_eqb c d) eqn:E;
  [apply byte_eqb_true in E; subst | apply byte_eqb_false in E].

Lemma CutPrefix_Some p s r : CutPrefix p s = Some r <-> s = p ++ r.
Proof.
  revert s; induction p as [|c p IH]; intros s; simpl.
  - split; congruence.
  - destruct s as [|d s]; [split; [done|]; discriminate|].
    case_byte c d; rewrite ?IH; split; intros; simplify_eq/=; auto.
Qed.

Lemma HasPrefix_app p r : HasPrefix (p ++ r) p = true.
Proof. unfold HasPrefix. by rewrite (proj2 (CutPrefix_Some p (p ++ r) r) eq_refl). Qed.

Lemma HasPrefix_true s p : HasPrefix s p = true <-> p `prefix_of` s.
Proof.
  split.
  - unfold HasPrefix. destruct (CutPrefix p s) eqn:E; [|done].
    apply CutPrefix_Some in E as ->. intros _. by exists l.
  - intros [r ->]. apply HasPrefix_app.
Qed.

Lemma HasSuffix_true s p : HasSuffix s p = true <-> p `suffix_of` s.
Proof.
  unfold HasSuffix. rewrite HasPrefix_true.
  by rewrite <- (reverse_involutive p) at 2; rewrite <- (reverse_involutive s) at 2;
     rewrite <- prefix_suffix_reverse.
Qed.

Lemma TrimPrefix_app p r : TrimPrefix (p ++ r) p = r.
Proof. unfold TrimPrefix. by rewrite (proj2 (CutPrefix_Some p (p ++ r) r) eq_refl). Qed.

Lemma IndexByte_None s c : IndexByte s c = None <-> c ∉ s.
Proof.
  induction s as [|d s IH]; simpl; [set_solver|].
  case_byte d c; [set_solver|].
  rewrite fmap_None, IH, not_elem_of_cons. naive_solver.
Qed.

Lemma IndexByte_Some s c i :
  IndexByte s c = Some i -> s = take i s ++ c :: drop (S i) s /\ c ∉ take i s.
Proof.
  revert i; induction s as [|d s IH]; intros i; simpl; [done|].
  case_byte d c; [intros [= <-]; simpl; set_solver|].
  intros (j & [Hs Hn]%IH & ->)%fmap_Some. simpl.
  split; [by rewrite <- Hs|]. rewrite not_elem_of_cons. naive_solver.
Qed.

Lemma IndexByte_app s c r : c ∉ s -> IndexByte (s ++ c :: r) c = Some (length s).
Proof.
  induction s as [|d s IH]; simpl; intros Hn.
  - by rewrite byte_eqb_refl.
  - apply not_elem_of_cons in Hn as [? ?].
    rewrite (proj2 (byte_eqb_false d c)) by done. by rewrite IH.
Qed.

Lemma ContainsByte_true s c : ContainsByte s c = true <-> c ∈ s.
Proof.
  unfold ContainsByte. pose proof (IndexByte_None s c) as H.
  destruct (IndexByte s c); destruct (decide (c ∈ s)); naive_solver.
Qed.

Lemma ContainsByte_false s c : ContainsByte s c = false <-> c ∉ s.
Proof.
  rewrite <- IndexByte_None. unfold ContainsByte. by destruct (IndexByte s c).
Qed.

Lemma ContainsAny_false s chars :
  ContainsAny s chars = false <-> forall c, c ∈ s -> c ∉ chars.
Proof.
  unfold ContainsAny. induction s as [|d s IH]; simpl.
  - set_solver.
  - rewrite orb_false_iff, IH, ContainsByte_false. set_solver.
Qed.

(** *** Splitting *)

Lemma Split_nonempty s sep : exists w ws, Split s sep = w :: ws.
Proof.
  induction s as [|c s [w [ws E]]]; simpl; [eauto|].
  case_byte c sep; rewrite ?E; eauto.
Qed.

Lemma Split_not_nil s sep : Split s sep <> [].
Proof. destruct (Split_nonempty s sep) as (w & ws & ->). done. Qed.

Lemma Join_cons w ws sep : ws <> [] -> Join (w :: ws) sep = w ++ sep ++ Join ws sep.
Proof. by destruct ws. Qed.

Lemma Join_Split s sep : Join (Split s sep) [sep] = s.
Proof.
  induction s as [|c s IH]; simpl; [done|].
  destruct (Split_nonempty s sep) as (w & ws & E).
  case_byte c sep.
  - rewrite Join_cons by apply Split_not_nil. by rewrite IH.
  - rewrite E in IH |- *. rewrite <- IH. by destruct ws.
Qed.

Lemma Split_no_sep s sep w : w ∈ Split s sep -> sep ∉ w.
Proof.
  revert w; induction s as [|c s IH]; simpl; intros w.
  - intros ->%list_elem_of_singleton. set_solver.
  - destruct (Split_nonempty s sep) as (w0 & ws & E).
    case_byte c sep.
    + intros [->|Hw]%elem_of_cons; [set_solver|auto].
    + rewrite E in *. intros [->|Hw]%elem_of_cons.
      * rewrite not_elem_of_cons. split; [done|]. apply IH. left.
      * apply IH. by right.
Qed.

Lemma Split_elem s sep w c : w ∈ Split s sep -> c ∈ w -> c ∈ s.
Proof.
  revert w; induction s as [|d s IH]; simpl; intros w.
  - intros ->%list_elem_of_singleton. done.
  - destruct (Split_nonempty s sep) as (w0 & ws & E).
    case_byte d sep.
    + intros [->|Hw]%elem_of_cons Hc; [by apply not_elem_of_nil in Hc|right; eauto].
    + rewrite E in *. intros [->|Hw]%elem_of_cons Hc.
      * apply elem_of_cons in Hc as [->|Hc]; [left|right; eapply IH; [left|done]].
      * right. eapply IH; [right|]; eauto.
Qed.

Lemma Split_none s sep : sep ∉ s -> Split s sep = [s].
Proof.
  induction s as [|c s IH]; simpl; [done|].
  rewrite not_elem_of_cons. intros [Hc Hs].
  rewrite (proj2 (byte_eqb_false c sep)) by done. by rewrite IH.
Qed.

Lemma Split_app s r sep : sep ∉ s -> Split (s ++ sep :: r) sep = s :: Split r sep.
Proof.
  induction s as [|c s IH]; simpl; intros Hn.
  - by rewrite byte_eqb_refl.
  - apply not_elem_of_cons in Hn as [? ?].
    rewrite (proj2 (byte_eqb_false c sep)) by done. by rewrite IH.
Qed.

Lemma Split_Join ws sep :
  ws <> [] -> Forall (fun w => sep ∉ w) ws -> Split (Join ws [sep]) sep = ws.
Proof.
  intros Hne Hall. induction Hall as [|w ws Hw Hall IH]; [done|].
  destruct (decide (ws = [])) as [->|Hws]; [by apply Split_none|].
  rewrite Join_cons by done. simpl. rewrite Split_app by done. by rewrite IH.
Qed.

(** *** Numbers *)

Lemma digit_char_val d : (0 <= d <= 9)%Z -> Z_of_byte (digit_char d) = (d + 48)%Z.
Proof. intros. unfold digit_char. rewrite Z_of_byte_of_Z. apply Z.mod_small. lia. Qed.

Lemma digit_char_is_digit d : (0 <= d <= 9)%Z -> is_digit (digit_char d) = true.
Proof.
  intros H. unfold is_digit, in_range. rewrite (digit_char_val d H).
  apply andb_true_iff; split; apply Z.leb_le; vm_compute (Z_of_byte _); lia.
Qed.

Lemma digit_val_char d : (0 <= d <= 9)%Z -> digit_val (digit_char d) = d.
Proof. intros H. unfold digit_val. rewrite (digit_char_val d H). lia. Qed.

Lemma is_digit_val c : is_digit c = true -> (0 <= digit_val c <= 9)%Z.
Proof.
  unfold is_digit, in_range, digit_val. intros H. reflect_bools.
  change (Z_of_byte "0") with 48%Z in *. change (Z_of_byte "9") with 57%Z in *. lia.
Qed.

(** A digit string [ds] denotes [n]: reading it after any prefix shifts the
    prefix by its length and adds [n]. *)
Definition denotes (ds : gostring) (n : Z) : Prop :=
  ds <> [] /\ Forall (fun c => is_digit c = true) ds /\
  forall a rest, parse_digits a (ds ++ rest) =
                 parse_digits (a * 10 ^ Z.of_nat (length ds) + n) rest.

Lemma denotes_digit d : (0 <= d <= 9)%Z -> denotes [digit_char d] d.
Proof.
  intros H. split; [done|]. split; [by repeat constructor; apply digit_char_is_digit|].
  intros a rest. simpl. rewrite digit_char_is_digit, digit_val_char by done. f_equal; lia.
Qed.

Lemma denotes_snoc ds n d :
  denotes ds n -> (0 <= d <= 9)%Z -> denotes (ds ++ [digit_char d]) (n * 10 + d).
Proof.
  intros (Hne & Hall & Hp) Hd. destruct (denotes_digit d Hd) as (_ & Hd1 & Hd2).
  split; [by destruct ds|]. split; [by apply Forall_app|].
  intros a rest. rewrite <- app_assoc, Hp, Hd2, length_app. simpl.
  f_equal. rewrite Nat2Z.inj_add, Z.pow_add_r by lia. simpl Z.of_nat. lia.
Qed.

Lemma dec_digits_denotes fuel n acc :
  (0 <= n < 10 ^ Z.of_nat (S fuel))%Z ->
  exists ds, dec_digits (S fuel) n acc = ds ++ acc /\ denotes ds n.
Proof.
  revert n acc; induction fuel as [|fuel IH]; intros n acc Hn; cbn [dec_digits].
  - change (10 ^ Z.of_nat 1)%Z with 10%Z in Hn.
    rewrite (proj2 (Z.ltb_lt n 10)) by lia. rewrite Z.mod_small by lia.
    exists [digit_char n]. split; [done|]. apply denotes_digit. lia.
  - pose proof (Z.mod_pos_bound n 10 ltac:(lia)). pose proof (Z.div_mod n 10 ltac:(lia)).
    destruct (Z.ltb_spec n 10) as [Hlt|Hge].
    + rewrite Z.mod_small by lia. exists [digit_char n]. split; [done|].
      apply denotes_digit. lia.
    + destruct (IH (n `div` 10) (digit_char (n `mod` 10) :: acc))%Z as (ds & Hds & Hden).
      { rewrite (Nat2Z.inj_succ (S fuel)), Z.pow_succ_r in Hn by lia. lia. }
      exists (ds ++ [digit_char (n `mod` 10)]). split.
      * cbn [dec_digits] in Hds. rewrite Hds. by rewrite <- app_assoc.
      * replace n with (n `div` 10 * 10 + n `mod` 10)%Z at 2 by lia.
        apply denotes_snoc; [done|lia].
Qed.

Lemma Itoa_denotes n : (0 <= n <= max_int)%Z -> denotes (Itoa n) n.
Proof.
  intros Hn. unfold Itoa. rewrite (proj2 (Z.ltb_ge n 0)) by lia.
  destruct (dec_digits_denotes 19 n []) as (ds & -> & Hds).
  { unfold max_int in Hn. change (10 ^ Z.of_nat 20)%Z with 100000000000000000000%Z. lia. }
  by rewrite app_nil_r.
Qed.

Lemma parse_uint_denotes ds n : denotes ds n -> parse_uint ds = Some n.
Proof.
  intros (Hne & _ & Hp). specialize (Hp 0%Z []). rewrite app_nil_r in Hp. simpl in Hp.
  by destruct ds.
Qed.

Lemma Atoi_digits ds :
  Forall (fun c => is_digit c = true) ds ->
  Atoi ds = parse_uint ds ≫= fun z =>
    if ((min_int <=? z) && (z <=? max_int))%Z then Some z else None.
Proof.
  intros Hall. unfold Atoi. destruct ds as [|c ds]; [done|].
  inversion_clear Hall as [|? ? Hc _].
  by destruct c as [[] [] [] [] [] [] [] []]; vm_compute in Hc.
Qed.

Lemma Atoi_Itoa n : (0 <= n <= max_int)%Z -> Atoi (Itoa n) = Some n.
Proof.
  intros Hn. pose proof (Itoa_denotes n Hn) as Hd.
  rewrite Atoi_digits by apply Hd. rewrite (parse_uint_denotes _ _ Hd). simpl.
  unfold min_int. by rewrite (proj2 (Z.leb_le (- 2 ^ 63) n)), (proj2 (Z.leb_le n max_int)) by lia.
Qed.

(** Negative numbers too, but for the least one. *)
Lemma Atoi_Itoa_signed n : (- max_int <= n <= max_int)%Z -> Atoi (Itoa n) = Some n.
Proof.
  intros Hn. destruct (Z.ltb_spec n 0) as [Hneg|Hpos]; [|apply Atoi_Itoa; lia].
  assert (E : Itoa n = "-"%char :: Itoa (- n)).
  { unfold Itoa. rewrite (proj2 (Z.ltb_lt n 0)) by lia. by rewrite (proj2 (Z.ltb_ge (- n) 0)) by lia. }
  rewrite E. unfold Atoi. rewrite (parse_uint_denotes _ _ (Itoa_denotes (- n) ltac:(lia))). cbn [mbind option_bind].
  rewrite Z.opp_involutive. unfold min_int, max_int in *.
  by rewrite (proj2 (Z.leb_le (- 2 ^ 63) n)), (proj2 (Z.leb_le n (2 ^ 63 - 1))) by lia.
Qed.

Lemma Itoa_digits n : (0 <= n <= max_int)%Z -> Forall (fun c => is_digit c = true) (Itoa n).
Proof. intros Hn. by apply Itoa_denotes. Qed.

Lemma Atoi_range s z : Atoi s = Some z -> (min_int <= z <= max_int)%Z.
Proof.
  unfold Atoi. intros H.
  assert (Hin : forall x, (if ((min_int <=? x) && (x <=? max_int))%Z then Some x else None) = Some z ->
                (min_int <= z <= max_int)%Z).
  { intros x Hx. destruct (_ && _) eqn:E; simplify_eq. reflect_bools. lia. }
  repeat match type of H with
  | context [match ?x with _ => _ end] => is_var x; destruct x
  end; apply bind_Some in H as (? & _ & H); eauto.
Qed.

(** *** Case mapping *)

Lemma lower_byte_idem c : lower_byte (lower_byte c) = lower_byte c.
Proof. by destruct c as [[] [] [] [] [] [] [] []]. Qed.

Lemma lower_byte_ascii c : is_ascii (lower_byte c) = is_ascii c.
Proof. by destruct c as [[] [] [] [] [] [] [] []]. Qed.

Lemma lower_bytes_ascii s : all_ascii (lower_byte <$> s) = all_ascii s.
Proof.
  unfold all_ascii. induction s as [|c s IH]; csimpl; [done|]. by rewrite lower_byte_ascii, IH.
Qed.

Lemma ToLower_ascii `{UnicodeTables} s : all_ascii s = true -> ToLower s = lower_byte <$> s.
Proof. unfold ToLower. by intros ->. Qed.

Lemma ToLower_idem `{UnicodeTables} s :
  all_ascii s = true -> ToLower (ToLower s) = ToLower s.
Proof.
  intros Hs. rewrite (ToLower_ascii s Hs).
  rewrite ToLower_ascii by (rewrite lower_bytes_ascii; done).
  rewrite <- list_fmap_compose. apply list_fmap_ext. intros ? c _. apply lower_byte_idem.
Qed.
