(* ===== verification/GoNet.v ===== *)
(** * The parts of Go's [net] and [net/netip] packages the proxy uses

    Host and port strings, textual IP addresses and CIDR networks, following
    the Go release named in go.mod.  A [net.IP] is a byte list of length 4 or
    16; the nil slice is the empty list.  The main results are that an address
    survives printing and parsing ([ParseIP_String]), that a host and port
    survive joining and splitting ([SplitHostPort_JoinHostPort]), and that
    [IPNet_Contains] is the masked comparison of same-family addresses. *)

From stdpp Require Import base decidable numbers list gmap strings.
From Stdlib Require Import ZArith Lia Ascii.
From S2P Require Import Prelude GoStrings.

(** ** Host and port strings *)

(** The text before and after the last [c]. *)
Definition CutLast (s : gostring) (c : byte) : option (gostring * gostring) :=
  match IndexByte (reverse s) c with
  | None => None
  | Some i => Some (take (length s - S i) s, drop (length s - i) s)
  end.

Definition AddrError (why : gostring) : error := ErrNet false why.

Definition SplitHostPort (hostport : gostring) : result (gostring * gostring) :=
  match CutLast hostport ":" with
  | None => Err (AddrError (go "missing port in address"))
  | Some (before, port) =>
      if HasPrefix hostport (go "[") then
        match IndexByte hostport "]" with
        | None => Err (AddrError (go "missing ']' in address"))
        | Some e =>
            if bool_decide (S e = length hostport) then
              Err (AddrError (go "missing port in address"))
            else if negb (bool_decide (S e = length before)) then
              if bool_decide (hostport !! S e = Some ":"%char)
              then Err (AddrError (go "too many colons in address"))
              else Err (AddrError (go "missing port in address"))
            else if ContainsByte (drop 1 hostport) "[" then
              Err (AddrError (go "unexpected '[' in address"))
            else if ContainsByte (drop (S e) hostport) "]" then
              Err (AddrError (go "unexpected ']' in address"))
            else Ok (drop 1 (take e hostport), port)
        end
      else if ContainsByte before ":" then
        Err (AddrError (go "too many colons in address"))
      else if ContainsByte hostport "[" then
        Err (AddrError (go "unexpected '[' in address"))
      else if ContainsByte hostport "]" then
        Err (AddrError (go "unexpected ']' in address"))
      else Ok (before, port)
  end.

Definition JoinHostPort (host port : gostring) : gostring :=
  if ContainsByte host ":" then go "[" ++ host ++ go "]:" ++ port
  else host ++ go ":" ++ port.

(** ** IP addresses *)

Abbreviation IP := (list ascii) (only parsing).

Definition zero_byte : byte := byte_of_Z 0.
Definition ff_byte : byte := byte_of_Z 255.

Definition v4InV6Prefix : IP := replicate 10 zero_byte ++ [ff_byte; ff_byte].

(** [None] is Go's nil slice. *)
Definition To4 (ip : IP) : option IP :=
  if bool_decide (length ip = 4) then Some ip
  else if bool_decide (length ip = 16) && bool_decide (take 12 ip = v4InV6Prefix)
  then Some (drop 12 ip)
  else None.

Definition To16 (ip : IP) : option IP :=
  if bool_decide (length ip = 4) then Some (v4InV6Prefix ++ ip)
  else if bool_decide (length ip = 16) then Some ip
  else None.

Definition is_v4 (ip : IP) : bool := match To4 ip with Some _ => true | None => false end.

(** *** Parsing *)

(** parseIPv4Fields: [first] is [i == 0], [dot] is [s[i-1] == '.'], [fields]
    the octets already stored. *)
Fixpoint parse_v4 (s : gostring) (first dot : bool) (val : Z) (digLen : nat)
    (fields : list Z) : option (list Z) :=
  match s with
  | [] => if bool_decide (length fields < 3) then None else Some (fields ++ [val])
  | c :: s' =>
      if is_digit c then
        if bool_decide (digLen = 1) && (val =? 0)%Z then None
        else
          let val' := (val * 10 + digit_val c)%Z in
          if (val' >? 255)%Z then None
          else parse_v4 s' false false val' (S digLen) fields
      else if byte_eqb c "." then
        if first || bool_decide (s' = []) || dot then None
        else if bool_decide (length fields = 3) then None
        else parse_v4 s' false true 0 0 (fields ++ [val])
      else None
  end.

Definition parseIPv4Fields (s : gostring) : option IP :=
  (fun l : list Z => byte_of_Z <$> l) <$> parse_v4 s true false 0 0 [].

Definition hex_val (c : byte) : option Z :=
  if is_digit c then Some (digit_val c)
  else if in_range "a" "f" c then Some (Z_of_byte c - 87)%Z
  else if in_range "A" "F" c then Some (Z_of_byte c - 55)%Z
  else None.

(** The hex number at the front of [s]: its value, its number of digits and
    the rest; [None] when it has more than four digits. *)
Fixpoint hex_number (acc : Z) (off : nat) (s : gostring) : option (Z * nat * gostring) :=
  match s with
  | [] => Some (acc, off, [])
  | c :: s' =>
      match hex_val c with
      | None => Some (acc, off, s)
      | Some v => if bool_decide (3 < off) then None else hex_number (acc * 16 + v) (S off) s'
      end
  end.

Definition group_bytes (g : Z) : IP := [byte_of_Z (g `div` 256); byte_of_Z g].

(** The loop of parseIPv6 over the 16-bit groups: [ip] holds the bytes stored
    so far, [ell] the position of the ellipsis.  Sixteen bytes are eight
    rounds, so the fuel is eight. *)
Fixpoint parse_v6 (fuel : nat) (ip : IP) (ell : option nat) (s : gostring)
    : option (IP * option nat * gostring) :=
  match fuel with
  | O => Some (ip, ell, s)
  | S fuel' =>
      match hex_number 0 0 s with
      | None => None
      | Some (acc, off, r) =>
          if bool_decide (off = 0) then None else
          match r with
          | "."%char :: _ =>
              if bool_decide (ell = None) && negb (bool_decide (length ip = 12)) then None
              else if bool_decide (16 < length ip + 4) then None
              else match parseIPv4Fields s with
                   | None => None
                   | Some f => Some (ip ++ f, ell, [])
                   end
          | [] => Some (ip ++ group_bytes acc, ell, [])
          | ":"%char :: [] => None
          | ":"%char :: ":"%char :: s2 =>
              let ip' := ip ++ group_bytes acc in
              match ell with
              | Some _ => None
              | None =>
                  if bool_decide (s2 = []) then Some (ip', Some (length ip'), [])
                  else parse_v6 fuel' ip' (Some (length ip')) s2
              end
          | ":"%char :: s1 => parse_v6 fuel' (ip ++ group_bytes acc) ell s1
          | _ => None
          end
      end
  end.

(** The checks after the loop and the expansion of the ellipsis. *)
Definition finish_v6 (r : option (IP * option nat * gostring)) : option IP :=
  match r with
  | None => None
  | Some (ip, ell, s) =>
      if negb (bool_decide (s = [])) then None
      else if bool_decide (length ip < 16) then
        match ell with
        | None => None
        | Some e => Some (take e ip ++ replicate (16 - length ip) zero_byte ++ drop e ip)
        end
      else match ell with Some _ => None | None => Some ip end
  end.

(** [(address, zone)]. *)
Definition parseIPv6 (inp : gostring) : option (IP * gostring) :=
  let '(s, zone, bad) :=
    match IndexByte inp "%" with
    | None => (inp, [], false)
    | Some i => (take i inp, drop (S i) inp, bool_decide (drop (S i) inp = []))
    end in
  if bad then None else
  let r :=
    match CutPrefix (go "::") s with
    | Some [] => Some (replicate 16 zero_byte)
    | Some s' => finish_v6 (parse_v6 8 [] (Some 0) s')
    | None => finish_v6 (parse_v6 8 [] None s)
    end in
  (fun ip => (ip, zone)) <$> r.

(** netip.Addr: the family, the bytes and the zone. *)
Record Addr := MkAddr { addr_is4 : bool; addr_bytes : IP; addr_zone : gostring }.

Fixpoint first_special (s : gostring) : option byte :=
  match s with
  | [] => None
  | c :: s' =>
      if byte_eqb c "." || byte_eqb c ":" || byte_eqb c "%" then Some c else first_special s'
  end.

Definition ParseAddr (s : gostring) : option Addr :=
  match first_special s with
  | Some c =>
      if byte_eqb c "." then (fun ip => MkAddr true ip []) <$> parseIPv4Fields s
      else if byte_eqb c ":" then (fun '(ip, z) => MkAddr false ip z) <$> parseIPv6 s
      else None
  | None => None
  end.

Definition As16 (a : Addr) : IP :=
  if addr_is4 a then v4InV6Prefix ++ addr_bytes a else addr_bytes a.

(** [None] is nil: the text is not an address, or it has a zone. *)
Definition ParseIP (s : gostring) : option IP :=
  match ParseAddr s with
  | None => None
  | Some a => if bool_decide (addr_zone a = []) then Some (As16 a) else None
  end.

(** *** Printing *)

Definition hex_char (d : Z) : byte :=
  if (d <? 10)%Z then byte_of_Z (d + 48) else byte_of_Z (d + 87).

(** appendHex: no leading zeros. *)
Definition hex_group (g : Z) : gostring :=
  (if (4096 <=? g)%Z then [hex_char (g `div` 4096)] else []) ++
  (if (256 <=? g)%Z then [hex_char ((g `div` 256) `mod` 16)] else []) ++
  (if (16 <=? g)%Z then [hex_char ((g `div` 16) `mod` 16)] else []) ++
  [hex_char (g `mod` 16)].

Fixpoint groups (ip : IP) : list Z :=
  match ip with
  | hi :: lo :: ip' => (Z_of_byte hi * 256 + Z_of_byte lo)%Z :: groups ip'
  | _ => []
  end.

Fixpoint zero_run (gs : list Z) : nat :=
  match gs with
  | g :: gs' => if (g =? 0)%Z then S (zero_run gs') else 0
  | [] => 0
  end.

(** The first longest run of at least two zero groups, as start and length;
    length 0 when there is none. *)
Fixpoint best_run (i : nat) (gs : list Z) (best : nat * nat) : nat * nat :=
  match gs with
  | [] => best
  | _ :: gs' =>
      let l := zero_run gs in
      best_run (S i) gs' (if bool_decide (2 <= l) && bool_decide (best.2 < l) then (i, l) else best)
  end.

Definition join_groups (gs : list Z) : gostring := Join (hex_group <$> gs) (go ":").

Definition string6 (ip : IP) : gostring :=
  let gs := groups ip in
  let '(start, len) := best_run 0 gs (0, 0) in
  if bool_decide (len = 0) then join_groups gs
  else join_groups (take start gs) ++ go "::" ++ join_groups (drop (start + len) gs).

Definition string4 (ip : IP) : gostring := Join ((fun c => Itoa (Z_of_byte c)) <$> ip) (go ".").

Fixpoint hexString (ip : IP) : gostring :=
  match ip with
  | [] => []
  | c :: ip' => hex_char (Z_of_byte c `div` 16) :: hex_char (Z_of_byte c `mod` 16) :: hexString ip'
  end.

Definition IP_String (ip : IP) : gostring :=
  match ip with
  | [] => go "<nil>"
  | _ =>
      if bool_decide (length ip = 4) || bool_decide (length ip = 16) then
        match To4 ip with Some p4 => string4 p4 | None => string6 ip end
      else go "?" ++ hexString ip
  end.

(** ** CIDR networks *)

Record IPNet := MkIPNet { net_ip : IP; net_mask : IP }.

Definition and_byte (a b : byte) : byte := byte_of_Z (Z.land (Z_of_byte a) (Z_of_byte b)).

(** CIDRMask(ones, 8 * n) as bytes. *)
Fixpoint CIDRMask (ones : nat) (nbytes : nat) : IP :=
  match nbytes with
  | O => []
  | S n =>
      if bool_decide (8 <= ones) then ff_byte :: CIDRMask (ones - 8) n
      else byte_of_Z (255 - (2 ^ (8 - Z.of_nat ones) - 1)) :: CIDRMask 0 n
  end.

(** IP.Mask on a 16-byte address with a 4- or 16-byte mask. *)
Definition IP_Mask (ip mask : IP) : option IP :=
  let ip' := if bool_decide (length mask = 4) && bool_decide (length ip = 16) &&
                bool_decide (take 12 ip = v4InV6Prefix) then drop 12 ip else ip in
  if bool_decide (length ip' = length mask) then Some (zip_with and_byte ip' mask) else None.

(** dtoi followed by the check that the whole text was read. *)
Fixpoint dtoi_all (n : Z) (s : gostring) : option Z :=
  match s with
  | [] => Some n
  | c :: s' =>
      if is_digit c then
        let n' := (n * 10 + digit_val c)%Z in
        if (n' >=? 16777215)%Z then None else dtoi_all n' s'
      else None
  end.

Definition BitLen (a : Addr) : Z := if addr_is4 a then 32 else 128.

(** [None] is the parse error. *)
Definition ParseCIDR (s : gostring) : option IPNet :=
  match IndexByte s "/" with
  | None => None
  | Some i =>
      let mask := drop (S i) s in
      match ParseAddr (take i s) with
      | None => None
      | Some a =>
          if negb (bool_decide (addr_zone a = [])) then None else
          match (if bool_decide (mask = []) then None else dtoi_all 0 mask) with
          | None => None
          | Some n =>
              if ((n <? 0) || (n >? BitLen a))%Z then None else
              let m := CIDRMask (Z.to_nat n) (if addr_is4 a then 4 else 16) in
              (fun ip => MkIPNet ip m) <$> IP_Mask (As16 a) m
          end
      end
  end.

Definition networkNumberAndMask (n : IPNet) : option (IP * IP) :=
  let ip := match To4 (net_ip n) with Some p => Some p
            | None => if bool_decide (length (net_ip n) = 16) then Some (net_ip n) else None end in
  match ip with
  | None => None
  | Some ip =>
      let m := net_mask n in
      if bool_decide (length m = 4) then
        if bool_decide (length ip = 4) then Some (ip, m) else None
      else if bool_decide (length m = 16) then
        Some (ip, if bool_decide (length ip = 4) then drop 12 m else m)
      else None
  end.

Fixpoint masked_eq (nn m ip : IP) : bool :=
  match nn, m, ip with
  | a :: nn', k :: m', b :: ip' =>
      bool_decide (and_byte a k = and_byte b k) && masked_eq nn' m' ip'
  | _, _, _ => true
  end.

(** [(nil, nil)] has length 0, so only the nil address is in such a net. *)
Definition IPNet_Contains (n : IPNet) (ip : IP) : bool :=
  let '(nn, m) := match networkNumberAndMask n with Some p => p | None => ([], []) end in
  let ip := match To4 ip with Some x => x | None => ip end in
  if bool_decide (length ip = length nn) then masked_eq nn m ip else false.

Example parse_v4_ex : ParseIP (go "192.168.0.1") =
  Some (v4InV6Prefix ++ z_bytes [192; 168; 0; 1]%Z).
Proof. vm_compute. reflexivity. Qed.

Example parse_v6_ex : option_map IP_String (ParseIP (go "2001:DB8:0:0:1::00f")) = Some (go "2001:db8::1:0:0:f").
Proof. vm_compute. reflexivity. Qed.

Example parse_bad_ex : ParseIP (go "1.2.3.04") = None /\ ParseIP (go "fe80::1%eth0") = None /\
  ParseIP (go "1::2::3") = None /\ ParseIP (go "::ffff:1.2.3.4") = ParseIP (go "1.2.3.4").
Proof. vm_compute. repeat split. Qed.

Example contains_ex : (fun n => IPNet_Contains n (z_bytes [172; 31; 0; 9]%Z)) <$> ParseCIDR (go "172.16.0.0/12") = Some true.
Proof. vm_compute. reflexivity. Qed.

Example split_ex : SplitHostPort (go "[::1]:80") = Ok (go "::1", go "80") /\
  SplitHostPort (go "a.b:443") = Ok (go "a.b", go "443").
Proof. vm_compute. repeat split. Qed.

(** ** Joining and splitting *)

Lemma CutLast_app a p c : c ∉ p -> CutLast (a ++ c :: p) c = Some (a, p).
Proof.
  intros Hn. unfold CutLast. rewrite reverse_app, reverse_cons, <- app_assoc. simpl.
  rewrite IndexByte_app by by rewrite elem_of_reverse.
  rewrite length_reverse, length_app. simpl. do 2 f_equal.
  - rewrite take_app_le by lia. apply take_ge. lia.
  - rewrite drop_app_ge by lia.
    by replace (length a + S (length p) - length p - length a) with 1 by lia.
Qed.

Lemma SplitHostPort_JoinHostPort h p :
  "["%char ∉ h -> "]"%char ∉ h -> ":"%char ∉ p -> "["%char ∉ p -> "]"%char ∉ p ->
  SplitHostPort (JoinHostPort h p) = Ok (h, p).
Proof.
  intros Hh1 Hh2 Hp Hp1 Hp2. unfold JoinHostPort.
  destruct (ContainsByte h ":") eqn:Ec.
  - change (go "[" ++ h ++ go "]:" ++ p) with ("["%char :: h ++ "]"%char :: ":"%char :: p).
    set (s := "["%char :: h ++ "]"%char :: ":"%char :: p).
    assert (Hlast : CutLast s ":" = Some ("["%char :: h ++ ["]"%char], p)).
    { subst s. replace ("["%char :: h ++ "]"%char :: ":"%char :: p)
        with (("["%char :: h ++ ["]"%char]) ++ ":"%char :: p)
        by by simpl; rewrite <- app_assoc.
      by apply CutLast_app. }
    assert (Hend : IndexByte s "]" = Some (S (length h))).
    { subst s. change (IndexByte (("["%char :: h) ++ "]"%char :: ":"%char :: p) "]" = Some (S (length h))).
      apply (IndexByte_app ("["%char :: h) "]" (":"%char :: p)). set_solver. }
    unfold SplitHostPort. rewrite Hlast, Hend.
    replace (HasPrefix s (go "[")) with true by done.
    rewrite bool_decide_false by (subst s; simpl; rewrite length_app; simpl; lia).
    rewrite bool_decide_true by (simpl; rewrite length_app; simpl; lia). simpl negb.
    replace (ContainsByte (drop 1 s) "[") with false
      by (symmetry; apply ContainsByte_false; subst s; simpl; set_solver).
    replace (drop (S (S (length h))) s) with (":"%char :: p)
      by (subst s; simpl; rewrite drop_app_ge by lia; by replace (S (length h) - length h) with 1 by lia).
    replace (ContainsByte (":"%char :: p) "]") with false
      by (symmetry; apply ContainsByte_false; set_solver).
    subst s. simpl. rewrite take_app_le by lia. by rewrite take_ge by lia.
  - apply ContainsByte_false in Ec. change (h ++ go ":" ++ p) with (h ++ ":"%char :: p).
    unfold SplitHostPort. rewrite CutLast_app by done.
    replace (HasPrefix (h ++ ":"%char :: p) (go "[")) with false; cycle 1.
    { symmetry. apply not_true_is_false. rewrite HasPrefix_true. intros [r Hr].
      destruct h as [|c h]; simplify_eq/=. set_solver. }
    rewrite !(proj2 (ContainsByte_false _ _)); [done| | |done]; set_solver.
Qed.

(** ** Addresses survive printing and parsing *)

Lemma parse_v4_octet c s first dot fields :
  parse_v4 (Itoa (Z_of_byte c) ++ s) first dot 0 0 fields =
  parse_v4 s false false (Z_of_byte c) (length (Itoa (Z_of_byte c))) fields.
Proof.
  destruct c as [[] [] [] [] [] [] [] []]; reflexivity.
Qed.

Lemma parse_v4_string4 a b c d :
  parseIPv4Fields (string4 [a; b; c; d]) = Some [a; b; c; d].
Proof.
  unfold parseIPv4Fields.
  assert (Hne : forall c s, Itoa (Z_of_byte c) ++ s <> []).
  { intros [[] [] [] [] [] [] [] []] s; discriminate. }
  assert (Hdot : forall s val dl fields, s <> [] -> length fields < 3 ->
    parse_v4 ("."%char :: s) false false val dl fields =
    parse_v4 s false true 0 0 (fields ++ [val])).
  { intros s val dl fields Hs Hl. cbn [parse_v4].
    replace (is_digit ".") with false by reflexivity. rewrite byte_eqb_refl. simpl orb.
    rewrite bool_decide_false by done. simpl orb. rewrite bool_decide_false by lia. done. }
  unfold string4. change (go ".") with ["."%char]. csimpl.
  rewrite parse_v4_octet by done. rewrite Hdot by (done || simpl; lia).
  rewrite parse_v4_octet by done. rewrite Hdot by (done || simpl; lia).
  rewrite parse_v4_octet by done.
  rewrite Hdot;
    [|rewrite <- (app_nil_r (Itoa (Z_of_byte d))); apply Hne|simpl; lia].
  rewrite <- (app_nil_r (Itoa (Z_of_byte d))), parse_v4_octet by done.
  cbn [parse_v4 length app]. rewrite bool_decide_false by lia.
  csimpl. by rewrite !byte_of_Z_of_byte.
Qed.

Lemma hex_val_char d : (0 <= d < 16)%Z -> hex_val (hex_char d) = Some d.
Proof.
  intros H. rewrite <- (Z2Nat.id d) by lia.
  assert (Hn : Z.to_nat d < 16) by lia. revert Hn. generalize (Z.to_nat d). intros n Hn.
  do 16 (destruct n as [|n]; [reflexivity|]). lia.
Qed.

Lemma hex_number_cons d acc off s :
  (0 <= d < 16)%Z -> off <= 3 ->
  hex_number acc off (hex_char d :: s) = hex_number (acc * 16 + d) (S off) s.
Proof.
  intros Hd Ho. cbn [hex_number]. rewrite hex_val_char by done.
  by rewrite bool_decide_false by lia.
Qed.

Definition not_hex_start (s : gostring) : Prop :=
  match s with [] => True | c :: _ => hex_val c = None end.

Lemma hex_number_stop acc off s : not_hex_start s -> hex_number acc off s = Some (acc, off, s).
Proof. destruct s as [|c s]; simpl; [done|]. by intros ->. Qed.

(** Splits a 16-bit value into its four hexadecimal digits. *)
Lemma nibbles g :
  (0 <= g < 65536)%Z ->
  exists a b c d, (0 <= a < 16 /\ 0 <= b < 16 /\ 0 <= c < 16 /\ 0 <= d < 16)%Z /\
    g = (((a * 16 + b) * 16 + c) * 16 + d)%Z /\
    (g `div` 4096 = a /\ (g `div` 256) `mod` 16 = b /\
     (g `div` 16) `mod` 16 = c /\ g `mod` 16 = d)%Z.
Proof.
  intros Hg.
  exists (g `div` 4096)%Z, ((g `div` 256) `mod` 16)%Z, ((g `div` 16) `mod` 16)%Z, (g `mod` 16)%Z.
  pose proof (Z.div_mod g 16 ltac:(lia)). pose proof (Z.div_mod (g `div` 16) 16 ltac:(lia)).
  pose proof (Z.div_mod (g `div` 256) 16 ltac:(lia)).
  pose proof (Z.mod_pos_bound g 16 ltac:(lia)). pose proof (Z.mod_pos_bound (g `div` 16) 16 ltac:(lia)).
  pose proof (Z.mod_pos_bound (g `div` 256) 16 ltac:(lia)).
  assert (g `div` 256 = (g `div` 16) `div` 16)%Z by (rewrite Z.div_div by lia; done).
  assert (g `div` 4096 = (g `div` 256) `div` 16)%Z by (rewrite Z.div_div by lia; done).
  repeat split; lia.
Qed.

Lemma hex_number_group g s :
  (0 <= g < 65536)%Z -> not_hex_start s ->
  exists off, 0 < off /\ hex_number 0 0 (hex_group g ++ s) = Some (g, off, s).
Proof.
  intros Hg Hs. destruct (nibbles g Hg) as (a & b & c & d & Hr & Heq & Ha & Hb & Hc & Hd).
  unfold hex_group. rewrite Ha, Hb, Hc, Hd.
  destruct (Z.leb_spec 4096 g), (Z.leb_spec 256 g), (Z.leb_spec 16 g); try lia;
    simpl app; rewrite !hex_number_cons by lia; rewrite hex_number_stop by done;
    eexists; (split; [|repeat f_equal; lia]); lia.
Qed.

Lemma group_bytes_groups hi lo : group_bytes (Z_of_byte hi * 256 + Z_of_byte lo) = [hi; lo].
Proof.
  unfold group_bytes. pose proof (Z_of_byte_range hi). pose proof (Z_of_byte_range lo).
  rewrite Z.div_add_l, Z.div_small, Z.add_0_r, byte_of_Z_of_byte by lia.
  do 2 f_equal. apply Z_of_byte_inj. rewrite Z_of_byte_of_Z.
  rewrite Z.add_comm, Z.mod_add by lia. by apply Z.mod_small.
Qed.

Definition groups_bytes (gs : list Z) : IP := gs ≫= group_bytes.

Lemma groups_bytes_length gs : length (groups_bytes gs) = 2 * length gs.
Proof. unfold groups_bytes. induction gs as [|g gs IH]; csimpl; [done|]. rewrite IH. lia. Qed.

Definition u16 (g : Z) : Prop := (0 <= g < 65536)%Z.

Definition hex_start (s : gostring) : Prop :=
  match s with [] => False | c :: _ => is_Some (hex_val c) end.

Lemma hex_char_hex d : (0 <= d < 16)%Z -> is_Some (hex_val (hex_char d)).
Proof. intros. rewrite hex_val_char by done. eauto. Qed.

Lemma hex_group_chars g : u16 g -> hex_group g <> [] /\ Forall (fun c => is_Some (hex_val c)) (hex_group g).
Proof.
  intros Hg. destruct (nibbles g Hg) as (a & b & c & d & Hr & Heq & Ha & Hb & Hc & Hd).
  unfold hex_group. rewrite Ha, Hb, Hc, Hd. split.
  - repeat (destruct (_ <=? _)%Z); done.
  - repeat (destruct (_ <=? _)%Z); simpl; repeat constructor; apply hex_char_hex; lia.
Qed.

Lemma hex_start_group g s : u16 g -> hex_start (hex_group g ++ s).
Proof.
  intros Hg. destruct (hex_group_chars g Hg) as [Hne Hall].
  destruct (hex_group g) as [|c l]; [done|]. by inversion Hall.
Qed.

Lemma parse_v6_end fuel ip ell g :
  u16 g -> parse_v6 (S fuel) ip ell (hex_group g) = Some (ip ++ group_bytes g, ell, []).
Proof.
  intros Hg. destruct (hex_number_group g [] Hg I) as (off & Hoff & Hn). rewrite app_nil_r in Hn.
  cbn [parse_v6]. by rewrite Hn, bool_decide_false by lia.
Qed.

Lemma parse_v6_colon fuel ip ell g s :
  u16 g -> hex_start s ->
  parse_v6 (S fuel) ip ell (hex_group g ++ ":"%char :: s) = parse_v6 fuel (ip ++ group_bytes g) ell s.
Proof.
  intros Hg Hs. destruct (hex_number_group g (":"%char :: s) Hg eq_refl) as (off & Hoff & Hn).
  cbn [parse_v6]. rewrite Hn, bool_decide_false by lia.
  destruct s as [|c s]; [done|]. simpl in Hs.
  destruct c as [[] [] [] [] [] [] [] []]; try reflexivity. by destruct Hs.
Qed.

Lemma parse_v6_ellipsis fuel ip g s :
  u16 g ->
  parse_v6 (S fuel) ip None (hex_group g ++ ":"%char :: ":"%char :: s) =
  let ip' := ip ++ group_bytes g in
  if bool_decide (s = []) then Some (ip', Some (length ip'), [])
  else parse_v6 fuel ip' (Some (length ip')) s.
Proof.
  intros Hg. destruct (hex_number_group g (":"%char :: ":"%char :: s) Hg eq_refl) as (off & Hoff & Hn).
  cbn [parse_v6]. by rewrite Hn, bool_decide_false by lia.
Qed.

Lemma join_groups_one g : join_groups [g] = hex_group g.
Proof. done. Qed.

Lemma join_groups_cons g gs : gs <> [] -> join_groups (g :: gs) = hex_group g ++ ":"%char :: join_groups gs.
Proof. intros H. unfold join_groups. rewrite fmap_cons, Join_cons by by destruct gs. done. Qed.

Lemma hex_start_join gs s : Forall u16 gs -> gs <> [] -> hex_start (join_groups gs ++ s).
Proof.
  intros Hall Hne. destruct Hall as [|g gs Hg Hall]; [done|].
  destruct (decide (gs = [])) as [->|Hgs].
  - by apply hex_start_group.
  - rewrite join_groups_cons, <- app_assoc by done. by apply hex_start_group.
Qed.

Lemma groups_bytes_cons g gs : groups_bytes (g :: gs) = group_bytes g ++ groups_bytes gs.
Proof. done. Qed.

(** Groups up to the end of the text: one round each. *)
Lemma parse_v6_groups gs fuel ip ell :
  Forall u16 gs -> gs <> [] -> length gs <= fuel ->
  parse_v6 fuel ip ell (join_groups gs) = Some (ip ++ groups_bytes gs, ell, []).
Proof.
  intros Hall. revert fuel ip. induction Hall as [|g gs Hg Hall IH]; intros fuel ip Hne Hf; [done|].
  destruct fuel as [|fuel]; [simpl in Hf; lia|].
  destruct (decide (gs = [])) as [->|Hgs].
  - rewrite join_groups_one, parse_v6_end by done. done.
  - rewrite join_groups_cons by done. rewrite parse_v6_colon;
      [|done|rewrite <- (app_nil_r (join_groups gs)); by apply hex_start_join].
    rewrite IH by (done || simpl in Hf; lia). by rewrite groups_bytes_cons, <- app_assoc.
Qed.

(** Groups around an ellipsis. *)
Lemma parse_v6_groups_ellipsis gs gs2 fuel ip :
  Forall u16 gs -> Forall u16 gs2 -> gs <> [] -> length gs + length gs2 <= fuel ->
  parse_v6 fuel ip None (join_groups gs ++ go "::" ++ join_groups gs2) =
  Some (ip ++ groups_bytes gs ++ groups_bytes gs2, Some (length (ip ++ groups_bytes gs)), []).
Proof.
  intros Hall Hall2. revert fuel ip.
  induction Hall as [|g gs Hg Hall IH]; intros fuel ip Hne Hf; [done|].
  destruct fuel as [|fuel]; [simpl in Hf; lia|].
  destruct (decide (gs = [])) as [->|Hgs].
  - rewrite join_groups_one. change (go "::" ++ join_groups gs2) with (":"%char :: ":"%char :: join_groups gs2).
    rewrite parse_v6_ellipsis by done. cbv zeta.
    destruct (decide (gs2 = [])) as [->|Hgs2].
    + rewrite bool_decide_true by done. by rewrite !app_nil_r.
    + pose proof (hex_start_join gs2 [] Hall2 Hgs2) as Hst. rewrite app_nil_r in Hst.
      rewrite bool_decide_false by by intros E; rewrite E in Hst.
      rewrite parse_v6_groups by (done || simpl in Hf; lia).
      by rewrite !groups_bytes_cons, app_nil_r, <- app_assoc.
  - rewrite join_groups_cons by done. rewrite <- app_assoc. cbn [app].
    rewrite parse_v6_colon by (done || by apply hex_start_join).
    rewrite IH by (done || simpl in Hf; lia).
    by rewrite groups_bytes_cons, <- !app_assoc.
Qed.

Arguments parse_v6 : simpl never.
Arguments parse_v4 : simpl never.

(** *** The zero run chosen by the printer *)

Lemma zero_run_spec gs : take (zero_run gs) gs = replicate (zero_run gs) 0%Z.
Proof.
  induction gs as [|g gs IH]; simpl; [done|].
  destruct (Z.eqb_spec g 0) as [->|]; simpl; [by rewrite IH|done].
Qed.

Definition run_in (all : list Z) (r : nat * nat) : Prop :=
  r.2 = 0 \/ 2 <= r.2 /\ take r.2 (drop r.1 all) = replicate r.2 0%Z.

Lemma best_run_in all gs i best :
  run_in all best -> drop i all = gs -> run_in all (best_run i gs best).
Proof.
  revert i best; induction gs as [|g gs IH]; intros i best Hb Hd; cbn [best_run]; [done|].
  apply IH; [|by rewrite <- drop_drop, Nat.add_1_r || (rewrite <- Nat.add_1_r, <- drop_drop, Hd)].
  destruct (_ && _) eqn:E; [|done]. reflect_bools. right. cbn [fst snd]. split; [done|].
  rewrite Hd. apply zero_run_spec.
Qed.

Lemma run_split (all : list Z) st l :
  take l (drop st all) = replicate l 0%Z ->
  all = take st all ++ replicate l 0%Z ++ drop (st + l) all.
Proof.
  intros H. rewrite <- H, <- drop_drop, !take_drop. done.
Qed.

(** *** Groups of an address *)

Lemma groups_wf ip : Forall u16 (groups ip).
Proof.
  assert (H : forall n ip, length ip <= n -> Forall u16 (groups ip)).
  { induction n as [|n IH]; intros [|hi [|lo ip']] Hl; simpl in *; try constructor; try lia.
    - unfold u16. pose proof (Z_of_byte_range hi). pose proof (Z_of_byte_range lo). lia.
    - apply IH. lia. }
  by apply (H (length ip)).
Qed.

Lemma groups_bytes_groups n ip :
  length ip = 2 * n -> groups_bytes (groups ip) = ip /\ length (groups ip) = n.
Proof.
  revert ip; induction n as [|n IH]; intros [|hi [|lo ip']] Hl; simpl in Hl; try lia; [done|].
  destruct (IH ip') as [H1 H2]; [lia|]. cbn [groups length].
  rewrite groups_bytes_cons, group_bytes_groups, H1. by rewrite H2.
Qed.

Lemma groups_bytes_app gs1 gs2 : groups_bytes (gs1 ++ gs2) = groups_bytes gs1 ++ groups_bytes gs2.
Proof. apply bind_app. Qed.

Lemma groups_bytes_zero l : groups_bytes (replicate l 0%Z) = replicate (2 * l) zero_byte.
Proof.
  induction l as [|l IH]; [done|]. change (replicate (S l) 0%Z) with (0%Z :: replicate l 0%Z).
  rewrite groups_bytes_cons, IH. by replace (2 * S l) with (S (S (2 * l))) by lia.
Qed.

(** *** The characters of a printed address *)

Definition v6_char (c : byte) : Prop := is_Some (hex_val c) \/ c = ":"%char.

Lemma join_groups_chars gs : Forall u16 gs -> Forall v6_char (join_groups gs).
Proof.
  induction 1 as [|g gs Hg Hall IH]; [constructor|].
  assert (Hgc : Forall v6_char (hex_group g)).
  { eapply Forall_impl; [apply hex_group_chars, Hg|]. by left. }
  destruct (decide (gs = [])) as [->|Hgs]; [done|].
  rewrite join_groups_cons by done. apply Forall_app; split; [done|].
  constructor; [by right|done].
Qed.

Lemma string6_chars ip : Forall v6_char (string6 ip).
Proof.
  unfold string6. destruct (best_run 0 (groups ip) (0, 0)) as [st l].
  pose proof (groups_wf ip) as Hwf. case_bool_decide; [by apply join_groups_chars|].
  repeat apply Forall_app_2; try apply join_groups_chars;
    [by apply Forall_take| |by apply Forall_drop].
  repeat constructor; by right.
Qed.

Lemma v6_char_not c d : v6_char c -> hex_val d = None -> d <> ":"%char -> c <> d.
Proof. intros [[v Hv]|Hc] Hd Hne E; congruence. Qed.

Lemma first_special_v6 s : Forall v6_char s -> ":"%char ∈ s -> first_special s = Some ":"%char.
Proof.
  induction 1 as [|c s Hc Hs IH]; [by intros ?%not_elem_of_nil|].
  intros Hin. cbn [first_special].
  rewrite (proj2 (byte_eqb_false c ".")) by by apply v6_char_not.
  rewrite (proj2 (byte_eqb_false c "%")) by by apply v6_char_not.
  case_byte c ":"%char; [done|]. simpl. apply IH. set_solver.
Qed.

Lemma string6_colon ip : length ip = 16 -> ":"%char ∈ string6 ip.
Proof.
  intros Hl. unfold string6. destruct (best_run 0 (groups ip) (0, 0)) as [st l].
  destruct (groups_bytes_groups 8 ip) as [_ Hg]; [lia|].
  case_bool_decide.
  - destruct (groups ip) as [|g [|g2 gs]]; simpl in Hg; try lia.
    rewrite join_groups_cons by done. apply elem_of_app. right. left.
  - apply elem_of_app. right. left.
Qed.

Lemma CutPrefix_hex s : hex_start s -> CutPrefix (go "::") s = None.
Proof.
  destruct s as [|c s]; simpl; [done|]. intros Hc. case_byte ":"%char c; [|done].
  by destruct Hc.
Qed.

(** An address of groups around a run of zeros, from its two parts. *)
Lemma finish_ellipsis gs1 gs2 l :
  length gs1 + l + length gs2 = 8 -> 0 < l ->
  finish_v6 (Some (groups_bytes gs1 ++ groups_bytes gs2, Some (length (groups_bytes gs1)), [])) =
  Some (groups_bytes gs1 ++ replicate (2 * l) zero_byte ++ groups_bytes gs2).
Proof.
  intros Hlen Hl. unfold finish_v6. rewrite bool_decide_true by done. cbn [negb].
  rewrite take_app_length, drop_app_length, length_app, !groups_bytes_length, bool_decide_true by lia.
  by replace (16 - (2 * length gs1 + 2 * length gs2)) with (2 * l) by lia.
Qed.

Lemma parseIPv6_string6 ip : length ip = 16 -> parseIPv6 (string6 ip) = Some (ip, []).
Proof.
  intros Hl. unfold parseIPv6.
  replace (IndexByte (string6 ip) "%") with (@None nat); cycle 1.
  { symmetry. apply IndexByte_None. intros Hin.
    pose proof (proj1 (Forall_forall _ _) (string6_chars ip) _ Hin) as Hc.
    by apply (v6_char_not _ "%" Hc). }
  destruct (groups_bytes_groups 8 ip) as [Hgb Hg]; [lia|].
  pose proof (groups_wf ip) as Hwf.
  unfold string6. pose proof (best_run_in (groups ip) (groups ip) 0 (0, 0) ltac:(by left) eq_refl) as Hrun.
  destruct (best_run 0 (groups ip) (0, 0)) as [st l]. destruct Hrun as [Hz|[H2 Hr]];
    cbn [fst snd] in *.
  - rewrite bool_decide_true by done.
    pose proof (hex_start_join (groups ip) [] Hwf ltac:(by destruct (groups ip))) as Hst.
    rewrite app_nil_r in Hst. rewrite CutPrefix_hex by done.
    rewrite parse_v6_groups by (done || (by destruct (groups ip)) || lia).
    unfold finish_v6. rewrite app_nil_l, Hgb, bool_decide_true by done. cbn [negb].
    by rewrite bool_decide_false by lia.
  - rewrite bool_decide_false by lia. apply run_split in Hr.
    set (gs1 := take st (groups ip)) in *. set (gs2 := drop (st + l) (groups ip)) in *.
    assert (Hw1 : Forall u16 gs1) by by apply Forall_take.
    assert (Hw2 : Forall u16 gs2) by by apply Forall_drop.
    assert (Hlen : length gs1 + l + length gs2 = 8).
    { rewrite Hr, !length_app, length_replicate in Hg. lia. }
    assert (Hip : ip = groups_bytes gs1 ++ replicate (2 * l) zero_byte ++ groups_bytes gs2).
    { rewrite <- Hgb, Hr at 1. by rewrite !groups_bytes_app, groups_bytes_zero. }
    assert (Hfin : finish_v6 (Some (groups_bytes gs1 ++ groups_bytes gs2,
                                    Some (length (groups_bytes gs1)), [])) = Some ip)
      by (rewrite Hip; apply finish_ellipsis; lia).
    destruct (decide (gs1 = [])) as [Hn1|Hn1].
    + rewrite Hn1 in *. rewrite app_nil_l.
      rewrite (proj2 (CutPrefix_Some (go "::") _ (join_groups gs2)) eq_refl).
      destruct (decide (gs2 = [])) as [Hn2|Hn2].
      * rewrite Hn2 in *. simpl in Hlen. rewrite Hip. by replace l with 8 by lia.
      * pose proof (hex_start_join gs2 [] Hw2 Hn2) as Hst. rewrite app_nil_r in Hst.
        destruct (join_groups gs2) as [|c s] eqn:Ej; [done|]. rewrite <- Ej.
        rewrite parse_v6_groups by (done || lia).
        by replace (finish_v6 _) with (Some ip) by (symmetry; exact Hfin).
    + rewrite CutPrefix_hex by by apply hex_start_join.
      rewrite parse_v6_groups_ellipsis by (done || lia).
      by replace (finish_v6 _) with (Some ip) by (symmetry; exact Hfin).
Qed.

Lemma ParseAddr_string4 p : length p = 4 -> ParseAddr (string4 p) = Some (MkAddr true p []).
Proof.
  intros Hp. do 4 (destruct p as [|? p]; [discriminate|]). destruct p; [|discriminate].
  unfold ParseAddr. rewrite parse_v4_string4.
  replace (first_special (string4 _)) with (Some "."%char); [done|].
  unfold string4. csimpl. change (go ".") with ["."%char].
  assert (Hd : forall c s, first_special (Itoa (Z_of_byte c) ++ s) = first_special s).
  { by intros [[] [] [] [] [] [] [] []] s. }
  by rewrite Hd.
Qed.

Lemma ParseAddr_string6 ip : length ip = 16 -> ParseAddr (string6 ip) = Some (MkAddr false ip []).
Proof.
  intros Hl. unfold ParseAddr.
  rewrite first_special_v6 by (apply string6_chars || by apply string6_colon).
  rewrite (proj2 (byte_eqb_false ":" ".")), byte_eqb_refl by done.
  by rewrite parseIPv6_string6.
Qed.

(** ** Valid addresses *)

(** An address a resolver can return: four or sixteen bytes. *)
Definition valid_ip (ip : IP) : Prop := length ip = 4 \/ length ip = 16.

(** The two printed forms: dotted for an address with an IPv4 form. *)
Lemma IP_String_cases ip :
  valid_ip ip ->
  (exists p, To4 ip = Some p /\ length p = 4 /\ To16 ip = Some (v4InV6Prefix ++ p) /\
             IP_String ip = string4 p) \/
  (To4 ip = None /\ length ip = 16 /\ To16 ip = Some ip /\ IP_String ip = string6 ip).
Proof.
  intros Hv. unfold IP_String, To16.
  assert (E : bool_decide (length ip = 4) || bool_decide (length ip = 16) = true)
    by (rewrite orb_true_iff, !bool_decide_eq_true; apply Hv).
  assert (Hne : ip <> []) by (by intros ->; destruct Hv).
  replace (match ip with [] => go "<nil>" | _ => _ end) with
    (match To4 ip with Some p4 => string4 p4 | None => string6 ip end)
    by (destruct ip; [done|]; by rewrite E).
  unfold To4. destruct (decide (length ip = 4)) as [Hl|Hl].
  - left. exists ip. by rewrite bool_decide_true.
  - destruct Hv as [?|Hl16]; [done|]. rewrite (bool_decide_false (length ip = 4)) by done.
    rewrite (bool_decide_true (length ip = 16)) by done. simpl andb.
    destruct (decide (take 12 ip = v4InV6Prefix)) as [Ht|Ht].
    + left. exists (drop 12 ip). rewrite bool_decide_true by done.
      rewrite length_drop, Hl16. repeat split. rewrite <- Ht. by rewrite take_drop.
    + right. by rewrite bool_decide_false.
Qed.

(** A printed address parses back to its 16-byte form. *)
Lemma ParseIP_String ip : valid_ip ip -> ParseIP (IP_String ip) = To16 ip.
Proof.
  intros Hv. unfold ParseIP.
  destruct (IP_String_cases ip Hv) as [(p & _ & Hp & -> & ->)|(_ & Hl & -> & ->)].
  - by rewrite ParseAddr_string4.
  - by rewrite ParseAddr_string6.
Qed.

Lemma valid_ip_To16 ip : valid_ip ip -> exists ip16, To16 ip = Some ip16 /\ length ip16 = 16.
Proof.
  unfold valid_ip, To16. intros [Hl|Hl]; repeat case_bool_decide; try lia; eexists; split; eauto.
  rewrite length_app, Hl. done.
Qed.

Lemma is_v4_To16 ip ip16 : To16 ip = Some ip16 -> is_v4 ip16 = is_v4 ip.
Proof.
  unfold To16, is_v4, To4. intros H. repeat case_bool_decide; simplify_eq; try done;
    rewrite length_app in *; simpl in *; lia.
Qed.

Definition addr_char (c : byte) : Prop := v6_char c \/ c = "."%char.

Lemma digit_hex c : is_digit c = true -> is_Some (hex_val c).
Proof. unfold hex_val. intros ->. eauto. Qed.

Lemma string4_chars ip : Forall addr_char (string4 ip).
Proof.
  unfold string4. induction ip as [|c ip IH]; [constructor|].
  assert (Hc : Forall addr_char (Itoa (Z_of_byte c))).
  { eapply Forall_impl; [apply Itoa_digits; pose proof (Z_of_byte_range c); unfold max_int; lia|].
    intros d Hd. left. left. by apply digit_hex. }
  rewrite fmap_cons. destruct (decide (ip = [])) as [->|Hne]; [done|].
  rewrite Join_cons by by destruct ip. repeat apply Forall_app_2; auto.
  constructor; [by right|constructor].
Qed.

Lemma IP_String_chars ip : valid_ip ip -> Forall addr_char (IP_String ip).
Proof.
  intros Hv. destruct (IP_String_cases ip Hv) as [(p & _ & _ & _ & ->)|(_ & _ & _ & ->)].
  - apply string4_chars.
  - eapply Forall_impl; [apply string6_chars|]. by left.
Qed.

Lemma IP_String_no_char ip c :
  valid_ip ip -> hex_val c = None -> c <> ":"%char -> c <> "."%char -> c ∉ IP_String ip.
Proof.
  intros Hv Hc H1 H2 Hin. apply (proj1 (Forall_forall _ _) (IP_String_chars ip Hv)) in Hin.
  destruct Hin as [[[v E]|E]|E]; congruence.
Qed.

(** A port string that can follow a joined host. *)
Definition plain_port (p : gostring) : Prop :=
  (":"%char ∉ p) /\ ("["%char ∉ p) /\ ("]"%char ∉ p).

Lemma SplitHostPort_address ip port :
  valid_ip ip -> plain_port port ->
  SplitHostPort (JoinHostPort (IP_String ip) port) = Ok (IP_String ip, port).
Proof.
  intros Hv (Hp1 & Hp2 & Hp3).
  apply SplitHostPort_JoinHostPort; auto; apply IP_String_no_char; done.
Qed.

Lemma JoinHostPort_not_nil h p : JoinHostPort h p <> [].
Proof. unfold JoinHostPort. destruct (ContainsByte h ":"); [done|]. by destruct h. Qed.

(** ** Lengths of parsed addresses and networks *)

Lemma parse_v4_length s first dot val dl fields r :
  length fields <= 3 -> parse_v4 s first dot val dl fields = Some r -> length r = 4.
Proof.
  revert first dot val dl fields; induction s as [|c s IH];
    intros first dot val dl fields Hf; unfold parse_v4; fold parse_v4.
  - case_bool_decide; [done|]. intros [= <-]. rewrite length_app. simpl. lia.
  - intros H. go_cases_in H; eauto. eapply IH; [|done]. rewrite length_app. simpl.
    reflect_bools. lia.
Qed.

Lemma parseIPv4Fields_length s ip : parseIPv4Fields s = Some ip -> length ip = 4.
Proof.
  unfold parseIPv4Fields. intros (r & Hr & ->)%fmap_Some. rewrite length_fmap.
  eapply parse_v4_length; [|done]. simpl. lia.
Qed.

Lemma parse_v6_length fuel ip ell s ip' ell' s' :
  length ip + 2 * fuel <= 16 -> parse_v6 fuel ip ell s = Some (ip', ell', s') -> length ip' <= 16.
Proof.
  revert ip ell s; induction fuel as [|fuel IH]; intros ip ell s Hl;
    unfold parse_v6; fold parse_v6; [intros [= <- _ _]; lia|].
  intros H. repeat (step_match_in H; simplify_eq/=);
    try (eapply IH; [|done]; rewrite ?length_app; simpl; lia);
    rewrite ?length_app; simpl; reflect_bools; try lia.
  all: match goal with E : parseIPv4Fields _ = Some _ |- _ => apply parseIPv4Fields_length in E end.
  all: lia.
Qed.

Lemma finish_v6_length ell s ip : finish_v6 (parse_v6 8 [] ell s) = Some ip -> length ip = 16.
Proof.
  destruct (parse_v6 8 [] ell s) as [[[ip0 ell'] s']|] eqn:E; [|done].
  apply parse_v6_length in E; [|simpl; lia]. unfold finish_v6. intros H.
  go_cases_in H; reflect_bools; rewrite ?length_app, ?length_take, ?length_drop, ?length_replicate; lia.
Qed.

Lemma parseIPv6_length s ip z : parseIPv6 s = Some (ip, z) -> length ip = 16.
Proof.
  unfold parseIPv6. destruct (match IndexByte s "%" with Some _ => _ | None => _ end) as [[t zone] bad].
  destruct bad; [done|]. intros (ip' & H & [= -> _])%fmap_Some.
  destruct (CutPrefix (go "::") t) as [[|c t']|]; simplify_eq/=; eauto using finish_v6_length.
Qed.

Definition addr_wf (a : Addr) : Prop := length (addr_bytes a) = if addr_is4 a then 4 else 16.

Lemma ParseAddr_wf s a : ParseAddr s = Some a -> addr_wf a.
Proof.
  unfold ParseAddr, addr_wf. intros H. go_cases_in H.
  - apply fmap_Some in H as (ip & H & ->). by apply parseIPv4Fields_length in H.
  - apply fmap_Some in H as ([ip z] & H & ->). by apply parseIPv6_length in H.
Qed.

Lemma As16_length a : addr_wf a -> length (As16 a) = 16.
Proof. unfold addr_wf, As16. destruct (addr_is4 a); [|done]. rewrite length_app. by intros ->. Qed.

Lemma ParseIP_length s ip : ParseIP s = Some ip -> length ip = 16.
Proof.
  unfold ParseIP. destruct (ParseAddr s) as [a|] eqn:E; [|done].
  case_bool_decide; [|done]. intros [= <-]. by apply As16_length, (ParseAddr_wf s).
Qed.

Lemma ParseIP_valid s ip : ParseIP s = Some ip -> valid_ip ip.
Proof. intros H. right. by eapply ParseIP_length. Qed.

Lemma CIDRMask_length ones n : length (CIDRMask ones n) = n.
Proof. revert ones; induction n as [|n IH]; intros ones; simpl; [done|]. case_bool_decide; simpl; by rewrite IH. Qed.

(** A network the parser builds: address and mask of the same length. *)
Definition net_wf (n : IPNet) : Prop :=
  length (net_ip n) = length (net_mask n) /\ valid_ip (net_ip n).

Lemma IP_Mask_length ip m ip' : IP_Mask ip m = Some ip' -> length ip' = length m.
Proof.
  unfold IP_Mask. case_bool_decide as H; [|done]. intros [= <-]. rewrite length_zip_with. lia.
Qed.

Lemma ParseCIDR_Some s n :
  ParseCIDR s = Some n ->
  exists a ones, addr_wf a /\ net_mask n = CIDRMask ones (if addr_is4 a then 4 else 16) /\
    IP_Mask (As16 a) (net_mask n) = Some (net_ip n).
Proof.
  unfold ParseCIDR. destruct (IndexByte s "/") as [i|]; [|done]. cbv zeta.
  destruct (ParseAddr (take i s)) as [a|] eqn:Ea; [|done].
  destruct (negb _); [done|].
  destruct (if bool_decide (drop (S i) s = []) then None else _) as [k|]; [|done].
  destruct (_ || _); [done|]. intros (ip & Hm & ->)%fmap_Some.
  exists a, (Z.to_nat k). split; [by eapply ParseAddr_wf|]. done.
Qed.

Lemma ParseCIDR_wf s n : ParseCIDR s = Some n -> net_wf n.
Proof.
  intros (a & ones & Ha & Hm & Hip%IP_Mask_length)%ParseCIDR_Some.
  split; [done|]. unfold valid_ip. rewrite Hip, Hm, CIDRMask_length.
  destruct (addr_is4 a); auto.
Qed.

Lemma ParseIP_To16 s ip : ParseIP s = Some ip -> To16 ip = Some ip.
Proof.
  intros H%ParseIP_length. unfold To16. rewrite bool_decide_false by lia.
  by rewrite bool_decide_true.
Qed.

(** The nil address is in no such network. *)
Lemma IPNet_Contains_nil n : net_wf n -> IPNet_Contains n [] = false.
Proof.
  intros [Hl Hv]. unfold IPNet_Contains, networkNumberAndMask, To4, valid_ip in *.
  go_cases; reflect_bools; simpl in *; rewrite ?length_drop in *; try done; exfalso; lia.
Qed.

(** ** Masked comparison *)

Lemma and_byte_ff c : and_byte c ff_byte = c.
Proof. by destruct c as [[] [] [] [] [] [] [] []]. Qed.

Lemma and_byte_0 c : and_byte c zero_byte = zero_byte.
Proof. by destruct c as [[] [] [] [] [] [] [] []]. Qed.

Lemma masked_eq_ff nn ip :
  length nn = length ip ->
  masked_eq nn (replicate (length nn) ff_byte) ip = bool_decide (nn = ip).
Proof.
  revert ip; induction nn as [|a nn IH]; intros [|b ip] Hl; simplify_eq/=; [done|].
  rewrite !and_byte_ff, IH by done. repeat case_bool_decide; simplify_eq/=; naive_solver.
Qed.

Lemma masked_eq_0 nn ip : masked_eq nn (replicate (length nn) zero_byte) ip = true.
Proof.
  revert ip; induction nn as [|a nn IH]; intros [|b ip]; simpl; try done.
  by rewrite !and_byte_0, IH, bool_decide_true.
Qed.
