(* ===== verification/Acl.v ===== *)
(** * Access control lists: acl.go and the ACL part of forwardproxy.go

    The three rule kinds behind the [aclRule] interface, the parser of rule
    subjects, the first-match decision [hostIsAllowed], the port whitelist
    [portIsAllowed] and the rule list [Provision] builds. *)

From stdpp Require Import base decidable numbers list gmap strings.
From Stdlib Require Import ZArith Lia Ascii.
From S2P Require Import Prelude GoStrings GoNet.

(** ** Data *)

(** The configured rule, before its subjects are parsed. *)
Record ACLRule := MkACLRule { Subjects : list gostring; Allow : bool }.

Inductive aclDecision : Type :=
  | aclDecisionAllow
  | aclDecisionDeny
  | aclDecisionNoMatch.

#[export] Instance aclDecision_eq_dec : EqDecision aclDecision.
Proof. solve_decision. Defined.

Record aclIPRule := MkIPRule { ip_net : IPNet; ip_allow : bool }.
Record aclDomainRule := MkDomainRule {
  domain : gostring;
  subdomainsAllowed : bool;
  domain_allow : bool;
}.
Record aclAllRule := MkAllRule { all_allow : bool }.

(** The dynamic types that implement the interface in this program. *)
Inductive aclRule : Type :=
  | RuleIP (r : aclIPRule)
  | RuleDomain (r : aclDomainRule)
  | RuleAll (r : aclAllRule).

(** ** The [aclRule] interface: [tryMatch(ip, domain)] *)

Class TryMatch (R : Type) : Type := tryMatch : R -> IP -> gostring -> aclDecision.

Definition decision_of (allow : bool) : aclDecision :=
  if allow then aclDecisionAllow else aclDecisionDeny.

#[export] Instance aclIPRule_tryMatch : TryMatch aclIPRule := fun a ip _ =>
  if negb (IPNet_Contains (ip_net a) ip) then aclDecisionNoMatch
  else decision_of (ip_allow a).

#[export] Instance aclDomainRule_tryMatch : TryMatch aclDomainRule := fun a _ dom =>
  let dom := TrimPrefix dom (go ".") in
  if bool_decide (dom = domain a) ||
     (subdomainsAllowed a && HasSuffix dom (go "." ++ domain a))
  then decision_of (domain_allow a)
  else aclDecisionNoMatch.

#[export] Instance aclAllRule_tryMatch : TryMatch aclAllRule := fun a _ _ =>
  decision_of (all_allow a).

#[export] Instance aclRule_tryMatch : TryMatch aclRule := fun r ip dom =>
  match r with
  | RuleIP a => tryMatch a ip dom
  | RuleDomain a => tryMatch a ip dom
  | RuleAll a => tryMatch a ip dom
  end.

(** ** Rule subjects *)

Definition domain_char (c : byte) : bool :=
  is_lower c || is_upper c || byte_eqb c "_" || is_digit c || byte_eqb c "-" || byte_eqb c ".".

(** [string(c)] of a byte: the UTF-8 encoding of the code point. *)
Definition string_of_byte (c : byte) : gostring :=
  if is_ascii c then [c]
  else [byte_of_Z (192 + Z_of_byte c `div` 64); byte_of_Z (128 + Z_of_byte c `mod` 64)].

(** The first loop: the first character that is not allowed. *)
Fixpoint first_bad_char (s : gostring) : option byte :=
  match s with
  | [] => None
  | c :: s' => if domain_char c then first_bad_char s' else Some c
  end.

(** The second loop over the sections. *)
Fixpoint check_sections (sections : list gostring) : option gostring :=
  match sections with
  | [] => None
  | s :: rest =>
      if bool_decide (length s = 0) then
        Some (go "empty section between dots in domain name or trailing dot")
      else if bool_decide (63 < length s) then Some (go "domain name section is too long")
      else check_sections rest
  end.

(** [None] is the nil error, [Some msg] is [errors.New(msg)]. *)
Definition isValidDomainLite (d : gostring) : option gostring :=
  match first_bad_char d with
  | Some c => Some (go "character " ++ string_of_byte c ++ go " is not allowed")
  | None => check_sections (Split d ".")
  end.

Definition newACLRule (ruleSubject : gostring) (allow : bool) : result aclRule :=
  if bool_decide (ruleSubject = go "all") then Ok (RuleAll (MkAllRule allow))
  else
    let ipNet :=
      match ParseCIDR ruleSubject with
      | Some n => Some n
      | None =>
          match ParseIP ruleSubject with
          | None => None
          | Some ip =>
              match To4 ip with
              | Some _ => ParseCIDR (ruleSubject ++ go "/32")
              | None =>
                  match To16 ip with
                  | Some _ => ParseCIDR (ruleSubject ++ go "/128")
                  | None => None
                  end
              end
          end
      end in
    match ipNet with
    | Some n => Ok (RuleIP (MkIPRule n allow))
    | None =>
        let '(sub, subject) :=
          match CutPrefix (go "*.") ruleSubject with
          | Some rest => (true, rest)
          | None => (false, ruleSubject)
          end in
        match isValidDomainLite subject with
        | Some msg =>
            Err (ErrMsg (subject ++
              go " could not be parsed as either IP, IP network, or domain: " ++ msg))
        | None => Ok (RuleDomain (MkDomainRule subject sub allow))
        end
    end.

(** ** Decisions *)

(** [Handler.hostIsAllowed]: the first rule that decides. *)
Fixpoint hostIsAllowed (aclRules : list aclRule) (hostname : gostring) (ip : IP) : bool :=
  match aclRules with
  | [] => false
  | rule :: rest =>
      match tryMatch rule ip hostname with
      | aclDecisionDeny => false
      | aclDecisionAllow => true
      | aclDecisionNoMatch => hostIsAllowed rest hostname ip
      end
  end.

(** [Handler.portIsAllowed]. *)
Definition portIsAllowed (AllowedPorts : list Z) (port : gostring) : bool :=
  match Atoi port with
  | None => false
  | Some portInt =>
      if ((portInt <=? 0) || (portInt >? 65535))%Z then false
      else if bool_decide (length AllowedPorts = 0) then true
      else existsb (fun p => (p =? portInt)%Z) AllowedPorts
  end.

(** ** The rules [Provision] installs *)

Fixpoint newACLRules (subjects : list gostring) (allow : bool) : result (list aclRule) :=
  match subjects with
  | [] => Ok []
  | subj :: rest =>
      ar ← newACLRule subj allow;
      ars ← newACLRules rest allow;
      Ok (ar :: ars)
  end.

Fixpoint configuredRules (acl : list ACLRule) : result (list aclRule) :=
  match acl with
  | [] => Ok []
  | rule :: rest =>
      ars ← newACLRules (Subjects rule) (Allow rule);
      more ← configuredRules rest;
      Ok (ars ++ more)
  end.

Definition defaultDenySubjects : list gostring :=
  [go "10.0.0.0/8"; go "127.0.0.0/8"; go "172.16.0.0/12"; go "192.168.0.0/16";
   go "::1/128"; go "fe80::/10"].

Definition provisionACL (acl : list ACLRule) : result (list aclRule) :=
  configured ← configuredRules acl;
  defaults ← newACLRules defaultDenySubjects false;
  Ok (configured ++ defaults ++ [RuleAll (MkAllRule true)]).

(** ** Specifications *)

(** The decision of the first rule that decides, if any. *)
Fixpoint first_decision (rules : list aclRule) (hostname : gostring) (ip : IP) : option bool :=
  match rules with
  | [] => None
  | r :: rest =>
      match tryMatch r ip hostname with
      | aclDecisionAllow => Some true
      | aclDecisionDeny => Some false
      | aclDecisionNoMatch => first_decision rest hostname ip
      end
  end.

(** The private ranges of the default policy, as numeric conditions:
    10/8, 127/8, 172.16/12, 192.168/16 on addresses with an IPv4 form, [::1]
    and fe80::/10 on the others. *)
Definition default_denied (ip : IP) : bool :=
  match To4 ip with
  | Some (a :: b :: _) =>
      let a := Z_of_byte a in let b := Z_of_byte b in
      ((a =? 10) || (a =? 127) || ((a =? 172) && (16 <=? b) && (b <=? 31)) ||
       ((a =? 192) && (b =? 168)))%Z
  | Some _ => false
  | None =>
      bool_decide (ip = replicate 15 zero_byte ++ [byte_of_Z 1]) ||
      match ip with
      | a :: b :: _ =>
          ((Z_of_byte a =? 254) && (128 <=? Z_of_byte b) && (Z_of_byte b <=? 191))%Z
      | _ => false
      end
  end.

(** Every rule the parser returns is of this form. *)
Definition rule_wf (r : aclRule) : Prop :=
  match r with
  | RuleIP a => net_wf (ip_net a)
  | RuleDomain a => isValidDomainLite (domain a) = None
  | RuleAll _ => True
  end.

(** ** Supporting lemmas *)

Lemma hostIsAllowed_first_decision rules host ip :
  hostIsAllowed rules host ip = default false (first_decision rules host ip).
Proof. induction rules as [|r rules IH]; simpl; [done|]. by destruct (tryMatch r ip host). Qed.

Lemma first_decision_app rs1 rs2 host ip :
  first_decision (rs1 ++ rs2) host ip =
  match first_decision rs1 host ip with Some d => Some d | None => first_decision rs2 host ip end.
Proof. induction rs1 as [|r rs1 IH]; simpl; [done|]. by destruct (tryMatch r ip host). Qed.

Lemma first_decision_Some rules host ip d :
  first_decision rules host ip = Some d <->
  exists pre r post, rules = pre ++ r :: post /\
    Forall (fun q => tryMatch q ip host = aclDecisionNoMatch) pre /\
    tryMatch r ip host = decision_of d.
Proof.
  split.
  - induction rules as [|r rules IH]; simpl; [done|].
    destruct (tryMatch r ip host) eqn:E; intros H; simplify_eq.
    + by exists [], r, rules.
    + by exists [], r, rules.
    + destruct (IH H) as (pre & q & post & -> & Hpre & Hq).
      exists (r :: pre), q, post. repeat split; auto.
  - intros (pre & r & post & -> & Hpre & Hr). rewrite first_decision_app.
    replace (first_decision pre host ip) with (@None bool).
    + simpl. rewrite Hr. by destruct d.
    + clear -Hpre. induction Hpre as [|q pre Hq Hpre IH]; simpl; [done|]. by rewrite Hq.
Qed.

Lemma newACLRules_app subjects allow rs :
  newACLRules subjects allow = Ok rs -> Forall (fun r => exists s, s ∈ subjects /\ newACLRule s allow = Ok r) rs.
Proof.
  revert rs; induction subjects as [|s subjects IH]; simpl; intros rs; [by intros [= <-]|].
  intros (r & Hr & (rs' & Hrs & [= <-])%result_bind_Ok)%result_bind_Ok.
  constructor; [set_solver|]. eapply Forall_impl; [by apply IH|]. set_solver.
Qed.

Lemma check_sections_None ss :
  check_sections ss = None <-> Forall (fun s => 0 < length s <= 63) ss.
Proof.
  induction ss as [|s ss IH]; simpl; [by split; constructor|].
  rewrite Forall_cons, <- IH. repeat case_bool_decide; split; try lia; intros; try discriminate; naive_solver lia.
Qed.

Lemma first_bad_char_None s : first_bad_char s = None <-> Forall (fun c => domain_char c = true) s.
Proof.
  induction s as [|c s IH]; simpl; [by split; constructor|].
  rewrite Forall_cons, <- IH. destruct (domain_char c); naive_solver.
Qed.

(** *** The default networks, computed once *)

Definition v4_net (a b m1 m2 : Z) : IPNet := MkIPNet (z_bytes [a; b; 0; 0]%Z) (z_bytes [m1; m2; 0; 0]%Z).

Definition default_rules : list aclRule :=
  (fun n => RuleIP (MkIPRule n false)) <$>
    [v4_net 10 0 255 0; v4_net 127 0 255 0; v4_net 172 16 255 240; v4_net 192 168 255 255;
     MkIPNet (replicate 15 zero_byte ++ [byte_of_Z 1]) (replicate 16 ff_byte);
     MkIPNet (z_bytes [254; 128]%Z ++ replicate 14 zero_byte)
             (z_bytes [255; 192]%Z ++ replicate 14 zero_byte)].

Lemma default_rules_parse : newACLRules defaultDenySubjects false = Ok default_rules.
Proof. vm_compute. reflexivity. Qed.

Lemma contains_v4_net a b m1 m2 ip :
  IPNet_Contains (v4_net a b m1 m2) ip =
  match To4 ip with
  | Some (x :: y :: _) =>
      bool_decide (and_byte (byte_of_Z a) (byte_of_Z m1) = and_byte x (byte_of_Z m1)) &&
      bool_decide (and_byte (byte_of_Z b) (byte_of_Z m2) = and_byte y (byte_of_Z m2))
  | _ => false
  end.
Proof.
  unfold IPNet_Contains. change (networkNumberAndMask (v4_net a b m1 m2)) with
    (Some (z_bytes [a; b; 0; 0]%Z, z_bytes [m1; m2; 0; 0]%Z)). cbv beta iota.
  destruct (To4 ip) as [p|] eqn:E.
  - assert (Hl : length p = 4) by (unfold To4 in E; repeat case_bool_decide; simplify_eq/=; rewrite ?length_drop; lia).
    do 4 (destruct p as [|? p]; [discriminate|]). destruct p; [|discriminate].
    rewrite bool_decide_true by done. cbn [masked_eq z_bytes fmap list_fmap].
    change (byte_of_Z 0) with zero_byte. rewrite !and_byte_0.
    rewrite !(bool_decide_true (zero_byte = zero_byte)) by done. by rewrite !andb_true_r.
  - rewrite bool_decide_false; [done|]. unfold To4 in E. intros Hl. change (length (z_bytes _)) with 4 in Hl.
    by rewrite bool_decide_true in E.
Qed.

Lemma bytes_12 x y : (bool_decide (byte_of_Z 172 = x) && bool_decide (and_byte (byte_of_Z 16) (byte_of_Z 240) = and_byte y (byte_of_Z 240))) =
  ((Z_of_byte x =? 172) && (16 <=? Z_of_byte y) && (Z_of_byte y <=? 31))%Z.
Proof.
  rewrite <- andb_assoc. f_equal.
  - by destruct x as [[] [] [] [] [] [] [] []].
  - by destruct y as [[] [] [] [] [] [] [] []].
Qed.

Lemma byte_is a x : (0 <= a < 256)%Z -> bool_decide (byte_of_Z a = x) = (Z_of_byte x =? a)%Z.
Proof.
  intros Ha. destruct (Z.eqb_spec (Z_of_byte x) a) as [<-|Hne].
  - rewrite bool_decide_true; [done|]. apply byte_of_Z_of_byte.
  - rewrite bool_decide_false; [done|]. intros <-. rewrite Z_of_byte_of_Z, Z.mod_small in Hne; lia.
Qed.

(** [::1] and fe80::/10 hold no address with an IPv4 form. *)
Lemma contains_v6_net nn m ip :
  length nn = 16 -> take 12 nn <> v4InV6Prefix -> length m = 16 -> valid_ip ip ->
  IPNet_Contains (MkIPNet nn m) ip =
  match To4 ip with Some _ => false | None => masked_eq nn m ip end.
Proof.
  intros Hn Hp Hm Hv. unfold IPNet_Contains, networkNumberAndMask. cbn [net_ip net_mask].
  replace (To4 nn) with (@None (list ascii)); cycle 1.
  { unfold To4. rewrite bool_decide_false by lia. by rewrite (bool_decide_false (take 12 nn = _)), andb_false_r. }
  rewrite (bool_decide_true (length nn = 16)), (bool_decide_false (length m = 4)),
    (bool_decide_true (length m = 16)), (bool_decide_false (length nn = 4)) by lia.
  destruct (IP_String_cases ip Hv) as [(p & -> & Hl & _)|(-> & Hl & _)].
  - by rewrite bool_decide_false by lia.
  - by rewrite bool_decide_true by lia.
Qed.

Lemma link_local_byte y :
  bool_decide (and_byte (byte_of_Z 128) (byte_of_Z 192) = and_byte y (byte_of_Z 192)) =
  ((128 <=? Z_of_byte y) && (Z_of_byte y <=? 191))%Z.
Proof. by destruct y as [[] [] [] [] [] [] [] []]. Qed.

Lemma contains_link_local ip :
  valid_ip ip ->
  IPNet_Contains (MkIPNet (z_bytes [254; 128]%Z ++ replicate 14 zero_byte)
                          (z_bytes [255; 192]%Z ++ replicate 14 zero_byte)) ip =
  match To4 ip, ip with
  | None, x :: y :: _ => ((Z_of_byte x =? 254) && (128 <=? Z_of_byte y) && (Z_of_byte y <=? 191))%Z
  | _, _ => false
  end.
Proof.
  intros Hv. rewrite contains_v6_net by (done || by vm_compute).
  destruct (IP_String_cases ip Hv) as [(p & -> & _)|(-> & Hl & _)]; [done|].
  destruct ip as [|x [|y ip]]; [done|done|].
  change (masked_eq _ _ _) with
    (bool_decide (and_byte (byte_of_Z 254) ff_byte = and_byte x ff_byte) &&
     (bool_decide (and_byte (byte_of_Z 128) (byte_of_Z 192) = and_byte y (byte_of_Z 192)) &&
      masked_eq (replicate 14 zero_byte) (replicate (length (replicate 14 zero_byte)) zero_byte) ip)).
  rewrite !and_byte_ff, byte_is, link_local_byte, masked_eq_0 by lia.
  by rewrite andb_true_r, andb_assoc.
Qed.

Lemma contains_loopback6 ip :
  valid_ip ip ->
  IPNet_Contains (MkIPNet (replicate 15 zero_byte ++ [byte_of_Z 1]) (replicate 16 ff_byte)) ip =
  match To4 ip with
  | Some _ => false
  | None => bool_decide (ip = replicate 15 zero_byte ++ [byte_of_Z 1])
  end.
Proof.
  intros Hv. rewrite contains_v6_net by (done || by vm_compute).
  destruct (IP_String_cases ip Hv) as [(p & -> & _)|(-> & Hl & _)]; [done|].
  rewrite (masked_eq_ff (replicate 15 zero_byte ++ [byte_of_Z 1])) by done.
  by apply bool_decide_ext.
Qed.

(** The default deny rules decide exactly on the private ranges. *)
Lemma default_rules_decision host ip :
  valid_ip ip ->
  first_decision default_rules host ip = if default_denied ip then Some false else None.
Proof.
  intros Hv. unfold default_rules. cbn [fmap list_fmap first_decision].
  unfold tryMatch, aclRule_tryMatch, tryMatch, aclIPRule_tryMatch. cbn [ip_net ip_allow].
  rewrite !contains_v4_net, contains_loopback6, contains_link_local by done.
  change (byte_of_Z 255) with ff_byte. change (byte_of_Z 0) with zero_byte.
  unfold default_denied.
  destruct (IP_String_cases ip Hv) as [(p & -> & Hl & _)|(-> & Hl & _)].
  - destruct p as [|x [|y p]]; [done|done|].
    rewrite !and_byte_ff, !and_byte_0, bytes_12, !byte_is by lia.
    rewrite (bool_decide_true (zero_byte = zero_byte)), !andb_true_r by done.
    simpl decision_of.
    by destruct (_ =? 10)%Z, (_ =? 127)%Z, (_ && _ && _), ((_ =? 192)%Z && _).
  - destruct ip as [|x [|y ip]]; [done|done|].
    by destruct (bool_decide _), (_ && _ && _).
Qed.

(** *** A rule for one address *)

Lemma ParseCIDR_no_slash s : ("/"%char ∉ s) -> ParseCIDR s = None.
Proof. intros H. unfold ParseCIDR. by rewrite (proj2 (IndexByte_None s "/") H). Qed.

Lemma ParseCIDR_app s bits :
  ("/"%char ∉ s) ->
  ParseCIDR (s ++ "/"%char :: bits) =
  match ParseAddr s with
  | None => None
  | Some a =>
      if negb (bool_decide (addr_zone a = [])) then None else
      match (if bool_decide (bits = []) then None else dtoi_all 0 bits) with
      | None => None
      | Some n =>
          if ((n <? 0) || (n >? BitLen a))%Z then None else
          let m := CIDRMask (Z.to_nat n) (if addr_is4 a then 4 else 16) in
          (fun ip => MkIPNet ip m) <$> IP_Mask (As16 a) m
      end
  end.
Proof.
  intros H. unfold ParseCIDR. rewrite IndexByte_app by done. cbv zeta.
  rewrite take_app_length. replace (drop (S (length s)) (s ++ "/"%char :: bits)) with bits; [done|].
  rewrite drop_app_ge by lia. by replace (S (length s) - length s) with 1 by lia.
Qed.

Lemma zip_with_and_ff ip : zip_with and_byte ip (replicate (length ip) ff_byte) = ip.
Proof. induction ip as [|c ip IH]; simpl; [done|]. by rewrite and_byte_ff, IH. Qed.

Lemma IP_Mask_v4 p : length p = 4 -> IP_Mask (v4InV6Prefix ++ p) (replicate 4 ff_byte) = Some p.
Proof.
  intros Hl. unfold IP_Mask.
  rewrite (bool_decide_true (length (v4InV6Prefix ++ p) = 16)) by (rewrite length_app, Hl; done).
  rewrite (take_app_length' v4InV6Prefix p 12), (drop_app_length' v4InV6Prefix p 12) by done.
  rewrite (bool_decide_true (length (replicate 4 ff_byte) = 4)),
    (bool_decide_true (v4InV6Prefix = v4InV6Prefix)) by done. cbn [andb].
  rewrite bool_decide_true by done. f_equal. rewrite <- Hl. apply zip_with_and_ff.
Qed.

Lemma IP_Mask_v6 ip : length ip = 16 -> IP_Mask ip (replicate 16 ff_byte) = Some ip.
Proof.
  intros Hl. unfold IP_Mask. rewrite (bool_decide_false (length (replicate 16 ff_byte) = 4)) by done.
  cbn [andb]. rewrite bool_decide_true by done. f_equal. rewrite <- Hl. apply zip_with_and_ff.
Qed.

Lemma ParseCIDR_host4 p :
  length p = 4 -> ("/"%char ∉ string4 p) ->
  ParseCIDR (string4 p ++ go "/32") = Some (MkIPNet p (replicate 4 ff_byte)).
Proof.
  intros Hl Hn. change (go "/32") with ("/"%char :: go "32"). rewrite ParseCIDR_app by done.
  rewrite ParseAddr_string4 by done.
  change ((fun ip => MkIPNet ip (replicate 4 ff_byte)) <$>
    IP_Mask (v4InV6Prefix ++ p) (replicate 4 ff_byte) = Some (MkIPNet p (replicate 4 ff_byte))).
  by rewrite IP_Mask_v4.
Qed.

Lemma ParseCIDR_host6 ip :
  length ip = 16 -> ("/"%char ∉ string6 ip) ->
  ParseCIDR (string6 ip ++ go "/128") = Some (MkIPNet ip (replicate 16 ff_byte)).
Proof.
  intros Hl Hn. change (go "/128") with ("/"%char :: go "128"). rewrite ParseCIDR_app by done.
  rewrite ParseAddr_string6 by done.
  change ((fun ip => MkIPNet ip (replicate 16 ff_byte)) <$>
    IP_Mask ip (replicate 16 ff_byte) = Some (MkIPNet ip (replicate 16 ff_byte))).
  by rewrite IP_Mask_v6.
Qed.

Lemma contains_host4 p ip :
  length p = 4 -> IPNet_Contains (MkIPNet p (replicate 4 ff_byte)) ip = bool_decide (To4 ip = Some p).
Proof.
  intros Hl. unfold IPNet_Contains, networkNumberAndMask. cbn [net_ip net_mask].
  unfold To4 at 1. rewrite (bool_decide_true (length p = 4)) by done.
  rewrite length_replicate, (bool_decide_true (4 = 4)), (bool_decide_true (length p = 4)) by done.
  destruct (To4 ip) as [x|] eqn:E.
  - assert (Hx : length x = 4).
    { unfold To4 in E. repeat case_bool_decide; simplify_eq/=; rewrite ?length_drop; lia. }
    rewrite bool_decide_true by congruence. rewrite <- Hl, masked_eq_ff by congruence.
    apply bool_decide_ext. naive_solver.
  - assert (Hx : length ip <> 4) by (intros Hx; unfold To4 in E; by rewrite bool_decide_true in E).
    by rewrite !bool_decide_false by congruence.
Qed.

Lemma To4_mapped p : length p = 4 -> To4 (v4InV6Prefix ++ p) = Some p.
Proof.
  intros Hp. assert (Hl : length (v4InV6Prefix ++ p) = 16) by (rewrite length_app, Hp; done).
  unfold To4. rewrite Hl. rewrite (take_app_length' v4InV6Prefix p 12) by done.
  rewrite (drop_app_length' v4InV6Prefix p 12) by done.
  by rewrite (bool_decide_true (v4InV6Prefix = v4InV6Prefix)).
Qed.

Lemma To16_eq_cases ip ip' :
  valid_ip ip -> valid_ip ip' ->
  bool_decide (To16 ip' = To16 ip) =
  match To4 ip with
  | Some p => bool_decide (To4 ip' = Some p)
  | None => match To4 ip' with Some _ => false | None => bool_decide (ip = ip') end
  end.
Proof.
  intros Hv Hv'.
  destruct (IP_String_cases ip Hv) as [(p & H4 & Hp & -> & _)|(H4 & Hl & -> & _)]; rewrite H4;
  destruct (IP_String_cases ip' Hv') as [(p' & H4' & Hp' & -> & _)|(H4' & Hl' & -> & _)]; rewrite H4'.
  - apply bool_decide_ext. split; intros ?; simplify_eq; done.
  - rewrite !bool_decide_false; [done|done|]. intros E%(inj Some).
    by rewrite E, To4_mapped in H4'.
  - rewrite bool_decide_false; [done|]. intros E%(inj Some).
    by rewrite <- E, To4_mapped in H4.
  - apply bool_decide_ext. naive_solver.
Qed.

(** ** Theorems *)

(** [hostIsAllowed] is first-match: it allows a host and address exactly when
    some rule allows it and every earlier rule does not match. *)
Theorem hostIsAllowed_first_match rules host ip :
  hostIsAllowed rules host ip = true <->
  exists pre r post, rules = pre ++ r :: post /\
    Forall (fun q => tryMatch q ip host = aclDecisionNoMatch) pre /\
    tryMatch r ip host = aclDecisionAllow.
Proof.
  rewrite hostIsAllowed_first_decision.
  change aclDecisionAllow with (decision_of true). rewrite <- first_decision_Some.
  destruct (first_decision rules host ip) as [[]|]; simpl; naive_solver.
Qed.

(** C14: the policy Provision installs: the configured rules decide first, and an
    address none of them matches is allowed exactly when it is outside the
    private ranges (10/8, 127/8, 172.16/12, 192.168/16, ::1, fe80::/10), whatever
    the host name. *)
Theorem provision_policy acl rules host ip :
  provisionACL acl = Ok rules -> valid_ip ip ->
  exists configured, configuredRules acl = Ok configured /\
    hostIsAllowed rules host ip =
      match first_decision configured host ip with
      | Some d => d
      | None => negb (default_denied ip)
      end.
Proof.
  unfold provisionACL. rewrite default_rules_parse.
  intros (cs & Hcs & (ds & <-%(inj Ok) & <-%(inj Ok))%result_bind_Ok)%result_bind_Ok Hv.
  exists cs. split; [done|].
  rewrite hostIsAllowed_first_decision, !first_decision_app, default_rules_decision by done.
  by destruct (first_decision cs host ip), (default_denied ip).
Qed.

Lemma provision_policy_witness :
  exists configured, configuredRules [] = Ok configured /\
    hostIsAllowed (default_rules ++ [RuleAll (MkAllRule true)]) (go "printer") (z_bytes [192; 168; 1; 1]%Z) =
      match first_decision configured (go "printer") (z_bytes [192; 168; 1; 1]%Z) with
      | Some d => d
      | None => negb (default_denied (z_bytes [192; 168; 1; 1]%Z))
      end.
Proof.
  apply (provision_policy [] (default_rules ++ [RuleAll (MkAllRule true)]) (go "printer")
           (z_bytes [192; 168; 1; 1]%Z)).
  - vm_compute. reflexivity.
  - left. reflexivity.
Defined.

(** A domain rule matches its own domain and, for a [*.] rule, exactly the names
    that end in a dot and that domain (so [*.example.com] does not match
    [fakeexample.com]); one leading dot of the request name is ignored. *)
Theorem domain_rule_matches (r : aclDomainRule) ip host :
  let d := TrimPrefix host (go ".") in
  (d = domain r \/ subdomainsAllowed r = true /\ (exists sub, d = sub ++ go "." ++ domain r)
     <-> tryMatch r ip host = decision_of (domain_allow r)) /\
  (tryMatch r ip host = decision_of (domain_allow r) \/ tryMatch r ip host = aclDecisionNoMatch).
Proof.
  intros d. unfold tryMatch, aclDomainRule_tryMatch. fold d. clearbody d.
  assert (Hs : HasSuffix d (go "." ++ domain r) = true <-> exists sub, d = sub ++ go "." ++ domain r)
    by apply HasSuffix_true.
  destruct (bool_decide (d = domain r) || _) eqn:E; split; try tauto.
  - split; [done|]. intros _. apply orb_true_iff in E as [E|E]; reflect_bools; naive_solver.
  - split; [|by destruct (domain_allow r)]. reflect_bools.
    match goal with H : _ && _ = false |- _ => apply andb_false_iff in H as [H|H] end;
      (intros [?|[? Hex%Hs]]; [done|congruence]).
Qed.

(** A domain subject is accepted exactly when it is made of letters, digits,
    hyphens, underscores and dots and every dot-separated section has 1 to 63
    bytes. *)
Theorem isValidDomainLite_spec d :
  isValidDomainLite d = None <->
  Forall (fun c => domain_char c = true) d /\
  Forall (fun s => 0 < length s <= 63) (Split d ".").
Proof.
  unfold isValidDomainLite. rewrite <- first_bad_char_None, <- check_sections_None.
  destruct (first_bad_char d); naive_solver.
Qed.

(** Every rule newACLRule returns is well formed: an IP rule has a network whose
    address and mask have the same length (so the nil address is never in it),
    and a domain rule has a valid domain. *)
Theorem newACLRule_wf subject allow r : newACLRule subject allow = Ok r -> rule_wf r.
Proof.
  unfold newACLRule. case_bool_decide; [by intros [= <-]|]. cbv zeta.
  set (ipNet := match ParseCIDR subject with Some n => Some n | None => _ end).
  assert (Hnet : forall n, ipNet = Some n -> net_wf n).
  { subst ipNet. intros n Hn. go_cases_in Hn; eauto using ParseCIDR_wf. }
  destruct ipNet as [n|]; [intros [= <-]; by apply Hnet|]. clear Hnet.
  destruct (match CutPrefix (go "*.") subject with Some _ => _ | None => _ end) as [sub d].
  destruct (isValidDomainLite d) eqn:E; [done|]. by intros [= <-].
Qed.

Lemma newACLRule_wf_witness :
  rule_wf (RuleIP (MkIPRule (v4_net 172 16 255 240) false)).
Proof. apply (newACLRule_wf (go "172.16.0.0/12") false). vm_compute. reflexivity. Defined.

Lemma all_not_address ip : valid_ip ip -> IP_String ip <> go "all".
Proof.
  intros Hv E. pose proof (IP_String_chars ip Hv) as Hc. rewrite E in Hc.
  inversion_clear Hc as [|? ? _ Hc']. inversion_clear Hc' as [|? ? Hl _].
  destruct Hl as [[[v Hl]|Hl]|Hl]; discriminate.
Qed.

(** A subject that is the text of one address gives a rule that decides for that
    address alone, whichever of its 4- or 16-byte forms the resolver returns. *)
Theorem single_address_rule ip allow :
  valid_ip ip ->
  exists r, newACLRule (IP_String ip) allow = Ok r /\
    forall host ip', valid_ip ip' ->
      tryMatch r ip' host =
      if bool_decide (To16 ip' = To16 ip) then decision_of allow else aclDecisionNoMatch.
Proof.
  intros Hv. assert (Hns : "/"%char ∉ IP_String ip) by by apply IP_String_no_char.
  unfold newACLRule. rewrite bool_decide_false by by apply all_not_address.
  rewrite ParseCIDR_no_slash, ParseIP_String by done. cbv zeta.
  destruct (IP_String_cases ip Hv) as [(p & H4 & Hp & H16 & HS)|(H4 & Hl & H16 & HS)];
    rewrite HS in *.
  - rewrite H16, To4_mapped, ParseCIDR_host4 by done. eexists; split; [done|].
    intros host ip' Hv'. rewrite <- H16, To16_eq_cases, H4 by done.
    unfold tryMatch, aclRule_tryMatch, tryMatch, aclIPRule_tryMatch. cbn [ip_net ip_allow].
    rewrite contains_host4 by done. by destruct (bool_decide _).
  - rewrite H16, H4, H16, ParseCIDR_host6 by done. eexists; split; [done|].
    intros host ip' Hv'. rewrite <- H16, To16_eq_cases, H4 by done.
    unfold tryMatch, aclRule_tryMatch, tryMatch, aclIPRule_tryMatch. cbn [ip_net ip_allow].
    assert (Hp : take 12 ip <> v4InV6Prefix).
    { intros Hp. unfold To4 in H4. rewrite (bool_decide_true (length ip = 16)) in H4 by done.
      rewrite (bool_decide_true (take 12 ip = v4InV6Prefix)) in H4 by done.
      simpl in H4. by case_bool_decide. }
    rewrite contains_v6_net by done.
    destruct (IP_String_cases ip' Hv') as [(p & -> & _)|(-> & Hl' & _)]; [done|].
    rewrite <- Hl at 1. rewrite masked_eq_ff by congruence. by destruct (bool_decide _).
Qed.

Lemma single_address_rule_witness :
  exists r, newACLRule (IP_String (z_bytes [8; 8; 8; 8]%Z)) true = Ok r /\
    forall host ip', valid_ip ip' ->
      tryMatch r ip' host =
      if bool_decide (To16 ip' = To16 (z_bytes [8; 8; 8; 8]%Z)) then decision_of true else aclDecisionNoMatch.
Proof. apply (single_address_rule (z_bytes [8; 8; 8; 8]%Z) true). left. reflexivity. Defined.

(** An IPv4-mapped subject is parsed with a 32-bit prefix of its 128 bits, so the
    rule does not match the address it names and matches every address of ::/32
    instead, here the IPv6 loopback. *)
Theorem mapped_subject_rule :
  exists r, newACLRule (go "::ffff:1.2.3.4") false = Ok r /\
    tryMatch r (z_bytes [1; 2; 3; 4]%Z) [] = aclDecisionNoMatch /\
    tryMatch r (replicate 15 zero_byte ++ [byte_of_Z 1]) [] = aclDecisionDeny.
Proof. eexists. split; [vm_compute; reflexivity|]. split; vm_compute; reflexivity. Qed.

(** [portIsAllowed] accepts exactly the decimal numbers 1 to 65535 that are in the
    whitelist, or any of them when the whitelist is empty. *)
Theorem portIsAllowed_spec ports port :
  portIsAllowed ports port = true <->
  exists n, Atoi port = Some n /\ (1 <= n <= 65535)%Z /\ (ports = [] \/ n ∈ ports).
Proof.
  unfold portIsAllowed. destruct (Atoi port) as [n|]; [|naive_solver].
  destruct (Z.leb_spec n 0), (Z.gtb_spec n 65535); simpl; try naive_solver lia.
  case_bool_decide as Hp.
  - apply nil_length_inv in Hp. naive_solver lia.
  - rewrite existsb_exists. setoid_rewrite Z.eqb_eq. setoid_rewrite <- list_elem_of_In.
    split; [|naive_solver]. intros (x & Hx & ->). exists n. repeat split; auto; lia.
Qed.
