(* ===== verification/Policy.v ===== *)
(** * Target policy: native_udp_protocol.go and the error mapping of connect_dial.go

    The checks a CONNECT or CONNECT-UDP target passes before any dial: the
    host and port split, the port whitelist, the domain rules, the resolver
    and the per-address ACL, with the HTTP status of every failure.  The
    resolver ([net.Resolver.LookupIPAddr]) is a parameter of the operations
    that call it. *)

From stdpp Require Import base decidable numbers list gmap strings.
From Stdlib Require Import ZArith Lia Ascii.
From S2P Require Import Prelude GoStrings GoNet Acl.

(** ** Failures *)

(** [*targetPolicyFailure]. *)
Record targetPolicyFailure := MkFailure {
  kind : targetPolicyFailureKind;
  cause : option error;
}.

(** The failure as an [error] value. *)
Definition failure_error (f : targetPolicyFailure) : error := ErrPolicy (kind f) (cause f).

Definition targetPolicyFailure_Error (e : targetPolicyFailure) : gostring :=
  match kind e with
  | targetPolicyMalformed => go "target address is malformed"
  | targetPolicyPortDenied => go "target port is not allowed"
  | targetPolicyDomainDenied | targetPolicyNoAllowedAddress => go "target is not allowed"
  | targetPolicyLookupFailed => go "target lookup failed"
  end.

Definition targetPolicyFailure_statusCode (e : targetPolicyFailure) : Z :=
  match kind e with
  | targetPolicyMalformed => StatusBadRequest
  | targetPolicyLookupFailed => StatusBadGateway
  | _ => StatusForbidden
  end.

Definition errTCPDialFailed : error := ErrMsg (go "target connection failed").

(** connect_dial.go: the status of a failed TCP dial; the error may be nil. *)
Definition tcpDialError (err : option error) : error :=
  if from_option is_timeout false err then ErrHandler StatusGatewayTimeout (ErrMsg (go "target connection timed out"))
  else ErrHandler StatusBadGateway errTCPDialFailed.

(** The text of the nested error in the lookup message is left to [%v]. *)
Definition legacyTargetPolicyError (error_text : error -> gostring)
    (failure : targetPolicyFailure) (host port : gostring) : error :=
  match kind failure with
  | targetPolicyMalformed =>
      ErrHandler StatusBadRequest (default (ErrMsg []) (cause failure))
  | targetPolicyPortDenied =>
      ErrHandler StatusForbidden (ErrMsg (go "port " ++ port ++ go " is not allowed"))
  | targetPolicyDomainDenied =>
      ErrHandler StatusForbidden (ErrMsg (go "disallowed host " ++ host))
  | targetPolicyLookupFailed =>
      ErrHandler StatusBadGateway
        (ErrMsg (go "lookup of " ++ host ++ go " failed: " ++
                 error_text (default (ErrMsg []) (cause failure))))
  | targetPolicyNoAllowedAddress =>
      ErrHandler StatusForbidden (ErrMsg (go "no allowed IP addresses for " ++ host))
  end.

(** ** The checks before resolution *)

(** The handler fields the policy reads. *)
Record policyConfig := MkPolicy { aclRules : list aclRule; AllowedPorts : list Z }.

(** The loop over the domain rules: [Some f] returns early, with the failure
    of a deny or with nil for an allow. *)
Fixpoint domainPolicy (rules : list aclRule) (host : gostring)
    : option (option targetPolicyFailure) :=
  match rules with
  | [] => None
  | RuleDomain r :: rest =>
      match tryMatch r [] host with
      | aclDecisionDeny => Some (Some (MkFailure targetPolicyDomainDenied None))
      | aclDecisionAllow => Some None
      | aclDecisionNoMatch => domainPolicy rest host
      end
  | _ :: rest => domainPolicy rest host
  end.

(** Host, port and failure; a malformed address leaves both strings empty. *)
Definition prepareTargetPolicy (h : policyConfig) (hostPort : gostring)
    : gostring * gostring * option targetPolicyFailure :=
  match SplitHostPort hostPort with
  | Err err => ([], [], Some (MkFailure targetPolicyMalformed (Some err)))
  | Ok (host, port) =>
      if negb (portIsAllowed (AllowedPorts h) port) then
        (host, port, Some (MkFailure targetPolicyPortDenied None))
      else
        match domainPolicy (aclRules h) host with
        | Some f => (host, port, f)
        | None => (host, port, None)
        end
  end.

(** ** Resolution *)

Record resolvedTarget := MkResolved {
  rt_host : gostring;
  rt_port : gostring;
  addresses : list gostring;
}.

(** The loop over the resolver's answer: [seen] is the set of addresses
    already taken, [acc] the result so far. *)
Fixpoint collectAddresses (h : policyConfig) (host port : gostring)
    (seen : gset gostring) (acc : list gostring) (ips : list IP) : list gostring :=
  match ips with
  | [] => acc
  | ip :: rest =>
      if bool_decide (ip = []) || negb (hostIsAllowed (aclRules h) host ip) then
        collectAddresses h host port seen acc rest
      else
        let address := JoinHostPort (IP_String ip) port in
        if decide (address ∈ seen) then collectAddresses h host port seen acc rest
        else collectAddresses h host port ({[address]} ∪ seen) (acc ++ [address]) rest
  end.

Definition resolveTargetCheckACL (lookup : gostring -> result (list IP)) (h : policyConfig)
    (hostPort : gostring) : resolvedTarget + targetPolicyFailure :=
  let '(host, port, failure) := prepareTargetPolicy h hostPort in
  match failure with
  | Some f => inr f
  | None =>
      match lookup host with
      | Err err => inr (MkFailure targetPolicyLookupFailed (Some err))
      | Ok ipAddresses =>
          let addrs := collectAddresses h host port ∅ [] ipAddresses in
          if bool_decide (length addrs = 0) then inr (MkFailure targetPolicyNoAllowedAddress None)
          else inl (MkResolved host port addrs)
      end
  end.

(** ** Lemmas *)

(** The addresses of the allowed answers, in the resolver's order. *)
Definition allowed_addresses (h : policyConfig) (host port : gostring) (ips : list IP) : list gostring :=
  (fun ip => JoinHostPort (IP_String ip) port) <$>
    filter (fun ip => ip <> [] /\ hostIsAllowed (aclRules h) host ip = true) ips.

(** Keep the first occurrence of every element that is not in [seen]. *)
Fixpoint dedup_from (seen : gset gostring) (l : list gostring) : list gostring :=
  match l with
  | [] => []
  | x :: l' => if decide (x ∈ seen) then dedup_from seen l' else x :: dedup_from ({[x]} ∪ seen) l'
  end.

Lemma dedup_from_elem seen l x : x ∈ dedup_from seen l <-> x ∈ l /\ x ∉ seen.
Proof.
  revert seen; induction l as [|y l IH]; intros seen; simpl; [set_solver|].
  case_decide; rewrite ?elem_of_cons, ?IH; clear IH; destruct (decide (x = y)); set_solver.
Qed.

Lemma dedup_from_NoDup seen l : NoDup (dedup_from seen l).
Proof.
  revert seen; induction l as [|y l IH]; intros seen; simpl; [constructor|].
  case_decide; [done|]. constructor; [|done]. rewrite dedup_from_elem. set_solver.
Qed.

Lemma dedup_from_sublist seen l : dedup_from seen l `sublist_of` l.
Proof.
  revert seen; induction l as [|y l IH]; intros seen; simpl; [constructor|].
  case_decide; by constructor.
Qed.

Lemma collectAddresses_dedup h host port seen acc ips :
  collectAddresses h host port seen acc ips =
  acc ++ dedup_from seen (allowed_addresses h host port ips).
Proof.
  unfold allowed_addresses.
  revert seen acc; induction ips as [|ip ips IH]; intros seen acc; simpl; [by rewrite app_nil_r|].
  rewrite filter_cons. destruct (bool_decide (ip = []) || _) eqn:E.
  - destruct (decide (ip <> [] /\ _)) as [[Hne Ha]|_]; [|apply IH].
    apply orb_true_iff in E as [E|E]; reflect_bools; congruence.
  - reflect_bools. destruct (decide (ip <> [] /\ _)) as [_|Hn]; [|naive_solver]. rewrite fmap_cons.
    cbn [dedup_from]. destruct (decide (JoinHostPort (IP_String ip) port ∈ seen)); rewrite IH; [done|].
    by rewrite <- app_assoc.
Qed.

Lemma allowed_addresses_elem h host port ips a :
  a ∈ allowed_addresses h host port ips <->
  exists ip, ip ∈ ips /\ ip <> [] /\ hostIsAllowed (aclRules h) host ip = true /\
    a = JoinHostPort (IP_String ip) port.
Proof.
  unfold allowed_addresses. rewrite list_elem_of_fmap. setoid_rewrite list_elem_of_filter.
  naive_solver.
Qed.

Lemma domainPolicy_deny rules host f :
  domainPolicy rules host = Some (Some f) -> f = MkFailure targetPolicyDomainDenied None.
Proof.
  induction rules as [|[] rules IH]; simpl; auto; [done|].
  destruct (tryMatch r [] host); auto; congruence.
Qed.

Lemma prepareTargetPolicy_None h hostPort host port :
  prepareTargetPolicy h hostPort = (host, port, None) ->
  SplitHostPort hostPort = Ok (host, port) /\ portIsAllowed (AllowedPorts h) port = true /\
  (domainPolicy (aclRules h) host = None \/ domainPolicy (aclRules h) host = Some None).
Proof.
  unfold prepareTargetPolicy. intros H. go_cases_in H; reflect_bools; auto.
Qed.

(** *** Ports the whitelist accepts are plain *)

Lemma parse_digits_all acc s n : parse_digits acc s = Some n -> Forall (fun c => is_digit c = true) s.
Proof.
  revert acc; induction s as [|c s IH]; intros acc; simpl; [constructor|].
  destruct (is_digit c) eqn:E; [|done]. intros H. constructor; eauto.
Qed.

Lemma parse_uint_all s n : parse_uint s = Some n -> Forall (fun c => is_digit c = true) s.
Proof. destruct s; [done|]. apply parse_digits_all. Qed.

Lemma Atoi_chars s n c :
  Atoi s = Some n -> c ∈ s -> is_digit c = true \/ c = "-"%char \/ c = "+"%char.
Proof.
  intros H Hc.
  assert (Hd : forall r, is_Some (parse_uint r) -> c ∈ r -> is_digit c = true).
  { intros r [m Hr%parse_uint_all] Hin. by apply (proj1 (Forall_forall _ _) Hr). }
  assert (Hcases : (exists r, is_Some (parse_uint r) /\ s = "-"%char :: r) \/
                   (exists r, is_Some (parse_uint r) /\ s = "+"%char :: r) \/ is_Some (parse_uint s)).
  { unfold Atoi in H. repeat match type of H with
    | context [match ?x with _ => _ end] => is_var x; destruct x
    end; apply bind_Some in H as (? & ? & _); eauto 6. }
  destruct Hcases as [(r & Hr & ->)|[(r & Hr & ->)|Hs]].
  - apply elem_of_cons in Hc as [->|Hc]; eauto.
  - apply elem_of_cons in Hc as [->|Hc]; eauto.
  - left. eauto.
Qed.

Lemma portIsAllowed_plain ports port : portIsAllowed ports port = true -> plain_port port.
Proof.
  intros (n & Hn & _)%portIsAllowed_spec.
  repeat split; intros Hin; destruct (Atoi_chars _ _ _ Hn Hin) as [?|[?|?]]; discriminate.
Qed.

(** The nil address is never joined: the printed forms are those of
    addresses the rules accepted. *)
Lemma allowed_address_numeric h port ip :
  valid_ip ip -> portIsAllowed (AllowedPorts h) port = true ->
  exists s, SplitHostPort (JoinHostPort (IP_String ip) port) = Ok (s, port) /\ ParseIP s = To16 ip.
Proof.
  intros Hv Hp. exists (IP_String ip).
  split; [|by apply ParseIP_String].
  apply SplitHostPort_address; [done|]. by eapply portIsAllowed_plain.
Qed.

(** ** Theorems *)

(** Resolution returns exactly the ACL-approved answers: on success the target
    passed the port whitelist, and its addresses are the host:port texts of the
    resolver's answers that the ACL allows, in resolver order and without
    duplicates; none is missing. *)
Theorem resolveTargetCheckACL_addresses lookup h hostPort t :
  resolveTargetCheckACL lookup h hostPort = inl t ->
  exists ips,
    SplitHostPort hostPort = Ok (rt_host t, rt_port t) /\
    portIsAllowed (AllowedPorts h) (rt_port t) = true /\
    lookup (rt_host t) = Ok ips /\ addresses t <> [] /\ NoDup (addresses t) /\
    addresses t `sublist_of` allowed_addresses h (rt_host t) (rt_port t) ips /\
    forall a, a ∈ addresses t <->
      exists ip, ip ∈ ips /\ ip <> [] /\ hostIsAllowed (aclRules h) (rt_host t) ip = true /\
        a = JoinHostPort (IP_String ip) (rt_port t).
Proof.
  unfold resolveTargetCheckACL.
  destruct (prepareTargetPolicy h hostPort) as [[host port] [f|]] eqn:Ep; [done|].
  apply prepareTargetPolicy_None in Ep as (Hs & Hp & _).
  destruct (lookup host) as [ips|] eqn:El; [|done].
  rewrite collectAddresses_dedup. simpl app. case_bool_decide as Hn; [done|].
  intros [= <-]. exists ips. cbn [rt_host rt_port addresses].
  repeat split; try done; [by intros E; rewrite E in Hn|apply dedup_from_NoDup|apply dedup_from_sublist|..];
    rewrite dedup_from_elem, allowed_addresses_elem; set_solver.
Qed.

(** No name is resolved twice: every address of a resolved target is numeric and
    parses back to an address of the resolver's answer that the ACL allowed, so
    dialling it cannot reach an unchecked address. *)
Theorem resolved_addresses_numeric lookup h hostPort t a :
  resolveTargetCheckACL lookup h hostPort = inl t -> a ∈ addresses t ->
  (forall host ips ip, lookup host = Ok ips -> ip ∈ ips -> ip = [] \/ valid_ip ip) ->
  exists s ip, SplitHostPort a = Ok (s, rt_port t) /\ ParseIP s = To16 ip /\ valid_ip ip /\
    hostIsAllowed (aclRules h) (rt_host t) ip = true.
Proof.
  unfold resolveTargetCheckACL. intros H Ha Hl.
  destruct (prepareTargetPolicy h hostPort) as [[host port] [f|]] eqn:Ep; [done|].
  apply prepareTargetPolicy_None in Ep as (Hs & Hp & _).
  destruct (lookup host) as [ips|] eqn:El; [|done].
  rewrite collectAddresses_dedup in H. simpl app in H. case_bool_decide; [done|].
  injection H as <-. cbn [addresses rt_port rt_host] in *.
  apply dedup_from_elem in Ha as [(ip & Hip & Hne & Hallow & ->)%allowed_addresses_elem _].
  destruct (Hl _ _ _ El Hip) as [?|Hv]; [done|].
  destruct (allowed_address_numeric h port ip Hv Hp) as (s & ? & ?). eauto 7.
Qed.

Definition example_policy : policyConfig := MkPolicy [RuleAll (MkAllRule true)] [443]%Z.
Definition example_lookup (host : gostring) : result (list IP) :=
  Ok [z_bytes [1; 1; 1; 1]%Z; []; z_bytes [1; 1; 1; 1]%Z; z_bytes [9; 9; 9; 9]%Z].

Lemma resolveTargetCheckACL_addresses_witness :
  exists ips,
    SplitHostPort (go "dns.test:443") = Ok (go "dns.test", go "443") /\
    portIsAllowed (AllowedPorts example_policy) (go "443") = true /\
    example_lookup (go "dns.test") = Ok ips /\ [go "1.1.1.1:443"; go "9.9.9.9:443"] <> [] /\
    NoDup [go "1.1.1.1:443"; go "9.9.9.9:443"] /\
    [go "1.1.1.1:443"; go "9.9.9.9:443"] `sublist_of`
      allowed_addresses example_policy (go "dns.test") (go "443") ips /\
    forall a, a ∈ [go "1.1.1.1:443"; go "9.9.9.9:443"] <->
      exists ip, ip ∈ ips /\ ip <> [] /\ hostIsAllowed (aclRules example_policy) (go "dns.test") ip = true /\
        a = JoinHostPort (IP_String ip) (go "443").
Proof.
  apply (resolveTargetCheckACL_addresses example_lookup example_policy (go "dns.test:443")
    (MkResolved (go "dns.test") (go "443") [go "1.1.1.1:443"; go "9.9.9.9:443"])).
  vm_compute. reflexivity.
Defined.

Lemma resolved_addresses_numeric_witness :
  exists s ip, SplitHostPort (go "9.9.9.9:443") = Ok (s, go "443") /\ ParseIP s = To16 ip /\ valid_ip ip /\
    hostIsAllowed (aclRules example_policy) (go "dns.test") ip = true.
Proof.
  apply (resolved_addresses_numeric example_lookup example_policy (go "dns.test:443")
    (MkResolved (go "dns.test") (go "443") [go "1.1.1.1:443"; go "9.9.9.9:443"]) (go "9.9.9.9:443")).
  - vm_compute. reflexivity.
  - right. left.
  - intros host ips ip [= <-] Hin.
    repeat (apply elem_of_cons in Hin as [->|Hin]; [first [left; reflexivity | right; left; reflexivity]|]).
    by apply not_elem_of_nil in Hin.
Defined.

(** A target the port whitelist or a domain rule refuses, or that does not split
    into host and port, fails before any name is resolved: the outcome does not
    depend on the resolver, and it is a 400 for a malformed target and a 403
    otherwise. *)
Theorem refused_before_lookup h hostPort :
  (forall host port, SplitHostPort hostPort = Ok (host, port) ->
     portIsAllowed (AllowedPorts h) port = false \/
     domainPolicy (aclRules h) host = Some (Some (MkFailure targetPolicyDomainDenied None))) ->
  exists f, (forall lookup', resolveTargetCheckACL lookup' h hostPort = inr f) /\
    targetPolicyFailure_statusCode f =
      match SplitHostPort hostPort with Err _ => StatusBadRequest | Ok _ => StatusForbidden end.
Proof.
  intros H. unfold resolveTargetCheckACL, prepareTargetPolicy.
  destruct (SplitHostPort hostPort) as [[host port]|e]; [|by eexists].
  destruct (H host port eq_refl) as [->|E]; [by eexists|].
  destruct (portIsAllowed _ port); [|by eexists]. rewrite E. by eexists.
Qed.

Lemma refused_before_lookup_witness :
  exists f, (forall lookup', resolveTargetCheckACL lookup' example_policy (go "dns.test:80") = inr f) /\
    targetPolicyFailure_statusCode f =
      match SplitHostPort (go "dns.test:80") with Err _ => StatusBadRequest | Ok _ => StatusForbidden end.
Proof.
  apply (refused_before_lookup example_policy (go "dns.test:80")).
  intros host port E. left. vm_compute in E. injection E as <- <-. vm_compute. reflexivity.
Defined.

(** The domain rules are consulted on their own before resolution, so a domain deny
    refuses a host even when an earlier rule of the list allows every address. *)
Theorem domain_deny_ignores_earlier_rules :
  exists h hostPort host ip,
    hostIsAllowed (aclRules h) host ip = true /\
    prepareTargetPolicy h hostPort = (host, go "443", Some (MkFailure targetPolicyDomainDenied None)).
Proof.
  exists (MkPolicy [RuleAll (MkAllRule true); RuleDomain (MkDomainRule (go "bad.test") true false)] []),
    (go "www.bad.test:443"), (go "www.bad.test"), (z_bytes [1; 1; 1; 1]%Z).
  split; vm_compute; reflexivity.
Qed.

