(* ===== verification/Feed.v ===== *)
(** * The candidate feed of the TCP dial race

    connect_dial_incremental.go's [tcpFamilyFeed] with its operations, and
    connect_dial.go's [interleaveTCPAddresses].  The operations run under the
    feed's mutex, so each is one function on the feed record.  The refinement
    theorem says that draining the feed one candidate at a time gives the
    order of the static interleaving. *)

From stdpp Require Import base decidable numbers list gmap strings.
From Stdlib Require Import ZArith Lia Ascii.
From S2P Require Import Prelude GoStrings GoNet Acl Policy.

(** ** State *)

(** [wake] is the one-slot channel: [true] when it holds a token. *)
Record tcpFamilyFeed := MkFeed {
  v4 : list gostring;
  v6 : list gostring;
  seen : gset gostring;
  closed : bool;
  wake : bool;
  errV4 : option error;
  errV6 : option error;
  passedACL : nat;
}.

Definition newTCPFamilyFeed : tcpFamilyFeed := MkFeed [] [] ∅ false false None None 0.

Definition set_queues (f : tcpFamilyFeed) (q4 q6 : list gostring) : tcpFamilyFeed :=
  MkFeed q4 q6 (seen f) (closed f) (wake f) (errV4 f) (errV6 f) (passedACL f).

(** ** Operations *)

(** A non-blocking send on the one-slot channel. *)
Definition pulse (f : tcpFamilyFeed) : tcpFamilyFeed :=
  MkFeed (v4 f) (v6 f) (seen f) (closed f) true (errV4 f) (errV6 f) (passedACL f).

(** The receive on the channel by the scheduler. *)
Definition take_wake (f : tcpFamilyFeed) : tcpFamilyFeed :=
  MkFeed (v4 f) (v6 f) (seen f) (closed f) false (errV4 f) (errV6 f) (passedACL f).

Definition feed_empty (f : tcpFamilyFeed) : bool :=
  bool_decide (length (v4 f) = 0) && bool_decide (length (v6 f) = 0).

Definition popLocked (f : tcpFamilyFeed) (lastFamily : Z) : option gostring * tcpFamilyFeed :=
  if feed_empty f then (None, f)
  else
    let takeV6 :=
      if (lastFamily =? 0)%Z then bool_decide (0 < length (v6 f))
      else if (lastFamily =? 4)%Z then bool_decide (0 < length (v6 f))
      else bool_decide (length (v4 f) = 0) in
    if takeV6 then
      match v6 f with
      | addr :: rest => (Some addr, set_queues f (v4 f) rest)
      | [] => (None, f)
      end
    else
      match v4 f with
      | addr :: rest => (Some addr, set_queues f rest (v6 f))
      | [] => (None, f)
      end.

(** The candidate (empty when none is due), the closed flag and emptiness. *)
Definition advance (f : tcpFamilyFeed) (due : bool) (lastFamily : Z)
    : gostring * bool * bool * tcpFamilyFeed :=
  let empty := feed_empty f in
  if due && negb empty then
    match popLocked f lastFamily with
    | (Some addr, f') => (addr, closed f, false, f')
    | (None, _) => ([], closed f, empty, f)
    end
  else ([], closed f, empty, f).

Definition finalError (f : tcpFamilyFeed) (started : nat) (lastErr : option error) : error :=
  if bool_decide (0 < started) then default errTCPDialFailed lastErr
  else
    match errV4 f, errV6 f with
    | Some e4, Some _ => ErrPolicy targetPolicyLookupFailed (Some e4)
    | _, _ =>
        if bool_decide (passedACL f = 0) then ErrPolicy targetPolicyNoAllowedAddress None
        else errTCPDialFailed
    end.

(** *** Admission of one family's answer (the critical section of [resolve]) *)

Section Admission.
Variable h : policyConfig.
Variables network host port : gostring.

(** One iteration of the loop over the answers; the boolean is [added]. *)
Definition admit_one (isV6 : bool) (st : tcpFamilyFeed * bool) (ip : IP) : tcpFamilyFeed * bool :=
  let '(f, added) := st in
  if bool_decide (ip = []) then st
  else if negb (hostIsAllowed (aclRules h) host ip) then st
  else
    let f := MkFeed (v4 f) (v6 f) (seen f) (closed f) (wake f) (errV4 f) (errV6 f) (S (passedACL f)) in
    let isv4 := is_v4 ip in
    if Bool.eqb isv4 isV6 then (f, added)
    else if (bool_decide (network = go "tcp4") && negb isv4) ||
            (bool_decide (network = go "tcp6") && isv4) then (f, added)
    else
      let addr := JoinHostPort (IP_String ip) port in
      if decide (addr ∈ seen f) then (f, added)
      else
        let seen' := {[addr]} ∪ seen f in
        (if isV6
         then MkFeed (v4 f) (v6 f ++ [addr]) seen' (closed f) (wake f) (errV4 f) (errV6 f) (passedACL f)
         else MkFeed (v4 f ++ [addr]) (v6 f) seen' (closed f) (wake f) (errV4 f) (errV6 f) (passedACL f),
         true).

Definition resolve (isV6 : bool) (answer : result (list IP)) (f : tcpFamilyFeed) : tcpFamilyFeed * bool :=
  match answer with
  | Err err =>
      (if isV6
       then MkFeed (v4 f) (v6 f) (seen f) (closed f) (wake f) (errV4 f) (Some err) (passedACL f)
       else MkFeed (v4 f) (v6 f) (seen f) (closed f) (wake f) (Some err) (errV6 f) (passedACL f),
       false)
  | Ok addrs => foldl (admit_one isV6) (f, false) addrs
  end.
End Admission.

(** [feed.closed = true], once both lookups are done. *)
Definition close_feed (f : tcpFamilyFeed) : tcpFamilyFeed :=
  MkFeed (v4 f) (v6 f) (seen f) true (wake f) (errV4 f) (errV6 f) (passedACL f).

(** [lookupIPFamilyDefault] keeps the resolver's addresses in order. *)
Definition lookupIPFamilyDefault (lookupIP : gostring -> gostring -> result (list IP))
    (family host : gostring) : result (list IP) :=
  addrs ← lookupIP family host; Ok (foldl (fun acc ip => acc ++ [ip]) [] addrs).

(** [familyByte]: the family of a numeric host:port, 0 when it does not split. *)
Definition familyByte (address : gostring) : Z :=
  match SplitHostPort address with
  | Err _ => 0
  | Ok (ipHost, _) =>
      match ParseIP ipHost with
      | Some ip => if is_v4 ip then 4 else 6
      | None => 6
      end
  end.

(** ** The static interleaving of connect_dial.go *)

(** The first loop: primary, fallback and [primaryV4]. *)
Fixpoint split_families (network : gostring) (primary fallback : list gostring) (primaryV4 : bool)
    (addresses : list gostring) : list gostring * list gostring :=
  match addresses with
  | [] => (primary, fallback)
  | address :: rest =>
      match SplitHostPort address with
      | Err _ => split_families network primary fallback primaryV4 rest
      | Ok (host, _) =>
          match ParseIP host with
          | None => split_families network primary fallback primaryV4 rest
          | Some ip =>
              let isv4 := is_v4 ip in
              if (bool_decide (network = go "tcp4") && negb isv4) ||
                 (bool_decide (network = go "tcp6") && isv4)
              then split_families network primary fallback primaryV4 rest
              else
                let primaryV4 := if bool_decide (length primary = 0) then isv4 else primaryV4 in
                if Bool.eqb isv4 primaryV4
                then split_families network (primary ++ [address]) fallback primaryV4 rest
                else split_families network primary (fallback ++ [address]) primaryV4 rest
          end
      end
  end.

(** The second loop: index [i] of both lists in turn. *)
Fixpoint alternate (primary fallback : list gostring) : list gostring :=
  match primary, fallback with
  | p :: primary', f :: fallback' => p :: f :: alternate primary' fallback'
  | [], _ => fallback
  | _, [] => primary
  end.

Definition interleaveTCPAddresses (network : gostring) (addresses : list gostring) : list gostring :=
  let '(primary, fallback) := split_families network [] [] false addresses in
  alternate primary fallback.

Example interleave_ex :
  interleaveTCPAddresses (go "tcp")
    [go "1.1.1.1:80"; go "[2001::1]:80"; go "bad"; go "2.2.2.2:80"; go "3.3.3.3:80"] =
  [go "1.1.1.1:80"; go "[2001::1]:80"; go "2.2.2.2:80"; go "3.3.3.3:80"].
Proof. vm_compute. reflexivity. Qed.

(** ** Candidates *)

Section Candidates.
Variable h : policyConfig.
Variables network host port : gostring.

(** The requested network admits the family. *)
Definition family_ok (isV6 : bool) : Prop :=
  if isV6 then network <> go "tcp4" else network <> go "tcp6".

(** A candidate of a family: the text of an ACL-approved address of it. *)
Definition candidate (isV6 : bool) (a : gostring) : Prop :=
  exists ip, valid_ip ip /\ hostIsAllowed (aclRules h) host ip = true /\
    is_v4 ip = negb isV6 /\ family_ok isV6 /\ a = JoinHostPort (IP_String ip) port.

(** The answers of one family that are admitted, before deduplication. *)
Definition admissible (isV6 : bool) (ip : IP) : bool :=
  negb (bool_decide (ip = [])) && hostIsAllowed (aclRules h) host ip &&
  negb (Bool.eqb (is_v4 ip) isV6) &&
  negb ((bool_decide (network = go "tcp4") && negb (is_v4 ip)) ||
        (bool_decide (network = go "tcp6") && is_v4 ip)).

Definition admitted (isV6 : bool) (ips : list IP) : list gostring :=
  (fun ip => JoinHostPort (IP_String ip) port) <$> filter (fun ip => admissible isV6 ip = true) ips.

Definition approved (ips : list IP) : nat :=
  length (filter (fun ip => ip <> [] /\ hostIsAllowed (aclRules h) host ip = true) ips).

Lemma admissible_candidate isV6 ip :
  valid_ip ip -> admissible isV6 ip = true -> candidate isV6 (JoinHostPort (IP_String ip) port).
Proof.
  intros Hv Ha. unfold admissible in Ha. reflect_bools. exists ip.
  repeat split; auto; [by destruct (is_v4 ip), isV6|].
  unfold family_ok. destruct isV6, (is_v4 ip); simpl in *; try done;
    repeat case_bool_decide; done.
Qed.

Lemma candidate_family isV6 a :
  plain_port port -> candidate isV6 a -> familyByte a = (if isV6 then 6 else 4)%Z.
Proof.
  intros Hp (ip & Hv & _ & Hf & _ & ->). unfold familyByte.
  rewrite SplitHostPort_address, ParseIP_String by done.
  destruct (valid_ip_To16 ip Hv) as (ip16 & H16 & _). rewrite H16.
  rewrite (is_v4_To16 _ _ H16), Hf. by destruct isV6.
Qed.

(** One admission step, as a function of the answer. *)
Lemma admit_one_queue isV6 f added ip :
  let r := admit_one h network host port isV6 (f, added) ip in
  let addr := JoinHostPort (IP_String ip) port in
  if admissible isV6 ip && negb (bool_decide (addr ∈ seen f)) then
    (if isV6 then v6 r.1 = v6 f ++ [addr] /\ v4 r.1 = v4 f
     else v4 r.1 = v4 f ++ [addr] /\ v6 r.1 = v6 f) /\
    seen r.1 = {[addr]} ∪ seen f /\ r.2 = true
  else v4 r.1 = v4 f /\ v6 r.1 = v6 f /\ seen r.1 = seen f /\ r.2 = added.
Proof.
  unfold admissible, admit_one. cbv zeta.
  destruct (bool_decide (ip = [])); simpl; [done|].
  destruct (hostIsAllowed (aclRules h) host ip); simpl; [|done].
  destruct (Bool.eqb (is_v4 ip) isV6); simpl; [done|].
  destruct (_ || _); simpl; [done|].
  destruct (decide (_ ∈ _)) as [Hin|Hn].
  - by rewrite bool_decide_true.
  - rewrite bool_decide_false by done. by destruct isV6.
Qed.

Lemma admit_one_rest isV6 f added ip :
  let r := admit_one h network host port isV6 (f, added) ip in
  closed r.1 = closed f /\ wake r.1 = wake f /\ errV4 r.1 = errV4 f /\ errV6 r.1 = errV6 f /\
  passedACL r.1 = (if negb (bool_decide (ip = [])) && hostIsAllowed (aclRules h) host ip
                   then S (passedACL f) else passedACL f).
Proof.
  unfold admit_one. cbv zeta.
  destruct (bool_decide (ip = [])); simpl; [done|].
  destruct (hostIsAllowed (aclRules h) host ip); simpl; [|done].
  destruct (Bool.eqb (is_v4 ip) isV6); simpl; [done|].
  destruct (_ || _); simpl; [done|]. destruct (decide _); [done|]. by destruct isV6.
Qed.

Lemma resolve_fold isV6 ips f added :
  let r := foldl (admit_one h network host port isV6) (f, added) ips in
  (if isV6 then v6 r.1 = v6 f ++ dedup_from (seen f) (admitted isV6 ips) /\ v4 r.1 = v4 f
   else v4 r.1 = v4 f ++ dedup_from (seen f) (admitted isV6 ips) /\ v6 r.1 = v6 f) /\
  (forall a, a ∈ seen r.1 <-> a ∈ seen f \/ a ∈ admitted isV6 ips) /\
  r.2 = added || negb (bool_decide (dedup_from (seen f) (admitted isV6 ips) = [])).
Proof.
  revert f added. induction ips as [|ip ips IH]; intros f added; cbn [foldl].
  - unfold admitted. simpl. rewrite !app_nil_r, orb_false_r. split; [by destruct isV6|].
    split; [set_solver|done].
  - pose proof (admit_one_queue isV6 f added ip) as Hq. cbv zeta in Hq.
    destruct (admit_one h network host port isV6 (f, added) ip) as [f1 added1]. cbn [fst snd] in Hq.
    specialize (IH f1 added1). cbv zeta in IH. destruct IH as (IHq & IHs & IHa).
    unfold admitted in *. rewrite filter_cons. destruct (admissible isV6 ip); simpl in Hq.
    + rewrite decide_True by done. rewrite fmap_cons. cbn [dedup_from].
      case_bool_decide as Hin; cbn [negb] in Hq.
      * destruct Hq as (Hv4 & Hv6 & Hs & ->). rewrite Hv4, Hv6, Hs in *.
        rewrite decide_True by done. split; [done|]. split; [|done].
        intros a. rewrite IHs. set_solver.
      * destruct Hq as (Hv & Hs & ->). rewrite Hs in *. rewrite decide_False by done.
        split; [|split; [intros a; rewrite IHs; set_solver|]].
        -- destruct isV6; destruct Hv as [Hv Hw]; rewrite Hv, Hw in IHq; by rewrite <- app_assoc in IHq.
        -- rewrite IHa. by rewrite orb_true_r.
    + rewrite decide_False by done. destruct Hq as (Hv4 & Hv6 & Hs & ->).
      by rewrite Hv4, Hv6, Hs in *.
Qed.

Lemma resolve_fold_rest isV6 ips f added :
  let r := foldl (admit_one h network host port isV6) (f, added) ips in
  closed r.1 = closed f /\ wake r.1 = wake f /\ errV4 r.1 = errV4 f /\ errV6 r.1 = errV6 f /\
  passedACL r.1 = passedACL f + approved ips.
Proof.
  revert f added. induction ips as [|ip ips IH]; intros f added; cbn [foldl].
  - unfold approved. simpl. repeat split; lia.
  - pose proof (admit_one_rest isV6 f added ip) as Hq. cbv zeta in Hq.
    destruct (admit_one h network host port isV6 (f, added) ip) as [f1 added1]. cbn [fst snd] in Hq.
    specialize (IH f1 added1). cbv zeta in IH. destruct IH as (-> & -> & -> & -> & ->).
    destruct Hq as (-> & -> & -> & -> & ->). repeat split.
    unfold approved. rewrite filter_cons.
    destruct (decide (ip <> [] /\ _)) as [[Hne Ha]|Hn].
    + rewrite bool_decide_false, Ha by done. simpl. lia.
    + case_bool_decide as Hnil; [simpl; lia|]. destruct (hostIsAllowed _ _ _); [naive_solver|simpl; lia].
Qed.
End Candidates.

(** ** Draining the feed *)

(** Candidates one at a time, each start setting [lastFamily]. *)
Fixpoint drain (fuel : nat) (f : tcpFamilyFeed) (lastFamily : Z) : list gostring :=
  match fuel with
  | O => []
  | S fuel' =>
      match popLocked f lastFamily with
      | (Some a, f') => a :: drain fuel' f' (familyByte a)
      | (None, _) => []
      end
  end.

Lemma alternate_cons p ps fs : alternate (p :: ps) fs = p :: alternate fs ps.
Proof.
  revert p fs; induction ps as [|q ps IH]; intros p fs.
  - destruct fs as [|f fs]; [done|]. simpl. by destruct fs.
  - destruct fs as [|f fs]; [done|]. cbn [alternate]. by rewrite <- IH.
Qed.

Definition queues_by_family (q4 q6 : list gostring) : Prop :=
  Forall (fun a => familyByte a = 4%Z) q4 /\ Forall (fun a => familyByte a = 6%Z) q6.

Lemma drain_alternate n f :
  queues_by_family (v4 f) (v6 f) -> length (v4 f) + length (v6 f) <= n ->
  drain n f 4 = alternate (v6 f) (v4 f) /\ drain n f 6 = alternate (v4 f) (v6 f).
Proof.
  revert f; induction n as [|n IH]; intros f [H4 H6] Hn.
  - destruct f as [[|] [|]]; simpl in *; try lia. done.
  - cbn [drain]. unfold popLocked, feed_empty.
    change (4 =? 0)%Z with false. change (4 =? 4)%Z with true.
    change (6 =? 0)%Z with false. change (6 =? 4)%Z with false. cbv iota.
    destruct (v4 f) as [|a q4] eqn:E4, (v6 f) as [|b q6] eqn:E6; simpl in Hn;
      rewrite ?(bool_decide_true (0 < length (_ :: _))), ?(bool_decide_false (0 < length (@nil _))),
        ?(bool_decide_true (length (@nil _) = 0)), ?(bool_decide_false (length (_ :: _) = 0))
        by (simpl; lia); cbn [andb]; try done.
    + apply Forall_cons in H6 as [Hb H6].
      destruct (IH (set_queues f [] q6)) as [_ IH6]; [done|simpl; lia|].
      rewrite Hb, IH6. cbn [set_queues v4 v6]. by rewrite alternate_cons.
    + apply Forall_cons in H4 as [Ha H4].
      destruct (IH (set_queues f q4 [])) as [IH4 _]; [done|simpl; lia|].
      rewrite Ha, IH4. cbn [set_queues v4 v6]. by rewrite alternate_cons.
    + apply Forall_cons in H6 as [Hb H6]. apply Forall_cons in H4 as [Ha H4].
      destruct (IH (set_queues f (a :: q4) q6)) as [_ IH6]; [by split; [constructor|]|simpl; lia|].
      destruct (IH (set_queues f q4 (b :: q6))) as [IH4 _]; [by split; [|constructor]|simpl; lia|].
      rewrite Ha, Hb, IH4, IH6. cbn [set_queues v4 v6]. by rewrite !alternate_cons.
Qed.

(** A numeric address with its family, as the interleaving reads it. *)
Definition numeric (isv4 : bool) (a : gostring) : Prop :=
  exists hp ip, SplitHostPort a = Ok hp /\ ParseIP hp.1 = Some ip /\ is_v4 ip = isv4.

Lemma numeric_family isv4 a : numeric isv4 a -> familyByte a = (if isv4 then 4 else 6)%Z.
Proof. intros ([s p] & ip & Hs & Hp & <-). unfold familyByte. cbn [fst] in Hp. by rewrite Hs, Hp. Qed.

Lemma candidate_numeric h network host port isV6 a :
  plain_port port -> candidate h network host port isV6 a -> numeric (negb isV6) a.
Proof.
  intros Hp (ip & Hv & _ & Hf & _ & ->).
  destruct (valid_ip_To16 ip Hv) as (ip16 & H16 & _).
  exists (IP_String ip, port), ip16. split; [by apply SplitHostPort_address|].
  cbn [fst]. rewrite ParseIP_String by done. split; [done|]. by rewrite (is_v4_To16 _ _ H16).
Qed.

Lemma split_families_step isv4 primary fallback pv4 a rest :
  numeric isv4 a ->
  split_families (go "tcp") primary fallback pv4 (a :: rest) =
  let pv4' := if bool_decide (length primary = 0) then isv4 else pv4 in
  if Bool.eqb isv4 pv4' then split_families (go "tcp") (primary ++ [a]) fallback pv4' rest
  else split_families (go "tcp") primary (fallback ++ [a]) pv4' rest.
Proof. intros ([s p] & ip & Hs & Hp & <-). cbn [split_families fst] in *. by rewrite Hs, Hp. Qed.

Lemma split_families_primary isv4 q primary fallback rest :
  Forall (numeric isv4) q -> primary <> [] ->
  split_families (go "tcp") primary fallback isv4 (q ++ rest) =
  split_families (go "tcp") (primary ++ q) fallback isv4 rest.
Proof.
  intros Hq. revert primary. induction Hq as [|a q Ha Hq IH]; intros primary Hp.
  - by rewrite app_nil_r.
  - cbn [app]. rewrite (split_families_step isv4) by done. cbv zeta.
    rewrite bool_decide_false by by destruct primary. rewrite eqb_reflx.
    rewrite IH by by destruct primary. by rewrite <- app_assoc.
Qed.

Lemma split_families_fallback isv4 q primary fallback :
  Forall (numeric (negb isv4)) q -> primary <> [] ->
  split_families (go "tcp") primary fallback isv4 q = (primary, fallback ++ q).
Proof.
  intros Hq. revert fallback. induction Hq as [|a q Ha Hq IH]; intros fallback Hp.
  - by rewrite app_nil_r.
  - rewrite (split_families_step (negb isv4)) by done. cbv zeta.
    rewrite bool_decide_false by by destruct primary.
    replace (Bool.eqb (negb isv4) isv4) with false by by destruct isv4.
    rewrite IH by done. by rewrite <- app_assoc.
Qed.

Lemma split_families_groups isv4 x q1 q2 :
  Forall (numeric isv4) (x :: q1) -> Forall (numeric (negb isv4)) q2 ->
  split_families (go "tcp") [] [] false ((x :: q1) ++ q2) = (x :: q1, q2).
Proof.
  intros [Hx H1]%Forall_cons H2. cbn [app]. rewrite (split_families_step isv4) by done. cbv zeta.
  rewrite bool_decide_true, eqb_reflx by done.
  rewrite split_families_primary by done. rewrite split_families_fallback by done. done.
Qed.

(** ** Theorems *)

(** The lazy rule of popLocked reproduces the static interleaving: draining a feed
    of ACL-approved candidates, each start setting the last family, dials them in
    the order interleaveTCPAddresses gives for the same addresses with the IPv6
    ones first. *)
Theorem drain_refines_interleave h network host port f :
  plain_port port ->
  Forall (candidate h network host port false) (v4 f) ->
  Forall (candidate h network host port true) (v6 f) ->
  drain (length (v4 f) + length (v6 f)) f 0 =
  interleaveTCPAddresses (go "tcp") (v6 f ++ v4 f).
Proof.
  intros Hp C4 C6.
  assert (H4 : Forall (numeric true) (v4 f)).
  { eapply Forall_impl; [exact C4|]. intros a. by apply (candidate_numeric h network host port false). }
  assert (H6 : Forall (numeric false) (v6 f)).
  { eapply Forall_impl; [exact C6|]. intros a. by apply (candidate_numeric h network host port true). }
  clear C4 C6.
  assert (Hq : forall q4 q6, Forall (numeric true) q4 -> Forall (numeric false) q6 -> queues_by_family q4 q6).
  { intros q4 q6 Hn4 Hn6. split; (eapply Forall_impl; [done|]); intros a Ha; by apply (numeric_family _ _ Ha). }
  unfold interleaveTCPAddresses. destruct (v6 f) as [|b q6] eqn:E6.
  - destruct (v4 f) as [|a q4] eqn:E4; [done|].
    replace ([] ++ a :: q4) with ((a :: q4) ++ []) by by rewrite app_nil_r.
    rewrite (split_families_groups true) by done.
    cbn [drain length Nat.add]. unfold popLocked, feed_empty. rewrite E6, E4.
    change (0 =? 0)%Z with true. rewrite (bool_decide_false (length (a :: q4) = 0)) by (simpl; lia).
    cbn [andb]. cbv iota. rewrite bool_decide_false by (simpl; lia).
    apply Forall_cons in H4 as [Ha H4]. rewrite (numeric_family _ _ Ha).
    destruct (drain_alternate (length q4 + 0) (set_queues f q4 [])) as [-> _];
      [by apply Hq|simpl; lia|].
    cbn [set_queues v4 v6]. by rewrite alternate_cons.
  - rewrite (split_families_groups false) by done.
    apply Forall_cons in H6 as [Hb H6].
    rewrite Nat.add_comm. cbn [drain length Nat.add]. unfold popLocked, feed_empty. rewrite E6.
    change (0 =? 0)%Z with true. rewrite (bool_decide_false (length (b :: q6) = 0)) by (simpl; lia).
    rewrite andb_false_r. cbv iota. rewrite bool_decide_true by (simpl; lia).
    rewrite (numeric_family _ _ Hb).
    destruct (drain_alternate (length q6 + length (v4 f)) (set_queues f (v4 f) q6)) as [_ ->];
      [by apply Hq|simpl; lia|].
    cbn [set_queues v4 v6]. by rewrite alternate_cons.
Qed.

Definition example_feed : tcpFamilyFeed :=
  (resolve example_policy (go "tcp") (go "dns.test") (go "443") true
     (Ok [replicate 15 zero_byte ++ [byte_of_Z 9]])
     (resolve example_policy (go "tcp") (go "dns.test") (go "443") false
        (Ok [z_bytes [1; 1; 1; 1]%Z; z_bytes [2; 2; 2; 2]%Z]) newTCPFamilyFeed).1).1.

Lemma drain_refines_interleave_witness :
  drain 3 example_feed 0 = interleaveTCPAddresses (go "tcp") (v6 example_feed ++ v4 example_feed) /\
  drain 3 example_feed 0 = [go "[::9]:443"; go "1.1.1.1:443"; go "2.2.2.2:443"].
Proof.
  split; [|vm_compute; reflexivity].
  apply (drain_refines_interleave example_policy (go "tcp") (go "dns.test") (go "443") example_feed).
  - repeat split; vm_compute; intros H; repeat (apply elem_of_cons in H as [H|H]; [discriminate|]);
      by apply not_elem_of_nil in H.
  - repeat constructor.
    + exists (z_bytes [1; 1; 1; 1]%Z). repeat split; [by left|discriminate].
    + exists (z_bytes [2; 2; 2; 2]%Z). repeat split; [by left|discriminate].
  - repeat constructor. exists (replicate 15 zero_byte ++ [byte_of_Z 9]).
    repeat split; [by right|discriminate].
Defined.

(** Admission of one family's answer appends exactly its ACL-approved addresses of
    that family and network that were not admitted before, in resolver order, to
    that family's queue, leaves the other queue alone, counts every approved
    answer, and reports whether anything was added; a failed lookup only records
    its error. *)
Theorem resolve_admits h network host port isV6 answer f :
  let r := resolve h network host port isV6 answer f in
  match answer with
  | Ok ips =>
      let new := dedup_from (seen f) (admitted h network host port isV6 ips) in
      (if isV6 then v6 r.1 = v6 f ++ new /\ v4 r.1 = v4 f
       else v4 r.1 = v4 f ++ new /\ v6 r.1 = v6 f) /\
      passedACL r.1 = passedACL f + approved h host ips /\
      r.2 = negb (bool_decide (new = [])) /\ errV4 r.1 = errV4 f /\ errV6 r.1 = errV6 f
  | Err e =>
      v4 r.1 = v4 f /\ v6 r.1 = v6 f /\ seen r.1 = seen f /\ r.2 = false /\
      (if isV6 then errV6 r.1 = Some e /\ errV4 r.1 = errV4 f
       else errV4 r.1 = Some e /\ errV6 r.1 = errV6 f)
  end.
Proof.
  cbv zeta. destruct answer as [ips|e]; cbn [resolve]; [|by destruct isV6].
  destruct (resolve_fold h network host port isV6 ips f false) as (Hq & _ & Ha).
  destruct (resolve_fold_rest h network host port isV6 ips f false) as (_ & _ & He4 & He6 & Hp).
  by repeat split.
Qed.

(** An address the interleaving keeps for a network. *)
Definition kept (network a : gostring) : bool :=
  match SplitHostPort a with
  | Ok (host, _) =>
      match ParseIP host with
      | Some ip => negb ((bool_decide (network = go "tcp4") && negb (is_v4 ip)) ||
                         (bool_decide (network = go "tcp6") && is_v4 ip))
      | None => false
      end
  | Err _ => false
  end.

Lemma alternate_perm p f : alternate p f ≡ₚ p ++ f.
Proof.
  revert f; induction p as [|x p IH]; intros [|y f]; simpl; rewrite ?app_nil_r; try done.
  rewrite IH. by rewrite Permutation_middle.
Qed.

Lemma split_families_perm network addrs p f b :
  (let '(p', f') := split_families network p f b addrs in p' ++ f') ≡ₚ
  p ++ f ++ filter (fun a => kept network a = true) addrs.
Proof.
  revert p f b. induction addrs as [|a addrs IH]; intros p f b; cbn [split_families].
  - by rewrite filter_nil, app_nil_r.
  - rewrite filter_cons. destruct (decide (kept network a = true)) as [E|E]; unfold kept in E;
      destruct (SplitHostPort a) as [[s q]|]; try done;
      destruct (ParseIP s) as [ip|]; try done; destruct (_ || _); try done.
    destruct (Bool.eqb _ _); rewrite IH, <- !app_assoc; solve_Permutation.
Qed.

(** On a static address list interleaveTCPAddresses keeps exactly the numeric
    addresses of the requested network, each as often as it occurs. *)
Theorem interleave_permutation network addrs :
  interleaveTCPAddresses network addrs ≡ₚ filter (fun a => kept network a = true) addrs.
Proof.
  unfold interleaveTCPAddresses. pose proof (split_families_perm network addrs [] [] false) as H.
  destruct (split_families _ _ _ _ _) as [p f]. by rewrite alternate_perm.
Qed.
