(* ===== verification/DialRace.v ===== *)
(** * The TCP dial race: dialTCPIncremental of connect_dial_incremental.go

    The function runs one scheduler loop, two lookup goroutines, the goroutine
    that closes the feed and one goroutine per dial.  A state holds the shared
    feed, the locals of the loop and the goroutines in flight; [step] is one
    atomic action of one of them: a critical section under the feed's mutex, a
    channel operation, one round of the loop up to its [select], the end of a
    dial, the passing of time, or the end of the request context.  Every
    interleaving is a path of [step].  The resolver and the dialer are the
    environment: a lookup may answer anything a resolver can return and a dial
    may return any connection and error. *)

From stdpp Require Import base decidable numbers list gmap strings relations.
From Stdlib Require Import ZArith Lia Ascii.
From S2P Require Import Prelude GoStrings GoNet Acl Policy Feed.

(** ** Constants of connect_dial.go, in nanoseconds *)

Definition Millisecond : Z := 1000000.
Definition tcpFallbackDelay : Z := 250 * Millisecond.
Definition tcpMinimumDelay : Z := 100 * Millisecond.
Definition tcpAttemptTimeout : Z := 5000 * Millisecond.

(** ** State *)

(** A connection is an identity; [openConns] holds those not yet closed. *)
Abbreviation conn := nat (only parsing).

(** A dial goroutine: in [dialContext], or offering its result. *)
Inductive attemptState :=
  | Dialing
  | Offering (c : option conn) (err : option error).

Record attempt := MkAttempt { at_addr : gostring; at_start : Z; at_state : attemptState }.

(** A lookup goroutine: in the resolver, between its critical section and its
    [pulse], or done. *)
Inductive lookupState := Looking | MustPulse | LookupDone.

(** The goroutine that waits for both lookups. *)
Inductive closerState := Waiting | CloseMustPulse | CloserDone.

(** The locals of the scheduler loop; [nextReadyAt] is [None] for the zero
    time and [timer] is the instant the timer is armed for. *)
Record sched := MkSched {
  started : nat;
  pending : nat;
  lastStart : Z;
  lastFamily : Z;
  lastErr : option error;
  nextReadyAt : option Z;
  timer : option Z;
}.

(** History of starts, latest first, for the statements about the schedule:
    the instant, the address, and whether a dial failure was received since
    the start before it. *)
Record startEvent := MkStart { st_time : Z; st_addr : gostring; st_failed : bool }.

Inductive control := AtTop | AtSelect | Returned (r : conn + error).

Record race := MkRace {
  now : Z;
  ctxErr : option error;
  feed : tcpFamilyFeed;
  look4 : lookupState;
  look6 : lookupState;
  closer : closerState;
  attempts : list attempt;
  openConns : gset conn;
  nextConn : conn;
  sch : sched;
  starts : list startEvent;
  failed : bool;
  ctl : control;
}.

(** The state when the loop is entered. *)
Definition init_race (t0 : Z) (ctx : option error) : race :=
  MkRace t0 ctx newTCPFamilyFeed Looking Looking Waiting [] ∅ 0
    (MkSched 0 0 0 0 None None None) [] false AtTop.

(** ** The dial goroutine after [dialContext] returned *)

(** The error and connection it offers, and the connection it closes. *)
Definition finish_dial (c : option conn) (err attemptErr : option error)
    : option conn * option error * option conn :=
  let err := match attemptErr with Some e => Some e | None => err end in
  let '(c, closedConn) :=
    match err, c with Some _, Some x => (None, Some x) | _, _ => (c, None) end in
  let err := match err, c with None, None => Some errTCPDialFailed | _, _ => err end in
  (c, err, closedConn).

Definition close_conn (c : option conn) (open : gset conn) : gset conn :=
  match c with Some x => open ∖ {[x]} | None => open end.

(** ** One round of the scheduler *)

(** Returning runs the deferred [cancel()]. *)
Definition return_with (s : race) (f : tcpFamilyFeed) (r : conn + error) : race :=
  MkRace (now s) (Some (default ErrCanceled (ctxErr s))) f (look4 s) (look6 s) (closer s)
    (attempts s) (openConns s) (nextConn s) (sch s) (starts s) (failed s) (Returned r).

Definition due (s : race) : bool :=
  match nextReadyAt (sch s) with None => true | Some t => (t <=? now s)%Z end.

(** From the top of the loop to [select], a start or a return. *)
Definition sched_top (s : race) : race :=
  let '(addr, isClosed, empty, f') := advance (feed s) (due s) (lastFamily (sch s)) in
  if negb (bool_decide (addr = [])) then
    match ctxErr s with
    | Some e => return_with s f' (inr e)
    | None =>
        MkRace (now s) None f' (look4 s) (look6 s) (closer s)
          (attempts s ++ [MkAttempt addr (now s) Dialing]) (openConns s) (nextConn s)
          (MkSched (S (started (sch s))) (S (pending (sch s))) (now s) (familyByte addr)
             (lastErr (sch s)) (Some (now s + tcpFallbackDelay)%Z) (Some (now s + tcpFallbackDelay)%Z))
          (MkStart (now s) addr (failed s) :: starts s) false AtTop
    end
  else if isClosed && empty && bool_decide (pending (sch s) = 0) then
    return_with s f' (inr (finalError (feed s) (started (sch s)) (lastErr (sch s))))
  else
    MkRace (now s) (ctxErr s) f' (look4 s) (look6 s) (closer s) (attempts s) (openConns s)
      (nextConn s) (sch s) (starts s) (failed s) AtSelect.

(** Receiving the result of attempt [i]. *)
Definition receive (s : race) (i : nat) (c : option conn) (err : option error) : race :=
  let q := sch s in
  match c with
  | Some x =>
      let s' := MkRace (now s) (ctxErr s) (feed s) (look4 s) (look6 s) (closer s)
                  (delete i (attempts s))
                  (match ctxErr s with Some _ => openConns s ∖ {[x]} | None => openConns s end)
                  (nextConn s)
                  (MkSched (started q) (pred (pending q)) (lastStart q) (lastFamily q) (lastErr q)
                     (nextReadyAt q) (timer q))
                  (starts s) (failed s) AtSelect in
      match ctxErr s with
      | Some e => return_with s' (feed s) (inr e)
      | None => return_with s' (feed s) (inl x)
      end
  | None =>
      let ready := (lastStart q + tcpMinimumDelay)%Z in
      let shorten := match nextReadyAt q with Some t => (ready <? t)%Z | None => false end in
      MkRace (now s) (ctxErr s) (feed s) (look4 s) (look6 s) (closer s)
        (delete i (attempts s)) (openConns s) (nextConn s)
        (MkSched (started q) (pred (pending q)) (lastStart q) (lastFamily q) err
           (if shorten then Some ready else nextReadyAt q)
           (if shorten then Some (Z.max (now s) ready) else timer q))
        (starts s) true AtTop
  end.

(** ** The environment *)

(** What [net.Resolver] returns: an error, or addresses that are nil or have
    four or sixteen bytes. *)
Definition resolver_answer (a : result (list IP)) : Prop :=
  match a with Ok ips => Forall (fun ip => ip = [] \/ valid_ip ip) ips | Err _ => True end.

Definition is_ctx_error (e : error) : Prop := e = ErrDeadlineExceeded \/ e = ErrCanceled.

(** Who moves: the clock, the resolver, dialer and request, or the program. *)
Inductive actor := Clock | Environment | Program.

Section Steps.
Variable h : policyConfig.
Variables network host port : gostring.

Inductive lstep : actor -> race -> race -> Prop :=
  (** time passes *)
  | step_time s d :
      (0 <= d)%Z ->
      lstep Clock s (MkRace (now s + d) (ctxErr s) (feed s) (look4 s) (look6 s) (closer s) (attempts s)
                (openConns s) (nextConn s) (sch s) (starts s) (failed s) (ctl s))
  (** the request is cancelled or its deadline passes *)
  | step_ctx s e :
      ctxErr s = None -> is_ctx_error e ->
      lstep Environment s (MkRace (now s) (Some e) (feed s) (look4 s) (look6 s) (closer s) (attempts s)
                (openConns s) (nextConn s) (sch s) (starts s) (failed s) (ctl s))
  (** a lookup returns and its critical section runs *)
  | step_lookup4 s answer :
      look4 s = Looking -> resolver_answer answer ->
      let r := resolve h network host port false answer (feed s) in
      lstep Environment s (MkRace (now s) (ctxErr s) r.1 (if r.2 then MustPulse else LookupDone) (look6 s)
                (closer s) (attempts s) (openConns s) (nextConn s) (sch s) (starts s) (failed s) (ctl s))
  | step_lookup6 s answer :
      look6 s = Looking -> resolver_answer answer ->
      let r := resolve h network host port true answer (feed s) in
      lstep Environment s (MkRace (now s) (ctxErr s) r.1 (look4 s) (if r.2 then MustPulse else LookupDone)
                (closer s) (attempts s) (openConns s) (nextConn s) (sch s) (starts s) (failed s) (ctl s))
  | step_pulse4 s :
      look4 s = MustPulse ->
      lstep Program s (MkRace (now s) (ctxErr s) (pulse (feed s)) LookupDone (look6 s) (closer s) (attempts s)
                (openConns s) (nextConn s) (sch s) (starts s) (failed s) (ctl s))
  | step_pulse6 s :
      look6 s = MustPulse ->
      lstep Program s (MkRace (now s) (ctxErr s) (pulse (feed s)) (look4 s) LookupDone (closer s) (attempts s)
                (openConns s) (nextConn s) (sch s) (starts s) (failed s) (ctl s))
  (** both lookups are done: close the feed, then pulse *)
  | step_close s :
      look4 s = LookupDone -> look6 s = LookupDone -> closer s = Waiting ->
      lstep Program s (MkRace (now s) (ctxErr s) (close_feed (feed s)) (look4 s) (look6 s) CloseMustPulse
                (attempts s) (openConns s) (nextConn s) (sch s) (starts s) (failed s) (ctl s))
  | step_close_pulse s :
      closer s = CloseMustPulse ->
      lstep Program s (MkRace (now s) (ctxErr s) (pulse (feed s)) (look4 s) (look6 s) CloserDone (attempts s)
                (openConns s) (nextConn s) (sch s) (starts s) (failed s) (ctl s))
  (** a dial returns; [attemptErr] is nil only while neither the context nor
      the attempt's own timeout has ended *)
  | step_dial s i a (got : bool) err attemptErr c' err' closedConn :
      attempts s !! i = Some a -> at_state a = Dialing ->
      (attemptErr = None <-> ctxErr s = None /\ (now s < at_start a + tcpAttemptTimeout)%Z) ->
      finish_dial (if got then Some (nextConn s) else None) err attemptErr = (c', err', closedConn) ->
      lstep Environment s (MkRace (now s) (ctxErr s) (feed s) (look4 s) (look6 s) (closer s)
                (<[i := MkAttempt (at_addr a) (at_start a) (Offering c' err')]> (attempts s))
                (close_conn closedConn (if got then {[nextConn s]} ∪ openConns s else openConns s))
                (if got then S (nextConn s) else nextConn s)
                (sch s) (starts s) (failed s) (ctl s))
  (** the goroutine's select takes [ctx.Done()] *)
  | step_abandon s i a c err :
      attempts s !! i = Some a -> at_state a = Offering c err -> ctxErr s <> None ->
      lstep Program s (MkRace (now s) (ctxErr s) (feed s) (look4 s) (look6 s) (closer s)
                (delete i (attempts s)) (close_conn c (openConns s)) (nextConn s)
                (sch s) (starts s) (failed s) (ctl s))
  (** the scheduler *)
  | step_top s :
      ctl s = AtTop -> lstep Program s (sched_top s)
  | step_select_ctx s e :
      ctl s = AtSelect -> ctxErr s = Some e -> lstep Program s (return_with s (feed s) (inr e))
  | step_select_result s i a c err :
      ctl s = AtSelect -> attempts s !! i = Some a -> at_state a = Offering c err ->
      lstep Program s (receive s i c err)
  | step_select_wake s :
      ctl s = AtSelect -> wake (feed s) = true ->
      lstep Program s (MkRace (now s) (ctxErr s) (take_wake (feed s)) (look4 s) (look6 s) (closer s) (attempts s)
                (openConns s) (nextConn s) (sch s) (starts s) (failed s) AtTop)
  | step_select_timer s t :
      ctl s = AtSelect -> timer (sch s) = Some t -> (t <= now s)%Z ->
      lstep Program s (MkRace (now s) (ctxErr s) (feed s) (look4 s) (look6 s) (closer s) (attempts s)
                (openConns s) (nextConn s)
                (MkSched (started (sch s)) (pending (sch s)) (lastStart (sch s)) (lastFamily (sch s))
                   (lastErr (sch s)) (nextReadyAt (sch s)) None)
                (starts s) (failed s) AtTop).

Definition step (s s' : race) : Prop := exists l, lstep l s s'.

Definition reachable (s : race) : Prop :=
  exists t0 ctx, (match ctx with Some e => is_ctx_error e | None => True end) /\
    rtc step (init_race t0 ctx) s.
End Steps.

(** ** The feed operations as the race uses them *)

Lemma popLocked_Some f last addr f' :
  popLocked f last = (Some addr, f') ->
  (v4 f = addr :: v4 f' /\ v6 f' = v6 f \/ v6 f = addr :: v6 f' /\ v4 f' = v4 f) /\
  seen f' = seen f /\ closed f' = closed f /\ wake f' = wake f /\
  errV4 f' = errV4 f /\ errV6 f' = errV6 f /\ passedACL f' = passedACL f.
Proof.
  unfold popLocked. destruct (feed_empty f); [done|]. destruct (if (last =? 0)%Z then _ else _).
  - destruct (v6 f) as [|a q] eqn:E; [done|]. intros [= <- <-]. simpl. repeat split; auto.
  - destruct (v4 f) as [|a q] eqn:E; [done|]. intros [= <- <-]. simpl. repeat split; auto.
Qed.

Lemma popLocked_None f last f' : popLocked f last = (None, f') -> feed_empty f = true.
Proof.
  unfold popLocked, feed_empty. intros H.
  destruct (v4 f) as [|a q4], (v6 f) as [|b q6]; try done; exfalso; revert H;
    repeat case_match; try done; reflect_bools; simpl in *; try lia.
Qed.

(** What one call of [advance] can do to a feed without empty candidates. *)
Lemma advance_cases f due last :
  (forall a, a ∈ v4 f ++ v6 f -> a <> []) ->
  (exists addr f', due = true /\ addr <> [] /\ popLocked f last = (Some addr, f') /\
     advance f due last = (addr, closed f, false, f')) \/
  ((due = false \/ feed_empty f = true) /\ advance f due last = ([], closed f, feed_empty f, f)).
Proof.
  intros Hne. unfold advance. destruct due, (feed_empty f) eqn:E; simpl; auto.
  destruct (popLocked f last) as [[addr|] f'] eqn:Ep.
  - left. exists addr, f'. repeat split; auto. apply Hne.
    apply popLocked_Some in Ep as [[[E4 _]|[E6 _]] _]; rewrite ?E4, ?E6; set_solver.
  - apply popLocked_None in Ep. congruence.
Qed.

Lemma sched_top_cases s :
  (forall a, a ∈ v4 (feed s) ++ v6 (feed s) -> a <> []) ->
  (exists addr f', due s = true /\ addr <> [] /\
     popLocked (feed s) (lastFamily (sch s)) = (Some addr, f') /\
     ((exists e, ctxErr s = Some e /\ sched_top s = return_with s f' (inr e)) \/
      (ctxErr s = None /\
       sched_top s = MkRace (now s) None f' (look4 s) (look6 s) (closer s)
          (attempts s ++ [MkAttempt addr (now s) Dialing]) (openConns s) (nextConn s)
          (MkSched (S (started (sch s))) (S (pending (sch s))) (now s) (familyByte addr)
             (lastErr (sch s)) (Some (now s + tcpFallbackDelay)%Z) (Some (now s + tcpFallbackDelay)%Z))
          (MkStart (now s) addr (failed s) :: starts s) false AtTop))) \/
  ((due s = false \/ feed_empty (feed s) = true) /\
   ((closed (feed s) = true /\ feed_empty (feed s) = true /\ pending (sch s) = 0 /\
     sched_top s = return_with s (feed s) (inr (finalError (feed s) (started (sch s)) (lastErr (sch s))))) \/
    ((closed (feed s) && feed_empty (feed s) && bool_decide (pending (sch s) = 0) = false) /\
     sched_top s = MkRace (now s) (ctxErr s) (feed s) (look4 s) (look6 s) (closer s) (attempts s)
       (openConns s) (nextConn s) (sch s) (starts s) (failed s) AtSelect))).
Proof.
  intros Hne. unfold sched_top.
  destruct (advance_cases (feed s) (due s) (lastFamily (sch s)) Hne)
    as [(addr & f' & Hd & Ha & Hp & ->)|(Hd & ->)].
  - left. exists addr, f'. rewrite bool_decide_false by done. simpl.
    destruct (ctxErr s) eqn:Ec; repeat split; eauto.
  - right. split; [done|]. rewrite bool_decide_true by done. simpl.
    destruct (closed (feed s) && feed_empty (feed s) && bool_decide (pending (sch s) = 0)) eqn:E; auto.
    left. reflect_bools. auto.
Qed.

(** ** Invariants *)

Section Invariants.
Variable h : policyConfig.
Variables network host port : gostring.

Abbreviation lstep := (lstep h network host port).
Abbreviation step := (step h network host port).
Abbreviation reachable := (reachable h network host port).
Abbreviation candidate := (candidate h network host port).

(** Every address of the feed or of a start was admitted, is a candidate,
    and occurs once. *)
Record queue_inv (s : race) : Prop := {
  qi_nodup : NoDup (v4 (feed s) ++ v6 (feed s) ++ (st_addr <$> starts s));
  qi_seen : forall a, a ∈ v4 (feed s) ++ v6 (feed s) ++ (st_addr <$> starts s) -> a ∈ seen (feed s);
  qi_v4 : Forall (candidate false) (v4 (feed s));
  qi_v6 : Forall (candidate true) (v6 (feed s));
  qi_starts : Forall (fun e => exists isV6, candidate isV6 (st_addr e)) (starts s);
}.

Lemma queue_inv_nonempty s a : queue_inv s -> a ∈ v4 (feed s) ++ v6 (feed s) -> a <> [].
Proof.
  intros Hq Ha. assert (exists b, candidate b a) as (b & ip & _ & _ & _ & _ & ->).
  { apply elem_of_app in Ha as [Ha|Ha].
    - exists false. by apply (proj1 (Forall_forall _ _) (qi_v4 s Hq)).
    - exists true. by apply (proj1 (Forall_forall _ _) (qi_v6 s Hq)). }
  apply JoinHostPort_not_nil.
Qed.

(** The queues after an admission. *)
Lemma resolve_queues isV6 answer f :
  resolver_answer answer ->
  let r := resolve h network host port isV6 answer f in
  exists new, NoDup new /\ (forall a, a ∈ new -> a ∉ seen f) /\ Forall (candidate isV6) new /\
    (if isV6 then v6 r.1 = v6 f ++ new /\ v4 r.1 = v4 f else v4 r.1 = v4 f ++ new /\ v6 r.1 = v6 f) /\
    (forall a, a ∈ seen f \/ a ∈ new -> a ∈ seen r.1) /\
    r.2 = negb (bool_decide (new = [])) /\ closed r.1 = closed f /\ wake r.1 = wake f.
Proof.
  intros Hans. destruct answer as [ips|e]; cbn [resolve].
  - destruct (resolve_fold h network host port isV6 ips f false) as (Hq & Hs & Ha).
    destruct (resolve_fold_rest h network host port isV6 ips f false) as (Hc & Hw & _).
    exists (dedup_from (seen f) (admitted h network host port isV6 ips)).
    split; [apply dedup_from_NoDup|]. split; [intros a [_ ?]%dedup_from_elem; done|].
    split; [|split; [done|]; split; [|done]].
    + apply Forall_forall. intros a [Ha' _]%dedup_from_elem. unfold admitted in Ha'.
      apply list_elem_of_fmap in Ha' as (ip & -> & [Hadm Hin]%list_elem_of_filter).
      apply (proj1 (Forall_forall _ _) Hans) in Hin as [->|Hv]; [done|].
      by apply admissible_candidate.
    + intros a [H|[H _]%dedup_from_elem]; apply Hs; auto.
  - exists []. rewrite !app_nil_r. split; [by apply NoDup_nil_2|]. split; [set_solver|].
    split; [constructor|]. split; [by destruct isV6|]. split; [|by destruct isV6].
    intros a [H|H]; [by destruct isV6|by apply not_elem_of_nil in H].
Qed.

Lemma queue_inv_ext s s' :
  v4 (feed s') = v4 (feed s) -> v6 (feed s') = v6 (feed s) -> seen (feed s') = seen (feed s) ->
  starts s' = starts s -> queue_inv s -> queue_inv s'.
Proof. intros H4 H6 Hs Hst [? ? ? ? ?]. constructor; rewrite ?H4, ?H6, ?Hs, ?Hst; done. Qed.

Lemma queue_inv_resolve s s' isV6 answer :
  resolver_answer answer -> feed s' = (resolve h network host port isV6 answer (feed s)).1 ->
  starts s' = starts s -> queue_inv s -> queue_inv s'.
Proof.
  intros Hans Hf Hst [Hnd Hseen H4 H6 Hs].
  destruct (resolve_queues isV6 answer (feed s) Hans) as (new & Hn & Hfresh & Hc & Hq & Hsn & _).
  rewrite <- Hf in *. destruct isV6; destruct Hq as [Hq1 Hq2].
  - constructor; rewrite ?Hq1, ?Hq2, ?Hst; auto.
    + replace (v4 (feed s) ++ (v6 (feed s) ++ new) ++ _) with
        (v4 (feed s) ++ v6 (feed s) ++ new ++ (st_addr <$> starts s)) by by rewrite <- !app_assoc.
      assert (Hp : v4 (feed s) ++ v6 (feed s) ++ new ++ (st_addr <$> starts s) ≡ₚ
                   new ++ v4 (feed s) ++ v6 (feed s) ++ (st_addr <$> starts s)) by solve_Permutation.
      rewrite Hp. apply NoDup_app. split; [done|]. split; [|done]. intros a Ha Hb. by apply (Hfresh a Ha), Hseen.
    + intros a Ha. apply Hsn. destruct (decide (a ∈ new)); [by right|]. left. apply Hseen. set_solver.
    + by apply Forall_app.
  - constructor; rewrite ?Hq1, ?Hq2, ?Hst; auto.
    + assert (Hp : (v4 (feed s) ++ new) ++ v6 (feed s) ++ (st_addr <$> starts s) ≡ₚ
                   new ++ v4 (feed s) ++ v6 (feed s) ++ (st_addr <$> starts s)) by solve_Permutation.
      rewrite Hp. apply NoDup_app. split; [done|]. split; [|done]. intros a Ha Hb. by apply (Hfresh a Ha), Hseen.
    + intros a Ha. apply Hsn. destruct (decide (a ∈ new)); [by right|]. left. apply Hseen. set_solver.
    + by apply Forall_app.
Qed.

(** Taking a candidate out, and recording it as a start or dropping it. *)
Lemma queue_inv_pop s s' last addr f' :
  popLocked (feed s) last = (Some addr, f') -> feed s' = f' ->
  (starts s' = starts s \/ exists t b, starts s' = MkStart t addr b :: starts s) ->
  queue_inv s -> queue_inv s'.
Proof.
  intros Hp <- Hst [Hnd Hseen H4 H6 Hs].
  apply popLocked_Some in Hp as (Hq & Hsn & _).
  assert (Hperm : addr :: v4 (feed s') ++ v6 (feed s') ++ (st_addr <$> starts s) ≡ₚ
                  v4 (feed s) ++ v6 (feed s) ++ (st_addr <$> starts s)).
  { destruct Hq as [[-> ->]|[-> ->]]; simpl; [done|]. solve_Permutation. }
  assert (Hc : (exists b, candidate b addr) /\ Forall (candidate false) (v4 (feed s')) /\
               Forall (candidate true) (v6 (feed s'))).
  { destruct Hq as [[E1 E2]|[E1 E2]]; rewrite ?E1, ?E2 in *.
    - apply Forall_cons in H4 as [? ?]. eauto.
    - apply Forall_cons in H6 as [? ?]. eauto. }
  destruct Hc as (Hc & Hc4 & Hc6).
  rewrite <- Hperm in Hnd. setoid_rewrite <- Hperm in Hseen.
  destruct Hst as [Hst|(t & b & Hst)]; constructor; rewrite ?Hst, ?Hsn; auto.
  - by apply NoDup_cons in Hnd as [_ ?].
  - intros a Ha. apply Hseen. by right.
  - rewrite fmap_cons. cbn [st_addr].
    replace (v4 (feed s') ++ v6 (feed s') ++ addr :: (st_addr <$> starts s)) with
      ((v4 (feed s') ++ v6 (feed s')) ++ addr :: (st_addr <$> starts s)) by by rewrite <- app_assoc.
    rewrite <- Permutation_middle, <- app_assoc. done.
  - intros a Ha. apply Hseen. rewrite fmap_cons in Ha. cbn [st_addr] in Ha. set_solver.
Qed.

Lemma queue_inv_init t0 ctx : queue_inv (init_race t0 ctx).
Proof. constructor; simpl; try constructor. intros a Ha. by apply not_elem_of_nil in Ha. Qed.

Lemma receive_frame s i c err :
  let s' := receive s i c err in
  feed s' = feed s /\ starts s' = starts s /\ now s' = now s /\ attempts s' = delete i (attempts s) /\
  look4 s' = look4 s /\ look6 s' = look6 s /\ closer s' = closer s /\ nextConn s' = nextConn s.
Proof. unfold receive. destruct c, (ctxErr s); repeat split. Qed.

Lemma queue_inv_step s s' : step s s' -> queue_inv s -> queue_inv s'.
Proof.
  intros Hstep Hq. pose proof (queue_inv_nonempty s) as Hne.
  destruct Hstep as [l Hstep]; destruct Hstep as [| |s answer Hl Ha r|s answer Hl Ha r| | | | | | |s Hc| |s i a c err Hc Hi Hst| |];
    try (by eapply queue_inv_ext; [..|exact Hq]).
  - by eapply (queue_inv_resolve s _ false answer).
  - by eapply (queue_inv_resolve s _ true answer).
  - destruct (sched_top_cases s (fun a => Hne a Hq)) as
      [(addr & f' & _ & _ & Hp & [(e & _ & ->)|(_ & ->)])|(_ & [(_ & _ & _ & ->)|(_ & ->)])];
      try (by eapply queue_inv_ext; [..|exact Hq]).
    + eapply queue_inv_pop; [exact Hp|done|by left|exact Hq].
    + eapply queue_inv_pop; [exact Hp|done|right; simpl; eauto|exact Hq].
  - destruct (receive_frame s i c err) as (Hf & Hs & _).
    eapply queue_inv_ext; [..|exact Hq]; by rewrite ?Hf, ?Hs.
Qed.

Lemma reachable_ind_inv (P : race -> Prop) :
  (forall t0 ctx, P (init_race t0 ctx)) ->
  (forall s s', reachable s -> P s -> step s s' -> P s') ->
  forall s, reachable s -> P s.
Proof.
  intros Hinit Hstep s (t0 & ctx & Hctx & Hrtc).
  apply (rtc_ind_r (fun x => P x) (init_race t0 ctx)) in Hrtc; auto.
  intros y z Hy Hyz Py. eapply Hstep; eauto. by exists t0, ctx.
Qed.

Lemma reachable_queue_inv s : reachable s -> queue_inv s.
Proof.
  apply reachable_ind_inv; [apply queue_inv_init|]. intros ? ? _ Hq Hst. by eapply queue_inv_step.
Qed.

Lemma reachable_top_cases s : reachable s -> forall a, a ∈ v4 (feed s) ++ v6 (feed s) -> a <> [].
Proof. intros Hr a. by apply queue_inv_nonempty, reachable_queue_inv. Qed.

(** *** The start window *)

(** Consecutive starts (latest first) are at least the minimum delay apart,
    and the full fallback delay apart unless a dial failed in between. *)
Fixpoint spaced (l : list startEvent) : Prop :=
  match l with
  | e1 :: ((e0 :: _) as rest) =>
      (st_time e0 + (if st_failed e1 then tcpMinimumDelay else tcpFallbackDelay) <= st_time e1)%Z /\
      spaced rest
  | _ => True
  end.

(** [nextReadyAt] is measured from the last start; an unarmed timer means
    the window has passed. *)
Record window_inv (s : race) : Prop := {
  wi_spaced : spaced (starts s);
  wi_ready : match starts s with
             | [] => nextReadyAt (sch s) = None /\ timer (sch s) = None
             | e :: _ => lastStart (sch s) = st_time e /\ (st_time e <= now s)%Z /\
                 nextReadyAt (sch s) =
                   Some (st_time e + (if failed s then tcpMinimumDelay else tcpFallbackDelay))%Z
             end;
  wi_timer : forall r, nextReadyAt (sch s) = Some r ->
             match timer (sch s) with Some t => (r <= t)%Z | None => (r <= now s)%Z end;
}.

Lemma window_inv_ext s s' :
  starts s' = starts s -> failed s' = failed s -> sch s' = sch s -> (now s <= now s')%Z ->
  window_inv s -> window_inv s'.
Proof.
  intros Hst Hf Hs Hn [H1 H2 H3]. constructor; rewrite ?Hst, ?Hf, ?Hs; auto.
  - destruct (starts s); [done|]. destruct H2 as (? & ? & ?). repeat split; auto. lia.
  - intros r Hr. specialize (H3 r Hr). destruct (timer (sch s)); lia.
Qed.

Lemma window_inv_receive s i err :
  window_inv s -> window_inv (receive s i None err).
Proof.
  intros [H1 H2 H3]. constructor; cbn [receive starts sch lastStart nextReadyAt timer now failed]; auto.
  - destruct (starts s) as [|e l]; [by destruct H2 as [-> ->]|].
    destruct H2 as (Hl & Hn & Hr). rewrite Hl, Hr. repeat split; auto.
    destruct (failed s); [by rewrite (proj2 (Z.ltb_ge _ _)) by lia|].
    rewrite (proj2 (Z.ltb_lt _ _)); [done|]. unfold tcpMinimumDelay, tcpFallbackDelay, Millisecond. lia.
  - intros r. destruct (starts s) as [|e l]; [by destruct H2 as [-> ->]|].
    destruct H2 as (Hl & Hn & Hr). specialize (H3 _ Hr). rewrite Hr.
    destruct (Z.ltb_spec (lastStart (sch s) + tcpMinimumDelay)
                (st_time e + (if failed s then tcpMinimumDelay else tcpFallbackDelay)));
      intros [= <-]; [lia|done].
Qed.

Lemma due_spec s : due s = true -> forall r, nextReadyAt (sch s) = Some r -> (r <= now s)%Z.
Proof. unfold due. intros H r Hr. rewrite Hr in H. by apply Z.leb_le. Qed.

Lemma window_inv_step s s' : reachable s -> step s s' -> window_inv s -> window_inv s'.
Proof.
  intros Hreach Hstep Hw. pose proof (reachable_top_cases s Hreach) as Hne.
  destruct Hstep as [l Hstep]; destruct Hstep as [s d Hd| |s answer Hl Ha r|s answer Hl Ha r| | | | | | |s Hc| |s i a c err Hc Hi Hst| |s t Hc Ht Hle];
    try (by eapply window_inv_ext; [..|exact Hw]; simpl; lia || done).
  - destruct (sched_top_cases s Hne) as
      [(addr & f' & Hdue & _ & Hp & [(e & _ & ->)|(_ & ->)])|(_ & [(_ & _ & _ & ->)|(_ & ->)])];
      try (by eapply window_inv_ext; [..|exact Hw]; simpl; lia || done).
    destruct Hw as [H1 H2 H3]. constructor; cbn.
    + destruct (starts s) as [|e l]; [done|]. split; [|done].
      destruct H2 as (_ & _ & Hr). by apply (due_spec s Hdue).
    + repeat split; (done || lia).
    + intros r [= <-]. lia.
  - destruct c as [x|]; [|by apply window_inv_receive].
    destruct Hw as [H1 H2 H3]. unfold receive. destruct (ctxErr s); constructor; cbn; auto.
  - destruct Hw as [H1 H2 H3]. constructor; cbn; auto.
    + destruct (starts s); [by destruct H2|done].
    + intros r Hr. specialize (H3 r Hr). rewrite Ht in H3. lia.
Qed.

Lemma reachable_window_inv s : reachable s -> window_inv s.
Proof.
  apply reachable_ind_inv; [|intros; by eapply window_inv_step].
  intros t0 ctx. by constructor.
Qed.

(** *** Connection ownership *)

Definition held_conn (a : attempt) : option conn :=
  match at_state a with Offering (Some c) _ => Some c | _ => None end.

Definition held (l : list attempt) : list conn := omap held_conn l.

(** An offer carries a connection or an error, never both or neither. *)
Definition offer_wf (a : attempt) : Prop :=
  match at_state a with
  | Dialing => True
  | Offering (Some _) err => err = None
  | Offering None err => err <> None
  end.

(** An open connection is held by exactly one dial goroutine or is the one
    returned to the caller. *)
Record own_inv (s : race) : Prop := {
  oi_nodup : NoDup (held (attempts s));
  oi_open : forall c, c ∈ openConns s <-> c ∈ held (attempts s) \/ ctl s = Returned (inl c);
  oi_fresh : forall c, c ∈ openConns s -> c < nextConn s;
  oi_returned : forall c, ctl s = Returned (inl c) -> c ∉ held (attempts s);
  oi_wf : Forall offer_wf (attempts s);
}.

Lemma held_app l1 l2 : held (l1 ++ l2) = held l1 ++ held l2.
Proof. apply omap_app. Qed.

(** The attempts around position [i]. *)
Lemma attempts_split (l : list attempt) i a :
  l !! i = Some a ->
  exists l1 l2, l = l1 ++ a :: l2 /\ delete i l = l1 ++ l2 /\ forall b, <[i := b]> l = l1 ++ b :: l2.
Proof.
  intros Hi. exists (take i l), (drop (S i) l). split; [by rewrite take_drop_middle|].
  split; [by rewrite delete_take_drop|]. intros b. rewrite insert_take_drop; [done|].
  by apply lookup_lt_Some in Hi.
Qed.

Lemma held_cons a l : held (a :: l) = (match held_conn a with Some c => [c] | None => [] end) ++ held l.
Proof. unfold held. simpl. by destruct (held_conn a). Qed.

Lemma held_delete l i a :
  l !! i = Some a ->
  held l ≡ₚ (match held_conn a with Some c => [c] | None => [] end) ++ held (delete i l).
Proof.
  intros (l1 & l2 & -> & -> & _)%attempts_split. rewrite !held_app, held_cons.
  destruct (held_conn a); solve_Permutation.
Qed.

Lemma held_insert l i a b :
  l !! i = Some a -> held_conn a = None ->
  held (<[i := b]> l) ≡ₚ (match held_conn b with Some c => [c] | None => [] end) ++ held l.
Proof.
  intros (l1 & l2 & -> & _ & Hb)%attempts_split Ha. rewrite Hb, !held_app, !held_cons, Ha.
  destruct (held_conn b); solve_Permutation.
Qed.

Lemma own_inv_ext s s' :
  attempts s' = attempts s -> openConns s' = openConns s -> nextConn s' = nextConn s ->
  (forall c, ctl s' = Returned (inl c) <-> ctl s = Returned (inl c)) ->
  own_inv s -> own_inv s'.
Proof.
  intros Ha Ho Hn Hc [? Hopen ? ? ?]. constructor; rewrite ?Ha, ?Ho, ?Hn; auto.
  - intros c. by rewrite Hopen, Hc.
  - intros c Hr. apply Hc in Hr. auto.
Qed.

(** Removing an offer, closing its connection. *)
Lemma own_inv_drop s s' i a c :
  attempts s !! i = Some a -> held_conn a = c ->
  attempts s' = delete i (attempts s) -> openConns s' = close_conn c (openConns s) ->
  nextConn s' = nextConn s -> (forall x, ctl s' = Returned (inl x) <-> ctl s = Returned (inl x)) ->
  own_inv s -> own_inv s'.
Proof.
  intros Hi Hc Ha Ho Hn Hr [Hnd Hopen Hfresh Hret Hwf].
  pose proof (held_delete _ _ _ Hi) as Hp. rewrite Hc in Hp. rewrite Hp in Hnd.
  assert (Hin : forall x, x ∈ held (attempts s) <-> Some x = c \/ x ∈ held (delete i (attempts s))).
  { intros x. rewrite Hp. destruct c as [y|].
    - rewrite elem_of_app, list_elem_of_singleton.
      split; intros [?|?]; [left; congruence|by right|left; congruence|by right].
    - simpl. split; [by right|]. intros [?|?]; [discriminate|done]. }
  constructor; rewrite ?Ha, ?Ho, ?Hn.
  - destruct c; [by apply NoDup_cons in Hnd as [_ ?]|done].
  - intros x. specialize (Hopen x). specialize (Hret x). rewrite Hin in Hopen, Hret.
    rewrite Hr. destruct c as [y|]; simpl.
    + apply NoDup_cons in Hnd as [Hy _]. rewrite elem_of_difference, elem_of_singleton, Hopen.
      split; [intros [[[?|?]|?] ?]; [congruence|auto|auto]|].
      intros [H|H]; (split; [auto|]); intros ->; [done|]. apply (Hret H). auto.
    + rewrite Hopen. split; intros [H|H]; auto. destruct H; [discriminate|auto].
  - intros x Hx. apply Hfresh. destruct c; simpl in Hx; set_solver.
  - intros x Hx%Hr Hd. apply (Hret x Hx), Hin. by right.
  - by apply Forall_delete.
Qed.

Lemma finish_dial_cases c err attemptErr c' err' cl :
  finish_dial c err attemptErr = (c', err', cl) ->
  (cl = c /\ c' = None /\ err' <> None \/
   c' = c /\ cl = None /\ err' = None /\ c <> None /\ attemptErr = None).
Proof. unfold finish_dial. destruct attemptErr, err, c; intros [= <- <- <-]; naive_solver. Qed.

Lemma own_inv_dial s s' i a (got : bool) c' err' cl :
  attempts s !! i = Some a -> at_state a = Dialing ->
  (cl = (if got then Some (nextConn s) else None) /\ c' = None /\ err' <> None \/
   c' = (if got then Some (nextConn s) else None) /\ cl = None /\ err' = None /\ got = true) ->
  attempts s' = <[i := MkAttempt (at_addr a) (at_start a) (Offering c' err')]> (attempts s) ->
  openConns s' = close_conn cl (if got then {[nextConn s]} ∪ openConns s else openConns s) ->
  nextConn s' = (if got then S (nextConn s) else nextConn s) -> ctl s' = ctl s ->
  own_inv s -> own_inv s'.
Proof.
  intros Hi Hd Hcase Ha Ho Hn Hctl [Hnd Hopen Hfresh Hret Hwf].
  assert (Hnew : nextConn s ∉ openConns s) by (intros H; apply Hfresh in H; lia).
  assert (Hwf' : Forall offer_wf (attempts s')).
  { rewrite Ha. apply Forall_insert; [done|].
    unfold offer_wf. simpl. destruct Hcase as [(_ & -> & ?)|(-> & _ & -> & ->)]; done. }
  pose proof (held_insert _ _ a (MkAttempt (at_addr a) (at_start a) (Offering c' err')) Hi
                ltac:(unfold held_conn; by rewrite Hd)) as Hp.
  unfold held_conn at 1 in Hp. cbn [at_state] in Hp. rewrite <- Ha in Hp.
  destruct Hcase as [(-> & -> & _)|(-> & -> & _ & ->)]; simpl in Hp, Ho.
  - assert (Hos : openConns s' = openConns s) by (rewrite Ho; destruct got; simpl; set_solver).
    constructor; rewrite ?Hos, ?Hctl, ?Hn; auto.
    + by rewrite Hp.
    + intros c. by rewrite Hopen, Hp.
    + intros c Hc%Hfresh. destruct got; lia.
    + intros c Hc. rewrite Hp. auto.
  - constructor; rewrite ?Ho, ?Hctl, ?Hn; auto.
    + rewrite Hp. apply NoDup_cons. split; [|done]. intros H. apply Hnew, Hopen. by left.
    + intros c. rewrite Hp, elem_of_union, elem_of_singleton, elem_of_cons, Hopen. naive_solver.
    + intros c Hc. apply elem_of_union in Hc as [->%elem_of_singleton|Hc%Hfresh]; lia.
    + intros c Hc. rewrite Hp, not_elem_of_cons. split; [|auto]. intros ->.
      apply Hnew, Hopen. by right.
Qed.

(** The winner moves from its goroutine to the caller. *)
Lemma own_inv_win s s' i a x :
  attempts s !! i = Some a -> held_conn a = Some x -> ctl s = AtSelect ->
  attempts s' = delete i (attempts s) -> openConns s' = openConns s -> nextConn s' = nextConn s ->
  ctl s' = Returned (inl x) -> own_inv s -> own_inv s'.
Proof.
  intros Hi Hc Hsel Ha Ho Hn Hr [Hnd Hopen Hfresh Hret Hwf].
  pose proof (held_delete _ _ _ Hi) as Hp. rewrite Hc in Hp. simpl in Hp. rewrite Hp in Hnd.
  apply NoDup_cons in Hnd as [Hx Hnd].
  constructor; rewrite ?Ha, ?Ho, ?Hn, ?Hr; auto.
  - intros c. rewrite Hopen, Hp, elem_of_cons, Hsel. split.
    + intros [[->|?]|?]; [by right|by left|discriminate].
    + intros [?|?]; [by left; right|]. left. left. congruence.
  - intros c [= <-]. done.
  - by apply Forall_delete.
Qed.

Lemma own_inv_top s : reachable s -> ctl s = AtTop -> own_inv s -> own_inv (sched_top s).
Proof.
  intros Hreach Hc Ho.
  destruct (sched_top_cases s (reachable_top_cases s Hreach)) as
    [(addr & f' & _ & _ & Hp & [(e & _ & ->)|(_ & ->)])|(_ & [(_ & _ & _ & ->)|(_ & ->)])];
    try (eapply own_inv_ext; [..|exact Ho]; try done; simpl; by rewrite Hc).
  destruct Ho as [Hnd Hopen Hfresh Hret Hwf].
  assert (Hh : held (attempts s ++ [MkAttempt addr (now s) Dialing]) = held (attempts s))
    by (rewrite held_app; apply app_nil_r).
  constructor; cbn [attempts openConns nextConn ctl]; rewrite ?Hh; auto.
  - intros c. rewrite Hopen, Hc. split; (intros [?|?]; [by left|discriminate]).
  - done.
  - apply Forall_app; split; [done|]. by repeat constructor.
Qed.

Lemma own_inv_receive s i a c err :
  ctl s = AtSelect -> attempts s !! i = Some a -> at_state a = Offering c err ->
  own_inv s -> own_inv (receive s i c err).
Proof.
  intros Hc Hi Hst Ho.
  assert (Hh : held_conn a = c) by (unfold held_conn; rewrite Hst; by destruct c).
  unfold receive. destruct c as [x|].
  - destruct (ctxErr s) eqn:E.
    + eapply (own_inv_drop s _ i a (Some x)); try done. simpl. by rewrite Hc.
    + by eapply (own_inv_win s _ i a x).
  - eapply (own_inv_drop s _ i a None); try done. simpl. by rewrite Hc.
Qed.

Lemma own_inv_step s s' : reachable s -> step s s' -> own_inv s -> own_inv s'.
Proof.
  intros Hreach [l Hstep] Ho.
  destruct Hstep as [| | | | | | | |s i a got err ae c' err' cl Hi Hd Hae Hf
    |s i a c err Hi Hst Hctx|s Hc|s e Hc He|s i a c err Hc Hi Hst|s Hc Hw|s t Hc Ht Hle];
    try (by eapply own_inv_ext; [..|exact Ho]).
  - eapply own_inv_dial; [done|done| |done..|exact Ho].
    apply finish_dial_cases in Hf as [(-> & -> & ?)|(-> & -> & -> & ? & _)]; [by left|].
    right. repeat split. by destruct got.
  - eapply (own_inv_drop s _ i a c); try done. unfold held_conn. rewrite Hst. by destruct c.
  - by apply own_inv_top.
  - eapply own_inv_ext; [..|exact Ho]; try done. simpl. by rewrite Hc.
  - by eapply own_inv_receive.
  - eapply own_inv_ext; [..|exact Ho]; try done. simpl. by rewrite Hc.
  - eapply own_inv_ext; [..|exact Ho]; try done. simpl. by rewrite Hc.
Qed.

Lemma own_inv_init t0 ctx : own_inv (init_race t0 ctx).
Proof. constructor; simpl; [apply NoDup_nil_2|set_solver|set_solver|done|constructor]. Qed.

Lemma reachable_own_inv s : reachable s -> own_inv s.
Proof. apply reachable_ind_inv; [apply own_inv_init|intros; by eapply own_inv_step]. Qed.
End Invariants.
