(* ===== verification/DialProps.v ===== *)
(** * Properties of the TCP dial race

    The theorems about every interleaving of dialTCPIncremental as modelled in
    DialRace: which addresses are dialled and when, who owns a connection,
    that no wake-up is lost, that the race ends, and which error it ends with. *)

From stdpp Require Import base decidable numbers list gmap strings relations.
From Stdlib Require Import ZArith Lia Ascii.
From S2P Require Import Prelude GoStrings GoNet Acl Policy Feed DialRace.

Section Progress.
Variable h : policyConfig.
Variables network host port : gostring.

Abbreviation lstep := (lstep h network host port).
Abbreviation step := (step h network host port).
Abbreviation reachable := (reachable h network host port).
Abbreviation candidate := (candidate h network host port).

(** ** Counters and the error of the last dial *)

Record count_inv (s : race) : Prop := {
  ci_started : started (sch s) = length (starts s);
  ci_le : length (attempts s) <= pending (sch s);
  ci_eq : ctxErr s = None -> pending (sch s) = length (attempts s);
  ci_last : (forall r, ctl s <> Returned r) -> lastErr (sch s) = None ->
            pending (sch s) = started (sch s);
  ci_ctx : forall e, ctxErr s = Some e -> is_ctx_error e;
}.

Lemma count_inv_ext s s' :
  starts s' = starts s -> length (attempts s') = length (attempts s) -> started (sch s') = started (sch s) ->
  pending (sch s') = pending (sch s) -> lastErr (sch s') = lastErr (sch s) ->
  (ctxErr s' = ctxErr s \/ exists e, ctxErr s' = Some e /\ is_ctx_error e) ->
  ((forall r, ctl s' <> Returned r) -> (forall r, ctl s <> Returned r)) ->
  count_inv s -> count_inv s'.
Proof.
  intros H1 H2 H3 H4 H5 H6 H7 [? ? ? ? ?]. constructor; rewrite ?H1, ?H2, ?H3, ?H4, ?H5; auto.
  - destruct H6 as [->|(e & -> & _)]; [auto|discriminate].
  - intros e. destruct H6 as [->|(e' & -> & ?)]; [auto|congruence].
Qed.

Lemma return_ctx s : (forall e, ctxErr s = Some e -> is_ctx_error e) ->
  is_ctx_error (default ErrCanceled (ctxErr s)).
Proof. destruct (ctxErr s) as [e|]; simpl; [auto|]. intros _. by right. Qed.

Lemma count_inv_return s f r : count_inv s -> count_inv (return_with s f r).
Proof.
  intros Hc. eapply count_inv_ext; [..|exact Hc]; try done.
  - right. eexists. split; [done|]. apply return_ctx, Hc.
  - intros H. by destruct (H r).
Qed.

Lemma count_inv_receive s i a c err :
  attempts s !! i = Some a -> at_state a = Offering c err -> ctl s = AtSelect ->
  own_inv s -> count_inv s -> count_inv (receive s i c err).
Proof.
  intros Hi Ha Hc Ho Hci.
  assert (Hlen : S (length (delete i (attempts s))) = length (attempts s)).
  { pose proof (lookup_lt_Some _ _ _ Hi). rewrite length_delete by eauto. lia. }
  pose proof (proj1 (Forall_lookup _ _) (oi_wf s Ho) i a Hi) as Hwf.
  unfold offer_wf in Hwf. rewrite Ha in Hwf. destruct Hci as [H1 H2 H3 H4 H5].
  destruct c as [x|]; unfold receive.
  - destruct (ctxErr s) eqn:E; constructor; cbn; try done; try lia; auto.
    + intros Hr. by destruct (Hr (inr e)).
    + intros Hr. by destruct (Hr (inl x)).
    + intros e [= <-]. by right.
  - constructor; cbn; try done; try lia.
    intros E. specialize (H3 E). lia.
Qed.

Lemma count_inv_step s s' : reachable s -> step s s' -> count_inv s -> count_inv s'.
Proof.
  intros Hreach [l Hstep] Hc. pose proof (reachable_own_inv _ _ _ _ s Hreach) as Ho.
  destruct Hstep as [| | | | | | | |s i a got err ae c' err' cl Hi Hd Hae Hf
    |s i a c err Hi Hst Hctx|s Hc'|s e Hc' He|s i a c err Hc' Hi Hst|s Hc' Hw|s t Hc' Ht Hle];
    try (by eapply count_inv_ext; [..|exact Hc]; auto; simpl; rewrite ?length_insert; eauto);
    try (by eapply count_inv_ext; [..|exact Hc]; auto; simpl; intros _ ?; rewrite Hc').
  - destruct Hc as [H1 H2 H3 H4 H5]. constructor; cbn; auto; [|done].
    rewrite length_delete by eauto. lia.
  - destruct (sched_top_cases s (reachable_top_cases _ _ _ _ s Hreach)) as
      [(addr & f' & _ & _ & _ & [(e & _ & ->)|(He & ->)])|(_ & [(_ & _ & _ & ->)|(_ & ->)])];
      try by apply count_inv_return.
    + destruct Hc as [H1 H2 H3 H4 H5]. constructor; cbn; rewrite ?length_app; cbn; try lia.
      * specialize (H3 He). lia.
      * intros _ Hl. rewrite H4; [done| |done]. intros r. by rewrite Hc'.
      * done.
    + eapply count_inv_ext; [..|exact Hc]; auto. intros _ r. by rewrite Hc'.
  - by apply count_inv_return.
  - by eapply count_inv_receive.
Qed.

Lemma reachable_count_inv s : reachable s -> count_inv s.
Proof.
  intros (t0 & ctx & Hctx & Hrtc).
  apply (rtc_ind_r (fun x => count_inv x) (init_race t0 ctx)) in Hrtc; auto.
  - constructor; cbn; try done. intros e ->. done.
  - intros y z Hy Hyz Py. eapply count_inv_step; eauto. by exists t0, ctx.
Qed.

(** ** No lost wake-up *)

(** While the loop sleeps: a queued candidate has a token, a coming pulse or
    an armed timer; and once nothing can arrive any more there is a token or
    a coming pulse. *)
Record wake_inv (s : race) : Prop := {
  wk_queue : ctl s = AtSelect -> feed_empty (feed s) = false ->
    wake (feed s) = true \/ look4 s = MustPulse \/ look6 s = MustPulse \/ timer (sch s) <> None;
  wk_end : ctl s = AtSelect -> closed (feed s) = true -> feed_empty (feed s) = true ->
    pending (sch s) = 0 -> wake (feed s) = true \/ closer s = CloseMustPulse;
  wk_closed : closed (feed s) = true <-> closer s <> Waiting;
  wk_done : closer s <> Waiting -> look4 s = LookupDone /\ look6 s = LookupDone;
}.

Lemma wake_inv_ext s s' :
  (ctl s' = AtSelect -> ctl s = AtSelect) ->
  feed s' = feed s -> look4 s' = look4 s -> look6 s' = look6 s ->
  timer (sch s') = timer (sch s) -> pending (sch s') = pending (sch s) -> closer s' = closer s ->
  wake_inv s -> wake_inv s'.
Proof.
  intros H1 H2 H3 H4 H5 H6 H7 [? ? ? ?].
  constructor; rewrite ?H2, ?H3, ?H4, ?H5, ?H6, ?H7; auto.
Qed.

Lemma wake_inv_pulse s s' :
  feed s' = pulse (feed s) -> closed (feed s') = true \/ closer s' = closer s ->
  (closer s' <> Waiting <-> closer s <> Waiting) ->
  (closer s <> Waiting -> look4 s' = LookupDone /\ look6 s' = LookupDone) ->
  wake_inv s -> wake_inv s'.
Proof.
  intros Hf Hcl Hw Hd [H1 H2 H3 H4]. constructor; rewrite ?Hf; cbn; auto.
  - by rewrite Hw.
  - rewrite Hw. auto.
Qed.

(** A lookup that adds candidates must pulse. *)
Lemma resolve_wake isV6 answer f :
  resolver_answer answer ->
  let r := resolve h network host port isV6 answer f in
  closed r.1 = closed f /\ wake r.1 = wake f /\
  (feed_empty r.1 = true -> feed_empty f = true) /\
  (feed_empty r.1 = false -> feed_empty f = false \/ r.2 = true).
Proof.
  intros Ha. destruct (resolve_queues h network host port isV6 answer f Ha)
    as (new & _ & _ & _ & Hq & _ & Hr & Hc & Hw).
  cbv zeta. split; [done|]. split; [done|]. rewrite Hr. unfold feed_empty.
  destruct isV6; destruct Hq as [-> ->]; rewrite length_app;
    destruct new as [|x new]; cbn; rewrite ?Nat.add_0_r; auto;
    repeat case_bool_decide; cbn; auto; try lia; done.
Qed.

Lemma wake_inv_resolve s s' isV6 answer :
  resolver_answer answer ->
  let r := resolve h network host port isV6 answer (feed s) in
  feed s' = r.1 -> (if isV6 then look6 s else look4 s) = Looking ->
  (if isV6 then look6 s' else look4 s') = (if r.2 then MustPulse else LookupDone) ->
  (if isV6 then look4 s' else look6 s') = (if isV6 then look4 s else look6 s) ->
  ctl s' = ctl s -> sch s' = sch s -> closer s' = closer s -> wake_inv s -> wake_inv s'.
Proof.
  intros Ha r Hf Hl Hl' Ho Hc Hs Hcl [H1 H2 H3 H4].
  destruct (resolve_wake isV6 answer (feed s) Ha) as (Rc & Rw & Re & Rn). fold r in Rc, Rw, Re, Rn.
  assert (Hcw : closer s = Waiting).
  { destruct (closer s) eqn:E; [done| |]; destruct H4 as [? ?]; try done; destruct isV6; congruence. }
  constructor; rewrite ?Hf, ?Hc, ?Hs, ?Hcl, ?Rc, ?Rw; auto; try by rewrite Hcw.
  intros Hsel Hne. apply Rn in Hne as [Hne|Hr].
  - specialize (H1 Hsel Hne). destruct isV6; rewrite Ho; destruct H1 as [?|[?|[?|?]]]; auto; congruence.
  - rewrite Hr in Hl'. destruct isV6; auto.
Qed.

Lemma wake_inv_top s : reachable s -> ctl s = AtTop -> wake_inv s -> wake_inv (sched_top s).
Proof.
  intros Hreach Hc Hw. pose proof (reachable_window_inv _ _ _ _ s Hreach) as Hwin.
  destruct Hw as [H1 H2 H3 H4].
  destruct (sched_top_cases s (reachable_top_cases _ _ _ _ s Hreach)) as
    [(addr & f' & _ & _ & Hp & Hcase)|(Hd & [(_ & _ & _ & ->)|(Hn & ->)])].
  - apply popLocked_Some in Hp as (_ & _ & Hcl & _).
    destruct Hcase as [(e & _ & ->)|(_ & ->)]; constructor; cbn; rewrite ?Hcl; done.
  - constructor; cbn; done.
  - constructor; cbn; auto.
    + intros _ Hne. destruct Hd as [Hd|Hd]; [|congruence]. do 3 right. intros Ht.
      unfold due in Hd. destruct (nextReadyAt (sch s)) as [r|] eqn:Er; [|done].
      pose proof (wi_timer s Hwin r Er) as Hle. rewrite Ht in Hle.
      apply Z.leb_gt in Hd. lia.
    + intros _ Ecl Ee Ep. rewrite Ecl, Ee, Ep in Hn. by rewrite bool_decide_true in Hn.
Qed.

Lemma wake_inv_step s s' : reachable s -> step s s' -> wake_inv s -> wake_inv s'.
Proof.
  intros Hreach [l Hstep] Hw.
  destruct Hstep as [| |s answer Hl Ha r|s answer Hl Ha r|s Hl|s Hl|s Hl4 Hl6 Hcl|s Hcl
    |s i a got err ae c' err' cl Hi Hd Hae Hf|s i a c err Hi Hst Hctx|s Hc|s e Hc He
    |s i a c err Hc Hi Hst|s Hc Hwk|s t Hc Ht Hle];
    try (by eapply wake_inv_ext; [..|exact Hw]).
  - by eapply (wake_inv_resolve s _ false answer).
  - by eapply (wake_inv_resolve s _ true answer).
  - eapply wake_inv_pulse; [..|exact Hw]; cbn; auto. intros Hcw%(wk_done s Hw). naive_solver.
  - eapply wake_inv_pulse; [..|exact Hw]; cbn; auto. intros Hcw%(wk_done s Hw). naive_solver.
  - destruct Hw as [H1 H2 H3 H4]. constructor; cbn; auto. done.
  - eapply wake_inv_pulse; [..|exact Hw]; cbn; auto.
    + left. apply (wk_closed s Hw). by rewrite Hcl.
    + by rewrite Hcl.
    + apply (wk_done s Hw).
  - by apply wake_inv_top.
  - destruct Hw as [H1 H2 H3 H4]. unfold receive.
    destruct c; [destruct (ctxErr s)|]; constructor; cbn; done.
  - destruct Hw as [H1 H2 H3 H4]. constructor; cbn; done.
  - destruct Hw as [H1 H2 H3 H4]. constructor; cbn; done.
Qed.

Lemma reachable_wake_inv s : reachable s -> wake_inv s.
Proof.
  apply reachable_ind_inv; [|intros; by eapply wake_inv_step].
  intros t0 ctx. constructor; cbn; done.
Qed.

(** ** A measure that every action but the passing of time decreases *)

Definition looking (s : race) : nat :=
  (match look4 s with Looking => 1 | _ => 0 end) + (match look6 s with Looking => 1 | _ => 0 end).

Definition attempt_weight (a : attempt) : nat :=
  match at_state a with Dialing => 5 | Offering _ _ => 4 end.

Definition lookup_weight (l : lookupState) : nat := match l with MustPulse => 3 | _ => 0 end.

Definition weight (s : race) : nat :=
  (match ctxErr s with None => 1 | Some _ => 0 end) +
  8 * (length (v4 (feed s)) + length (v6 (feed s))) +
  (if wake (feed s) then 2 else 0) +
  lookup_weight (look4 s) + lookup_weight (look6 s) +
  (match closer s with Waiting => 4 | CloseMustPulse => 3 | CloserDone => 0 end) +
  sum_list_with attempt_weight (attempts s) +
  (match timer (sch s) with Some _ => 2 | None => 0 end) +
  (match ctl s with AtTop => 2 | AtSelect => 1 | Returned _ => 0 end).

Definition smaller : relation race :=
  fun s' s => looking s' < looking s \/ looking s' = looking s /\ weight s' < weight s.

Lemma smaller_wf : well_founded smaller.
Proof.
  intros s. remember (looking s) as n eqn:En. revert s En.
  induction (lt_wf n) as [n _ IHn]; intros s ->.
  remember (weight s) as w eqn:Ew. revert s Ew IHn.
  induction (lt_wf w) as [w _ IHw]; intros s -> IHn. constructor. intros s' [Hl|[Hl Hw]].
  - by eapply IHn.
  - eapply IHw; [exact Hw|done|]. by rewrite Hl.
Qed.

Lemma weight_delete l i a :
  l !! i = Some a ->
  sum_list_with attempt_weight l = attempt_weight a + sum_list_with attempt_weight (delete i l).
Proof.
  intros (l1 & l2 & -> & -> & _)%attempts_split. rewrite !sum_list_with_app. cbn. lia.
Qed.

Lemma weight_insert l i a b :
  l !! i = Some a ->
  sum_list_with attempt_weight (<[i := b]> l) + attempt_weight a =
  attempt_weight b + sum_list_with attempt_weight l.
Proof.
  intros (l1 & l2 & -> & _ & Hb)%attempts_split. rewrite Hb, !sum_list_with_app. cbn. lia.
Qed.

Lemma pop_length f last addr f' :
  popLocked f last = (Some addr, f') ->
  S (length (v4 f') + length (v6 f')) = length (v4 f) + length (v6 f) /\ wake f' = wake f.
Proof.
  intros ([[H4 H6]|[H6 H4]] & _ & _ & Hw & _)%popLocked_Some; rewrite H4, H6; simpl; split; auto; lia.
Qed.

Ltac by_weight :=
  right; split; [done|]; unfold weight, return_with;
  cbn [ctxErr feed look4 look6 closer attempts sch ctl timer v4 v6 wake pulse take_wake close_feed lookup_weight].

Lemma weight_top s : reachable s -> ctl s = AtTop -> smaller (sched_top s) s.
Proof.
  intros Hreach Hc.
  destruct (sched_top_cases s (reachable_top_cases _ _ _ _ s Hreach)) as
    [(addr & f' & _ & _ & [Hp Hwk]%pop_length & [(e & He & ->)|(He & ->)])|(_ & [(_ & _ & _ & ->)|(_ & ->)])];
    by_weight; rewrite Hc, ?He, ?Hwk; try lia; try (destruct (ctxErr s); lia).
  rewrite sum_list_with_app. cbn. destruct (timer (sch s)); lia.
Qed.

Lemma step_smaller l s s' : reachable s -> lstep l s s' -> l <> Clock -> smaller s' s.
Proof.
  intros Hreach Hstep Hl.
  destruct Hstep as [|s e Hn He|s answer Hk Ha r|s answer Hk Ha r|s Hk|s Hk|s Hl4 Hl6 Hcl|s Hcl
    |s i a got err ae c' err' cl Hi Hd Hae Hf|s i a c err Hi Hst Hctx|s Hc|s e Hc He
    |s i a c err Hc Hi Hst|s Hc Hwk|s t Hc Ht Hle]; [done|..].
  - by_weight. rewrite Hn. lia.
  - left. unfold looking. cbn. rewrite Hk. destruct r.2, (look6 s); lia.
  - left. unfold looking. cbn. rewrite Hk. destruct r.2, (look4 s); lia.
  - right. split; [unfold looking; cbn; by rewrite Hk|]. unfold weight. cbn. rewrite Hk. cbn.
    destruct (wake (feed s)); lia.
  - right. split; [unfold looking; cbn; by rewrite Hk|]. unfold weight. cbn. rewrite Hk. cbn.
    destruct (wake (feed s)); lia.
  - by_weight. rewrite Hcl. lia.
  - by_weight. rewrite Hcl. destruct (wake (feed s)); lia.
  - by_weight. pose proof (weight_insert _ _ _ (MkAttempt (at_addr a) (at_start a) (Offering c' err')) Hi) as H.
    unfold attempt_weight in H at 2 3. rewrite Hd in H. cbn in H. lia.
  - by_weight. rewrite (weight_delete _ _ _ Hi). unfold attempt_weight at 2. rewrite Hst. lia.
  - by apply weight_top.
  - by_weight. rewrite Hc, He. lia.
  - pose proof (weight_delete _ _ _ Hi) as H. unfold attempt_weight in H at 2. rewrite Hst in H.
    unfold receive. destruct c as [x|]; [destruct (ctxErr s) eqn:E|]; by_weight; rewrite Hc, ?E, H; try lia.
    destruct (match nextReadyAt (sch s) with Some _ => _ | None => _ end), (timer (sch s)); lia.
  - by_weight. rewrite Hc, Hwk. lia.
  - by_weight. rewrite Hc, Ht. lia.
Qed.
End Progress.

(** ** Scripted runs

    [exec] performs one named action when it is enabled, so that a run of the
    race can be evaluated. *)

Inductive action :=
  | ATime (d : Z)
  | ACtx (e : error)
  | ALookup (isV6 : bool) (answer : result (list IP))
  | APulse (isV6 : bool)
  | AClose
  | AClosePulse
  | ADial (i : nat) (got : bool) (err : option error)
  | ATop
  | AResult (i : nat)
  | AWake
  | ATimer.

#[export] Instance lookupState_eq_dec : EqDecision lookupState.
Proof. solve_decision. Defined.

#[export] Instance closerState_eq_dec : EqDecision closerState.
Proof. solve_decision. Defined.

Definition ctx_error_b (e : error) : bool :=
  match e with ErrDeadlineExceeded | ErrCanceled => true | _ => false end.

Definition valid_answer_b (a : result (list IP)) : bool :=
  match a with
  | Ok ips => forallb (fun ip => (length ip =? 0) || (length ip =? 4) || (length ip =? 16))%nat ips
  | Err _ => true
  end.

Definition set_feed (s : race) (f : tcpFamilyFeed) (l4 l6 : lookupState) (c : closerState) (k : control) : race :=
  MkRace (now s) (ctxErr s) f l4 l6 c (attempts s) (openConns s) (nextConn s) (sch s) (starts s) (failed s) k.

Section Scripts.
Variable h : policyConfig.
Variables network host port : gostring.

Definition exec (a : action) (s : race) : option race :=
  match a with
  | ATime d =>
      if (0 <=? d)%Z then
        Some (MkRace (now s + d) (ctxErr s) (feed s) (look4 s) (look6 s) (closer s) (attempts s)
                (openConns s) (nextConn s) (sch s) (starts s) (failed s) (ctl s))
      else None
  | ACtx e =>
      if ctx_error_b e then
        match ctxErr s with
        | None => Some (MkRace (now s) (Some e) (feed s) (look4 s) (look6 s) (closer s) (attempts s)
                          (openConns s) (nextConn s) (sch s) (starts s) (failed s) (ctl s))
        | Some _ => None
        end
      else None
  | ALookup isV6 answer =>
      if valid_answer_b answer then
        let r := resolve h network host port isV6 answer (feed s) in
        let l := if r.2 then MustPulse else LookupDone in
        if bool_decide ((if isV6 then look6 s else look4 s) = Looking) then
          Some (if isV6 then set_feed s r.1 (look4 s) l (closer s) (ctl s)
                else set_feed s r.1 l (look6 s) (closer s) (ctl s))
        else None
      else None
  | APulse isV6 =>
      if bool_decide ((if isV6 then look6 s else look4 s) = MustPulse) then
        Some (if isV6 then set_feed s (pulse (feed s)) (look4 s) LookupDone (closer s) (ctl s)
              else set_feed s (pulse (feed s)) LookupDone (look6 s) (closer s) (ctl s))
      else None
  | AClose =>
      if bool_decide (look4 s = LookupDone /\ look6 s = LookupDone /\ closer s = Waiting) then
        Some (set_feed s (close_feed (feed s)) (look4 s) (look6 s) CloseMustPulse (ctl s))
      else None
  | AClosePulse =>
      match closer s with
      | CloseMustPulse => Some (set_feed s (pulse (feed s)) (look4 s) (look6 s) CloserDone (ctl s))
      | _ => None
      end
  | ADial i got err =>
      match attempts s !! i with
      | Some a =>
          match at_state a with
          | Dialing =>
              let attemptErr :=
                match ctxErr s with
                | Some e => Some e
                | None => if (now s <? at_start a + tcpAttemptTimeout)%Z then None
                          else Some ErrDeadlineExceeded
                end in
              let '(c', err', cl) :=
                finish_dial (if got then Some (nextConn s) else None) err attemptErr in
              Some (MkRace (now s) (ctxErr s) (feed s) (look4 s) (look6 s) (closer s)
                (<[i := MkAttempt (at_addr a) (at_start a) (Offering c' err')]> (attempts s))
                (close_conn cl (if got then {[nextConn s]} ∪ openConns s else openConns s))
                (if got then S (nextConn s) else nextConn s)
                (sch s) (starts s) (failed s) (ctl s))
          | Offering _ _ => None
          end
      | None => None
      end
  | ATop => match ctl s with AtTop => Some (sched_top s) | _ => None end
  | AResult i =>
      match ctl s, attempts s !! i with
      | AtSelect, Some a =>
          match at_state a with Offering c err => Some (receive s i c err) | Dialing => None end
      | _, _ => None
      end
  | AWake =>
      match ctl s with
      | AtSelect =>
          if wake (feed s) then
            Some (set_feed s (take_wake (feed s)) (look4 s) (look6 s) (closer s) AtTop)
          else None
      | _ => None
      end
  | ATimer =>
      match ctl s, timer (sch s) with
      | AtSelect, Some t =>
          if (t <=? now s)%Z then
            Some (MkRace (now s) (ctxErr s) (feed s) (look4 s) (look6 s) (closer s) (attempts s)
                (openConns s) (nextConn s)
                (MkSched (started (sch s)) (pending (sch s)) (lastStart (sch s)) (lastFamily (sch s))
                   (lastErr (sch s)) (nextReadyAt (sch s)) None)
                (starts s) (failed s) AtTop)
          else None
      | _, _ => None
      end
  end.

Fixpoint run (script : list action) (s : race) : option race :=
  match script with
  | [] => Some s
  | a :: rest => match exec a s with Some s' => run rest s' | None => None end
  end.

Lemma valid_answer_spec a : valid_answer_b a = true -> resolver_answer a.
Proof.
  destruct a as [ips|e]; [|done]. simpl. rewrite forallb_forall. intros H.
  apply Forall_forall. intros ip Hin%list_elem_of_In%H.
  apply orb_true_iff in Hin as [[Hn|Hn]%orb_true_iff|Hn]; apply Nat.eqb_eq in Hn.
  - left. by apply nil_length_inv.
  - right. by left.
  - right. by right.
Qed.

Lemma race_exec_step a s s' : exec a s = Some s' -> step h network host port s s'.
Proof.
  destruct a as [d|e|isV6 ans|isV6| | |i got err| |i| |]; cbn [exec]; intros H.
  - destruct (Z.leb_spec 0 d); simplify_eq. by eexists; apply step_time.
  - destruct (ctx_error_b e) eqn:E, (ctxErr s) eqn:Ec; simplify_eq. eexists; apply step_ctx; auto.
    unfold is_ctx_error. destruct e; simpl in E; auto; done.
  - destruct (valid_answer_b ans) eqn:E; [|done]. apply valid_answer_spec in E.
    case_bool_decide; [|done]. destruct isV6; simplify_eq; eexists; [by apply step_lookup6|by apply step_lookup4].
  - case_bool_decide; [|done]. destruct isV6; simplify_eq; eexists; [by apply step_pulse6|by apply step_pulse4].
  - case_bool_decide as E; [|done]. destruct E as (? & ? & ?). simplify_eq. eexists. by apply step_close.
  - destruct (closer s) eqn:E; simplify_eq. eexists. by apply step_close_pulse.
  - destruct (attempts s !! i) as [a|] eqn:Ei; [|done]. destruct (at_state a) eqn:Ea; [|done].
    set (ae := match ctxErr s with Some e => Some e | None => _ end) in H.
    destruct (finish_dial _ _ _) as [[c' err'] cl] eqn:Ef. simplify_eq. eexists.
    eapply (step_dial _ _ _ _ s i a got err ae); try done. unfold ae.
    destruct (ctxErr s); [by split; [|intros [? _]]|].
    destruct (Z.ltb_spec (now s) (at_start a + tcpAttemptTimeout)); [done|].
    split; [done|]. intros [_ ?]. lia.
  - destruct (ctl s) eqn:E; simplify_eq. eexists. by apply step_top.
  - destruct (ctl s) eqn:E; simplify_eq. destruct (attempts s !! i) as [a|] eqn:Ei; [|done].
    destruct (at_state a) eqn:Ea; simplify_eq. eexists. by eapply step_select_result.
  - destruct (ctl s) eqn:E; simplify_eq. destruct (wake (feed s)) eqn:Ew; simplify_eq.
    eexists. by apply step_select_wake.
  - destruct (ctl s) eqn:E; simplify_eq. destruct (timer (sch s)) as [t|] eqn:Et; [|done].
    destruct (Z.leb_spec t (now s)); simplify_eq. eexists. by eapply step_select_timer.
Qed.

Lemma race_run_reachable script s : run script (init_race 0 None) = Some s -> reachable h network host port s.
Proof.
  intros H. exists 0%Z, None. split; [done|]. revert H. generalize (init_race 0 None) as s0.
  induction script as [|a rest IH]; intros s0; simpl; [by intros [= ->]|].
  destruct (exec a s0) as [s1|] eqn:E; [|done]. intros H%IH.
  eapply rtc_l; [by eapply race_exec_step|done].
Qed.
End Scripts.

(** ** Theorems *)

Section Theorems.
Variable h : policyConfig.
Variables network host port : gostring.

Abbreviation lstep := (lstep h network host port).
Abbreviation step := (step h network host port).
Abbreviation reachable := (reachable h network host port).

(** The addresses of the dial goroutines are recorded starts. *)
Lemma attempts_started s : reachable s -> Forall (fun a => at_addr a ∈ st_addr <$> starts s) (attempts s).
Proof.
  revert s. apply reachable_ind_inv; [constructor|]. intros s s' Hreach Hin [l Hstep].
  destruct Hstep as [| | | | | | | |s i a got err ae c' err' cl Hi Hd Hae Hf
    |s i a c err Hi Hst Hctx|s Hc| |s i a c err Hc Hi Hst| |]; try exact Hin.
  - cbn. apply Forall_insert; [done|]. cbn. by eapply (proj1 (Forall_lookup _ _) Hin).
  - by apply Forall_delete.
  - destruct (sched_top_cases s (reachable_top_cases _ _ _ _ s Hreach)) as
      [(addr & f' & _ & _ & _ & [(e & _ & ->)|(_ & ->)])|(_ & [(_ & _ & _ & ->)|(_ & ->)])]; try exact Hin.
    cbn [attempts starts]. rewrite fmap_cons. apply Forall_app. split.
    + eapply Forall_impl; [exact Hin|]. intros b Hb. by right.
    + repeat constructor.
  - destruct (receive_frame s i c err) as (_ & -> & _ & -> & _). by apply Forall_delete.
Qed.

(** The verdict of a returned race does not change afterwards. *)
Definition verdict (s : race) (e : error) : Prop :=
  is_ctx_error e \/
  closed (feed s) = true /\ feed_empty (feed s) = true /\
  e = finalError (feed s) (started (sch s)) (lastErr (sch s)) /\
  (0 < started (sch s) -> lastErr (sch s) <> None).

Definition same_verdict (f f' : tcpFamilyFeed) : Prop :=
  closed f' = closed f /\ v4 f' = v4 f /\ v6 f' = v6 f /\ errV4 f' = errV4 f /\
  errV6 f' = errV6 f /\ passedACL f' = passedACL f.

Lemma verdict_ext s s' e :
  same_verdict (feed s) (feed s') -> sch s' = sch s -> verdict s e -> verdict s' e.
Proof.
  intros (H1 & H2 & H3 & H4 & H5 & H6) Hs [He|Hv]; [by left|right].
  unfold feed_empty, finalError in *. rewrite H1, H2, H3, H4, H5, H6, Hs. done.
Qed.

Lemma verdict_top s e :
  reachable s -> ctl s = AtTop -> ctl (sched_top s) = Returned (inr e) -> verdict (sched_top s) e.
Proof.
  intros Hreach Hc. pose proof (reachable_count_inv _ _ _ _ s Hreach) as Hci.
  destruct (sched_top_cases s (reachable_top_cases _ _ _ _ s Hreach)) as
    [(addr & f' & _ & _ & _ & [(e' & He & ->)|(_ & ->)])|(_ & [(Hcl & Hem & Hp & ->)|(_ & ->)])];
    try done; cbn; intros [= <-].
  - left. by apply (ci_ctx s Hci).
  - right. cbn. repeat split; auto. intros Hst Hl.
    rewrite (ci_last s Hci) in Hp; [lia| |done]. intros r. by rewrite Hc.
Qed.

Lemma reachable_verdict s e : reachable s -> ctl s = Returned (inr e) -> verdict s e.
Proof.
  intros Hr. revert s Hr e. apply (reachable_ind_inv h network host port
    (fun s => forall e, ctl s = Returned (inr e) -> verdict s e)); [done|].
  intros s s' Hreach IH [l Hstep] e. pose proof (reachable_count_inv _ _ _ _ s Hreach) as Hci.
  pose proof (reachable_wake_inv _ _ _ _ s Hreach) as Hwk.
  destruct Hstep as [| |s answer Hl Ha r|s answer Hl Ha r| | |s H4 H6 Hcl| | | |s Hc|s e' Hc He
    |s i a c err Hc Hi Hst| |]; try (intros Hv; by eapply verdict_ext; [| |by apply IH]); try done.
  - intros Hv. destruct (IH e Hv) as [?|(Hcl & _)]; [by left|].
    apply (wk_closed s Hwk), (wk_done s Hwk) in Hcl as [? _]. congruence.
  - intros Hv. destruct (IH e Hv) as [?|(Hcl & _)]; [by left|].
    apply (wk_closed s Hwk), (wk_done s Hwk) in Hcl as [_ ?]. congruence.
  - intros Hv. destruct (IH e Hv) as [?|(Hcl' & _)]; [by left|].
    by apply (wk_closed s Hwk) in Hcl'.
  - by apply verdict_top.
  - intros [= <-]. left. by apply (ci_ctx s Hci).
  - unfold receive. destruct c as [x|]; [destruct (ctxErr s) as [e'|] eqn:E|]; cbn; try done.
    intros [= <-]. left. by apply (ci_ctx s Hci).
Qed.

(** An address the race may dial: the text of an approved one of the network's family. *)
Definition approved (a : gostring) : Prop :=
  exists ip, valid_ip ip /\ hostIsAllowed (aclRules h) host ip = true /\
    (network = go "tcp4" -> is_v4 ip = true) /\ (network = go "tcp6" -> is_v4 ip = false) /\
    a = JoinHostPort (IP_String ip) port.

Lemma starts_approved s : reachable s -> Forall (fun e => approved (st_addr e)) (starts s).
Proof.
  intros Hr. destruct (reachable_queue_inv _ _ _ _ s Hr) as [_ _ _ _ Hst].
  eapply Forall_impl; [exact Hst|]. intros e ([|] & ip & Hv & Ha & Hf & Hn & ->); exists ip;
    repeat split; auto; cbn in Hf, Hn; rewrite ?Hf; done.
Qed.

(** C3: in every interleaving, each address the race dials is the text of an address
    the ACL approved for this host, of the requested network's family, on the
    requested port; no address is dialled twice, and every dial goroutine
    belongs to a recorded start. *)
Theorem dialled_addresses s :
  reachable s ->
  NoDup (st_addr <$> starts s) /\ Forall (fun e => approved (st_addr e)) (starts s) /\
  Forall (fun a => at_addr a ∈ st_addr <$> starts s) (attempts s).
Proof.
  intros Hr. pose proof (qi_nodup _ _ _ _ s (reachable_queue_inv _ _ _ _ s Hr)) as Hnd.
  split; [by apply NoDup_app in Hnd as (_ & _ & (_ & _ & ?)%NoDup_app)|].
  split; [by apply starts_approved|by apply attempts_started].
Qed.

(** C23: consecutive starts are at least tcpMinimumDelay (100 ms) apart, and at least
    tcpFallbackDelay (250 ms) apart unless a dial failure was received in
    between: a DNS completion never shortens the window. *)
Theorem starts_spaced s i e1 e0 :
  reachable s -> starts s !! i = Some e1 -> starts s !! S i = Some e0 ->
  (st_time e0 + tcpMinimumDelay <= st_time e1)%Z /\
  (st_failed e1 = false -> (st_time e0 + tcpFallbackDelay <= st_time e1)%Z).
Proof.
  intros Hr. pose proof (wi_spaced s (reachable_window_inv _ _ _ _ s Hr)) as Hs.
  revert i Hs. generalize (starts s) as l. induction l as [|x l IH]; intros i Hs H1 H0; [done|].
  destruct l as [|y l]; [by destruct i|]. destruct Hs as [Hxy Hs]. destruct i as [|i].
  - simplify_eq/=. destruct (st_failed e1);
      unfold tcpMinimumDelay, tcpFallbackDelay, Millisecond in *; split; try done; lia.
  - by apply (IH i).
Qed.

(** Once every goroutine has ended, only the returned connection is open. *)
Lemma open_at_end s :
  reachable s -> attempts s = [] -> openConns s = match ctl s with Returned (inl c) => {[c]} | _ => ∅ end.
Proof.
  intros Hr Ha. pose proof (oi_open s (reachable_own_inv _ _ _ _ s Hr)) as Ho. rewrite Ha in Ho. apply set_eq. intros c. rewrite Ho.
  split; [intros [Hc|Hc]; [by apply not_elem_of_nil in Hc|by rewrite Hc; apply elem_of_singleton]|].
  destruct (ctl s) as [| |[x|e]]; rewrite ?elem_of_empty; try done.
  intros ->%elem_of_singleton. by right.
Qed.

(** C4: exactly one winner and no leak: the connections not closed are those of dial
    goroutines still offering one, plus the one returned to the caller; once
    every goroutine has ended, only the returned connection is open, and none
    after an error. *)
Theorem single_winner s :
  reachable s ->
  (forall c, c ∈ openConns s <-> c ∈ held (attempts s) \/ ctl s = Returned (inl c)) /\
  (attempts s = [] -> openConns s = match ctl s with Returned (inl c) => {[c]} | _ => ∅ end).
Proof.
  intros Hr. split; [exact (oi_open s (reachable_own_inv _ _ _ _ s Hr))|by apply open_at_end].
Qed.

(** Waiting on the resolver or the dialer. *)
Definition outstanding (s : race) : Prop :=
  look4 s = Looking \/ look6 s = Looking \/ exists a, a ∈ attempts s /\ at_state a = Dialing.

(** Some goroutine of the program can act, at once or when the timer fires. *)
Definition can_move (s : race) : Prop :=
  exists d m s', (0 <= d)%Z /\ lstep Clock s m /\ now m = (now s + d)%Z /\ lstep Program m s'.

Lemma can_move_now s s' : lstep Program s s' -> can_move s.
Proof.
  intros Hs. destruct s. exists 0%Z. eexists _, s'. split; [done|]. split; [by apply (step_time _ _ _ _ _ 0)|].
  simpl. rewrite Z.add_0_r. done.
Qed.

Lemma can_move_timer s t : ctl s = AtSelect -> timer (sch s) = Some t -> can_move s.
Proof.
  intros Hc Ht. exists (Z.max 0 (t - now s)). eexists. eexists. split; [lia|].
  split; [apply (step_time _ _ _ _ s (Z.max 0 (t - now s))); lia|]. split; [done|].
  eapply step_select_timer; cbn; [done|exact Ht|lia].
Qed.

Lemma can_move_pulse s : look4 s = MustPulse \/ look6 s = MustPulse -> can_move s.
Proof. intros [?|?]; eapply can_move_now; [by apply step_pulse4|by apply step_pulse6]. Qed.

(** C7: no lost wake-up.  While the loop sleeps in its select, a queued candidate is
    reached without waiting for the resolver or a dial (a token, a pulse or the
    timer wakes the loop), and when nothing is outstanding any more some
    goroutine can still act, so the call never hangs. *)
Theorem no_lost_wakeup s :
  reachable s -> (forall r, ctl s <> Returned r) ->
  (feed_empty (feed s) = false \/ ~ outstanding s) -> can_move s.
Proof.
  intros Hr Hn Hq. destruct (ctl s) as [| |r] eqn:Hc; [by eapply can_move_now, step_top| |by destruct (Hn r)].
  destruct (ctxErr s) as [e|] eqn:He; [by eapply can_move_now, step_select_ctx|].
  pose proof (reachable_wake_inv _ _ _ _ s Hr) as Hwk. pose proof (reachable_count_inv _ _ _ _ s Hr) as Hci.
  destruct (wake (feed s)) eqn:Hw; [by eapply can_move_now, step_select_wake|].
  destruct (feed_empty (feed s)) eqn:Hf.
  - destruct Hq as [?|Ho]; [done|]. unfold outstanding in Ho.
    destruct (attempts s) as [|a l] eqn:Ha.
    + destruct (closer s) eqn:Ecl.
      * destruct (look4 s) eqn:E4; [destruct Ho; by left|apply can_move_pulse; by left|].
        destruct (look6 s) eqn:E6; [destruct Ho; by right; left|apply can_move_pulse; by right|].
        by eapply can_move_now, step_close.
      * by eapply can_move_now, step_close_pulse.
      * destruct (wk_end s Hwk) as [?|?]; [done| |done| |congruence|congruence].
        -- apply (wk_closed s Hwk). by rewrite Ecl.
        -- by rewrite (ci_eq s Hci He), Ha.
    + destruct (at_state a) as [|c err] eqn:Ea; [destruct Ho; do 2 right; exists a; split; [by left|done]|].
      eapply can_move_now, (step_select_result _ _ _ _ s 0 a c err); by rewrite ?Ha.
  - destruct (wk_queue s Hwk Hc Hf) as [?|[?|[?|Ht]]]; [congruence|apply can_move_pulse; auto..|].
    destruct (timer (sch s)) eqn:Et; [by eapply can_move_timer|done].
Qed.

(** One action of a goroutine or of the environment, after any passing of time. *)
Definition acts (s s' : race) : Prop :=
  exists m l, rtc (lstep Clock) s m /\ l <> Clock /\ lstep l m s'.

Lemma clock_same s m : reachable s -> rtc (lstep Clock) s m ->
  reachable m /\ looking m = looking s /\ weight m = weight s.
Proof.
  intros Hr Hm. induction Hm as [s|s m m' Hs Hm IH]; [done|].
  assert (reachable m) as (Hr' & -> & ->)%IH.
  { destruct Hr as (t0 & ctx & Hctx & Hrun). exists t0, ctx. split; [done|].
    eapply rtc_r; [done|]. by exists Clock. }
  split; [done|]. by inversion Hs.
Qed.

(** C8: the race terminates: from a reachable state there is no infinite sequence of
    actions of the loop, its goroutines, the resolver, the dialer and the
    request, however they interleave and however time passes between them. *)
Theorem race_terminates s : reachable s -> Acc (fun s' s => acts s s') s.
Proof.
  induction (smaller_wf s) as [s _ IH]. intros Hr. constructor. intros s' (m & l & Hm & Hl & Hs).
  destruct (clock_same s m Hr Hm) as (Hrm & Hlk & Hwt). apply IH.
  - pose proof (step_smaller _ _ _ _ l m s' Hrm Hs Hl) as Hsm. unfold smaller in *. by rewrite Hlk, Hwt in Hsm.
  - destruct Hrm as (t0 & ctx & Hctx & Hrun). exists t0, ctx. split; [done|].
    eapply rtc_r; [done|]. by exists l.
Qed.

(** C28: the error of a failed race: the context's error; or, after both lookups ended
    and every candidate was dialled, the error of the last dial received; or with
    nothing dialled the lookup failure when both families failed, the
    no-allowed-address refusal when the ACL approved no address, and the generic
    dial failure otherwise. *)
Theorem race_error s e :
  reachable s -> ctl s = Returned (inr e) ->
  is_ctx_error e \/
  closed (feed s) = true /\ feed_empty (feed s) = true /\
  ((starts s <> [] /\ lastErr (sch s) = Some e) \/
   (starts s = [] /\
    ((exists e4, errV4 (feed s) = Some e4 /\ errV6 (feed s) <> None /\
        e = ErrPolicy targetPolicyLookupFailed (Some e4)) \/
     ((errV4 (feed s) = None \/ errV6 (feed s) = None) /\
      e = if bool_decide (passedACL (feed s) = 0)
          then ErrPolicy targetPolicyNoAllowedAddress None else errTCPDialFailed)))).
Proof.
  intros Hr Hc. pose proof (ci_started s (reachable_count_inv _ _ _ _ s Hr)) as Hst.
  destruct (reachable_verdict s e Hr Hc) as [?|(Hcl & Hem & -> & Hl)]; [by left|right].
  split; [done|]. split; [done|]. unfold finalError. rewrite Hst in *.
  destruct (starts s) as [|x l]; cbn [length] in *.
  - right. split; [done|]. rewrite bool_decide_false by lia.
    destruct (errV4 (feed s)) as [e4|], (errV6 (feed s)) as [e6|]; eauto.
  - left. split; [done|]. rewrite bool_decide_true by lia.
    destruct (lastErr (sch s)); [done|]. destruct Hl; [lia|done].
Qed.
End Theorems.

(** ** Witnesses: scripted runs *)

Abbreviation demo_run script := (run example_policy (go "tcp") (go "dns.test") (go "443") script (init_race 0 None)).
Abbreviation demo_reachable := (reachable example_policy (go "tcp") (go "dns.test") (go "443")).

(** The IPv4 answer arrives, its first address fails after 50 ms, its second is
    started at 100 ms. *)
Definition script_two_starts : list action :=
  [ATop; ALookup false (Ok [z_bytes [1; 1; 1; 1]%Z; z_bytes [2; 2; 2; 2]%Z]); APulse false; AWake; ATop; ATop;
   ATime (50 * Millisecond); ADial 0 false (Some (ErrNet false (go "refused"))); AResult 0; ATop;
   ATime (50 * Millisecond); ATimer; ATop; ATop].

(** ... and wins. *)
Definition script_winner : list action := script_two_starts ++ [ADial 0 true None; AResult 0].

(** ... and fails too, as does the IPv6 lookup. *)
Definition script_all_failed : list action :=
  script_two_starts ++
  [ALookup true (Err (ErrNet false (go "no AAAA"))); AClose; AClosePulse;
   ADial 0 false (Some (ErrNet false (go "unreachable"))); AResult 0; ATop].

Definition state_of (o : option race) : race := default (init_race 0 None) o.

Definition two_starts : race := Eval vm_compute in state_of (demo_run script_two_starts).
Definition winner : race := Eval vm_compute in state_of (demo_run script_winner).
Definition all_failed : race := Eval vm_compute in state_of (demo_run script_all_failed).

(** The loop sleeps and one candidate was just queued. *)
Definition script_queued : list action := [ATop; ALookup false (Ok [z_bytes [1; 1; 1; 1]%Z])].
Definition one_queued : race := Eval vm_compute in state_of (demo_run script_queued).

Lemma one_queued_run : demo_run script_queued = Some one_queued.
Proof. vm_compute. reflexivity. Qed.

Lemma two_starts_run : demo_run script_two_starts = Some two_starts.
Proof. vm_compute. reflexivity. Qed.

Lemma winner_run : demo_run script_winner = Some winner.
Proof. vm_compute. reflexivity. Qed.

Lemma all_failed_run : demo_run script_all_failed = Some all_failed.
Proof. vm_compute. reflexivity. Qed.

Lemma dialled_addresses_witness :
  st_addr <$> starts two_starts = [go "2.2.2.2:443"; go "1.1.1.1:443"] /\
  NoDup (st_addr <$> starts two_starts).
Proof.
  split; [reflexivity|].
  apply (dialled_addresses example_policy (go "tcp") (go "dns.test") (go "443") two_starts).
  exact (race_run_reachable _ _ _ _ _ _ two_starts_run).
Defined.

Lemma starts_spaced_witness :
  (0 + tcpMinimumDelay <= 100 * Millisecond)%Z.
Proof.
  apply (starts_spaced example_policy (go "tcp") (go "dns.test") (go "443") two_starts 0
    (MkStart (100 * Millisecond) (go "2.2.2.2:443") true) (MkStart 0 (go "1.1.1.1:443") false)).
  - exact (race_run_reachable _ _ _ _ _ _ two_starts_run).
  - vm_compute. reflexivity.
  - vm_compute. reflexivity.
Defined.

Lemma single_winner_witness : ctl winner = Returned (inl 0) /\ openConns winner = {[0]}.
Proof.
  split; [reflexivity|].
  apply (single_winner example_policy (go "tcp") (go "dns.test") (go "443") winner).
  - exact (race_run_reachable _ _ _ _ _ _ winner_run).
  - reflexivity.
Defined.

Lemma no_lost_wakeup_witness :
  feed_empty (feed one_queued) = false /\
  can_move example_policy (go "tcp") (go "dns.test") (go "443") one_queued.
Proof.
  split; [reflexivity|].
  apply (no_lost_wakeup example_policy (go "tcp") (go "dns.test") (go "443") one_queued).
  - exact (race_run_reachable _ _ _ _ _ _ one_queued_run).
  - discriminate.
  - left. reflexivity.
Defined.

Lemma race_terminates_witness :
  Acc (fun s' s => acts example_policy (go "tcp") (go "dns.test") (go "443") s s') two_starts.
Proof.
  apply (race_terminates example_policy (go "tcp") (go "dns.test") (go "443") two_starts).
  exact (race_run_reachable _ _ _ _ _ _ two_starts_run).
Defined.

Lemma race_error_witness :
  ctl all_failed = Returned (inr (ErrNet false (go "unreachable"))) /\
  lastErr (sch all_failed) = Some (ErrNet false (go "unreachable")).
Proof.
  split; [reflexivity|].
  destruct (race_error example_policy (go "tcp") (go "dns.test") (go "443") all_failed
    (ErrNet false (go "unreachable"))) as [[H|H]|(_ & _ & [[_ H]|[H _]])].
  - exact (race_run_reachable _ _ _ _ _ _ all_failed_run).
  - reflexivity.
  - discriminate H.
  - discriminate H.
  - exact H.
  - discriminate H.
Defined.
