(* ===== verification/StaticRace.v ===== *)
(** * The TCP dial race over a fixed list: dialTCPAddresses of connect_dial.go

    The policy dialTCPIncremental was derived from: the addresses, interleaved by family,
    are dialled one after the other by one loop and a goroutine per dial.  The dial
    goroutines, the delays and the control points are those of DialRace, whose lemmas on
    the ownership of connections are used here through [ownership]. *)

From stdpp Require Import base decidable numbers list gmap strings relations.
From Stdlib Require Import ZArith Lia Ascii.
From S2P Require Import Prelude GoStrings GoNet Acl Policy Feed DialRace DialProps.

(** ** State *)

(** [s_next] is the index of the next address, [s_starts] and [s_failed] the history of
    starts as in DialRace. *)
Record static := MkStatic {
  s_now : Z;
  s_ctx : option error;
  s_addresses : list gostring;
  s_attempts : list attempt;
  s_open : gset conn;
  s_conn : conn;
  s_next : nat;
  s_pending : nat;
  s_lastStart : Z;
  s_timer : option Z;
  s_lastErr : option error;
  s_starts : list startEvent;
  s_failed : bool;
  s_ctl : control
}.

(** Returning runs the deferred [cancel()]. *)
Definition return_static (s : static) (r : conn + error) : static :=
  MkStatic (s_now s) (Some (default ErrCanceled (s_ctx s))) (s_addresses s) (s_attempts s) (s_open s) (s_conn s)
    (s_next s) (s_pending s) (s_lastStart s) (s_timer s) (s_lastErr s) (s_starts s) (s_failed s) (Returned r).

(** [start(addresses[next])] with what follows it. *)
Definition start_next (s : static) : static :=
  match s_addresses s !! s_next s with
  | None => s
  | Some address =>
      MkStatic (s_now s) (s_ctx s) (s_addresses s) (s_attempts s ++ [MkAttempt address (s_now s) Dialing]) (s_open s) (s_conn s)
        (S (s_next s)) (S (s_pending s)) (s_now s) (Some (s_now s + tcpFallbackDelay)%Z) (s_lastErr s)
        (MkStart (s_now s) address (s_failed s) :: s_starts s) false (s_ctl s)
  end.

(** The call up to the loop. *)
Definition dialTCPAddresses (network : gostring) (addresses : list gostring) (t0 : Z) (ctx : option error) : static :=
  let addresses := interleaveTCPAddresses network addresses in
  let s := MkStatic t0 ctx addresses [] ∅ 0 0 0 t0 None None [] false AtSelect in
  if bool_decide (addresses = []) then return_static s (inr errTCPDialFailed)
  else
    match ctx with
    | Some err => return_static s (inr err)
    | None => start_next s
    end.

(** [case res := <-results]; a result without a connection has an error. *)
Definition receive_static (s : static) (i : nat) (c : option conn) (err : option error) : static :=
  let s := MkStatic (s_now s) (s_ctx s) (s_addresses s) (delete i (s_attempts s)) (s_open s) (s_conn s)
    (s_next s) (pred (s_pending s)) (s_lastStart s) (s_timer s) (s_lastErr s) (s_starts s) (s_failed s) (s_ctl s) in
  match c with
  | Some x =>
      match s_ctx s with
      | Some e =>
          return_static (MkStatic (s_now s) (s_ctx s) (s_addresses s) (s_attempts s) (s_open s ∖ {[x]}) (s_conn s)
            (s_next s) (s_pending s) (s_lastStart s) (s_timer s) (s_lastErr s) (s_starts s) (s_failed s) (s_ctl s)) (inr e)
      | None => return_static s (inl x)
      end
  | None =>
      let timer :=
        if bool_decide (s_next s < length (s_addresses s))
        then Some (s_now s + Z.max 0 (tcpMinimumDelay - (s_now s - s_lastStart s)))%Z else s_timer s in
      let s := MkStatic (s_now s) (s_ctx s) (s_addresses s) (s_attempts s) (s_open s) (s_conn s)
        (s_next s) (s_pending s) (s_lastStart s) (s_timer s) err (s_starts s) true (s_ctl s) in
      if bool_decide (s_next s = length (s_addresses s)) && bool_decide (s_pending s = 0)
      then return_static s (inr (default errTCPDialFailed err))
      else MkStatic (s_now s) (s_ctx s) (s_addresses s) (s_attempts s) (s_open s) (s_conn s)
        (s_next s) (s_pending s) (s_lastStart s) timer (s_lastErr s) (s_starts s) (s_failed s) (s_ctl s)
  end.

(** [case <-timer.C] and what follows the select. *)
Definition timer_fired (s : static) : static :=
  let s := MkStatic (s_now s) (s_ctx s) (s_addresses s) (s_attempts s) (s_open s) (s_conn s)
    (s_next s) (s_pending s) (s_lastStart s) None (s_lastErr s) (s_starts s) (s_failed s) (s_ctl s) in
  if bool_decide (s_next s < length (s_addresses s)) then
    match s_ctx s with
    | Some err => return_static s (inr err)
    | None => start_next s
    end
  else s.

Definition set_attempts (s : static) (attempts : list attempt) (open : gset conn) (next : conn) : static :=
  MkStatic (s_now s) (s_ctx s) (s_addresses s) attempts open next
    (s_next s) (s_pending s) (s_lastStart s) (s_timer s) (s_lastErr s) (s_starts s) (s_failed s) (s_ctl s).

Inductive sstep : actor -> static -> static -> Prop :=
  | sstep_time s d :
      (0 <= d)%Z ->
      sstep Clock s (MkStatic (s_now s + d) (s_ctx s) (s_addresses s) (s_attempts s) (s_open s) (s_conn s)
        (s_next s) (s_pending s) (s_lastStart s) (s_timer s) (s_lastErr s) (s_starts s) (s_failed s) (s_ctl s))
  | sstep_ctx s e :
      s_ctx s = None -> is_ctx_error e ->
      sstep Environment s (MkStatic (s_now s) (Some e) (s_addresses s) (s_attempts s) (s_open s) (s_conn s)
        (s_next s) (s_pending s) (s_lastStart s) (s_timer s) (s_lastErr s) (s_starts s) (s_failed s) (s_ctl s))
  | sstep_dial s i a (got : bool) err attemptErr c' err' closedConn :
      s_attempts s !! i = Some a -> at_state a = Dialing ->
      (attemptErr = None <-> s_ctx s = None /\ (s_now s < at_start a + tcpAttemptTimeout)%Z) ->
      finish_dial (if got then Some (s_conn s) else None) err attemptErr = (c', err', closedConn) ->
      sstep Environment s
        (set_attempts s (<[i := MkAttempt (at_addr a) (at_start a) (Offering c' err')]> (s_attempts s))
           (close_conn closedConn (if got then {[s_conn s]} ∪ s_open s else s_open s))
           (if got then S (s_conn s) else s_conn s))
  | sstep_abandon s i a c err :
      s_attempts s !! i = Some a -> at_state a = Offering c err -> s_ctx s <> None ->
      sstep Program s (set_attempts s (delete i (s_attempts s)) (close_conn c (s_open s)) (s_conn s))
  | sstep_cancelled s e :
      s_ctl s = AtSelect -> s_ctx s = Some e -> sstep Program s (return_static s (inr e))
  | sstep_result s i a c err :
      s_ctl s = AtSelect -> s_attempts s !! i = Some a -> at_state a = Offering c err ->
      sstep Program s (receive_static s i c err)
  | sstep_timer s t :
      s_ctl s = AtSelect -> s_timer s = Some t -> (t <= s_now s)%Z -> sstep Program s (timer_fired s).

Definition static_step (s s' : static) : Prop := exists l, sstep l s s'.

Section StaticRace.
Variables (network : gostring) (addresses : list gostring).

Definition static_reachable (s : static) : Prop :=
  exists t0 ctx, (match ctx with Some e => is_ctx_error e | None => True end) /\
    rtc static_step (dialTCPAddresses network addresses t0 ctx) s.

Lemma static_ind (P : static -> Prop) :
  (forall t0 ctx, (match ctx with Some e => is_ctx_error e | None => True end) -> P (dialTCPAddresses network addresses t0 ctx)) ->
  (forall l s s', P s -> sstep l s s' -> P s') ->
  forall s, static_reachable s -> P s.
Proof.
  intros Hi Hs s (t0 & ctx & Hctx & Hrun). specialize (Hi t0 ctx Hctx). revert Hi.
  induction Hrun as [|x y z [l Hxy] _ IH]; [done|]. intros Hx. apply IH. by eapply Hs.
Qed.

(** ** Ownership of connections *)

(** The part of the state that says who holds which connection. *)
Definition ownership (s : static) : race :=
  MkRace (s_now s) (s_ctx s) newTCPFamilyFeed LookupDone LookupDone CloserDone (s_attempts s) (s_open s) (s_conn s)
    (MkSched 0 0 0 0 None None None) [] false (s_ctl s).

Lemma start_next_cases s :
  (start_next s = s /\ length (s_addresses s) <= s_next s) \/
  exists a, s_addresses s !! s_next s = Some a /\
    start_next s = MkStatic (s_now s) (s_ctx s) (s_addresses s) (s_attempts s ++ [MkAttempt a (s_now s) Dialing]) (s_open s) (s_conn s)
        (S (s_next s)) (S (s_pending s)) (s_now s) (Some (s_now s + tcpFallbackDelay)%Z) (s_lastErr s)
        (MkStart (s_now s) a (s_failed s) :: s_starts s) false (s_ctl s).
Proof.
  unfold start_next. destruct (s_addresses s !! s_next s) as [a|] eqn:E; [right; by eexists|left].
  split; [done|]. by apply lookup_ge_None.
Qed.

Lemma owns_start_next s : s_ctl s = AtSelect -> own_inv (ownership s) -> own_inv (ownership (start_next s)).
Proof.
  intros Hc [Hnd Hopen Hfresh Hret Hwf]. destruct (start_next_cases s) as [[-> _]|(a & _ & ->)]; [done|].
  assert (Hh : held (s_attempts s ++ [MkAttempt a (s_now s) Dialing]) = held (s_attempts s)) by (rewrite held_app; apply app_nil_r).
  constructor; cbn [ownership s_attempts s_open s_conn s_ctl attempts openConns nextConn ctl] in *; rewrite ?Hh; auto.
  apply Forall_app. split; [done|]. by repeat constructor.
Qed.

Lemma owns_return s r : (forall c, r <> inl c) -> s_ctl s = AtSelect -> own_inv (ownership s) -> own_inv (ownership (return_static s r)).
Proof.
  intros Hr Hc Ho. eapply own_inv_ext; [..|exact Ho]; try done. cbn. rewrite Hc. intros c.
  split; [intros [= ->]; by destruct (Hr c)|done].
Qed.

Lemma owns_step l s s' : sstep l s s' -> own_inv (ownership s) -> own_inv (ownership s').
Proof.
  intros Hs Ho. destruct Hs as [s d _|s e _ _|s i a got err ae c' err' cl Hi Hd _ Hf|s i a c err Hi Hst _|s e Hc _
    |s i a c err Hc Hi Hst|s t Hc _ _].
  - by eapply own_inv_ext; [..|exact Ho].
  - by eapply own_inv_ext; [..|exact Ho].
  - eapply (own_inv_dial (ownership s) _ i a got); try done.
    apply finish_dial_cases in Hf as [(-> & -> & ?)|(-> & -> & -> & ? & _)]; [by left|].
    right. by destruct got.
  - eapply (own_inv_drop (ownership s) _ i a c); try done. unfold held_conn. rewrite Hst. by destruct c.
  - by apply owns_return.
  - assert (Hh : held_conn a = c) by (unfold held_conn; rewrite Hst; by destruct c).
    unfold receive_static. destruct c as [x|]; cbn [s_ctx s_next s_pending s_addresses].
    + destruct (s_ctx s) eqn:E; [|by eapply (own_inv_win (ownership s) _ i a x)].
      eapply (own_inv_drop (ownership s) _ i a (Some x)); try done. cbn. by rewrite Hc.
    + eapply (own_inv_drop (ownership s) _ i a None); try done; try (by destruct (_ && _)).
      intros x. destruct (_ && _); cbn; by rewrite Hc.
  - unfold timer_fired. cbn [s_next s_addresses s_ctx]. case_bool_decide; [|by eapply own_inv_ext; [..|exact Ho]].
    destruct (s_ctx s) as [e|] eqn:E.
    + apply owns_return; [done|done|]. by eapply own_inv_ext; [..|exact Ho].
    + apply owns_start_next; [done|]. by eapply own_inv_ext; [..|exact Ho].
Qed.

Lemma owns_initial t0 ctx : own_inv (ownership (dialTCPAddresses network addresses t0 ctx)).
Proof.
  assert (Hi : forall s, s_attempts s = [] -> s_open s = ∅ -> s_ctl s = AtSelect -> own_inv (ownership s)).
  { intros s Ha Hop Hc. constructor; cbn; rewrite ?Ha, ?Hop, ?Hc; cbn;
      [constructor| |by intros c ?%not_elem_of_empty|done|constructor].
    intros c. split; [by intros ?%not_elem_of_empty|by intros [?%not_elem_of_nil|]]. }
  unfold dialTCPAddresses. case_bool_decide; [by apply owns_return; [..|apply Hi]|].
  destruct ctx; [by apply owns_return; [..|apply Hi]|by apply owns_start_next; [|apply Hi]].
Qed.

Lemma static_owns s : static_reachable s -> own_inv (ownership s).
Proof. apply (static_ind (fun s => own_inv (ownership s))); [intros; apply owns_initial|]. intros l x y Hx Hxy. by eapply owns_step. Qed.
(** ** The schedule *)

#[local] Arguments reverse : simpl never.

(** What the loop keeps: the addresses started are the first ones, the timer is measured
    from the last start, a dial is outstanding or another address follows, and an error
    returned is the context's or that of a dial after the last address. *)
Record schedule (s : static) : Prop := {
  sc_addresses : s_addresses s = interleaveTCPAddresses network addresses;
  sc_next : s_next s <= length (s_addresses s);
  sc_starts : st_addr <$> reverse (s_starts s) = take (s_next s) (s_addresses s);
  sc_spaced : spaced (s_starts s);
  sc_last : forall e l, s_starts s = e :: l -> st_time e = s_lastStart s;
  sc_timer : forall t, s_timer s = Some t ->
    (s_lastStart s + (if s_failed s then tcpMinimumDelay else tcpFallbackDelay) <= t)%Z;
  sc_armed : s_ctl s = AtSelect -> s_next s < length (s_addresses s) -> s_timer s <> None;
  sc_pending : s_ctx s = None -> s_pending s = length (s_attempts s);
  sc_some : s_ctl s = AtSelect -> s_next s = length (s_addresses s) -> s_pending s <> 0;
  sc_ctx : forall e, s_ctx s = Some e -> is_ctx_error e;
  sc_loop : s_ctl s <> AtTop;
  sc_error : forall e, s_ctl s = Returned (inr e) ->
    is_ctx_error e \/ (s_addresses s = [] /\ e = errTCPDialFailed) \/
    (s_next s = length (s_addresses s) /\ s_lastErr s = Some e)
}.

Lemma schedule_return s r :
  schedule s ->
  (forall e, r = inr e -> is_ctx_error e \/ (s_addresses s = [] /\ e = errTCPDialFailed) \/
    (s_next s = length (s_addresses s) /\ s_lastErr s = Some e)) ->
  schedule (return_static s r).
Proof.
  intros [] Hr. constructor; cbn; auto; try done.
  - intros e [= <-]. destruct (s_ctx s) as [e'|] eqn:E; [by apply sc_ctx0|by right].
  - by intros e [= ->]; apply Hr.
Qed.

Lemma schedule_attempts s l open next :
  schedule s -> (s_ctx s = None -> length l = length (s_attempts s)) -> schedule (set_attempts s l open next).
Proof. intros [] Hl. constructor; cbn; auto. intros E. rewrite Hl by done. auto. Qed.

(** Starting an address once its time has come; the other conditions on the state are those
    of the loop after the timer has fired. *)
Lemma schedule_start s :
  s_addresses s = interleaveTCPAddresses network addresses -> s_next s < length (s_addresses s) ->
  st_addr <$> reverse (s_starts s) = take (s_next s) (s_addresses s) -> spaced (s_starts s) ->
  (forall e l, s_starts s = e :: l -> (st_time e + (if s_failed s then tcpMinimumDelay else tcpFallbackDelay) <= s_now s)%Z) ->
  s_ctx s = None -> s_pending s = length (s_attempts s) -> s_ctl s = AtSelect ->
  schedule (start_next s).
Proof.
  intros Ha Hn Hst Hsp Ht Hctx Hp Hc. destruct (start_next_cases s) as [[_ ?]|(a & Hl & ->)]; [lia|].
  constructor; cbn; try done.
  - rewrite reverse_cons, fmap_app, Hst. cbn. by rewrite (take_S_r _ _ a).
  - destruct (s_starts s) as [|e l]; [done|]. cbn. split; [by eapply Ht|done].
  - by intros e l [= <- _].
  - by intros t [= <-].
  - rewrite length_app. cbn. lia.
  - by rewrite Hctx.
  - by rewrite Hc.
  - by rewrite Hc.
Qed.

Lemma schedule_initial t0 ctx :
  (match ctx with Some e => is_ctx_error e | None => True end) -> schedule (dialTCPAddresses network addresses t0 ctx).
Proof.
  intros Hctx. unfold dialTCPAddresses. set (ordered := interleaveTCPAddresses network addresses).
  case_bool_decide as Ho; [|destruct ctx as [e|]].
  - constructor; cbn; try done; try lia.
    + intros e [= <-]. destruct ctx; [done|by right].
    + intros e [= <-]. right. left. done.
  - constructor; cbn; try done; try lia.
    + intros e' [= <-]. done.
    + intros e' [= <-]. by left.
  - apply schedule_start; cbn; try done. fold ordered. destruct ordered; [done|cbn; lia].
Qed.

Lemma schedule_result s i a c err :
  s_attempts s !! i = Some a -> at_state a = Offering c err -> offer_wf a -> s_ctl s = AtSelect ->
  schedule s -> schedule (receive_static s i c err).
Proof.
  intros Hi Hst Hwf Hc Hs.
  assert (Hlen : length (s_attempts s) = S (length (delete i (s_attempts s)))).
  { pose proof (lookup_lt_Some _ _ _ Hi). rewrite length_delete by eauto. lia. }
  destruct Hs. unfold receive_static. unfold offer_wf in Hwf. rewrite Hst in Hwf.
  assert (Hp : s_ctx s = None -> pred (s_pending s) = length (delete i (s_attempts s))) by (intros E; rewrite sc_pending0, Hlen; auto).
  destruct c as [x|]; cbn [s_ctx s_next s_pending s_addresses].
  - destruct (s_ctx s) as [e|] eqn:E; constructor; cbn; try done; auto; rewrite ?E; cbn;
      intros e' [= <-]; first [by apply sc_ctx0|left; by apply sc_ctx0|by right].
  - destruct (bool_decide_reflect (s_next s = length (s_addresses s))) as [Hn|Hn];
      destruct (bool_decide_reflect (pred (s_pending s) = 0)) as [Hz|Hz]; cbn [andb].
    1: { constructor; cbn; auto; try done.
      - intros t Ht%sc_timer0. destruct (s_failed s); unfold tcpMinimumDelay, tcpFallbackDelay, Millisecond in *; lia.
      - intros e [= <-]. destruct (s_ctx s) as [e|] eqn:E; [by apply sc_ctx0|by right].
      - intros e [= <-]. right. right. by destruct err. }
    all: constructor; cbn; auto; try done; try (rewrite Hc; done).
    1, 3, 5: intros t; case_bool_decide; [intros [= <-]; lia|intros Ht%sc_timer0;
      destruct (s_failed s); unfold tcpMinimumDelay, tcpFallbackDelay, Millisecond in *; lia].
    all: intros _ Hlt; by rewrite bool_decide_true.
Qed.

Lemma schedule_step l s s' : sstep l s s' -> own_inv (ownership s) -> schedule s -> schedule s'.
Proof.
  intros Hstep Ho Hs. destruct Hstep as [s d Hd|s e Hn He|s i a got err ae c' err' cl Hi _ _ _|s i a c err Hi _ Hctx|s e Hc He
    |s i a c err Hc Hi Hst|s t Hc Ht Hle].
  - destruct Hs. by constructor.
  - destruct Hs. constructor; cbn; auto; try done. by intros e' [= <-].
  - apply schedule_attempts; [done|]. intros _. apply length_insert.
  - by apply schedule_attempts.
  - apply schedule_return; [done|]. intros e' [= <-]. left. by apply (sc_ctx s Hs).
  - eapply schedule_result; try done. apply (proj1 (Forall_lookup _ _) (oi_wf _ Ho) i a Hi).
  - unfold timer_fired. cbn [s_next s_addresses s_ctx]. destruct Hs. case_bool_decide as Hlt.
    + destruct (s_ctx s) as [e|] eqn:E.
      * constructor; cbn; rewrite ?E; cbn; auto; try done. intros e' [= <-]. left. by apply sc_ctx0.
      * apply schedule_start; cbn; auto. intros e l Hl. rewrite (sc_last0 e l Hl). apply sc_timer0 in Ht. lia.
    + constructor; cbn; auto; done.
Qed.

Lemma static_schedule s : static_reachable s -> schedule s.
Proof.
  intros Hr. apply (static_ind (fun s => own_inv (ownership s) /\ schedule s)); [|..|done].
  - intros t0 ctx Hctx. split; [apply owns_initial|by apply schedule_initial].
  - intros l x y [Ho Hx] Hxy. split; [by eapply owns_step|by eapply schedule_step].
Qed.
(** In every interleaving the race dials the first addresses of the interleaved list in
    its order, with the delays of the policy between them; a connection that is open is
    held by exactly one dial goroutine or is the one returned, which alone is open when the
    goroutines have ended; and an error is the context's, or no address was numeric and of
    the network's family, or every address was dialled and it is the error of the last
    dial received. *)
Theorem static_race_sound s :
  static_reachable s ->
  let ordered := interleaveTCPAddresses network addresses in
  st_addr <$> reverse (s_starts s) = take (length (s_starts s)) ordered /\ spaced (s_starts s) /\
  (forall c, c ∈ s_open s <-> c ∈ held (s_attempts s) \/ s_ctl s = Returned (inl c)) /\ NoDup (held (s_attempts s)) /\
  (s_attempts s = [] -> s_open s = match s_ctl s with Returned (inl c) => {[c]} | _ => ∅ end) /\
  (forall e, s_ctl s = Returned (inr e) ->
    is_ctx_error e \/ (ordered = [] /\ e = errTCPDialFailed) \/
    (length (s_starts s) = length ordered /\ s_lastErr s = Some e)).
Proof.
  intros Hr ordered. pose proof (static_schedule s Hr) as Hs. pose proof (static_owns s Hr) as Ho.
  assert (Hn : s_next s = length (s_starts s)).
  { pose proof (f_equal length (sc_starts s Hs)) as Hl. rewrite length_fmap, length_reverse, length_take in Hl.
    pose proof (sc_next s Hs). lia. }
  unfold ordered. rewrite <- (sc_addresses s Hs), <- Hn. split_and!.
  - apply (sc_starts s Hs).
  - apply (sc_spaced s Hs).
  - apply (oi_open _ Ho).
  - apply (oi_nodup _ Ho).
  - intros Ha. apply set_eq. intros c. rewrite (oi_open _ Ho c). cbn [ownership attempts ctl]. rewrite Ha.
    destruct (s_ctl s) as [| |[x|e]]; cbn; split; try done; try by intros [?%not_elem_of_nil|].
    + intros [?%not_elem_of_nil|[= ->]]; [done|by apply elem_of_singleton].
    + intros ->%elem_of_singleton. by right.
  - apply (sc_error s Hs).
Qed.

(** ** The race ends *)

Definition static_weight (s : static) : nat :=
  (match s_ctx s with None => 1 | Some _ => 0 end) + 8 * (length (s_addresses s) - s_next s) +
  sum_list_with attempt_weight (s_attempts s) + (match s_timer s with Some _ => 2 | None => 0 end) +
  (match s_ctl s with Returned _ => 0 | _ => 1 end).

Lemma start_next_weight s : s_next s < length (s_addresses s) -> s_timer s = None -> static_weight (start_next s) < static_weight s.
Proof.
  intros Hn Ht. destruct (start_next_cases s) as [[_ ?]|(a & _ & ->)]; [lia|].
  unfold static_weight. cbn [s_ctx s_addresses s_next s_attempts s_timer s_ctl]. rewrite sum_list_with_app, Ht. cbn. lia.
Qed.

Lemma static_smaller l s s' : sstep l s s' -> l <> Clock -> static_weight s' < static_weight s.
Proof.
  intros Hstep Hl. destruct Hstep as [|s e Hn He|s i a got err ae c' err' cl Hi Hd _ _|s i a c err Hi Hst Hctx|s e Hc He
    |s i a c err Hc Hi Hst|s t Hc Ht Hle]; [done|..];
    unfold static_weight; cbn [return_static set_attempts s_ctx s_addresses s_next s_attempts s_timer s_ctl].
  - rewrite Hn. lia.
  - pose proof (weight_insert _ _ _ (MkAttempt (at_addr a) (at_start a) (Offering c' err')) Hi) as H.
    unfold attempt_weight in H at 2 3. rewrite Hd in H. cbn in H. lia.
  - rewrite (weight_delete _ _ _ Hi). unfold attempt_weight at 2. rewrite Hst. lia.
  - rewrite Hc, He. lia.
  - pose proof (weight_delete _ _ _ Hi) as H. unfold attempt_weight in H at 2. rewrite Hst in H. rewrite H.
    unfold receive_static. destruct c as [x|]; [destruct (s_ctx s) eqn:E; cbn; rewrite ?E, Hc; cbn; lia|].
    cbn [s_ctx s_addresses s_next s_attempts s_timer s_ctl s_pending].
    destruct (_ && _); [cbn; destruct (s_ctx s); rewrite Hc; lia|].
    case_bool_decide; cbn; rewrite Hc; destruct (s_timer s); lia.
  - change (static_weight (timer_fired s) < static_weight s). unfold timer_fired. cbn [s_next s_addresses s_ctx].
    set (s1 := MkStatic _ _ _ _ _ _ _ _ _ None _ _ _ _).
    assert (H1 : static_weight s1 < static_weight s) by (unfold static_weight; cbn; rewrite Ht; lia).
    case_bool_decide; [|exact H1]. destruct (s_ctx s) as [e|] eqn:E.
    + unfold static_weight in *. cbn in *. rewrite E in *. destruct (s_ctl s); lia.
    + pose proof (start_next_weight s1 ltac:(done) eq_refl). lia.
Qed.

Lemma static_clock s m : rtc (sstep Clock) s m -> static_weight m = static_weight s.
Proof. induction 1 as [s|s m m' Hs _ ->]; [done|]. by inversion Hs. Qed.

(** The race over a fixed list ends: there is no infinite sequence of actions however time
    passes between them, and while it has not returned and no dial is outstanding the loop
    can act, at once or when its timer fires. *)
Theorem static_race_ends s :
  static_reachable s ->
  Acc (fun s' s => exists m l, rtc (sstep Clock) s m /\ l <> Clock /\ sstep l m s') s /\
  ((forall r, s_ctl s <> Returned r) -> (forall a, a ∈ s_attempts s -> at_state a <> Dialing) ->
    exists d s', (0 <= d)%Z /\ sstep Program (MkStatic (s_now s + d) (s_ctx s) (s_addresses s) (s_attempts s) (s_open s) (s_conn s)
        (s_next s) (s_pending s) (s_lastStart s) (s_timer s) (s_lastErr s) (s_starts s) (s_failed s) (s_ctl s)) s').
Proof.
  intros Hr. split.
  - clear Hr. remember (static_weight s) as n eqn:En. revert s En. induction (lt_wf n) as [n _ IH]. intros s ->.
    constructor. intros s' (m & l & Hm & Hl & Hs). eapply IH; [|done].
    rewrite <- (static_clock s m Hm). by eapply static_smaller.
  - intros Hn Hd. pose proof (static_schedule s Hr) as Hs.
    assert (Hc : s_ctl s = AtSelect) by (destruct (s_ctl s) as [| |r] eqn:E; [by destruct (sc_loop s Hs)|done|by destruct (Hn r)]).
    destruct (s_attempts s) as [|a l] eqn:Ha.
    + destruct (s_ctx s) as [e|] eqn:E.
      * exists 0%Z. eexists. split; [done|]. by eapply sstep_cancelled.
      * pose proof (sc_pending s Hs E) as Hp. rewrite Ha in Hp. pose proof (sc_next s Hs).
        destruct (decide (s_next s = length (s_addresses s))) as [Hlast|]; [by destruct (sc_some s Hs Hc Hlast)|].
        destruct (s_timer s) as [t|] eqn:Et; [|by destruct (sc_armed s Hs Hc ltac:(lia))].
        exists (Z.max 0 (t - s_now s)). eexists. split; [lia|]. eapply sstep_timer; [done|cbn; reflexivity|cbn; lia].
    + destruct (at_state a) as [|c err] eqn:Ea; [by destruct (Hd a (list_elem_of_here _ _))|].
      exists 0%Z. eexists. split; [done|]. by eapply (sstep_result _ 0 a c err).
Qed.
End StaticRace.

(** ** Witnesses *)

Definition two_addresses : list gostring := [go "1.1.1.1:443"; go "[2001:db8::1]:443"].

Lemma two_addresses_order : interleaveTCPAddresses (go "tcp") two_addresses = two_addresses.
Proof. vm_compute. reflexivity. Qed.

(** The first address fails at once; the second is started after the minimum delay and
    wins. *)
Lemma second_wins :
  exists s, static_reachable (go "tcp") two_addresses s /\ s_ctl s = Returned (inl 0) /\ s_attempts s = [] /\
    st_time <$> s_starts s = [tcpMinimumDelay; 0%Z].
Proof.
  eexists. split.
  { exists 0%Z, None. split; [exact I|]. unfold dialTCPAddresses. rewrite two_addresses_order.
    eapply rtc_l; [eexists; eapply (sstep_dial _ 0 _ false (Some errTCPDialFailed) None); [reflexivity|reflexivity|split; [done|reflexivity]|reflexivity]|].
    eapply rtc_l; [eexists; eapply (sstep_result _ 0); reflexivity|].
    eapply rtc_l; [eexists; apply (sstep_time _ tcpMinimumDelay); vm_compute; discriminate|].
    eapply rtc_l; [eexists; eapply sstep_timer; [reflexivity|reflexivity|vm_compute; discriminate]|].
    eapply rtc_l; [eexists; eapply (sstep_dial _ 0 _ true None None); [reflexivity|reflexivity|split; [done|reflexivity]|reflexivity]|].
    eapply rtc_l; [eexists; eapply (sstep_result _ 0); reflexivity|]. apply rtc_refl. }
  split; [reflexivity|]. split; reflexivity.
Qed.

Lemma static_race_sound_witness :
  exists s, s_ctl s = Returned (inl 0) /\ s_open s = {[0]} /\
    st_addr <$> reverse (s_starts s) = take (length (s_starts s)) (interleaveTCPAddresses (go "tcp") two_addresses).
Proof.
  destruct second_wins as (s & Hr & Hc & Ha & _).
  destruct (static_race_sound (go "tcp") two_addresses s Hr) as (Hst & _ & _ & _ & Hop & _).
  exists s. split; [exact Hc|]. split; [|exact Hst]. rewrite (Hop Ha), Hc. reflexivity.
Defined.

Lemma static_race_ends_witness :
  Acc (fun s' s => exists m l, rtc (sstep Clock) s m /\ l <> Clock /\ sstep l m s') (dialTCPAddresses (go "tcp") two_addresses 0 None).
Proof.
  assert (Hr : static_reachable (go "tcp") two_addresses (dialTCPAddresses (go "tcp") two_addresses 0 None))
    by (exists 0%Z, None; split; [exact I|apply rtc_refl]).
  exact (proj1 (static_race_ends (go "tcp") two_addresses _ Hr)).
Defined.
