(* ===== verification/Dial.v ===== *)
(** * dialContextCheckACL of forwardproxy.go

    The dial of a TCP target: the network check, the upstream path, the target
    policy and the mapping of the dial race's outcome to an HTTP error.  The
    race enters as the outcome it returns; the theorems take that outcome from
    a reachable state of the race. *)

From stdpp Require Import base decidable numbers list gmap strings relations.
From Stdlib Require Import ZArith Lia Ascii.
From S2P Require Import Prelude GoStrings GoNet Acl Policy Feed DialRace DialProps.

Definition Second : Z := 1000 * Millisecond.

(** The handler fields the function reads, and what it calls: the dialer used
    towards an upstream, with the context's error after it returned, and the
    race of the given network, host and port under a timeout. *)
Record dialEnv := MkDialEnv {
  de_policy : policyConfig;
  de_upstream : bool;
  DialTimeout : Z;
  upstreamDial : gostring -> gostring -> option conn * option error;
  ctxErrAfter : option error;
  dialTCPIncremental : Z -> gostring -> gostring -> gostring -> conn + error;
  error_text : error -> gostring;
}.

(** The establishment deadline. *)
Definition dialTimeout (e : dialEnv) : Z :=
  if (DialTimeout e <=? 0)%Z then (30 * Second)%Z else DialTimeout e.

(** The connection or the error, and the connection the function closed. *)
Definition dialContextCheckACL (e : dialEnv) (network hostPort : gostring)
    : (conn + error) * option conn :=
  if negb (bool_decide (network = go "tcp")) && negb (bool_decide (network = go "tcp4")) &&
     negb (bool_decide (network = go "tcp6")) then
    (inr (ErrHandler StatusBadRequest
            (ErrMsg (go "network " ++ network ++ go " is not supported"))), None)
  else if de_upstream e then
    let '(c, err) := upstreamDial e network hostPort in
    match c, err, ctxErrAfter e with
    | Some x, None, None => (inl x, None)
    | _, _, ctxErr =>
        let err := match ctxErr with Some ce => Some ce | None => err end in
        (inr (tcpDialError err), c)
    end
  else
    let '(host, port, failure) := prepareTargetPolicy (de_policy e) hostPort in
    match failure with
    | Some f => (inr (legacyTargetPolicyError (error_text e) f host port), None)
    | None =>
        match dialTCPIncremental e (dialTimeout e) network host port with
        | inl c => (inl c, None)
        | inr err =>
            match as_policy err with
            | Some (targetPolicyLookupFailed, cause) => (inr (tcpDialError cause), None)
            | Some (k, cause) =>
                (inr (legacyTargetPolicyError (error_text e) (MkFailure k cause) host port), None)
            | None => (inr (tcpDialError (Some err)), None)
            end
        end
    end.

(** ** Theorems *)

Lemma tcpDialError_status err :
  error_status (tcpDialError err) =
  Some (if from_option is_timeout false err then StatusGatewayTimeout else StatusBadGateway).
Proof. unfold tcpDialError. by destruct (from_option _ _ _). Qed.

Lemma tcp_network network :
  network ∈ [go "tcp"; go "tcp4"; go "tcp6"] ->
  negb (bool_decide (network = go "tcp")) && negb (bool_decide (network = go "tcp4")) &&
  negb (bool_decide (network = go "tcp6")) = false.
Proof.
  intros H. repeat (apply elem_of_cons in H as [->|H]; [vm_compute; reflexivity|]). by apply not_elem_of_nil in H.
Qed.

(** The status of a race error: the no-allowed-address refusal is a 403. *)
Definition race_status (err : error) : Z :=
  match as_policy err with
  | Some (targetPolicyNoAllowedAddress, _) => StatusForbidden
  | _ => if is_timeout err then StatusGatewayTimeout else StatusBadGateway
  end.

(** The last branch of dialContextCheckACL on the errors a race ends with. *)
Lemma race_error_status e host port err :
  (as_policy err = None \/ exists e4, err = ErrPolicy targetPolicyLookupFailed (Some e4)) \/
  err = ErrPolicy targetPolicyNoAllowedAddress None ->
  exists herr,
    match as_policy err with
    | Some (targetPolicyLookupFailed, cause) => (inr (tcpDialError cause), None)
    | Some (k, cause) => (inr (legacyTargetPolicyError (error_text e) (MkFailure k cause) host port), None)
    | None => (inr (tcpDialError (Some err)), None)
    end = (inr herr : conn + error, None : option conn) /\
    error_status herr = Some (race_status err).
Proof.
  unfold race_status. intros [[Hn|(e4 & ->)]| ->].
  - rewrite Hn. eexists. split; [done|]. by rewrite tcpDialError_status.
  - eexists. split; [done|]. by rewrite tcpDialError_status.
  - by eexists.
Qed.

(** A direct dial of an allowed target ends with the race's winner, or with a
    handler error whose status is: 403 when lookups answered but the ACL approved
    no address, and only then; 504 when the context's deadline passed, the last
    dial timed out, or both lookups failed and the IPv4 one timed out; 502 for
    every other failure. *)
Theorem direct_dial_outcome e network hostPort host port s r :
  network ∈ [go "tcp"; go "tcp4"; go "tcp6"] -> de_upstream e = false ->
  prepareTargetPolicy (de_policy e) hostPort = (host, port, None) ->
  reachable (de_policy e) network host port s -> ctl s = Returned r ->
  dialTCPIncremental e (dialTimeout e) network host port = r ->
  (forall err, lastErr (sch s) = Some err -> as_policy err = None) ->
  match r with
  | inl c => dialContextCheckACL e network hostPort = (inl c, None)
  | inr err =>
      exists herr, dialContextCheckACL e network hostPort = (inr herr, None) /\
        error_status herr = Some (race_status err) /\
        (race_status err = StatusForbidden ->
           starts s = [] /\ passedACL (feed s) = 0 /\ closed (feed s) = true /\
           (errV4 (feed s) = None \/ errV6 (feed s) = None))
  end.
Proof.
  intros Hn Hu Hp Hr Hc Hi Hlast. unfold dialContextCheckACL.
  rewrite (tcp_network network Hn), Hu, Hp, Hi. destruct r as [c|err]; [done|].
  pose proof (ci_started s (reachable_count_inv _ _ _ _ s Hr)) as Hst.
  assert (Hplain : as_policy err = None -> race_status err = StatusForbidden -> False)
    by (unfold race_status; intros ->; by destruct (is_timeout err)).
  assert (Hrest : forall P : Prop, (race_status err = StatusForbidden -> P) ->
    (as_policy err = None \/ exists e4, err = ErrPolicy targetPolicyLookupFailed (Some e4)) \/
    err = ErrPolicy targetPolicyNoAllowedAddress None ->
    exists herr, _ = (inr herr, None) /\ error_status herr = Some (race_status err) /\
      (race_status err = StatusForbidden -> P))
    by (intros P HP (herr & Hd & Hstat)%(race_error_status e host port err); eauto).
  apply Hrest; clear Hrest;
    destruct (reachable_verdict _ _ _ _ s err Hr Hc) as [[->| ->]|(Hcl & _ & Herr & Hl)]; auto;
    try (by intros ?%Hplain);
    unfold finalError in Herr; rewrite Hst in Herr; case_bool_decide as Hpos.
  - destruct (lastErr (sch s)) as [le|] eqn:El; [|destruct Hl; [lia|done]]. cbn in Herr. subst le.
    by intros ?%(Hplain (Hlast err eq_refl)).
  - assert (starts s = []) by (destruct (starts s); [done|cbn in Hpos; lia]).
    destruct (errV4 (feed s)) as [e4|], (errV6 (feed s)) as [e6|];
      try case_bool_decide as Ep; subst err; auto; try (by intros ?%Hplain).
    unfold race_status. cbn. by destruct (is_timeout e4).
  - destruct (lastErr (sch s)) as [le|] eqn:El; [|destruct Hl; [lia|done]]. cbn in Herr. subst le. auto.
  - destruct (errV4 (feed s)) as [e4|], (errV6 (feed s)) as [e6|];
      try case_bool_decide as Ep; subst err; eauto.
Qed.

(** A target refused by the policy is answered with the status of the failure (400
    malformed, 403 port or domain) before the race is started: the result is the
    same for every resolver and dialer. *)
Theorem refused_dial_status e network hostPort host port f :
  network ∈ [go "tcp"; go "tcp4"; go "tcp6"] -> de_upstream e = false ->
  prepareTargetPolicy (de_policy e) hostPort = (host, port, Some f) ->
  exists herr,
    error_status herr = Some (targetPolicyFailure_statusCode f) /\
    forall race dial ctx, dialContextCheckACL
      (MkDialEnv (de_policy e) false (DialTimeout e) dial ctx race (error_text e)) network hostPort =
      (inr herr, None).
Proof.
  intros Hn Hu Hp. exists (legacyTargetPolicyError (error_text e) f host port). split.
  - destruct f as [[] c]; reflexivity.
  - intros race dial ctx. unfold dialContextCheckACL. rewrite (tcp_network network Hn). cbn [de_upstream de_policy].
    by rewrite Hp.
Qed.

(** Towards an upstream nothing is resolved or checked locally, and a connection is
    handed to the caller only when the dial gave one without an error and the
    request is still alive; otherwise the connection, if any, is closed and the
    error is a 504 for a timeout of the context or the dial and a 502 otherwise. *)
Theorem upstream_dial_outcome e network hostPort c err :
  network ∈ [go "tcp"; go "tcp4"; go "tcp6"] -> de_upstream e = true ->
  upstreamDial e network hostPort = (c, err) ->
  (forall x, dialContextCheckACL e network hostPort = (inl x, None) <->
     c = Some x /\ err = None /\ ctxErrAfter e = None) /\
  ((c = None \/ err <> None \/ ctxErrAfter e <> None) ->
   exists herr, dialContextCheckACL e network hostPort = (inr herr, c) /\
     error_status herr =
       Some (if from_option is_timeout false (match ctxErrAfter e with Some ce => Some ce | None => err end)
             then StatusGatewayTimeout else StatusBadGateway)).
Proof.
  intros Hn Hu Hd. unfold dialContextCheckACL. rewrite (tcp_network network Hn), Hu, Hd.
  destruct c as [x|], err as [er|], (ctxErrAfter e) as [ce|]; split;
    try (intros y; split; naive_solver);
    intros Hor; try (eexists; split; [done|]; apply tcpDialError_status).
  destruct Hor as [?|[?|?]]; done.
Qed.

(** ** Witnesses *)

Definition example_dial (r : conn + error) : dialEnv :=
  MkDialEnv example_policy false 0 (fun _ _ => (Some 7, None)) None (fun _ _ _ _ => r) (fun _ => []).

Lemma direct_dial_outcome_witness :
  dialTimeout (example_dial (inl 0)) = (30 * Second)%Z /\
  dialContextCheckACL (example_dial (inl 0)) (go "tcp") (go "dns.test:443") = (inl 0, None).
Proof.
  split; [reflexivity|].
  apply (direct_dial_outcome (example_dial (inl 0)) (go "tcp") (go "dns.test:443") (go "dns.test") (go "443")
    winner (inl 0)).
  - left.
  - reflexivity.
  - vm_compute. reflexivity.
  - exact (race_run_reachable _ _ _ _ _ _ winner_run).
  - reflexivity.
  - reflexivity.
  - intros err [= <-]. reflexivity.
Defined.

Lemma refused_dial_status_witness :
  exists herr, error_status herr = Some 403%Z /\
    forall race dial ctx, dialContextCheckACL
      (MkDialEnv example_policy false 0 dial ctx race (fun _ => [])) (go "tcp") (go "dns.test:80") = (inr herr, None).
Proof.
  apply (refused_dial_status (example_dial (inl 0)) (go "tcp") (go "dns.test:80") (go "dns.test") (go "80")
    (MkFailure targetPolicyPortDenied None)).
  - left.
  - reflexivity.
  - vm_compute. reflexivity.
Defined.

Definition example_upstream : dialEnv :=
  MkDialEnv example_policy true 0 (fun _ _ => (Some 7, None)) (Some ErrCanceled)
    (fun _ _ _ _ => inl 0) (fun _ => []).

Lemma upstream_dial_outcome_witness :
  exists herr, dialContextCheckACL example_upstream (go "tcp") (go "x:1") = (inr herr, Some 7) /\
    error_status herr = Some 502%Z.
Proof.
  apply (upstream_dial_outcome example_upstream (go "tcp") (go "x:1") (Some 7) None).
  - left.
  - reflexivity.
  - reflexivity.
  - right. right. discriminate.
Defined.
