(* ===== verification/GoHttp.v ===== *)
(** * HTTP values: net/http headers and requests, net/url paths

    The parts of Go's standard library the handler reads and writes: the header
    map with its canonical keys, the URL and request records, and the percent
    encoding of paths. *)

From stdpp Require Import base decidable numbers list gmap strings.
From Stdlib Require Import ZArith Lia Ascii.
From S2P Require Import Prelude GoStrings GoNet.

(** ** Header keys (net/textproto) *)

(** [validHeaderFieldByte]: the token characters of RFC 7230. *)
Definition is_token (c : byte) : bool :=
  is_digit c || is_lower c || is_upper c || ContainsByte (go "!#$%&'*+-.^_`|~") c.

(** Upper case first and after a hyphen, lower case elsewhere. *)
Fixpoint canonical_from (upper : bool) (s : gostring) : gostring :=
  match s with
  | [] => []
  | c :: s' =>
      let c' := if upper then upper_byte c else lower_byte c in
      c' :: canonical_from (byte_eqb c' "-") s'
  end.

(** A key with a byte that is not a token character is left alone. *)
Definition CanonicalHeaderKey (s : gostring) : gostring :=
  if forallb is_token s then canonical_from true s else s.

(** ** Headers (net/http) *)

Abbreviation Header := (gmap gostring (list gostring)).

Definition Values (h : Header) (key : gostring) : list gostring :=
  default [] (h !! CanonicalHeaderKey key).

Definition Get (h : Header) (key : gostring) : gostring :=
  match Values h key with [] => [] | v :: _ => v end.

Definition Set_ (h : Header) (key value : gostring) : Header :=
  <[CanonicalHeaderKey key := [value]]> h.

Definition Add (h : Header) (key value : gostring) : Header :=
  let k := CanonicalHeaderKey key in <[k := default [] (h !! k) ++ [value]]> h.

Definition Del (h : Header) (key : gostring) : Header := delete (CanonicalHeaderKey key) h.

(** ** URLs (net/url) *)

Record Userinfo := MkUserinfo { username : gostring; password : option gostring }.

Record URL := MkURL {
  Scheme : gostring;
  User : option Userinfo;
  URL_Host : gostring;
  Path : gostring;
  RawPath : gostring;
  ForceQuery : bool;
  RawQuery : gostring;
  Fragment : gostring;
  RawFragment : gostring;
  Opaque : gostring;
  OmitHost : bool;
}.

Definition set_url_host (u : URL) (host : gostring) : URL :=
  MkURL (Scheme u) (User u) host (Path u) (RawPath u) (ForceQuery u) (RawQuery u) (Fragment u) (RawFragment u)
    (Opaque u) (OmitHost u).

(** A URL of a scheme, a host and a path. *)
Definition plain_url (scheme host path : gostring) : URL := MkURL scheme None host path [] false [] [] [] [] false.

(** [shouldEscape(c, encodePath)]. *)
Definition should_escape_path (c : byte) : bool :=
  if is_lower c || is_upper c || is_digit c || ContainsByte (go "-_.~") c then false
  else if ContainsByte (go "$&+,/:;=?@") c then byte_eqb c "?"
  else true.

(** [validEncoded(s, encodePath)]. *)
Definition valid_encoded_path (s : gostring) : bool :=
  forallb (fun c => ContainsByte (go "!$&'()*+,;=:@[]%") c || negb (should_escape_path c)) s.

(** [unescape] in the path modes, where [+] stands for itself. *)
Fixpoint PathUnescape (s : gostring) : option gostring :=
  match s with
  | [] => Some []
  | "%"%char :: rest =>
      match rest with
      | a :: b :: rest' =>
          match hex_val a, hex_val b, PathUnescape rest' with
          | Some x, Some y, Some r => Some (byte_of_Z (16 * x + y) :: r)
          | _, _, _ => None
          end
      | _ => None
      end
  | c :: rest => match PathUnescape rest with Some r => Some (c :: r) | None => None end
  end.

Definition upper_hex (d : Z) : byte := if (d <? 10)%Z then byte_of_Z (48 + d) else byte_of_Z (55 + d).

Definition percent (c : byte) : gostring :=
  ["%"%char; upper_hex (Z_of_byte c `div` 16); upper_hex (Z_of_byte c `mod` 16)].

(** [escape], with the [shouldEscape] of its mode. *)
Fixpoint escape (should : byte -> bool) (s : gostring) : gostring :=
  match s with
  | [] => []
  | c :: rest => (if should c then percent c else [c]) ++ escape should rest
  end.

Definition escape_path : gostring -> gostring := escape should_escape_path.

Definition EscapedPath (u : URL) : gostring :=
  if negb (bool_decide (RawPath u = [])) && valid_encoded_path (RawPath u) &&
     bool_decide (PathUnescape (RawPath u) = Some (Path u)) then RawPath u
  else if bool_decide (Path u = go "*") then go "*"
  else escape_path (Path u).

(** *** Hosts, ports and user information *)

Definition validOptionalPort (port : gostring) : bool :=
  match port with
  | [] => true
  | c :: digits => byte_eqb c ":" && forallb is_digit digits
  end.

(** [splitHostPort] of net/url. *)
Definition url_split (hostPort : gostring) : gostring * gostring :=
  let '(host, port) :=
    match CutLast hostPort ":" with
    | Some (h, p) => if validOptionalPort (":"%char :: p) then (h, p) else (hostPort, [])
    | None => (hostPort, [])
    end in
  if HasPrefix host (go "[") && HasSuffix host (go "]") then (take (length host - 2) (drop 1 host), port)
  else (host, port).

Definition Hostname (u : URL) : gostring := (url_split (URL_Host u)).1.
Definition Port (u : URL) : gostring := (url_split (URL_Host u)).2.

(** [Userinfo.String] dereferences its receiver: on a nil one it panics. *)
Definition should_escape_user (c : byte) : bool :=
  if is_lower c || is_upper c || is_digit c || ContainsByte (go "-_.~") c then false
  else if ContainsByte (go "$&+,/:;=?@") c then ContainsByte (go "@/?:") c
  else true.

Definition escape_user : gostring -> gostring := escape should_escape_user.

Definition Userinfo_String (u : Userinfo) : gostring :=
  escape_user (username u) ++ match password u with Some p => go ":" ++ escape_user p | None => [] end.

(** ** Requests *)

Record Request := MkRequest {
  Method : gostring;
  Proto : gostring;
  ProtoMajor : Z;
  ProtoMinor : Z;
  Req_Header : Header;
  Req_Host : gostring;
  RemoteAddr : gostring;
  RequestURI : gostring;
  Req_URL : option URL;
}.

(** ** Lemmas *)

Lemma canonical_from_token b s : forallb is_token (canonical_from b s) = forallb is_token s.
Proof.
  revert b. induction s as [|c s IH]; intros b; simpl; [done|]. rewrite IH. f_equal.
  destruct b, c as [[] [] [] [] [] [] [] []]; vm_compute; reflexivity.
Qed.

Lemma canonical_from_idem b s : canonical_from b (canonical_from b s) = canonical_from b s.
Proof.
  revert b. induction s as [|c s IH]; intros b; cbn [canonical_from]; [done|].
  assert (E : (if b then upper_byte (if b then upper_byte c else lower_byte c)
               else lower_byte (if b then upper_byte c else lower_byte c)) =
              (if b then upper_byte c else lower_byte c)).
  { destruct b, c as [[] [] [] [] [] [] [] []]; vm_compute; reflexivity. }
  rewrite E. f_equal. apply IH.
Qed.

Lemma CanonicalHeaderKey_idem s : CanonicalHeaderKey (CanonicalHeaderKey s) = CanonicalHeaderKey s.
Proof.
  unfold CanonicalHeaderKey. destruct (forallb is_token s) eqn:E; [|by rewrite E].
  by rewrite canonical_from_token, E, canonical_from_idem.
Qed.

Lemma Values_Set_same h k v : Values (Set_ h k v) k = [v].
Proof. unfold Values, Set_. by rewrite lookup_insert_eq. Qed.

Lemma Values_Set_other h k k' v :
  CanonicalHeaderKey k <> CanonicalHeaderKey k' -> Values (Set_ h k v) k' = Values h k'.
Proof. intros H. unfold Values, Set_. by rewrite lookup_insert_ne. Qed.

Lemma Add_lookup h key v k :
  Add h key v !! k = if decide (CanonicalHeaderKey key = k) then Some (default [] (h !! k) ++ [v]) else h !! k.
Proof. unfold Add. case_decide as E; [subst; by rewrite lookup_insert_eq|by rewrite lookup_insert_ne]. Qed.

Lemma Values_Add_same h k v : Values (Add h k v) k = Values h k ++ [v].
Proof. unfold Values, Add. by rewrite lookup_insert_eq. Qed.

Lemma Values_Add_other h k k' v :
  CanonicalHeaderKey k <> CanonicalHeaderKey k' -> Values (Add h k v) k' = Values h k'.
Proof. intros H. unfold Values, Add. by rewrite lookup_insert_ne. Qed.

Lemma Values_Del_same h k : Values (Del h k) k = [].
Proof. unfold Values, Del. by rewrite lookup_delete_eq. Qed.

#[export] Hint Rewrite Values_Set_same Values_Add_same Values_Del_same CanonicalHeaderKey_idem : fproxy.

Lemma PathUnescape_cons c s : c <> "%"%char -> PathUnescape (c :: s) = (cons c) <$> PathUnescape s.
Proof.
  intros Hc. change (PathUnescape (c :: s) = match PathUnescape s with Some r => Some (c :: r) | None => None end).
  destruct c as [[] [] [] [] [] [] [] []]; done.
Qed.

Lemma PathUnescape_percent c s : PathUnescape (percent c ++ s) = (cons c) <$> PathUnescape s.
Proof. destruct c as [[] [] [] [] [] [] [] []]; (vm_compute percent; cbn [app PathUnescape]; by destruct (PathUnescape s)). Qed.

(** Escaping inverts: every byte string has an encoding, whichever bytes are left out. *)
Lemma PathUnescape_escape should s : should "%"%char = true -> PathUnescape (escape should s) = Some s.
Proof.
  intros Hp. induction s as [|c s IH]; [done|]. cbn [escape]. destruct (should c) eqn:Ec.
  - by rewrite PathUnescape_percent, IH.
  - cbn [app]. rewrite PathUnescape_cons, IH; [done|congruence].
Qed.

Lemma escape_plain should s : Forall (fun c => should c = false) s -> escape should s = s.
Proof. induction 1 as [|c s Hc _ IH]; [done|]. cbn [escape]. by rewrite Hc, IH. Qed.

(** The bytes of an escaped string: the percent sign, hexadecimal digits and what needs no
    escape. *)
Lemma escape_chars should s c :
  c ∈ escape should s -> should c = false \/ c = "%"%char \/ is_digit c = true \/ is_upper c = true.
Proof.
  induction s as [|d s IH]; [by intros ?%not_elem_of_nil|]. cbn [escape]. intros [Hc|Hc]%elem_of_app; [|by apply IH].
  destruct (should d) eqn:Ed; [right|left; by apply list_elem_of_singleton in Hc as ->].
  unfold percent in Hc. apply elem_of_cons in Hc as [->|Hc]; [by left|right].
  destruct d as [[] [] [] [] [] [] [] []]; vm_compute in Hc; repeat (apply elem_of_cons in Hc as [->|Hc]; [vm_compute; auto|]);
    by apply not_elem_of_nil in Hc.
Qed.
