(* ===== verification/UdpProtocol.v ===== *)
(** * CONNECT-UDP requests and datagrams: native_udp_protocol.go, native_udp_contract.go

    Recognition and parsing of a CONNECT-UDP request, its redaction, and the
    HTTP Datagram codec.  The IDNA profile (golang.org/x/net/idna) and the QUIC
    varint codec (quicvarint) are third-party: they enter as classes whose laws
    state what their documentation promises. *)

From stdpp Require Import base decidable numbers list gmap strings.
From Stdlib Require Import ZArith Lia Ascii.
From S2P Require Import Prelude GoStrings GoNet GoHttp.

(** ** Constants of native_udp_contract.go *)

Definition connectUDPProtocol : gostring := go "connect-udp".
Definition connectUDPURIPrefix : gostring := go "/.well-known/masque/udp/".
Definition connectUDPContextID : Z := 0.
Definition connectUDPMaxAssociations : Z := 512.
Definition connectUDPMaxPerClient : Z := 128.
Definition connectUDPMaxUDPPayload : nat := Z.to_nat 65535.
Definition connectUDPMaxPumpDatagrams : Z := 32.
Definition connectUDPResourceStatus : Z := StatusServiceUnavailable.
Definition connectUDPUnsupportedStatus : Z := StatusNotImplemented.
(** nanoseconds *)
Definition connectUDPAssociationIdleTime : Z := 120 * 1000000000.

Definition connectUDPRedactedPath : gostring := go "/.well-known/masque/udp/redacted/0/".

Definition errConnectUDPMalformed : error := ErrMsg (go "connect-udp request is malformed").
Definition errConnectUDPUnsupported : error := ErrMsg (go "connect-udp is unsupported").

Definition MethodConnect : gostring := go "CONNECT".

(** ** Third-party codecs *)

(** [idna.Lookup.ToASCII]. *)
Class Idna : Type := { ToASCII : gostring -> result gostring }.

(** [quicvarint]: [Parse] gives the value and the bytes consumed; [Len] is the
    length of the minimal encoding, which is the one [Append] writes. *)
Class QuicVarint : Type := {
  Parse : list byte -> result (Z * nat);
  Len : Z -> nat;
  Append : list byte -> Z -> list byte;
}.

Class QuicVarintLaws `{QuicVarint} : Prop := {
  Append_app b v : (0 <= v < 2 ^ 62)%Z -> Append b v = b ++ Append [] v;
  Append_length v : (0 <= v < 2 ^ 62)%Z -> length (Append [] v) = Len v;
  Parse_Append v rest : (0 <= v < 2 ^ 62)%Z -> Parse (Append [] v ++ rest) = Ok (v, Len v);
  (** a parse that consumes the minimal length read the minimal encoding *)
  Parse_minimal b v n : Parse b = Ok (v, n) -> n = Len v -> exists rest, b = Append [] v ++ rest;
}.

(** ** Requests *)

Record connectUDPTarget := MkTarget {
  tgt_host : gostring;
  tgt_port : gostring;
  hostPort : gostring;
}.

Definition isConnectUDPRequest (r : Request) : bool :=
  bool_decide (Method r = MethodConnect) && (ProtoMajor r =? 3)%Z && bool_decide (Proto r = connectUDPProtocol).

Definition isUnsupportedExtendedConnect (r : Request) : bool :=
  bool_decide (Method r = MethodConnect) && (ProtoMajor r =? 3)%Z &&
  negb (bool_decide (Proto r = go "HTTP/3.0")) && negb (bool_decide (Proto r = connectUDPProtocol)).

Definition allASCIIDigits (value : gostring) : bool :=
  if bool_decide (value = []) then false
  else forallb (fun c => negb ((Z_of_byte c <? 48)%Z || (57 <? Z_of_byte c)%Z)) value.

(** The character test of a label. *)
Definition ldh (c : byte) : bool := is_lower c || is_digit c || byte_eqb c "-".

Definition bad_label (label : gostring) : bool :=
  bool_decide (length label = 0) || bool_decide (63 < length label) ||
  match label with c :: _ => byte_eqb c "-" | [] => false end ||
  match last label with Some c => byte_eqb c "-" | None => false end ||
  existsb (fun c => negb (ldh c)) label.

Definition canonicalDomain `{UnicodeTables, Idna} (host : gostring) : result gostring :=
  ascii ← ToASCII host;
  let ascii := ToLower ascii in
  if bool_decide (length ascii = 0) || bool_decide (253 < length ascii) || HasSuffix ascii (go ".") then
    Err errConnectUDPMalformed
  else if existsb bad_label (Split ascii ".") then Err errConnectUDPMalformed
  else Ok ascii.

(** The guards on the request before the path is read. *)
Definition wellformed_request `{UnicodeTables} (r : Request) (u : URL) : bool :=
  isConnectUDPRequest r && bool_decide (Scheme u = go "https") &&
  negb (bool_decide (Req_Host r = [])) && negb (bool_decide (URL_Host u = [])) &&
  EqualFold (Req_Host r) (URL_Host u) && (match User u with None => true | Some _ => false end) &&
  bool_decide (RawQuery u = []) && negb (ForceQuery u) &&
  bool_decide (Fragment u = []) && bool_decide (Get (Req_Header r) (go "Capsule-Protocol") = go "?1").

Definition parseConnectUDPTarget `{UnicodeTables, Idna} (r : Request) : result connectUDPTarget :=
  match Req_URL r with
  | None => Err errConnectUDPMalformed
  | Some u =>
      if negb (wellformed_request r u) then Err errConnectUDPMalformed
      else
        let rawPath := EscapedPath u in
        if negb (HasPrefix rawPath connectUDPURIPrefix) then Err errConnectUDPMalformed
        else
          match Split (TrimPrefix rawPath connectUDPURIPrefix) "/" with
          | [rawHost; rawPort; []] =>
              if bool_decide (rawHost = []) || bool_decide (rawPort = []) then Err errConnectUDPMalformed
              else
                let lowerRawHost := ToLower rawHost in
                if Contains lowerRawHost (go "%2f") || Contains lowerRawHost (go "%5c") then
                  Err errConnectUDPMalformed
                else
                  match PathUnescape rawHost with
                  | None => Err errConnectUDPMalformed
                  | Some host =>
                      if bool_decide (host = []) || ContainsAny host (go "/\%@[]") then Err errConnectUDPMalformed
                      else if Contains rawPort (go "%") || negb (allASCIIDigits rawPort) then
                        Err errConnectUDPMalformed
                      else
                        match Atoi rawPort with
                        | None => Err errConnectUDPMalformed
                        | Some portNumber =>
                            if (portNumber <? 1)%Z || (65535 <? portNumber)%Z then Err errConnectUDPMalformed
                            else
                              match (match ParseIP host with
                                     | Some ip => Ok (IP_String ip)
                                     | None => canonicalDomain host
                                     end) with
                              | Err _ => Err errConnectUDPMalformed
                              | Ok host =>
                                  let port := Itoa portNumber in
                                  Ok (MkTarget host port (JoinHostPort host port))
                              end
                        end
                  end
          | _ => Err errConnectUDPMalformed
          end
  end.

(** The request as the access log of the outer handlers sees it afterwards. *)
Definition redactConnectUDPRequest (r : Request) : Request :=
  match Req_URL r with
  | None => r
  | Some u =>
      MkRequest (Method r) (Proto r) (ProtoMajor r) (ProtoMinor r) (Req_Header r) (Req_Host r) (RemoteAddr r)
        connectUDPRedactedPath
        (Some (MkURL (Scheme u) (User u) (URL_Host u) connectUDPRedactedPath [] false [] [] (RawFragment u) (Opaque u) (OmitHost u)))
  end.

(** ** Datagrams *)

Definition decodeConnectUDPDatagram `{QuicVarint} (datagram : list byte) : result (list byte) :=
  match Parse datagram with
  | Err _ => Err errConnectUDPMalformed
  | Ok (contextID, consumed) =>
      if negb (bool_decide (consumed = Len contextID)) || negb (contextID =? connectUDPContextID)%Z
      then Err errConnectUDPMalformed
      else Ok (drop consumed datagram)
  end.

Definition encodeConnectUDPDatagram `{QuicVarint} (payload : list byte) : list byte :=
  Append [] connectUDPContextID ++ payload.

(** ** Lemmas *)

Lemma allASCIIDigits_spec v :
  allASCIIDigits v = true <-> v <> [] /\ Forall (fun c => is_digit c = true) v.
Proof.
  unfold allASCIIDigits. case_bool_decide as E; [naive_solver|].
  assert (Hd : forall c, negb ((Z_of_byte c <? 48)%Z || (57 <? Z_of_byte c)%Z) = is_digit c).
  { intros c. by destruct c as [[] [] [] [] [] [] [] []]. }
  rewrite forallb_forall, Forall_forall. setoid_rewrite Hd. setoid_rewrite list_elem_of_In. naive_solver.
Qed.

(** What a canonical domain looks like. *)
Definition canonical_label (l : gostring) : Prop :=
  1 <= length l <= 63 /\ Forall (fun c => ldh c = true) l /\
  head l <> Some "-"%char /\ last l <> Some "-"%char.

Definition canonical_domain (d : gostring) : Prop :=
  1 <= length d <= 253 /\ Forall canonical_label (Split d ".").

Lemma bad_label_false l : bad_label l = false <-> canonical_label l.
Proof.
  unfold bad_label, canonical_label. rewrite !orb_false_iff, !bool_decide_eq_false.
  assert (Hx : existsb (fun c => negb (ldh c)) l = false <-> Forall (fun c => ldh c = true) l).
  { induction l as [|c l IH]; simpl; [naive_solver|]. rewrite orb_false_iff, Forall_cons, IH, negb_false_iff. done. }
  rewrite Hx. destruct l as [|c l]; [simpl; split; [intros [[[[? ?] ?] ?] ?]|intros ((?&?)&?)]; lia|].
  cbn [head]. rewrite byte_eqb_false. destruct (last (c :: l)) as [x|] eqn:El.
  - rewrite byte_eqb_false. split.
    + intros ((((?&?)&?)&?)&?). repeat split; auto; try (cbn in *; lia); congruence.
    + intros ((?&?)&?&?&?). repeat split; auto; try lia; congruence.
  - apply last_None in El. done.
Qed.

Lemma Split_covers s sep c : c ∈ s -> c = sep \/ exists w, w ∈ Split s sep /\ c ∈ w.
Proof.
  induction s as [|d s IH]; [by intros ?%not_elem_of_nil|]. simpl.
  destruct (Split_nonempty s sep) as (w0 & ws & Ew). intros [->|Hc]%elem_of_cons.
  - case_byte d sep; [by left|]. right. rewrite Ew. eexists. split; [left|left].
  - destruct (IH Hc) as [?|(w & Hw & Hcw)]; [by left|right]. case_byte d sep.
    + exists w. split; [by right|done].
    + rewrite Ew in Hw |- *. apply elem_of_cons in Hw as [->|Hw].
      * exists (d :: w0). split; [left|by right].
      * exists w. split; [by right|done].
Qed.

Lemma Split_snoc s sep : Split (s ++ [sep]) sep = Split s sep ++ [[]].
Proof.
  induction s as [|c s IH]; simpl; [by rewrite byte_eqb_refl|]. rewrite IH.
  destruct (Split_nonempty s sep) as (w & ws & ->). by case_byte c sep.
Qed.

Lemma canonicalDomain_spec `{UnicodeTables, Idna} host d :
  canonicalDomain host = Ok d <-> exists a, ToASCII host = Ok a /\ d = ToLower a /\ canonical_domain d.
Proof.
  unfold canonicalDomain. rewrite result_bind_Ok. split.
  - intros (a & Ha & Hd). exists a. split; [done|].
    destruct (_ || _ || _) eqn:E; [done|]. destruct (existsb _ _) eqn:Ex; [done|].
    injection Hd as <-. reflect_bools. split; [done|]. split; [lia|].
    apply Forall_forall. intros l Hl. apply bad_label_false.
    destruct (bad_label l) eqn:Eb; [|done]. exfalso. rewrite <- not_true_iff_false in Ex. apply Ex.
    apply existsb_exists. exists l. by rewrite <- list_elem_of_In.
  - intros (a & Ha & -> & Hlen & Hl). exists a. split; [done|].
    rewrite (bool_decide_false (length _ = 0)), (bool_decide_false (253 < _)) by lia. cbn [orb].
    destruct (HasSuffix _ _) eqn:Es.
    { apply HasSuffix_true in Es as [x Es]. rewrite Es in Hl. change (go ".") with ["."%char] in Hl.
      rewrite Split_snoc, Forall_app, Forall_singleton in Hl. destruct Hl as [_ [[? _] _]]. simpl in *. lia. }
    destruct (existsb _ _) eqn:Ex; [|done]. apply existsb_exists in Ex as (l & Hin%list_elem_of_In & Hbad).
    apply (proj1 (Forall_forall _ _) Hl), bad_label_false in Hin. congruence.
Qed.

(** A host as the target stores it: the text of an address, or a canonical domain. *)
Definition target_host (host : gostring) : Prop :=
  (exists ip, valid_ip ip /\ host = IP_String ip) \/ canonical_domain host.

(** No byte of such a host is a delimiter or needs escaping in a path. *)
Definition plain_host_char (c : byte) : Prop :=
  (c ∉ go "/\%@[]?#") /\ should_escape_path c = false.

(** The bytes of such a host. *)
Definition target_char (c : byte) : bool :=
  match hex_val c with Some _ => true | None => false end || byte_eqb c ":" || byte_eqb c "." || ldh c.

Lemma target_host_char host c : target_host host -> c ∈ host -> target_char c = true.
Proof.
  unfold target_char. intros [(ip & Hv & ->)|[_ Hl]] Hc.
  - by apply (proj1 (Forall_forall _ _) (IP_String_chars ip Hv)) in Hc as [[[? ->]| ->]| ->]; rewrite ?orb_true_r.
  - destruct (Split_covers host "."%char c Hc) as [->|(w & Hw & Hcw)]; [done|].
    apply (proj1 (Forall_forall _ _) Hl) in Hw as (_ & Hw & _).
    by rewrite (proj1 (Forall_forall _ _) Hw c Hcw), orb_true_r.
Qed.

Lemma target_host_chars host c : target_host host -> c ∈ host -> plain_host_char c.
Proof.
  intros Hh Hc%target_host_char; [|done]. unfold plain_host_char. rewrite <- ContainsByte_false.
  revert Hc. destruct c as [[] [] [] [] [] [] [] []]; vm_compute; auto.
Qed.

Lemma Itoa_chars n c : (0 <= n <= max_int)%Z -> c ∈ Itoa n -> is_digit c = true.
Proof. intros Hn. apply (proj1 (Forall_forall _ _) (Itoa_digits n Hn)). Qed.

Lemma Itoa_no_char n c : (0 <= n <= max_int)%Z -> is_digit c = false -> c ∉ Itoa n.
Proof. intros Hn Hc Hin%Itoa_chars; [congruence|done]. Qed.

(** The address of a target splits back. *)
Lemma target_split host n :
  target_host host -> (1 <= n <= 65535)%Z ->
  SplitHostPort (JoinHostPort host (Itoa n)) = Ok (host, Itoa n).
Proof.
  intros Hh Hn. assert (0 <= n <= max_int)%Z by (unfold max_int; lia).
  apply SplitHostPort_JoinHostPort; try (by apply Itoa_no_char);
    intros Hin; apply (target_host_chars host _ Hh) in Hin as [Hin _]; apply Hin; set_solver.
Qed.

Lemma parse_target_cases `{UnicodeTables, Idna} r t :
  parseConnectUDPTarget r = Ok t ->
  exists u rawHost rawPort host n,
    Req_URL r = Some u /\ wellformed_request r u = true /\
    EscapedPath u = connectUDPURIPrefix ++ rawHost ++ "/"%char :: rawPort ++ ["/"%char] /\
    PathUnescape rawHost = Some host /\ Atoi rawPort = Some n /\ (1 <= n <= 65535)%Z /\
    tgt_port t = Itoa n /\ hostPort t = JoinHostPort (tgt_host t) (tgt_port t) /\
    (match ParseIP host with Some ip => tgt_host t = IP_String ip | None => canonicalDomain host = Ok (tgt_host t) end).
Proof.
  unfold parseConnectUDPTarget. intros Hp. destruct (Req_URL r) as [u|]; [|done].
  destruct (negb (wellformed_request r u)) eqn:Ew; [done|]. apply negb_false_iff in Ew. cbv zeta in Hp.
  destruct (negb (HasPrefix _ _)) eqn:Epre; [done|]. apply negb_false_iff, HasPrefix_true in Epre as [rest Erest].
  rewrite Erest, TrimPrefix_app in Hp.
  destruct (Split rest "/") as [|rawHost [|rawPort [|[|] [|]]]] eqn:Es; try done.
  assert (Er : rest = rawHost ++ "/"%char :: rawPort ++ ["/"%char]) by (rewrite <- (Join_Split rest "/"), Es; done).
  destruct (_ || _); [done|]. destruct (_ || _); [done|].
  destruct (PathUnescape rawHost) as [host|] eqn:Eh; [|done]. destruct (_ || _); [done|].
  destruct (_ || _); [done|]. destruct (Atoi rawPort) as [n|] eqn:En; [|done].
  destruct (_ || _) eqn:Er'; [done|]. reflect_bools.
  exists u, rawHost, rawPort, host, n. rewrite Erest, Er.
  destruct (ParseIP host) as [ip|]; [injection Hp as <-; repeat split; auto; lia|].
  destruct (canonicalDomain host) as [d|]; [|done]. injection Hp as <-. repeat split; auto; lia.
Qed.

Lemma target_host_of `{UnicodeTables, Idna} host th :
  (match ParseIP host with Some ip => th = IP_String ip | None => canonicalDomain host = Ok th end) ->
  target_host th.
Proof.
  destruct (ParseIP host) as [ip|] eqn:E.
  - intros ->. left. exists ip. split; [by eapply ParseIP_valid|done].
  - intros (a & _ & _ & ?)%canonicalDomain_spec. by right.
Qed.

(** ** Theorems *)

(** C24: a parsed CONNECT-UDP target is canonical and cannot smuggle a second target: the
    request is a well-formed connect-udp over HTTP/3, the host is the canonical
    text of an IP address or a lower-case LDH domain of at most 253 bytes, it has
    no delimiter or escape byte, the port is the decimal text of 1..65535, and the
    joined address splits back into exactly that host and port. *)
Theorem parse_target_sound `{UnicodeTables, Idna} r t :
  parseConnectUDPTarget r = Ok t ->
  isConnectUDPRequest r = true /\
  target_host (tgt_host t) /\
  (forall c, c ∈ tgt_host t -> c ∉ go "/\%@[]?#") /\
  (exists n, (1 <= n <= 65535)%Z /\ tgt_port t = Itoa n) /\
  SplitHostPort (hostPort t) = Ok (tgt_host t, tgt_port t).
Proof.
  intros (u & rh & rp & host & n & Hu & Hw & _ & _ & _ & Hn & Hport & Hhp & Hhost)%parse_target_cases.
  apply target_host_of in Hhost. unfold wellformed_request in Hw. reflect_bools.
  split; [done|]. split; [done|]. split; [|split; [by exists n|]].
  - intros c Hc. by apply (target_host_chars _ _ Hhost).
  - rewrite Hhp, Hport. by apply target_split.
Qed.

Lemma PathUnescape_plain s : "%"%char ∉ s -> PathUnescape s = Some s.
Proof.
  induction s as [|c s IH]; [done|]. intros [Hc Hs]%not_elem_of_cons. by rewrite PathUnescape_cons, IH.
Qed.

Lemma Contains_percent s p : "%"%char ∉ s -> Contains s ("%"%char :: p) = false.
Proof.
  induction s as [|c s IH]; [done|]. intros [Hc Hs]%not_elem_of_cons. cbn [Contains]. rewrite (IH Hs), orb_false_r.
  unfold HasPrefix. cbn [CutPrefix]. by rewrite (proj2 (byte_eqb_false "%" c)) by done.
Qed.

Definition masque_path (host port : gostring) : gostring :=
  connectUDPURIPrefix ++ host ++ "/"%char :: port ++ ["/"%char].

Lemma masque_path_escaped host n :
  target_host host -> (1 <= n <= 65535)%Z -> escape_path (masque_path host (Itoa n)) = masque_path host (Itoa n).
Proof.
  intros Hh Hn. apply escape_plain, Forall_forall. intros c Hc. unfold masque_path in Hc.
  apply elem_of_app in Hc as [Hc|Hc].
  { revert c Hc. apply Forall_forall. repeat constructor. }
  apply elem_of_app in Hc as [Hc|Hc]; [by apply (target_host_chars host c Hh)|].
  apply elem_of_cons in Hc as [->|Hc]; [done|]. apply elem_of_app in Hc as [Hc|Hc].
  - apply Itoa_chars in Hc; [|unfold max_int; lia]. unfold should_escape_path. rewrite Hc. by rewrite !orb_true_r.
  - by apply list_elem_of_singleton in Hc as ->.
Qed.

(** A host the normalisation leaves alone. *)
Definition normal_host `{Idna} (host : gostring) : Prop :=
  match ParseIP host with
  | Some ip => IP_String ip = host
  | None => canonical_domain host /\ ToASCII host = Ok host
  end.

Lemma normal_target_host `{Idna} host : normal_host host -> target_host host.
Proof.
  unfold normal_host. destruct (ParseIP host) as [ip|] eqn:E; [|by right; naive_solver].
  intros <-. left. exists ip. split; [by eapply ParseIP_valid|done].
Qed.

Lemma target_host_lower `{UnicodeTables} host : canonical_domain host -> ToLower host = host.
Proof.
  intros [_ Hl]. assert (Hc : Forall (fun c => is_ascii c = true /\ lower_byte c = c) host).
  { apply Forall_forall. intros c Hc.
    assert (Hp : forall d, byte_eqb d "." || ldh d = true -> is_ascii d = true /\ lower_byte d = d).
    { intros d. destruct d as [[] [] [] [] [] [] [] []]; vm_compute; auto; discriminate. }
    apply Hp. destruct (Split_covers host "."%char c Hc) as [->|(w & Hw & Hcw)]; [done|].
    apply (proj1 (Forall_forall _ _) Hl) in Hw as (_ & Hw & _).
    rewrite (proj1 (Forall_forall _ _) Hw c Hcw). apply orb_true_r. }
  rewrite ToLower_ascii.
  - clear Hl. induction Hc as [|c s [_ Hc] _ IH]; [done|]. rewrite fmap_cons, Hc. by f_equal.
  - unfold all_ascii. apply forallb_forall. intros c Hin%list_elem_of_In.
    by apply (proj1 (Forall_forall _ _) Hc).
Qed.

Lemma normal_host_result `{UnicodeTables, Idna} host :
  normal_host host ->
  (match ParseIP host with Some ip => Ok (IP_String ip) | None => canonicalDomain host end) = Ok host.
Proof.
  unfold normal_host. destruct (ParseIP host) as [ip|]; [by intros ->|]. intros [Hc Ha].
  apply canonicalDomain_spec. exists host. rewrite target_host_lower by done. done.
Qed.

Lemma target_host_not_nil host : target_host host -> host <> [].
Proof.
  intros [(ip & Hv & ->)|[Hl _]] E; [|by rewrite E in Hl; simpl in Hl; lia].
  pose proof (ParseIP_String ip Hv) as Hp. rewrite E in Hp.
  destruct (valid_ip_To16 ip Hv) as (x & Hx & _). rewrite Hx in Hp. done.
Qed.

Lemma Contains_none s p : "%"%char ∉ s -> Contains s (go "%" ++ p) = false.
Proof. apply Contains_percent. Qed.

Lemma lower_no_percent `{UnicodeTables} host : target_host host -> "%"%char ∉ ToLower host.
Proof.
  intros Hh. assert (Ha : all_ascii host = true).
  { apply forallb_forall. intros c Hc%list_elem_of_In. apply (target_host_chars _ _ Hh) in Hc as [_ Hc].
    revert Hc. by destruct c as [[] [] [] [] [] [] [] []]; vm_compute. }
  rewrite ToLower_ascii by done. intros (c & Hc & Hin)%list_elem_of_fmap.
  apply (target_host_chars _ _ Hh) in Hin as [_ Hin]. revert Hc Hin.
  destruct c as [[] [] [] [] [] [] [] []]; vm_compute; done.
Qed.

Lemma parse_masque_path `{UnicodeTables, Idna} r u host n :
  Req_URL r = Some u -> wellformed_request r u = true -> normal_host host -> (1 <= n <= 65535)%Z ->
  Path u = masque_path host (Itoa n) -> RawPath u = [] ->
  parseConnectUDPTarget r = Ok (MkTarget host (Itoa n) (JoinHostPort host (Itoa n))).
Proof.
  intros Hu Hw Hh Hn Hpath Hraw. pose proof (normal_target_host host Hh) as Ht.
  assert (Hn' : (0 <= n <= max_int)%Z) by (unfold max_int; lia).
  assert (Hchar : forall c, c ∈ go "/\%@[]?#" -> c ∉ host)
    by (intros c Hc Hin; by apply (target_host_chars _ _ Ht) in Hin as [? _]).
  assert (Hesc : EscapedPath u = connectUDPURIPrefix ++ host ++ "/"%char :: Itoa n ++ ["/"%char]).
  { unfold EscapedPath. rewrite Hraw, Hpath, bool_decide_true by done. cbn [negb andb].
    rewrite bool_decide_false by done. by apply masque_path_escaped. }
  unfold parseConnectUDPTarget. rewrite Hu, Hw, Hesc, HasPrefix_app, TrimPrefix_app. cbn [negb].
  rewrite Split_app by (apply Hchar; set_solver). rewrite Split_app by (by apply Itoa_no_char). cbn [Split].
  assert (Itoa n <> []) by (apply Itoa_denotes; lia).
  rewrite !bool_decide_false by auto using target_host_not_nil. cbn [orb].
  change (go "%2f") with (go "%" ++ go "2f"). change (go "%5c") with (go "%" ++ go "5c").
  rewrite !Contains_none by by apply lower_no_percent. cbn [orb].
  rewrite PathUnescape_plain by (apply Hchar; set_solver).
  rewrite bool_decide_false by auto using target_host_not_nil.
  rewrite (proj2 (ContainsAny_false host (go "/\%@[]"))) by (intros c Hc Hin; apply (Hchar c); [set_solver|done]).
  change (go "%") with (go "%" ++ []). rewrite Contains_none by by apply Itoa_no_char.
  rewrite (proj2 (allASCIIDigits_spec (Itoa n))) by (split; [done|by apply Itoa_digits]).
  rewrite Atoi_Itoa by done. cbn [negb orb].
  rewrite (proj2 (Z.ltb_ge n 1)), (proj2 (Z.ltb_ge 65535 n)) by lia. cbn [orb].
  by rewrite normal_host_result.
Qed.

(** C25: every canonical target can be requested: the RFC 9298 well-known path built from
    a normalised host and a port of 1..65535 parses back to exactly that host and
    port, for any well-formed request that carries it. *)
Theorem parse_target_roundtrip `{UnicodeTables, Idna} r u host n :
  Req_URL r = Some u -> wellformed_request r u = true -> normal_host host -> (1 <= n <= 65535)%Z ->
  Path u = masque_path host (Itoa n) -> RawPath u = [] ->
  parseConnectUDPTarget r = Ok (MkTarget host (Itoa n) (JoinHostPort host (Itoa n))).
Proof. apply parse_masque_path. Qed.

(** Redaction is complete: after it nothing that outer handlers log depends on the
    target; two requests that differ only in path, query, fragment and request
    URI become equal. *)
Lemma redact_hides_target r u path rawPath forceQuery rawQuery fragment uri :
  let with_target p rp fq rq fr ru :=
    MkRequest (Method r) (Proto r) (ProtoMajor r) (ProtoMinor r) (Req_Header r) (Req_Host r) (RemoteAddr r) ru
      (Some (MkURL (Scheme u) (User u) (URL_Host u) p rp fq rq fr (RawFragment u) (Opaque u) (OmitHost u))) in
  redactConnectUDPRequest (with_target path rawPath forceQuery rawQuery fragment uri) =
  with_target connectUDPRedactedPath [] false [] [] connectUDPRedactedPath.
Proof. reflexivity. Qed.

Lemma decode_encode `{QuicVarintLaws} p : decodeConnectUDPDatagram (encodeConnectUDPDatagram p) = Ok p.
Proof.
  assert (Hz : (0 <= connectUDPContextID < 2 ^ 62)%Z) by (unfold connectUDPContextID; lia).
  unfold decodeConnectUDPDatagram, encodeConnectUDPDatagram.
  rewrite (Parse_Append _ p Hz), bool_decide_true, Z.eqb_refl by done. cbn [negb orb].
  by rewrite <- (Append_length _ Hz), drop_app_length.
Qed.

Lemma decode_encoded `{QuicVarintLaws} d p :
  decodeConnectUDPDatagram d = Ok p <-> d = encodeConnectUDPDatagram p.
Proof.
  assert (Hz : (0 <= connectUDPContextID < 2 ^ 62)%Z) by (unfold connectUDPContextID; lia).
  unfold decodeConnectUDPDatagram, encodeConnectUDPDatagram. split.
  - destruct (Parse d) as [[v n]|e] eqn:Ep; [|done].
    destruct (_ || _) eqn:Eg; [done|]. reflect_bools. subst v.
    destruct (Parse_minimal d connectUDPContextID n Ep) as [rest ->]; [done|].
    intros [= <-]. subst n. by rewrite <- (Append_length _ Hz), drop_app_length.
  - intros ->. apply decode_encode.
Qed.

(** C26: the datagram codec is a bijection between payloads and context-zero datagrams:
    a datagram decodes to a payload exactly when it is the encoding of that
    payload, so a non-minimal or non-zero context identifier is refused. *)
Theorem datagram_codec `{QuicVarintLaws} d p :
  decodeConnectUDPDatagram d = Ok p <-> d = encodeConnectUDPDatagram p.
Proof. apply decode_encoded. Qed.

(** ** Witnesses *)

#[local] Instance example_unicode : UnicodeTables :=
  {| unicode_lower := id; unicode_equal_fold := fun s t => bool_decide (s = t) |}.
#[local] Instance example_idna : Idna := {| ToASCII := Ok |}.

Definition example_udp_url (path : gostring) : URL :=
  plain_url (go "https") (go "proxy.test") path.

Definition example_udp_request (path : gostring) : Request :=
  MkRequest MethodConnect connectUDPProtocol 3 0 {[ go "Capsule-Protocol" := [go "?1"] ]} (go "Proxy.test")
    (go "192.0.2.7:50000") path (Some (example_udp_url path)).

Lemma parse_target_sound_witness :
  parseConnectUDPTarget (example_udp_request (go "/.well-known/masque/udp/2001:DB8::1/053/")) =
    Ok (MkTarget (go "2001:db8::1") (go "53") (go "[2001:db8::1]:53")) /\
  SplitHostPort (go "[2001:db8::1]:53") = Ok (go "2001:db8::1", go "53").
Proof.
  split; [vm_compute; reflexivity|].
  apply (parse_target_sound (example_udp_request (go "/.well-known/masque/udp/2001:DB8::1/053/"))
    (MkTarget (go "2001:db8::1") (go "53") (go "[2001:db8::1]:53"))).
  vm_compute. reflexivity.
Defined.

Lemma parse_target_roundtrip_witness :
  parseConnectUDPTarget (example_udp_request (masque_path (go "dns.test") (Itoa 443))) =
  Ok (MkTarget (go "dns.test") (Itoa 443) (JoinHostPort (go "dns.test") (Itoa 443))).
Proof.
  apply (parse_target_roundtrip _ (example_udp_url (masque_path (go "dns.test") (Itoa 443)))).
  - reflexivity.
  - vm_compute. reflexivity.
  - vm_compute. repeat constructor; discriminate.
  - lia.
  - reflexivity.
  - reflexivity.
Defined.
