(* ===== verification/Varint.v ===== *)
(** * The variable-length integers of RFC 9000, section 16

    A concrete instance of the varint codec's class: it shows that the laws the
    datagram codec relies on can hold together. *)

From stdpp Require Import base decidable numbers list gmap strings.
From Stdlib Require Import ZArith Lia Ascii.
From S2P Require Import Prelude GoStrings GoNet GoHttp UdpProtocol.

(** Big-endian bytes. *)
Fixpoint be_bytes (k : nat) (x : Z) : list byte :=
  match k with
  | O => []
  | S k' => byte_of_Z (x `div` 256 ^ Z.of_nat k') :: be_bytes k' (x `mod` 256 ^ Z.of_nat k')
  end.

Fixpoint be_val (b : list byte) : Z :=
  match b with
  | [] => 0
  | c :: b' => Z_of_byte c * 256 ^ Z.of_nat (length b') + be_val b'
  end.

(** The four encodings: the two top bits of the first byte, and the length. *)
Definition varint_tag (v : Z) : Z :=
  if (v <? 64)%Z then 0 else if (v <? 16384)%Z then 1 else if (v <? 1073741824)%Z then 2 else 3.

Definition tag_length (tag : Z) : nat :=
  if (tag =? 0)%Z then 1 else if (tag =? 1)%Z then 2 else if (tag =? 2)%Z then 4 else 8.

Definition varint_bytes (v : Z) : list byte :=
  let tag := varint_tag v in let k := tag_length tag in
  be_bytes k (v + tag * 2 ^ (8 * Z.of_nat k - 2)).

Definition varint_parse (b : list byte) : result (Z * nat) :=
  match b with
  | [] => Err ErrEOF
  | c :: _ =>
      let k := tag_length (Z_of_byte c `div` 64) in
      if bool_decide (length b < k) then Err ErrUnexpectedEOF
      else Ok ((be_val (take k b)) `mod` 2 ^ (8 * Z.of_nat k - 2), k)%Z
  end.

#[export] Instance rfc9000_varint : QuicVarint := {|
  Parse := varint_parse;
  Len v := tag_length (varint_tag v);
  Append b v := b ++ varint_bytes v;
|}.

Lemma be_bytes_length k x : length (be_bytes k x) = k.
Proof. revert x; induction k as [|k IH]; intros x; simpl; [done|]. by rewrite IH. Qed.

Lemma pow256_S k : (256 ^ Z.of_nat (S k) = 256 * 256 ^ Z.of_nat k)%Z.
Proof. rewrite Nat2Z.inj_succ, Z.pow_succ_r by lia. done. Qed.

Lemma be_val_bytes k x : (0 <= x < 256 ^ Z.of_nat k)%Z -> be_val (be_bytes k x) = x.
Proof.
  revert x; induction k as [|k IH]; intros x Hx; [simpl in *; lia|].
  rewrite pow256_S in Hx. cbn [be_bytes be_val]. rewrite be_bytes_length.
  assert (0 < 256 ^ Z.of_nat k)%Z by (apply Z.pow_pos_nonneg; lia).
  rewrite IH by (apply Z.mod_pos_bound; lia). rewrite Z_of_byte_of_Z, Z.mod_small.
  - rewrite Z.mul_comm. symmetry. apply Z.div_mod. lia.
  - split; [apply Z.div_pos; lia|]. apply Z.div_lt_upper_bound; lia.
Qed.

Lemma be_val_range b : (0 <= be_val b < 256 ^ Z.of_nat (length b))%Z.
Proof.
  induction b as [|c b IH]; [simpl; lia|]. cbn [be_val length]. rewrite pow256_S.
  pose proof (Z_of_byte_range c). nia.
Qed.

Lemma be_bytes_val b : be_bytes (length b) (be_val b) = b.
Proof.
  induction b as [|c b IH]; [done|]. cbn [length be_bytes be_val].
  pose proof (be_val_range b). pose proof (Z_of_byte_range c).
  rewrite Z.div_add_l, (Z.div_small (be_val b)), Z.add_0_r, byte_of_Z_of_byte by lia.
  rewrite Z.add_comm, Z.mod_add, Z.mod_small, IH by lia. done.
Qed.

(** The values a tag can carry. *)
Definition tag_limit (tag : Z) : Z :=
  if (tag =? 0)%Z then 64 else if (tag =? 1)%Z then 16384
  else if (tag =? 2)%Z then 1073741824 else 4611686018427387904.

Lemma tag_limit_spec tag :
  (2 ^ (8 * Z.of_nat (tag_length tag) - 2) = tag_limit tag /\
   256 ^ Z.of_nat (tag_length tag) = 4 * tag_limit tag /\
   256 ^ Z.of_nat (pred (tag_length tag)) * 64 = tag_limit tag)%Z.
Proof. unfold tag_length, tag_limit. repeat case_match; vm_compute; auto. Qed.

Lemma tag_range v : (0 <= varint_tag v <= 3)%Z.
Proof. unfold varint_tag. repeat case_match; lia. Qed.

Lemma tag_fits v : (0 <= v < 4611686018427387904)%Z -> (0 <= v < tag_limit (varint_tag v))%Z.
Proof.
  unfold varint_tag. intros Hv.
  destruct (Z.ltb_spec v 64); [change (tag_limit 0) with 64%Z; lia|].
  destruct (Z.ltb_spec v 16384); [change (tag_limit 1) with 16384%Z; lia|].
  destruct (Z.ltb_spec v 1073741824); [change (tag_limit 2) with 1073741824%Z; lia|].
  change (tag_limit 3) with 4611686018427387904%Z. lia.
Qed.

Lemma tag_length_pos tag : tag_length tag = S (pred (tag_length tag)).
Proof. unfold tag_length. by repeat case_match. Qed.

(** The tagged number of a value, and what is read back from it. *)
Lemma tagged_range v : (0 <= v < 4611686018427387904)%Z ->
  let tag := varint_tag v in
  (0 <= v + tag * tag_limit tag < 4 * tag_limit tag)%Z.
Proof. intros Hv. pose proof (tag_fits v Hv). pose proof (tag_range v). simpl. nia. Qed.

Lemma varint_head v : (0 <= v < 4611686018427387904)%Z ->
  exists c b, varint_bytes v = c :: b /\ (Z_of_byte c `div` 64 = varint_tag v)%Z.
Proof.
  intros Hv. unfold varint_bytes. set (tag := varint_tag v). destruct (tag_limit_spec tag) as (H1 & H2 & H3).
  rewrite H1. rewrite tag_length_pos. cbn [be_bytes]. do 2 eexists. split; [done|].
  set (p := (256 ^ Z.of_nat (pred (tag_length tag)))%Z) in *.
  pose proof (tagged_range v Hv) as Hr. pose proof (tag_fits v Hv) as Hf. cbv zeta in Hr. fold tag in Hr, Hf.
  assert (0 < p)%Z by (apply Z.pow_pos_nonneg; lia).
  rewrite Z_of_byte_of_Z, Z.mod_small.
  - rewrite Z.div_div by lia. rewrite H3, Z.div_add, Z.div_small by lia. done.
  - split; [apply Z.div_pos; lia|]. apply Z.div_lt_upper_bound; lia.
Qed.

Lemma tag_length_inj a b : (0 <= a <= 3)%Z -> (0 <= b <= 3)%Z -> tag_length a = tag_length b -> a = b.
Proof. intros Ha Hb. assert (a = 0 \/ a = 1 \/ a = 2 \/ a = 3)%Z as [->|[->|[->| ->]]] by lia;
  assert (b = 0 \/ b = 1 \/ b = 2 \/ b = 3)%Z as [->|[->|[->| ->]]] by lia; done. Qed.

(** The tag of a number is read off its first byte. *)
Lemma be_val_tag c b k :
  tag_length (Z_of_byte c `div` 64) = S k -> length b = k ->
  (be_val (c :: b) `div` tag_limit (Z_of_byte c `div` 64) = Z_of_byte c `div` 64)%Z.
Proof.
  intros Ht <-. destruct (tag_limit_spec (Z_of_byte c `div` 64)) as (_ & _ & H3).
  rewrite Ht in H3. cbn [pred] in H3. rewrite <- H3. cbn [be_val].
  pose proof (be_val_range b). assert (0 < 256 ^ Z.of_nat (length b))%Z by (apply Z.pow_pos_nonneg; lia).
  rewrite <- Z.div_div by lia. rewrite Z.div_add_l, (Z.div_small (be_val b)), Z.add_0_r by lia. done.
Qed.

Lemma varint_parse_bytes v rest : (0 <= v < 4611686018427387904)%Z ->
  varint_parse (varint_bytes v ++ rest) = Ok (v, tag_length (varint_tag v)).
Proof.
  intros Hv. destruct (varint_head v Hv) as (c & b & E & Ht). rewrite E. cbn [app]. unfold varint_parse. rewrite Ht.
  set (tag := varint_tag v) in *. destruct (tag_limit_spec tag) as (H1 & H2 & H3).
  change (c :: b ++ rest) with ((c :: b) ++ rest). rewrite <- E.
  assert (Hl : length (varint_bytes v) = tag_length tag) by apply be_bytes_length.
  rewrite bool_decide_false by (rewrite length_app; lia).
  rewrite <- Hl at 1. rewrite take_app_length. unfold varint_bytes. fold tag. rewrite H1.
  pose proof (tagged_range v Hv) as Hr. cbv zeta in Hr. fold tag in Hr.
  pose proof (tag_fits v Hv) as Hf. fold tag in Hf.
  rewrite be_val_bytes by lia. rewrite Z.mod_add, Z.mod_small by lia. done.
Qed.

Lemma varint_parse_minimal b v n :
  varint_parse b = Ok (v, n) -> n = tag_length (varint_tag v) -> exists rest, b = varint_bytes v ++ rest.
Proof.
  unfold varint_parse. intros Hp Hn. destruct b as [|c b]; [done|].
  set (t := (Z_of_byte c `div` 64)%Z) in *.
  case_bool_decide as Hlen; [done|]. apply (inj Ok) in Hp. injection Hp as Hv Hk. subst n.
  exists (drop (tag_length t) (c :: b)). destruct (tag_limit_spec t) as (H1 & H2 & H3).
  rewrite H1 in Hv. pose proof (Z_of_byte_range c) as Hc.
  assert (Ht : varint_tag v = t).
  { symmetry. apply tag_length_inj; [|apply tag_range|done]. split; [apply Z.div_pos; lia|].
    apply Z.lt_succ_r, Z.div_lt_upper_bound; lia. }
  unfold varint_bytes. rewrite Ht, H1, <- Hv.
  rewrite <- (take_drop (tag_length t) (c :: b)) at 1. f_equal.
  assert (Hl : length (take (tag_length t) (c :: b)) = tag_length t) by (rewrite length_take; lia).
  assert (Hx : (be_val (take (tag_length t) (c :: b)) `div` tag_limit t = t)%Z).
  { rewrite tag_length_pos in Hl |- *. cbn [take length] in Hl |- *.
    apply (be_val_tag _ _ (pred (tag_length t))); [apply tag_length_pos|lia]. }
  set (x := be_val _) in *. assert (0 < tag_limit t)%Z by (unfold tag_limit; repeat case_match; lia).
  replace (x `mod` tag_limit t + t * tag_limit t)%Z with x
    by (rewrite <- Hx at 2; rewrite (Z.div_mod x (tag_limit t)) at 1; lia).
  unfold x. rewrite <- Hl at 2. by rewrite be_bytes_val.
Qed.

#[export] Instance rfc9000_laws : QuicVarintLaws.
Proof.
  assert (E : (2 ^ 62 = 4611686018427387904)%Z) by reflexivity.
  constructor; rewrite ?E; cbn [Parse Len Append rfc9000_varint].
  - done.
  - intros v Hv. apply be_bytes_length.
  - intros v rest Hv. by apply varint_parse_bytes.
  - apply varint_parse_minimal.
Qed.

(** The datagram codec on the RFC's integers: context 0 is one zero byte, and the
    two-byte form of context 0 is refused. *)
Lemma datagram_codec_witness :
  decodeConnectUDPDatagram (z_bytes [0; 104; 105]%Z) = Ok (go "hi") /\
  decodeConnectUDPDatagram (z_bytes [64; 0; 104; 105]%Z) = Err errConnectUDPMalformed.
Proof.
  split; [|vm_compute; reflexivity].
  apply (datagram_codec (z_bytes [0; 104; 105]%Z) (go "hi")). vm_compute. reflexivity.
Defined.
