(* ===== verification/UdpAdmission.v ===== *)
(** * Admission of CONNECT-UDP associations

    acquireConnectUDP and its release closure of native_udp_association.go, with
    the metrics of native_udp_metrics.go.  Requests run concurrently: a critical
    section under [connectUDPMu], a metric update, an atomic load and a
    compare-and-swap are one step each, and every interleaving of them is a path
    of [step]. *)

From stdpp Require Import base decidable numbers list gmap strings relations.
From Stdlib Require Import ZArith Lia Ascii.
From S2P Require Import Prelude GoStrings GoNet GoHttp UdpProtocol.

(** ** State *)

(** The limits of the handler; zero or less means the default. *)
Record limits := MkLimits { connectUDPMaxActive : Z; connectUDPMaxClientActive : Z }.

Definition maxActive (l : limits) : Z :=
  if (connectUDPMaxActive l <=? 0)%Z then connectUDPMaxAssociations else connectUDPMaxActive l.
Definition maxClient (l : limits) : Z :=
  if (connectUDPMaxClientActive l <=? 0)%Z then connectUDPMaxPerClient else connectUDPMaxClientActive l.

(** The handler fields under the mutex; a nil map reads as the empty one and the
    identifier is a [uint64]. *)
Record admission := MkAdmission {
  connectUDPActive : Z;
  connectUDPByClient : gmap gostring Z;
  connectUDPNextID : Z;
}.

(** [connectUDPMetrics]: gauges, counters by label, and the atomic peak value;
    [m_init] says that the collectors exist. *)
Record metrics := MkMetrics {
  m_init : bool;
  m_active : Z;
  m_activePeak : Z;
  activePeakValue : Z;
  m_associations : Z;
  admissionRejections : gmap gostring Z;
  closures : gmap gostring Z;
  durations : list Z;
}.

Definition uint64 (z : Z) : Z := z `mod` 2 ^ 64.

(** ** The critical sections *)

Definition client_count (a : admission) (client : gostring) : Z := default 0%Z (connectUDPByClient a !! client).

(** Admission: the identifier and the number now active, or the limit that
    refuses. *)
Definition acquire_critical (l : limits) (client : gostring) (a : admission)
    : (Z * Z * admission) + gostring :=
  if (maxActive l <=? connectUDPActive a)%Z then inr (go "global")
  else if (maxClient l <=? client_count a client)%Z then inr (go "source")
  else
    let id := uint64 (connectUDPNextID a + 1) in
    inl (id, connectUDPActive a + 1,
         MkAdmission (connectUDPActive a + 1)
           (<[client := client_count a client + 1]> (connectUDPByClient a)) id)%Z.

Definition release_critical (client : gostring) (a : admission) : admission :=
  let byClient := <[client := (client_count a client - 1)%Z]> (connectUDPByClient a) in
  MkAdmission (connectUDPActive a - 1)
    (if bool_decide (byClient !! client = Some 0%Z) then delete client byClient else byClient)
    (connectUDPNextID a).

(** ** Metric updates *)

Definition inc (label : gostring) (c : gmap gostring Z) : gmap gostring Z :=
  <[label := (default 0%Z (c !! label) + 1)%Z]> c.

Definition recordConnectUDPAdmission (limit : gostring) (m : metrics) : metrics :=
  if m_init m then
    MkMetrics true (m_active m) (m_activePeak m) (activePeakValue m) (m_associations m)
      (inc limit (admissionRejections m)) (closures m) (durations m)
  else m.

(** The two increments at the head of recordConnectUDPAdmissionAccepted. *)
Definition accepted_increments (m : metrics) : metrics :=
  MkMetrics (m_init m) (m_active m + 1) (m_activePeak m) (activePeakValue m) (m_associations m + 1)
    (admissionRejections m) (closures m) (durations m).

Definition set_peak_value (v : Z) (m : metrics) : metrics :=
  MkMetrics (m_init m) (m_active m) (m_activePeak m) v (m_associations m)
    (admissionRejections m) (closures m) (durations m).

Definition set_peak_gauge (v : Z) (m : metrics) : metrics :=
  MkMetrics (m_init m) (m_active m) v (activePeakValue m) (m_associations m)
    (admissionRejections m) (closures m) (durations m).

Definition recordConnectUDPAdmissionReleased (reason : gostring) (duration : Z) (m : metrics) : metrics :=
  if m_init m then
    MkMetrics true (m_active m - 1) (m_activePeak m) (activePeakValue m) (m_associations m)
      (admissionRejections m) (inc reason (closures m)) (durations m ++ [duration])
  else m.

(** The reason a release records. *)
Definition closeReason (reason : list gostring) : gostring :=
  match reason with
  | r :: _ => if bool_decide (r = []) then go "request_end" else r
  | [] => go "request_end"
  end.

(** ** Requests in flight *)

(** Where a request stands: admitted, in the peak loop, serving, between the
    metric update and the critical section of its release, or done. *)
Inductive phase :=
  | Fresh
  | PeakLoad
  | PeakSwap (peak : Z)
  | PeakSet
  | Serving
  | Releasing
  | Released.

Record token := MkToken { tk_id : Z; tk_client : gostring; tk_active : Z; tk_phase : phase }.

Record udpState := MkUdp { adm : admission; met : metrics; tokens : list token }.

Definition set_phase (t : token) (p : phase) : token := MkToken (tk_id t) (tk_client t) (tk_active t) p.

(** Entering acquireConnectUDP. *)
Definition acquireConnectUDP (l : limits) (client : gostring) (s : udpState) : udpState :=
  match acquire_critical l client (adm s) with
  | inr limit => MkUdp (adm s) (recordConnectUDPAdmission limit (met s)) (tokens s)
  | inl (id, active, a) => MkUdp a (met s) (tokens s ++ [MkToken id client active Fresh])
  end.

(** One step of recordConnectUDPAdmissionAccepted for a token: its next phase
    and the metrics. *)
Definition recordConnectUDPAdmissionAccepted (t : token) (m : metrics) : option (phase * metrics) :=
  match tk_phase t with
  | Fresh => if m_init m then Some (PeakLoad, accepted_increments m) else Some (Serving, m)
  | PeakLoad => Some (PeakSwap (activePeakValue m), m)
  | PeakSwap peak =>
      if (tk_active t <=? peak)%Z then Some (Serving, m)
      else if (activePeakValue m =? peak)%Z then Some (PeakSet, set_peak_value (tk_active t) m)
      else Some (PeakLoad, m)
  | PeakSet => Some (Serving, set_peak_gauge (tk_active t) m)
  | _ => None
  end.

Inductive step (l : limits) : udpState -> udpState -> Prop :=
  | step_acquire s client : step l s (acquireConnectUDP l client s)
  | step_accepted s i t p m :
      tokens s !! i = Some t -> recordConnectUDPAdmissionAccepted t (met s) = Some (p, m) ->
      step l s (MkUdp (adm s) m (<[i := set_phase t p]> (tokens s)))
  | step_release s i t reason duration :
      tokens s !! i = Some t -> tk_phase t = Serving ->
      step l s (MkUdp (adm s) (recordConnectUDPAdmissionReleased (closeReason reason) duration (met s))
                  (<[i := set_phase t Releasing]> (tokens s)))
  | step_leave s i t :
      tokens s !! i = Some t -> tk_phase t = Releasing ->
      step l s (MkUdp (release_critical (tk_client t) (adm s)) (met s)
                  (<[i := set_phase t Released]> (tokens s)))
  (** [once]: a second release does nothing *)
  | step_release_again s i t :
      tokens s !! i = Some t -> tk_phase t = Released -> step l s s.

Definition init_state (ready : bool) : udpState :=
  MkUdp (MkAdmission 0 ∅ 0) (MkMetrics ready 0 0 0 0 ∅ ∅ []) [].

Definition reachable (l : limits) (s : udpState) : Prop :=
  exists ready, rtc (step l) (init_state ready) s.

(** ** Counting tokens *)

Definition live (t : token) : bool := match tk_phase t with Released => false | _ => true end.

(** Counted by the active gauge. *)
Definition gauged (t : token) : bool :=
  match tk_phase t with PeakLoad | PeakSwap _ | PeakSet | Serving => true | _ => false end.

(** Its number is covered by the peak value. *)
Definition peaked (t : token) : bool :=
  match tk_phase t with PeakSet | Serving | Releasing | Released => true | _ => false end.

Definition countb (p : token -> bool) (l : list token) : Z := Z.of_nat (length (filter (fun t => p t = true) l)).

Definition live_of (client : gostring) (t : token) : bool := live t && bool_decide (tk_client t = client).

Definition b2z (b : bool) : Z := if b then 1 else 0.

Lemma countb_app p l1 l2 : countb p (l1 ++ l2) = (countb p l1 + countb p l2)%Z.
Proof. unfold countb. rewrite filter_app, length_app. lia. Qed.

Lemma countb_one p t : countb p [t] = b2z (p t).
Proof. unfold countb. rewrite filter_cons, filter_nil. by destruct (p t); case_decide. Qed.

Lemma countb_nonneg p l : (0 <= countb p l)%Z.
Proof. unfold countb. lia. Qed.

Lemma countb_insert p l i t t' :
  l !! i = Some t -> countb p (<[i := t']> l) = (countb p l - b2z (p t) + b2z (p t'))%Z.
Proof.
  intros Hi. rewrite insert_take_drop by (by eapply lookup_lt_Some).
  rewrite <- (take_drop_middle l i t Hi) at 3.
  change (t :: drop (S i) l) with ([t] ++ drop (S i) l).
  change (t' :: drop (S i) l) with ([t'] ++ drop (S i) l).
  rewrite !countb_app, !countb_one. lia.
Qed.

Lemma countb_pos p l i t : l !! i = Some t -> p t = true -> (1 <= countb p l)%Z.
Proof.
  intros Hi Hp. rewrite <- (take_drop_middle l i t Hi).
  change (t :: drop (S i) l) with ([t] ++ drop (S i) l). rewrite !countb_app, countb_one, Hp.
  pose proof (countb_nonneg p (take i l)). pose proof (countb_nonneg p (drop (S i) l)). simpl. lia.
Qed.

#[export] Hint Rewrite countb_app countb_one : fproxy.

(** ** Invariants *)

(** The map holds the positive counts only. *)
Definition count_entry (n : Z) : option Z := if (n =? 0)%Z then None else Some n.

Record adm_inv (l : limits) (s : udpState) : Prop := {
  ai_active : connectUDPActive (adm s) = countb live (tokens s);
  ai_client : forall c, connectUDPByClient (adm s) !! c = count_entry (countb (live_of c) (tokens s));
  ai_max : (countb live (tokens s) <= maxActive l)%Z;
  ai_max_client : forall c, (countb (live_of c) (tokens s) <= maxClient l)%Z;
  ai_next : connectUDPNextID (adm s) = uint64 (Z.of_nat (length (tokens s)));
  ai_ids : forall i t, tokens s !! i = Some t -> tk_id t = uint64 (Z.of_nat (S i));
  ai_bound : forall i t, tokens s !! i = Some t -> (1 <= tk_active t <= maxActive l)%Z;
}.

Lemma maxActive_pos l : (0 < maxActive l)%Z.
Proof. unfold maxActive, connectUDPMaxAssociations. destruct (Z.leb_spec (connectUDPMaxActive l) 0); lia. Qed.

Lemma maxClient_pos l : (0 < maxClient l)%Z.
Proof. unfold maxClient, connectUDPMaxPerClient. destruct (Z.leb_spec (connectUDPMaxClientActive l) 0); lia. Qed.

Lemma client_count_entry a c n :
  connectUDPByClient a !! c = count_entry n -> client_count a c = n.
Proof. unfold client_count, count_entry. intros ->. by destruct (Z.eqb_spec n 0); simpl. Qed.

Lemma count_entry_nz n : n <> 0%Z -> count_entry n = Some n.
Proof. unfold count_entry. by destruct (Z.eqb_spec n 0). Qed.

Lemma uint64_succ n : uint64 (uint64 n + 1) = uint64 (n + 1).
Proof. unfold uint64. by rewrite Zplus_mod_idemp_l. Qed.

Lemma lookup_snoc_cases {A} (l : list A) x i y :
  (l ++ [x]) !! i = Some y -> l !! i = Some y \/ i = length l /\ y = x.
Proof.
  intros [?|[? E]]%lookup_app_Some; [by left|]. right.
  destruct (i - length l) eqn:Ei; simplify_eq/=. split; [lia|done].
Qed.

Lemma adm_inv_acquire l s client : adm_inv l s -> adm_inv l (acquireConnectUDP l client s).
Proof.
  intros [H1 H2 H3 H4 H5 H6 H7]. unfold acquireConnectUDP, acquire_critical.
  destruct (Z.leb_spec (maxActive l) (connectUDPActive (adm s))); [by constructor|].
  pose proof (client_count_entry _ _ _ (H2 client)) as Hcc.
  destruct (Z.leb_spec (maxClient l) (client_count (adm s) client)); [by constructor|].
  pose proof (countb_nonneg live (tokens s)). pose proof (countb_nonneg (live_of client) (tokens s)).
  constructor; cbn [adm connectUDPActive connectUDPByClient connectUDPNextID tokens].
  - rewrite countb_app, countb_one. cbn. lia.
  - intros c. rewrite countb_app, countb_one. unfold live_of at 2. cbn [live tk_phase tk_client andb].
    destruct (decide (client = c)) as [->|Hne].
    + rewrite bool_decide_true by done. rewrite lookup_insert_eq, Hcc. cbn [b2z]. rewrite count_entry_nz by lia. done.
    + rewrite bool_decide_false by done. rewrite lookup_insert_ne by done. cbn [b2z]. by rewrite Z.add_0_r.
  - rewrite countb_app, countb_one. cbn. lia.
  - intros c. rewrite countb_app, countb_one. unfold live_of at 2. cbn [live tk_phase tk_client andb].
    case_bool_decide; subst; cbn [b2z]; [lia|]. specialize (H4 c). lia.
  - rewrite length_app, H5, uint64_succ. cbn. f_equal. lia.
  - intros i t [Hi|[-> ->]]%lookup_snoc_cases; [by apply H6|]. cbn [tk_id]. rewrite H5, uint64_succ. f_equal. lia.
  - intros i t [Hi|[-> ->]]%lookup_snoc_cases; [by eapply H7|]. cbn [tk_active]. lia.
Qed.

(** Changing the phase of one token, alive before and after. *)
Lemma adm_inv_phase l s a' m' i t p :
  tokens s !! i = Some t -> live t = true -> p <> Released -> a' = adm s ->
  adm_inv l s -> adm_inv l (MkUdp a' m' (<[i := set_phase t p]> (tokens s))).
Proof.
  intros Hi Hl Hp -> [H1 H2 H3 H4 H5 H6 H7].
  assert (Hlive : live (set_phase t p) = true) by (unfold live, set_phase; cbn; by destruct p).
  assert (Hc : countb live (<[i := set_phase t p]> (tokens s)) = countb live (tokens s))
    by (rewrite (countb_insert live _ _ t) by done; rewrite Hl, Hlive; lia).
  assert (Hcc : forall c, countb (live_of c) (<[i := set_phase t p]> (tokens s)) = countb (live_of c) (tokens s)).
  { intros c. rewrite (countb_insert (live_of c) _ _ t) by done. unfold live_of. rewrite Hl, Hlive. cbn. lia. }
  constructor; cbn [adm tokens]; rewrite ?Hc, ?length_insert; try setoid_rewrite Hcc; auto.
  - intros j t' [(-> & <- & _)|[_ Hj]]%list_lookup_insert_Some; [by apply (H6 j t)|by apply H6].
  - intros j t' [(-> & <- & _)|[_ Hj]]%list_lookup_insert_Some; [by apply (H7 j t)|by eapply H7].
Qed.

Lemma adm_inv_leave l s i t :
  tokens s !! i = Some t -> tk_phase t = Releasing -> adm_inv l s ->
  adm_inv l (MkUdp (release_critical (tk_client t) (adm s)) (met s) (<[i := set_phase t Released]> (tokens s))).
Proof.
  intros Hi Hp [H1 H2 H3 H4 H5 H6 H7].
  assert (Hl : live t = true) by (unfold live; by rewrite Hp).
  assert (Hc : countb live (<[i := set_phase t Released]> (tokens s)) = (countb live (tokens s) - 1)%Z)
    by (rewrite (countb_insert live _ _ t) by done; rewrite Hl; cbn; lia).
  assert (Hcc : forall c, countb (live_of c) (<[i := set_phase t Released]> (tokens s)) =
                          (countb (live_of c) (tokens s) - b2z (bool_decide (tk_client t = c)))%Z).
  { intros c. rewrite (countb_insert (live_of c) _ _ t) by done. unfold live_of at 2 3. rewrite Hl. cbn. lia. }
  pose proof (client_count_entry _ _ _ (H2 (tk_client t))) as Hn.
  constructor; cbn [adm tokens release_critical connectUDPActive connectUDPByClient connectUDPNextID];
    rewrite ?Hc, ?length_insert; auto; try lia.
  - intros c. rewrite Hcc, Hn, lookup_insert_eq.
    set (n := countb (live_of (tk_client t)) (tokens s)) in *.
    destruct (decide (tk_client t = c)) as [<-|Hne].
    + rewrite (bool_decide_true (tk_client t = tk_client t)) by done. cbn [b2z]. unfold count_entry. fold n.
      case_bool_decide as E; [injection E as ->; by rewrite lookup_delete_eq|].
      rewrite lookup_insert_eq. destruct (Z.eqb_spec (n - 1) 0); congruence.
    + rewrite (bool_decide_false (tk_client t = c)) by done. cbn [b2z]. rewrite Z.sub_0_r, <- H2.
      case_bool_decide; rewrite ?lookup_delete_ne, lookup_insert_ne by done; done.
  - intros c. rewrite Hcc. specialize (H4 c). case_bool_decide; cbn [b2z]; lia.
  - intros j t' [(-> & <- & _)|[_ Hj]]%list_lookup_insert_Some; [by apply (H6 j t)|by apply H6].
  - intros j t' [(-> & <- & _)|[_ Hj]]%list_lookup_insert_Some; [by apply (H7 j t)|by eapply H7].
Qed.

Lemma accepted_phase t m p m' :
  recordConnectUDPAdmissionAccepted t m = Some (p, m') -> live t = true /\ p <> Released.
Proof.
  unfold recordConnectUDPAdmissionAccepted, live. destruct (tk_phase t); try done;
    repeat case_match; intros [= <- <-]; done.
Qed.

Lemma adm_inv_step l s s' : step l s s' -> adm_inv l s -> adm_inv l s'.
Proof.
  intros Hstep Hi. destruct Hstep as [s client|s i t p m Ht Ha|s i t reason d Ht Hp|s i t Ht Hp|]; [..|done].
  - by apply adm_inv_acquire.
  - apply accepted_phase in Ha as [? ?]. by apply adm_inv_phase.
  - apply adm_inv_phase; try done. unfold live. by rewrite Hp.
  - by apply adm_inv_leave.
Qed.

Lemma adm_inv_init l b : adm_inv l (init_state b).
Proof.
  pose proof (maxActive_pos l). pose proof (maxClient_pos l).
  constructor; try done.
  - change (0 <= maxActive l)%Z. lia.
  - intros c. change (0 <= maxClient l)%Z. lia.
Qed.

Lemma reachable_adm_inv l s : reachable l s -> adm_inv l s.
Proof.
  intros [b Hr]. apply (rtc_ind_r (fun x => adm_inv l x) (init_state b)) in Hr; auto using adm_inv_init.
  intros y z _ Hyz. by apply adm_inv_step.
Qed.

(** *** The metrics *)

Record met_inv (l : limits) (s : udpState) : Prop := {
  mi_gauge : m_init (met s) = true -> m_active (met s) = countb gauged (tokens s);
  mi_total : m_init (met s) = true ->
    m_associations (met s) = countb (fun t => match tk_phase t with Fresh => false | _ => true end) (tokens s);
  mi_peak : m_init (met s) = true ->
    forall i t, tokens s !! i = Some t -> peaked t = true -> (tk_active t <= activePeakValue (met s))%Z;
  mi_loaded : forall i t p, tokens s !! i = Some t -> tk_phase t = PeakSwap p -> (p <= activePeakValue (met s))%Z;
  mi_max : (0 <= activePeakValue (met s) <= maxActive l)%Z;
  mi_gauge_peak : m_init (met s) = true -> (m_activePeak (met s) <= activePeakValue (met s))%Z;
}.

(** What one step of the accepted loop does to the metrics. *)
Lemma accepted_cases t m p m' :
  recordConnectUDPAdmissionAccepted t m = Some (p, m') ->
  m_init m' = m_init m /\ (activePeakValue m <= activePeakValue m')%Z /\
  ((tk_phase t = Fresh /\ m_init m = true /\ p = PeakLoad /\ m' = accepted_increments m) \/
   (tk_phase t = Fresh /\ m_init m = false /\ p = Serving /\ m' = m) \/
   (tk_phase t = PeakLoad /\ p = PeakSwap (activePeakValue m) /\ m' = m) \/
   (exists q, tk_phase t = PeakSwap q /\ m' = m /\
      (p = Serving /\ (tk_active t <= q)%Z \/ p = PeakLoad)) \/
   (exists q, tk_phase t = PeakSwap q /\ p = PeakSet /\ (q < tk_active t)%Z /\ q = activePeakValue m /\
      m' = set_peak_value (tk_active t) m) \/
   (tk_phase t = PeakSet /\ p = Serving /\ m' = set_peak_gauge (tk_active t) m)).
Proof.
  unfold recordConnectUDPAdmissionAccepted. destruct (tk_phase t) as [| |q| | | |] eqn:E; try done.
  - destruct (m_init m) eqn:Ei; intros [= <- <-]; cbn; repeat split; auto 10; lia.
  - intros [= <- <-]. repeat split; auto 10. lia.
  - destruct (Z.leb_spec (tk_active t) q); [intros [= <- <-]; repeat split; eauto 10; lia|].
    destruct (Z.eqb_spec (activePeakValue m) q); intros [= <- <-]; cbn.
    + repeat split; [lia|]. do 4 right. left. exists q. repeat split; auto; lia.
    + repeat split; eauto 10. lia.
  - intros [= <- <-]. cbn. repeat split; auto 10. lia.
Qed.

Definition not_admitted (t : token) : bool := match tk_phase t with Fresh => false | _ => true end.

Lemma met_inv_acquire l s client : met_inv l s -> met_inv l (acquireConnectUDP l client s).
Proof.
  intros [H1 H2 H3 H4 H5 H6]. unfold acquireConnectUDP.
  destruct (acquire_critical l client (adm s)) as [[[id active] a]|limit].
  - constructor; cbn [met tokens]; auto.
    + intros Hi. rewrite countb_app, countb_one, H1 by done. cbn. lia.
    + intros Hi. rewrite countb_app, countb_one, H2 by done. cbn. lia.
    + intros Hi i t [Ht|[-> ->]]%lookup_snoc_cases; [by eapply H3|done].
    + intros i t p [Ht|[-> ->]]%lookup_snoc_cases; [by eapply H4|done].
  - unfold recordConnectUDPAdmission. destruct (m_init (met s)) eqn:E;
      [|by constructor; cbn [met tokens]; rewrite ?E; auto].
    constructor; cbn [met tokens]; cbn; auto.
Qed.

(** A step that moves one token and changes the metrics accordingly. *)
Lemma met_inv_move l s a m i t p :
  tokens s !! i = Some t ->
  m_init m = m_init (met s) ->
  (m_init (met s) = true ->
     m_active m = m_active (met s) - b2z (gauged t) + b2z (gauged (set_phase t p)))%Z ->
  (m_init (met s) = true ->
     m_associations m = m_associations (met s) - b2z (not_admitted t) + b2z (not_admitted (set_phase t p)))%Z ->
  (activePeakValue (met s) <= activePeakValue m <= maxActive l)%Z ->
  (m_init (met s) = true -> m_activePeak m <= activePeakValue m)%Z ->
  (m_init (met s) = true -> peaked (set_phase t p) = true -> tk_active t <= activePeakValue m)%Z ->
  (forall q, p = PeakSwap q -> q <= activePeakValue m)%Z ->
  met_inv l s -> met_inv l (MkUdp a m (<[i := set_phase t p]> (tokens s))).
Proof.
  intros Hi Hinit Hg Hn Hp Hgp Hpk Hq [H1 H2 H3 H4 H5 H6].
  constructor; cbn [met tokens]; rewrite ?Hinit; auto; try lia.
  - intros E. rewrite (countb_insert gauged _ _ t) by done. rewrite Hg, H1 by done. lia.
  - intros E. rewrite (countb_insert not_admitted _ _ t) by done. rewrite Hn, H2 by done. done.
  - intros E j t' [(-> & <- & _)|[_ Hj]]%list_lookup_insert_Some; [auto|].
    intros Hpt. specialize (H3 E j t' Hj Hpt). lia.
  - intros j t' q [(-> & <- & _)|[_ Hj]]%list_lookup_insert_Some; [by apply Hq|].
    intros Hpt. specialize (H4 j t' q Hj Hpt). lia.
Qed.

Lemma met_inv_accepted l s i t p m :
  adm_inv l s -> tokens s !! i = Some t -> recordConnectUDPAdmissionAccepted t (met s) = Some (p, m) ->
  met_inv l s -> met_inv l (MkUdp (adm s) m (<[i := set_phase t p]> (tokens s))).
Proof.
  intros Ha Hi Hacc Hm. pose proof (ai_bound l s Ha i t Hi) as Hb.
  pose proof Hm as [H1 H2 H3 H4 H5 H6].
  apply accepted_cases in Hacc as (Hinit & Hle & Hcase).
  apply met_inv_move; auto;
    destruct Hcase as [(Ep & Ei & -> & ->)|[(Ep & Ei & -> & ->)|[(Ep & -> & ->)|
      [(q & Ep & -> & [[-> Hle']| ->])|[(q & Ep & -> & Hlt & -> & ->)|(Ep & -> & ->)]]]]];
    unfold gauged, not_admitted, peaked; cbn [set_phase tk_phase]; rewrite ?Ep; cbn; intros; try done; try lia;
    try congruence; auto.
  - pose proof (H6 H). lia.
  - apply (H3 H i t Hi). unfold peaked. by rewrite Ep.
  - pose proof (H4 i t q Hi Ep). lia.
  - apply (H3 H i t Hi). unfold peaked. by rewrite Ep.
Qed.

Lemma met_inv_step l s s' : step l s s' -> adm_inv l s -> met_inv l s -> met_inv l s'.
Proof.
  intros Hstep Ha Hm. destruct Hstep as [s client|s i t p m Ht Hacc|s i t reason d Ht Hp|s i t Ht Hp|]; [..|done].
  - by apply met_inv_acquire.
  - by apply met_inv_accepted.
  - pose proof Hm as [H1 H2 H3 H4 H5 H6]. unfold recordConnectUDPAdmissionReleased.
    destruct (m_init (met s)) eqn:E; apply met_inv_move; auto; cbn; rewrite ?E; try done;
      unfold gauged, not_admitted; cbn; rewrite ?Hp; cbn; intros; try done; try lia; auto.
    apply (H3 eq_refl i t Ht). unfold peaked. by rewrite Hp.
  - pose proof Hm as [H1 H2 H3 H4 H5 H6]. apply met_inv_move; auto; unfold gauged, not_admitted; cbn; rewrite ?Hp; cbn;
      intros; try done; try lia; auto.
    apply (H3 H i t Ht). unfold peaked. by rewrite Hp.
Qed.

Lemma reachable_met_inv l s : reachable l s -> met_inv l s.
Proof.
  intros [b Hr]. enough (adm_inv l s /\ met_inv l s) by naive_solver.
  apply (rtc_ind_r (fun x => adm_inv l x /\ met_inv l x) (init_state b)) in Hr; auto.
  - split; [apply adm_inv_init|]. pose proof (maxActive_pos l). constructor; cbn; try done. lia.
  - intros y z _ Hyz [Ha Hm]. split; [by eapply adm_inv_step|by eapply met_inv_step].
Qed.

(** ** Theorems *)

(** C9: admission accounting holds in every interleaving: the handler's count is the number
    of requests admitted and not yet released, its map holds exactly the positive
    per-client counts, and neither exceeds its limit. *)
Theorem admission_limits l s :
  reachable l s ->
  connectUDPActive (adm s) = countb live (tokens s) /\
  (0 <= connectUDPActive (adm s) <= maxActive l)%Z /\
  (forall c, client_count (adm s) c = countb (live_of c) (tokens s)) /\
  (forall c, (0 <= client_count (adm s) c <= maxClient l)%Z) /\
  (forall c n, connectUDPByClient (adm s) !! c = Some n -> (0 < n)%Z).
Proof.
  intros Hr. destruct (reachable_adm_inv l s Hr) as [H1 H2 H3 H4 _ _ _].
  pose proof (countb_nonneg live (tokens s)).
  assert (Hc : forall c, client_count (adm s) c = countb (live_of c) (tokens s))
    by (intros c; by apply client_count_entry).
  split; [done|]. split; [lia|]. split; [done|]. split.
  - intros c. rewrite Hc. pose proof (countb_nonneg (live_of c) (tokens s)). specialize (H4 c). lia.
  - intros c n. rewrite H2. unfold count_entry. pose proof (countb_nonneg (live_of c) (tokens s)).
    destruct (Z.eqb_spec (countb (live_of c) (tokens s)) 0); [done|]. intros [= <-]. lia.
Qed.

(** Nothing leaks: once every admitted request has been released, the counters are
    back to zero, the client map is empty and the active gauge reads zero. *)
Theorem admission_quiescent l s :
  reachable l s -> Forall (fun t => tk_phase t = Released) (tokens s) ->
  connectUDPActive (adm s) = 0%Z /\ connectUDPByClient (adm s) = ∅ /\
  (m_init (met s) = true -> m_active (met s) = 0%Z).
Proof.
  intros Hr Hall. destruct (reachable_adm_inv l s Hr) as [H1 H2 _ _ _ _ _].
  assert (Hz : forall p, (forall t, tk_phase t = Released -> p t = false) -> countb p (tokens s) = 0%Z).
  { intros p Hp. clear -Hall Hp. induction Hall as [|t ts Ht _ IH]; [done|].
    change (t :: ts) with ([t] ++ ts). rewrite countb_app, countb_one, IH, Hp by done. done. }
  rewrite H1, Hz by (intros t Ht; unfold live; by rewrite Ht). split; [done|]. split.
  - apply map_eq. intros c. rewrite H2, Hz; [by rewrite lookup_empty|].
    intros t Ht. unfold live_of, live. by rewrite Ht.
  - intros Hi. rewrite (mi_gauge l s (reachable_met_inv l s Hr) Hi). apply Hz.
    intros t Ht. unfold gauged. by rewrite Ht.
Qed.

(** A release undoes its admission: from a map without zero entries, acquiring for a
    client and then releasing gives back the same counters, and the admission is
    refused exactly at a limit, the global one being tested first. *)
Theorem acquire_release l client a :
  (forall n, connectUDPByClient a !! client = Some n -> n <> 0%Z) ->
  match acquire_critical l client a with
  | inl (id, active, a') =>
      (connectUDPActive a < maxActive l)%Z /\ (client_count a client < maxClient l)%Z /\
      active = (connectUDPActive a + 1)%Z /\ id = uint64 (connectUDPNextID a + 1) /\
      release_critical client a' = MkAdmission (connectUDPActive a) (connectUDPByClient a) id
  | inr limit =>
      limit = (if (maxActive l <=? connectUDPActive a)%Z then go "global" else go "source") /\
      ((maxActive l <= connectUDPActive a)%Z \/ (maxClient l <= client_count a client)%Z)
  end.
Proof.
  intros Hz. unfold acquire_critical. destruct (Z.leb_spec (maxActive l) (connectUDPActive a)); [auto|].
  destruct (Z.leb_spec (maxClient l) (client_count a client)); [auto|]. repeat split; auto.
  set (n := client_count a client). set (a' := MkAdmission _ _ _).
  assert (Hn : client_count a' client = (n + 1)%Z) by (unfold client_count, a'; cbn; by rewrite lookup_insert_eq).
  unfold release_critical. rewrite Hn. unfold a'. cbn [connectUDPByClient connectUDPActive connectUDPNextID].
  rewrite insert_insert_eq, lookup_insert_eq. f_equal; [lia|].
  replace (n + 1 - 1)%Z with n by lia. unfold n, client_count.
  destruct (connectUDPByClient a !! client) as [m|] eqn:E; cbn [default].
  - rewrite bool_decide_false by (intros [= ->]; by eapply Hz). by apply insert_id.
  - rewrite bool_decide_true by done. rewrite delete_insert_id; done.
Qed.

(** The recorded peak: the peak value never exceeds the limit, it covers the number
    active at the admission of every request that passed the compare-and-swap
    loop, and the exported gauge never exceeds it. *)
Theorem peak_value_covers l s :
  reachable l s -> m_init (met s) = true ->
  (0 <= activePeakValue (met s) <= maxActive l)%Z /\
  (m_activePeak (met s) <= activePeakValue (met s))%Z /\
  (forall i t, tokens s !! i = Some t -> peaked t = true -> (tk_active t <= activePeakValue (met s))%Z) /\
  m_active (met s) = countb gauged (tokens s).
Proof. intros Hr Hi. destruct (reachable_met_inv l s Hr) as [H1 H2 H3 H4 H5 H6]. split; [done|]. specialize (H3 Hi). auto. Qed.

(** ** Scripted runs *)

Inductive action := Acquire (client : gostring) | Accept (i : nat) | Release (i : nat) (reason : list gostring) | Leave (i : nat).

Definition exec (l : limits) (a : action) (s : udpState) : option udpState :=
  match a with
  | Acquire client => Some (acquireConnectUDP l client s)
  | Accept i =>
      match tokens s !! i with
      | Some t =>
          match recordConnectUDPAdmissionAccepted t (met s) with
          | Some (p, m) => Some (MkUdp (adm s) m (<[i := set_phase t p]> (tokens s)))
          | None => None
          end
      | None => None
      end
  | Release i reason =>
      match tokens s !! i with
      | Some t =>
          match tk_phase t with
          | Serving => Some (MkUdp (adm s) (recordConnectUDPAdmissionReleased (closeReason reason) 0 (met s))
                               (<[i := set_phase t Releasing]> (tokens s)))
          | _ => None
          end
      | None => None
      end
  | Leave i =>
      match tokens s !! i with
      | Some t =>
          match tk_phase t with
          | Releasing => Some (MkUdp (release_critical (tk_client t) (adm s)) (met s)
                                 (<[i := set_phase t Released]> (tokens s)))
          | _ => None
          end
      | None => None
      end
  end.

Fixpoint run (l : limits) (script : list action) (s : udpState) : option udpState :=
  match script with
  | [] => Some s
  | a :: rest => match exec l a s with Some s' => run l rest s' | None => None end
  end.

Lemma admission_exec_step l a s s' : exec l a s = Some s' -> step l s s'.
Proof.
  destruct a as [c|i|i reason|i]; cbn [exec]; intros H.
  - injection H as <-. apply step_acquire.
  - destruct (tokens s !! i) as [t|] eqn:Et; [|done].
    destruct (recordConnectUDPAdmissionAccepted t (met s)) as [[p m]|] eqn:Ea; [|done].
    injection H as <-. by eapply step_accepted.
  - destruct (tokens s !! i) as [t|] eqn:Et; [|done]. destruct (tk_phase t) eqn:Ep; try done.
    injection H as <-. by eapply step_release.
  - destruct (tokens s !! i) as [t|] eqn:Et; [|done]. destruct (tk_phase t) eqn:Ep; try done.
    injection H as <-. by eapply step_leave.
Qed.

Lemma admission_run_reachable l script s : run l script (init_state true) = Some s -> reachable l s.
Proof.
  intros H. exists true. revert H. generalize (init_state true) as s0.
  induction script as [|a rest IH]; intros s0; simpl; [by intros [= ->]|].
  destruct (exec l a s0) as [s1|] eqn:E; [|done]. intros H%IH. eapply rtc_l; [by eapply admission_exec_step|done].
Qed.

Definition small_limits : limits := MkLimits 2 1.

(** Two clients pass the peak loop; the one with the lower number sets the gauge
    last. *)
Definition script_peak : list action :=
  [Acquire (go "a"); Acquire (go "b"); Accept 0; Accept 1; Accept 0; Accept 0; Accept 1; Accept 1; Accept 1; Accept 0].

Definition after_peak : udpState := Eval vm_compute in default (init_state true) (run small_limits script_peak (init_state true)).

Lemma after_peak_run : run small_limits script_peak (init_state true) = Some after_peak.
Proof. vm_compute. reflexivity. Qed.

(** The exported peak gauge can go backwards: the gauge is set after the
    compare-and-swap, so with two requests admitted together it can end at one
    although the peak value is two and both requests are still served. *)
Theorem peak_gauge_can_regress :
  exists s, reachable small_limits s /\ Forall (fun t => tk_phase t = Serving) (tokens s) /\
    connectUDPActive (adm s) = 2%Z /\ activePeakValue (met s) = 2%Z /\ m_activePeak (met s) = 1%Z.
Proof.
  exists after_peak. split; [exact (admission_run_reachable _ _ _ after_peak_run)|]. repeat split. repeat constructor.
Qed.

(** ** Witnesses *)

Lemma admission_limits_witness :
  connectUDPActive (adm after_peak) = countb live (tokens after_peak) /\
  countb live (tokens after_peak) = 2%Z.
Proof.
  split; [|reflexivity]. apply (admission_limits small_limits after_peak).
  exact (admission_run_reachable _ _ _ after_peak_run).
Defined.

Definition script_done : list action :=
  [Acquire (go "a"); Acquire (go "a"); Accept 0; Accept 0; Accept 0; Accept 0; Release 0 [go "closed"]; Leave 0].

Definition after_done : udpState := Eval vm_compute in default (init_state true) (run small_limits script_done (init_state true)).

Lemma after_done_run : run small_limits script_done (init_state true) = Some after_done.
Proof. vm_compute. reflexivity. Qed.

Lemma admission_quiescent_witness :
  admissionRejections (met after_done) !! go "source" = Some 1%Z /\
  connectUDPActive (adm after_done) = 0%Z.
Proof.
  split; [vm_compute; reflexivity|]. destruct (admission_quiescent small_limits after_done) as [H _].
  - exact (admission_run_reachable _ _ _ after_done_run).
  - repeat constructor.
  - exact H.
Defined.

Lemma acquire_release_witness :
  exists id active a', acquire_critical small_limits (go "a") (MkAdmission 0 ∅ 7) = inl (id, active, a') /\
    release_critical (go "a") a' = MkAdmission 0 ∅ 8.
Proof.
  eexists _, _, _. split; [reflexivity|].
  pose proof (acquire_release small_limits (go "a") (MkAdmission 0 ∅ 7)) as H. apply H.
  intros n Hn. discriminate Hn.
Defined.

Lemma peak_value_covers_witness : (m_activePeak (met after_peak) <= activePeakValue (met after_peak))%Z.
Proof.
  apply (peak_value_covers small_limits after_peak).
  - exact (admission_run_reachable _ _ _ after_peak_run).
  - reflexivity.
Defined.
