(* ===== verification/UdpMetrics.v ===== *)
(** * Registration of the CONNECT-UDP metrics: native_udp_metrics.go

    The collectors of the package, created once, and their registration, once for every
    provisioning.  The Prometheus registry is a class with the documented behaviour of
    [Register]; the updates of the collectors are in UdpAdmission. *)

From stdpp Require Import base decidable numbers list gmap strings.
From Stdlib Require Import ZArith QArith_base Lia.
From S2P Require Import Prelude GoStrings UdpAdmission.

(** ** Collectors *)

Inductive collectorKind := KGauge | KCounter | KCounterVec | KHistogram.

Record collector := MkCollector {
  co_kind : collectorKind;
  co_namespace : gostring;
  co_subsystem : gostring;
  co_name : gostring;
  co_help : gostring;
  co_labels : list gostring;
  co_buckets : list Q
}.

(** prometheus.BuildFQName. *)
Definition fq_name (c : collector) : gostring :=
  Join (base.filter (fun s => s <> []) [co_namespace c; co_subsystem c; co_name c]) (go "_").

Definition forward_proxy_collector (kind : collectorKind) (name help : gostring) (labels : list gostring) (buckets : list Q) : collector :=
  MkCollector kind (go "caddy") (go "forward_proxy") name help labels buckets.

(** The collectors that the once block creates, in the order they are registered in. *)
Definition newCollectors : list collector := [
  forward_proxy_collector KGauge (go "connect_udp_active_associations")
    (go "Current CONNECT-UDP associations admitted by forward proxy.") [] [];
  forward_proxy_collector KGauge (go "connect_udp_active_associations_peak")
    (go "Highest number of concurrent CONNECT-UDP associations since process start.") [] [];
  forward_proxy_collector KCounter (go "connect_udp_associations_total")
    (go "Total CONNECT-UDP associations admitted by forward proxy.") [] [];
  forward_proxy_collector KCounterVec (go "connect_udp_admission_rejections_total")
    (go "CONNECT-UDP requests rejected by an admission limit.") [go "limit"] [];
  forward_proxy_collector KCounterVec (go "connect_udp_closures_total")
    (go "CONNECT-UDP associations closed by reason.") [go "reason"] [];
  forward_proxy_collector KHistogram (go "connect_udp_association_duration_seconds")
    (go "Lifetime of admitted CONNECT-UDP associations in seconds.") []
    [1 # 100; 1 # 10; 1 # 1; 5 # 1; 30 # 1; 120 # 1; 300 # 1]%Q].

(** ** The package variable *)

(** [mv_collectors] are the collector fields, none while they are nil; [mv_metrics] are
    the values they hold. *)
Record metricsVar := MkMetricsVar { mv_once : bool; mv_collectors : list collector; mv_metrics : metrics }.

Definition once_do (st : metricsVar) : metricsVar :=
  if mv_once st then st
  else MkMetricsVar true newCollectors (MkMetrics true 0 0 (activePeakValue (mv_metrics st)) 0 ∅ ∅ []).

(** ** Registries *)

Inductive registerError :=
  | AlreadyRegistered
  | RegisterFailed (e : error).

Class Registry (R : Type) := Register : collector -> R -> option registerError * R.

(** What the registry promises: a new name is accepted, a collector it has is reported as
    already registered, and an error changes nothing. *)
Class RegistryLaws (R : Type) `{Registry R} := {
  registered : R -> collector -> Prop;
  register_fresh c r : (forall d, registered r d -> fq_name d <> fq_name c) ->
    exists r', Register c r = (None, r') /\ forall d, registered r' d <-> d = c \/ registered r d;
  register_again c r : registered r c -> Register c r = (Some AlreadyRegistered, r);
  register_already c r r' : Register c r = (Some AlreadyRegistered, r') -> registered r c;
  register_added c r r' : Register c r = (None, r') -> forall d, registered r' d <-> d = c \/ registered r d;
  register_error c r r' err : Register c r = (Some err, r') -> r' = r
}.

Section Init.
Context {R : Type} `{Registry R}.

Fixpoint register_all (cs : list collector) (r : R) : option error * R :=
  match cs with
  | [] => (None, r)
  | c :: cs =>
      match Register c r with
      | (Some (RegisterFailed e), r) => (Some e, r)
      | (Some AlreadyRegistered, r) | (None, r) => register_all cs r
      end
  end.

Definition initConnectUDPMetrics (registry : option R) (st : metricsVar) : option error * option R * metricsVar :=
  match registry with
  | None => (Some (ErrMsg (go "no metrics registry found")), None, st)
  | Some r =>
      let st := once_do st in
      let '(err, r) := register_all (mv_collectors st) r in
      (err, Some r, st)
  end.
End Init.

(** ** Properties *)

(** The variable as the package starts with it, or after the once block. *)
Definition var_wf (st : metricsVar) : Prop :=
  if mv_once st then mv_collectors st = newCollectors /\ m_init (mv_metrics st) = true
  else mv_collectors st = [] /\ m_init (mv_metrics st) = false.

Lemma once_do_wf st : var_wf st -> mv_once (once_do st) = true /\ var_wf (once_do st) /\ once_do (once_do st) = once_do st.
Proof. unfold var_wf, once_do. destruct (mv_once st) eqn:E; [by rewrite !E|by cbn]. Qed.

Lemma names_distinct : NoDup (fq_name <$> newCollectors).
Proof. apply (bool_decide_unpack _). vm_compute. exact I. Qed.

Section InitLemmas.
Context {R : Type} `{RegistryLaws R}.

(** A registry as this package left it and found it: every name of a collector is held by
    that collector or is free. *)
Definition free_or_own (cs : list collector) (r : R) : Prop :=
  forall c d, c ∈ cs -> registered r d -> fq_name d = fq_name c -> d = c.

Lemma register_own c cs r :
  NoDup (fq_name <$> c :: cs) -> free_or_own (c :: cs) r ->
  exists r', register_all (c :: cs) r = register_all cs r' /\ free_or_own cs r' /\
    forall d, registered r' d <-> d = c \/ registered r d.
Proof.
  intros Hn Hf. rewrite fmap_cons in Hn. apply NoDup_cons in Hn as [Hn _].
  assert (Hk : forall r', (forall d, registered r' d <-> d = c \/ registered r d) -> free_or_own cs r').
  { intros r' Hr c' d Hc [->|Hd]%Hr Hd'; [exfalso; apply Hn; rewrite Hd'; by apply list_elem_of_fmap_2|].
    by apply (Hf c' d); [by right|..]. }
  cbn [register_all]. destruct (Register c r) as [[[|e]|] r'] eqn:E.
  - pose proof (register_error _ _ _ _ E) as ->. pose proof (register_already _ _ _ E) as Hc. exists r.
    assert (Hr : forall d, registered r d <-> d = c \/ registered r d) by (intros d; split; [by right|by intros [->|]]).
    split; [done|]. split; [by apply Hk|done].
  - exfalso. assert (Hnot : forall d, registered r d -> fq_name d <> fq_name c).
    { intros d Hd Hd'. assert (d = c) as -> by (apply (Hf c d); [by left|done..]).
      rewrite (register_again c r Hd) in E. done. }
    destruct (register_fresh c r Hnot) as (? & E' & _). by rewrite E' in E.
  - pose proof (register_added _ _ _ E) as Hr. exists r'. split; [done|]. split; [by apply Hk|done].
Qed.

Lemma register_all_own cs r :
  NoDup (fq_name <$> cs) -> free_or_own cs r ->
  exists r', register_all cs r = (None, r') /\ forall d, registered r' d <-> d ∈ cs \/ registered r d.
Proof.
  revert r. induction cs as [|c cs IH]; intros r Hn Hf.
  - exists r. split; [done|]. intros d. split; [by right|]. by intros [Hd%not_elem_of_nil|].
  - destruct (register_own c cs r Hn Hf) as (r1 & -> & Hf1 & Hr1). rewrite fmap_cons in Hn. apply NoDup_cons in Hn as [_ Hn].
    destruct (IH r1 Hn Hf1) as (r2 & E & Hr2). exists r2. split; [done|]. intros d. rewrite Hr2, Hr1, elem_of_cons. tauto.
Qed.

Lemma register_all_again cs r : (forall c, c ∈ cs -> registered r c) -> register_all cs r = (None, r).
Proof.
  induction cs as [|c cs IH]; intros Hr; [done|]. cbn [register_all]. rewrite (register_again c r) by (apply Hr; by left).
  apply IH. intros d Hd. apply Hr. by right.
Qed.

(** Registering the metrics succeeds on every registry in which their names are free or
    already theirs: afterwards exactly the six collectors have been added, each under a name
    of its own, and counting is on.  Provisioning again, as a reload does, succeeds on the
    same registry, and neither there nor on another registry does it change the collectors
    or the values they have counted by then; without a registry nothing is created. *)
Theorem metrics_registered_once st r :
  var_wf st -> free_or_own newCollectors r ->
  exists r' st',
    initConnectUDPMetrics (Some r) st = (None, Some r', st') /\
    (forall c, registered r' c <-> c ∈ newCollectors \/ registered r c) /\
    m_init (mv_metrics st') = true /\ var_wf st' /\
    initConnectUDPMetrics (Some r') st' = (None, Some r', st') /\
    (forall r2 s, mv_once s = true -> (initConnectUDPMetrics (Some r2) s).2 = s) /\
    (forall s, (initConnectUDPMetrics (@None R) s).2 = s).
Proof.
  intros Hw Hf. destruct (once_do_wf st Hw) as (Ho & Hw' & Hi).
  assert (Hc : mv_collectors (once_do st) = newCollectors /\ m_init (mv_metrics (once_do st)) = true)
    by (unfold var_wf in Hw'; by rewrite Ho in Hw').
  destruct Hc as [Hc Hm]. destruct (register_all_own newCollectors r names_distinct Hf) as (r' & E & Hr).
  exists r', (once_do st). unfold initConnectUDPMetrics. rewrite !Hi, !Hc, E. split_and!; try done.
  - rewrite register_all_again; [done|]. intros c Hc'. apply Hr. by left.
  - intros r2 s Hs. unfold once_do. rewrite Hs. by destruct (register_all (mv_collectors s) r2).
Qed.

(** An error is one the registry gave, and says nothing about the values: they are those of
    a package whose collectors exist. *)
Lemma init_error st r err o st' :
  initConnectUDPMetrics (Some r) st = (Some err, o, st') ->
  exists c r1, c ∈ mv_collectors (once_do st) /\ (Register c r1).1 = Some (RegisterFailed err).
Proof.
  unfold initConnectUDPMetrics. set (cs := mv_collectors (once_do st)). intros E.
  assert (G : exists r2, register_all cs r = (Some err, r2)) by (destruct (register_all cs r) as [e r2]; exists r2; by injection E as -> _ _).
  destruct G as [r2 G]. clear E. revert r G. induction cs as [|c cs IH]; intros r G; [done|]. cbn [register_all] in G.
  destruct (Register c r) as [[[|e]|] r1] eqn:Ec.
  1, 3: destruct (IH _ G) as (c' & r3 & Hc & Hr); exists c', r3; split; [by right|done].
  injection G as -> _. exists c, r. split; [by left|by rewrite Ec].
Qed.
End InitLemmas.

(** ** Witness: a registry that is the list of what it holds *)

Definition list_registry := list collector.

#[local] Instance collectorKind_eq_dec : EqDecision collectorKind.
Proof. solve_decision. Defined.
#[local] Instance Q_eq_dec : EqDecision Q.
Proof. solve_decision. Defined.
#[local] Instance collector_eq_dec : EqDecision collector.
Proof. solve_decision. Defined.

#[local] Instance list_Register : Registry list_registry := fun c r =>
  if bool_decide (c ∈ r) then (Some AlreadyRegistered, r)
  else if bool_decide (fq_name c ∈ fq_name <$> r) then (Some (RegisterFailed (ErrMsg (go "duplicate metrics collector registration attempted"))), r)
  else (None, c :: r).

Lemma list_Register_cases c (r : list_registry) :
  ((c ∈ r) /\ Register c r = (Some AlreadyRegistered, r)) \/
  ((c ∉ r) /\ (fq_name c ∈ fq_name <$> r) /\ exists e, Register c r = (Some (RegisterFailed e), r)) \/
  ((fq_name c ∉ fq_name <$> r) /\ Register c r = (None, c :: r)).
Proof.
  unfold Register, list_Register. destruct (bool_decide_reflect (c ∈ r)); [by left|right].
  destruct (bool_decide_reflect (fq_name c ∈ fq_name <$> r)); [left; eauto|by right].
Qed.

#[local] Instance list_RegistryLaws : RegistryLaws list_registry.
Proof.
  refine (Build_RegistryLaws list_registry _ (fun r c => c ∈ r) _ _ _ _ _).
  - intros c r Hf. destruct (list_Register_cases c r) as [[Hc _]|[(_ & Hc & _)|[_ ->]]].
    + by destruct (Hf c Hc).
    + apply list_elem_of_fmap in Hc as (d & Hd & Hin). by destruct (Hf d Hin).
    + eexists. split; [done|]. intros d. by rewrite elem_of_cons.
  - intros c r Hc. by destruct (list_Register_cases c r) as [[_ ->]|[(Hn & _)|[Hn _]]]; [|done|destruct Hn; apply list_elem_of_fmap_2].
  - intros c r r'. by destruct (list_Register_cases c r) as [[Hc _]|[(_ & _ & e & ->)|[_ ->]]].
  - intros c r r' E d. destruct (list_Register_cases c r) as [[_ E']|[(_ & _ & e & E')|[_ E']]]; rewrite E' in E; [done..|].
    injection E as <-. by rewrite elem_of_cons.
  - intros c r r' err E. destruct (list_Register_cases c r) as [[_ E']|[(_ & _ & e & E')|[_ E']]]; rewrite E' in E; congruence.
Defined.

Definition go_collector : collector := MkCollector KGauge [] [] (go "go_goroutines") (go "Number of goroutines that currently exist.") [] [].

Definition fresh_var : metricsVar := MkMetricsVar false [] (MkMetrics false 0 0 0 0 ∅ ∅ []).

Lemma metrics_registered_once_witness :
  var_wf fresh_var /\ exists (r' : list_registry) st', initConnectUDPMetrics (Some [go_collector]) fresh_var = (None, Some r', st') /\
    initConnectUDPMetrics (Some r') st' = (None, Some r', st').
Proof.
  assert (Hw : var_wf fresh_var) by (split; reflexivity).
  assert (Hf : free_or_own newCollectors ([go_collector] : list_registry)).
  { intros c d Hc Hd%list_elem_of_singleton Hn. subst d. exfalso.
    assert (Hno : fq_name go_collector ∉ fq_name <$> newCollectors) by (apply (bool_decide_unpack _); vm_compute; exact I).
    apply Hno. rewrite Hn. by apply list_elem_of_fmap_2. }
  split; [exact Hw|].
  destruct (metrics_registered_once fresh_var ([go_collector] : list_registry) Hw Hf) as (r' & st' & E & _ & _ & _ & E2 & _).
  exists r', st'. split; [exact E|exact E2].
Defined.

(** Another collector under one of the names is an error, which provisioning reports. *)
Example name_taken_ex :
  (initConnectUDPMetrics (R := list_registry)
    (Some [forward_proxy_collector KGauge (go "connect_udp_closures_total") (go "other") [] []]) fresh_var).1.1 <> None.
Proof. vm_compute. discriminate. Qed.
