(* ===== verification/UdpPump.v ===== *)
(** * The datagram pumps of a CONNECT-UDP association

    pumpH3ToUDP, pumpUDPToH3, countEvent and logEvent of
    native_udp_association.go.  A pump is a function of what its environment
    answers, one event per iteration; it ends with the error it returns, or is
    still running when the events are used up. *)

From stdpp Require Import base decidable numbers list gmap strings.
From Stdlib Require Import ZArith Lia Ascii.
From S2P Require Import Prelude GoStrings GoNet GoHttp UdpProtocol Varint UdpAdmission.

(** ** Counters and log *)

Record connectUDPAssociationCounters := MkCounters {
  malformedContext : Z;
  oversize : Z;
  udpReadError : Z;
  udpWriteError : Z;
  h3ReadError : Z;
  h3WriteError : Z;
}.

Inductive counter := CMalformed | COversize | CUdpRead | CUdpWrite | CH3Read | CH3Write.

#[export] Instance counter_eq_dec : EqDecision counter.
Proof. solve_decision. Defined.

Definition get_counter (k : counter) (c : connectUDPAssociationCounters) : Z :=
  match k with
  | CMalformed => malformedContext c | COversize => oversize c | CUdpRead => udpReadError c
  | CUdpWrite => udpWriteError c | CH3Read => h3ReadError c | CH3Write => h3WriteError c
  end.

Definition set_counter (k : counter) (v : Z) (c : connectUDPAssociationCounters) : connectUDPAssociationCounters :=
  match k with
  | CMalformed => MkCounters v (oversize c) (udpReadError c) (udpWriteError c) (h3ReadError c) (h3WriteError c)
  | COversize => MkCounters (malformedContext c) v (udpReadError c) (udpWriteError c) (h3ReadError c) (h3WriteError c)
  | CUdpRead => MkCounters (malformedContext c) (oversize c) v (udpWriteError c) (h3ReadError c) (h3WriteError c)
  | CUdpWrite => MkCounters (malformedContext c) (oversize c) (udpReadError c) v (h3ReadError c) (h3WriteError c)
  | CH3Read => MkCounters (malformedContext c) (oversize c) (udpReadError c) (udpWriteError c) v (h3WriteError c)
  | CH3Write => MkCounters (malformedContext c) (oversize c) (udpReadError c) (udpWriteError c) (h3ReadError c) v
  end.

(** A debug line: reason, count, bytes. *)
Record logLine := MkLog { log_reason : gostring; log_count : Z; log_bytes : nat }.

(** What a pump reads and writes: the counters, the log, the payloads handed to
    the UDP socket, the datagrams handed to the stream, and the one-slot
    activity channel. *)
Record pumpState := MkPump {
  counters : connectUDPAssociationCounters;
  logger : bool;
  logs : list logLine;
  udpWritten : list (list byte);
  h3Sent : list (list byte);
  activity : bool;
}.

Definition logEvent (reason : gostring) (count : Z) (bytes : nat) (s : pumpState) : pumpState :=
  if logger s then
    MkPump (counters s) true (logs s ++ [MkLog reason count bytes]) (udpWritten s) (h3Sent s) (activity s)
  else s.

(** A count is logged when it has one bit set, in [uint64] arithmetic. *)
Definition logged_count (count : Z) : bool := (Z.land count (uint64 (count - 1)) =? 0)%Z.

Definition countEvent (k : counter) (reason : gostring) (bytes : nat) (s : pumpState) : pumpState :=
  let count := uint64 (get_counter k (counters s) + 1) in
  let s := MkPump (set_counter k count (counters s)) (logger s) (logs s) (udpWritten s) (h3Sent s) (activity s) in
  if logged_count count then logEvent reason count bytes s else s.

Definition notifyConnectUDPActivity (s : pumpState) : pumpState :=
  MkPump (counters s) (logger s) (logs s) (udpWritten s) (h3Sent s) true.

(** ** HTTP/3 to UDP *)

(** One iteration: what ReceiveDatagram answers, and what the UDP write returns. *)
Record h3Event := MkH3 { ev_recv : result (list byte); ev_wrote : nat; ev_werr : option error }.

Section Pumps.
Context `{QuicVarint}.

(** The payload a received datagram is forwarded as, if it is. *)
Definition accepted (d : list byte) : option (list byte) :=
  match decodeConnectUDPDatagram d with
  | Ok payload => if bool_decide (connectUDPMaxUDPPayload < length payload) then None else Some payload
  | Err _ => None
  end.

Fixpoint pumpH3ToUDP (events : list h3Event) (s : pumpState) : pumpState * option error :=
  match events with
  | [] => (s, None)
  | e :: rest =>
      match ev_recv e with
      | Err err => (countEvent CH3Read (go "h3_read_error") 0 s, Some err)
      | Ok datagram =>
          match accepted datagram with
          | None => pumpH3ToUDP rest (countEvent CMalformed (go "malformed_context") (length datagram) s)
          | Some payload =>
              let s := MkPump (counters s) (logger s) (logs s) (udpWritten s ++ [payload]) (h3Sent s) (activity s) in
              match ev_werr e with
              | Some err => (countEvent CUdpWrite (go "udp_write_error") (length payload) s, Some err)
              | None =>
                  if negb (bool_decide (ev_wrote e = length payload)) then
                    (countEvent CUdpWrite (go "udp_short_write") (length payload) s, Some ErrShortWrite)
                  else pumpH3ToUDP rest (notifyConnectUDPActivity s)
              end
          end
      end
  end.

(** ** UDP to HTTP/3 *)

(** One iteration: what the UDP read returns, what SendDatagram returns, and the
    cause of the context when it is done by the end of the iteration. *)
Record udpEvent := MkUdpEv { ev_read : result (list byte); ev_serr : option error; ev_cause : option error }.

Definition is_too_large (e : error) : bool := match e with ErrDatagramTooLarge => true | _ => false end.

Fixpoint pumpUDPToH3 (events : list udpEvent) (s : pumpState) : pumpState * option error :=
  match events with
  | [] => (s, None)
  | e :: rest =>
      match ev_read e with
      | Err err => (countEvent CUdpRead (go "udp_read_error") 0 s, Some err)
      | Ok buffer =>
          let datagram := encodeConnectUDPDatagram buffer in
          let s := MkPump (counters s) (logger s) (logs s) (udpWritten s) (h3Sent s ++ [datagram]) (activity s) in
          match ev_serr e with
          | Some err =>
              if is_too_large err then pumpUDPToH3 rest (countEvent COversize (go "oversize") (length datagram) s)
              else (countEvent CH3Write (go "h3_write_error") (length datagram) s, Some err)
          | None =>
              let s := notifyConnectUDPActivity s in
              match ev_cause e with
              | Some cause => (s, Some cause)
              | None => pumpUDPToH3 rest s
              end
          end
      end
  end.
End Pumps.

(** ** Lemmas *)

Lemma countEvent_frame k r n s :
  udpWritten (countEvent k r n s) = udpWritten s /\ h3Sent (countEvent k r n s) = h3Sent s /\
  activity (countEvent k r n s) = activity s /\ logger (countEvent k r n s) = logger s /\
  counters (countEvent k r n s) = set_counter k (uint64 (get_counter k (counters s) + 1)) (counters s).
Proof. unfold countEvent, logEvent. destruct (logged_count _); cbn; [|done]. by destruct (logger s). Qed.

Lemma get_set_counter k k' v c :
  get_counter k (set_counter k' v c) = if decide (k = k') then v else get_counter k c.
Proof. destruct k, k'; reflexivity. Qed.

(** *** Which counts are logged *)

Lemma pow2_land k : (0 <= k)%Z -> Z.land (2 ^ k) (2 ^ k - 1) = 0%Z.
Proof.
  intros Hk. rewrite Z.sub_1_r, <- Z.ones_equiv, Z.land_ones by done. apply Z.mod_same.
  apply Z.pow_nonzero; lia.
Qed.

Lemma land_pow2 c : (0 < c)%Z -> Z.land c (c - 1) = 0%Z -> c = (2 ^ Z.log2 c)%Z.
Proof.
  intros Hc Hl. pose proof (Z.log2_spec c Hc) as [Hlo Hhi].
  destruct (Z.eq_dec c (2 ^ Z.log2 c)) as [E|Hne]; [done|]. exfalso.
  pose proof (Z.log2_nonneg c) as Hk.
  assert (0 < 2 ^ Z.log2 c)%Z by (apply Z.pow_pos_nonneg; lia).
  assert (Hlog : Z.log2 (c - 1) = Z.log2 c) by (apply Z.log2_unique; [done|lia]).
  assert (Hbit : Z.testbit (Z.land c (c - 1)) (Z.log2 c) = true).
  { rewrite Z.land_spec, Z.bit_log2 by done. cbn [andb]. rewrite <- Hlog. apply Z.bit_log2. lia. }
  rewrite Hl, Z.bits_0 in Hbit. done.
Qed.

Lemma logged_count_spec c : (0 < c < 2 ^ 64)%Z -> logged_count c = true <-> c = (2 ^ Z.log2 c)%Z.
Proof.
  intros Hc. unfold logged_count, uint64. rewrite Z.mod_small, Z.eqb_eq by lia. split.
  - apply land_pow2. lia.
  - intros E. rewrite E at 1 2. apply pow2_land, Z.log2_nonneg.
Qed.

(** The number of lines after [n] events. *)
Definition log_lines (n : nat) : nat := match n with O => 0 | _ => S (Z.to_nat (Z.log2 (Z.of_nat n))) end.

Lemma log_lines_S n : (Z.of_nat (S n) < 2 ^ 64)%Z ->
  log_lines (S n) = log_lines n + (if logged_count (Z.of_nat (S n)) then 1 else 0).
Proof.
  intros Hn. pose proof (logged_count_spec (Z.of_nat (S n))) as Hs.
  destruct n as [|n]; [done|]. unfold log_lines.
  pose proof (Z.log2_nonneg (Z.of_nat (S n))). pose proof (Z.log2_spec (Z.of_nat (S n)) ltac:(lia)) as [Hlo Hhi].
  destruct (logged_count (Z.of_nat (S (S n)))) eqn:E.
  - assert (Hp : Z.of_nat (S (S n)) = (2 ^ Z.log2 (Z.of_nat (S (S n))))%Z) by (apply Hs; [lia|done]).
    pose proof (Z.log2_nonneg (Z.of_nat (S (S n)))).
    assert (Z.log2 (Z.of_nat (S (S n))) = Z.log2 (Z.of_nat (S n)) + 1)%Z; [|lia].
    set (k := Z.log2 (Z.of_nat (S (S n)))) in *.
    assert (0 < k)%Z. { destruct (Z.eq_dec k 0) as [E0|]; [|lia]. rewrite E0 in Hp. simpl in Hp. lia. }
    enough (Z.log2 (Z.of_nat (S n)) = k - 1)%Z by lia. apply Z.log2_unique; [lia|].
    replace (Z.succ (k - 1)) with k by lia.
    assert (2 ^ k = 2 * 2 ^ (k - 1))%Z by (rewrite <- Z.pow_succ_r by lia; f_equal; lia).
    assert (1 <= 2 ^ (k - 1))%Z by (pose proof (Z.pow_pos_nonneg 2 (k - 1)); lia). lia.
  - rewrite Nat.add_0_r. f_equal. f_equal. apply Z.log2_unique; [done|].
    enough (Z.of_nat (S (S n)) <> 2 ^ Z.succ (Z.log2 (Z.of_nat (S n))))%Z by lia.
    intros Ep. enough (false = true) by done. apply Hs; [lia|].
    rewrite Ep at 2. rewrite Z.log2_pow2 by lia. done.
Qed.

(** ** Theorems *)

(** Event logging is logarithmic: after [n] events of one kind the counter is [n] and
    exactly the counts that are powers of two were logged, [log2 n + 1] lines. *)
Theorem countEvent_logs k reason bytes n s :
  get_counter k (counters s) = 0%Z -> logger s = true -> (Z.of_nat n < 2 ^ 64)%Z ->
  let s' := Nat.iter n (countEvent k reason bytes) s in
  get_counter k (counters s') = Z.of_nat n /\ logger s' = true /\
  length (logs s') = length (logs s) + log_lines n.
Proof.
  intros Hz Hl. induction n as [|n IH]; intros Hn; cbn [Nat.iter nat_rect]; [cbv zeta; split; [done|split; [done|cbn; lia]]|].
  destruct IH as (IH1 & IH2 & IH3); [lia|]. fold (Nat.iter n (countEvent k reason bytes) s).
  set (s1 := Nat.iter n (countEvent k reason bytes) s) in *.
  destruct (countEvent_frame k reason bytes s1) as (_ & _ & _ & Hlog & Hc).
  assert (Hcount : uint64 (get_counter k (counters s1) + 1) = Z.of_nat (S n))
    by (rewrite IH1; unfold uint64; rewrite Z.mod_small; lia).
  cbv zeta. change (Nat.iter (S n) _ s) with (countEvent k reason bytes s1).
  split; [rewrite Hc, Hcount, get_set_counter; by case_decide|]. split; [by rewrite Hlog|].
  rewrite log_lines_S by done. unfold countEvent. rewrite Hcount.
  destruct (logged_count (Z.of_nat (S n))); unfold logEvent; cbn [logger logs]; rewrite ?IH2; cbn [logs];
    rewrite ?length_app; cbn [length]; lia.
Qed.

Section Relay.
Context `{QuicVarint}.

Definition event_payload (e : h3Event) : option (list byte) :=
  match ev_recv e with Ok d => accepted d | Err _ => None end.

Definition event_rejected (e : h3Event) : bool :=
  match ev_recv e with
  | Ok d => match accepted d with Some _ => false | None => true end
  | Err _ => false
  end.

Definition rejected (events : list h3Event) : Z :=
  Z.of_nat (length (filter (fun e => event_rejected e = true) events)).

Lemma rejected_cons e l : rejected (e :: l) = ((if event_rejected e then 1 else 0) + rejected l)%Z.
Proof. unfold rejected. rewrite filter_cons. destruct (event_rejected e); case_decide; cbn [length]; lia. Qed.

Lemma uint64_add a b : uint64 (uint64 a + b) = uint64 (a + b).
Proof. unfold uint64. by rewrite Zplus_mod_idemp_l. Qed.

(** How a pump that used [k] events ended. *)
Definition h3_end (events : list h3Event) (k : nat) (r : option error) : Prop :=
  match r with
  | None => k = length events
  | Some err => exists e, events !! pred k = Some e /\ 0 < k /\
      (ev_recv e = Err err \/
       exists p, event_payload e = Some p /\
         (ev_werr e = Some err \/ ev_werr e = None /\ ev_wrote e <> length p /\ err = ErrShortWrite))
  end.

Lemma h3_end_cons e events k r : h3_end events k r -> h3_end (e :: events) (S k) r.
Proof.
  destruct r as [err|]; cbn; [|by intros ->]. intros (e' & He' & Hk0 & Hcase).
  exists e'. split; [by destruct k; [lia|]|]. split; [lia|done].
Qed.

(** The pump towards UDP forwards exactly the payloads of the acceptable datagrams it
    received, each once and in order; an unacceptable datagram is dropped and
    counted without ending the pump; the pump ends at the first receive error,
    write error or short write, with that error, and no later datagram is sent. *)
Theorem pumpH3ToUDP_forwards events s :
  let '(s', r) := pumpH3ToUDP events s in
  exists k, k <= length events /\
    udpWritten s' = udpWritten s ++ omap event_payload (take k events) /\
    h3Sent s' = h3Sent s /\
    uint64 (malformedContext (counters s')) =
      uint64 (malformedContext (counters s) + rejected (take k events)) /\
    h3_end events k r.
Proof.
  revert s. induction events as [|e rest IH]; intros s; cbn [pumpH3ToUDP].
  { exists 0. cbn. rewrite app_nil_r, Z.add_0_r. auto. }
  destruct (ev_recv e) as [d|err] eqn:Er.
  - destruct (accepted d) as [payload|] eqn:Ea.
    + assert (Hp : event_payload e = Some payload) by (unfold event_payload; by rewrite Er).
      assert (Hrej : event_rejected e = false) by (unfold event_rejected; by rewrite Er, Ea).
      set (s1 := MkPump _ _ _ (udpWritten s ++ [payload]) _ _).
      destruct (ev_werr e) as [err|] eqn:Ew; [|case_bool_decide as En; cbn [negb]].
      * destruct (countEvent_frame CUdpWrite (go "udp_write_error") (length payload) s1) as (-> & -> & _ & _ & ->).
        exists 1. cbn [take]. csimpl. rewrite Hp, rejected_cons, Hrej. unfold h3_end. cbn. rewrite Z.add_0_r.
        eauto 15 with lia.
      * specialize (IH (notifyConnectUDPActivity s1)). destruct (pumpH3ToUDP rest _) as [s' r].
        destruct IH as (k & Hk & Hw & Hh & Hm & Hr). exists (S k). cbn [take length]. csimpl.
        rewrite Hp, rejected_cons, Hrej, Hw, Hh, Hm. cbn [udpWritten s1 notifyConnectUDPActivity h3Sent counters].
        rewrite <- app_assoc. split; [lia|]. do 3 (split; [done|]).
        by apply h3_end_cons.
      * destruct (countEvent_frame CUdpWrite (go "udp_short_write") (length payload) s1) as (-> & -> & _ & _ & ->).
        exists 1. cbn [take]. csimpl. rewrite Hp, rejected_cons, Hrej. unfold h3_end. cbn. rewrite Z.add_0_r.
        eauto 15 with lia.
    + assert (Hp : event_payload e = None) by (unfold event_payload; by rewrite Er).
      assert (Hrej : event_rejected e = true) by (unfold event_rejected; by rewrite Er, Ea).
      destruct (countEvent_frame CMalformed (go "malformed_context") (length d) s) as (Hf1 & Hf2 & _ & _ & Hf3).
      set (s1 := countEvent _ _ _ s) in *. specialize (IH s1). destruct (pumpH3ToUDP rest s1) as [s' r].
      destruct IH as (k & Hk & Hw & Hh & Hm & Hr). exists (S k). cbn [take length]. csimpl.
      rewrite Hp, rejected_cons, Hrej, Hw, Hh, Hm, Hf1, Hf2, Hf3. cbn [set_counter malformedContext get_counter].
      split; [lia|]. split; [done|]. split; [done|]. split; [rewrite uint64_add; f_equal; lia|].
      by apply h3_end_cons.
  - destruct (countEvent_frame CH3Read (go "h3_read_error") 0 s) as (-> & -> & _ & _ & ->).
    exists 1. cbn [take]. csimpl. unfold event_payload at 1. rewrite Er, rejected_cons.
    unfold event_rejected. rewrite Er. unfold h3_end. cbn. rewrite app_nil_r, Z.add_0_r.
    eauto 15 with lia.
Qed.

Definition read_payload (e : udpEvent) : option (list byte) :=
  match ev_read e with Ok b => Some b | Err _ => None end.

Definition udp_end (events : list udpEvent) (k : nat) (r : option error) : Prop :=
  match r with
  | None => k = length events
  | Some err => exists e, events !! pred k = Some e /\ 0 < k /\
      (ev_read e = Err err \/
       is_Some (read_payload e) /\
         (ev_serr e = Some err /\ is_too_large err = false \/ ev_serr e = None /\ ev_cause e = Some err))
  end.

Lemma udp_end_cons e events k r : udp_end events k r -> udp_end (e :: events) (S k) r.
Proof.
  destruct r as [err|]; cbn; [|by intros ->]. intros (e' & He' & Hk0 & Hcase).
  exists e'. split; [by destruct k; [lia|]|]. split; [lia|done].
Qed.

(** The pump towards the client sends exactly one context-zero datagram per packet
    read, in order; a datagram too large for the connection is dropped and the pump
    goes on; it ends at the first read error, other send error or end of the
    context, with that error. *)
Theorem pumpUDPToH3_forwards events s :
  let '(s', r) := pumpUDPToH3 events s in
  exists k, k <= length events /\
    h3Sent s' = h3Sent s ++ (encodeConnectUDPDatagram <$> omap read_payload (take k events)) /\
    udpWritten s' = udpWritten s /\ udp_end events k r.
Proof.
  revert s. induction events as [|e rest IH]; intros s; cbn [pumpUDPToH3].
  { exists 0. cbn. rewrite app_nil_r. auto. }
  destruct (ev_read e) as [b|err] eqn:Er.
  - assert (Hp : read_payload e = Some b) by (unfold read_payload; by rewrite Er).
    set (s1 := MkPump _ _ _ _ (h3Sent s ++ [encodeConnectUDPDatagram b]) _).
    assert (Hgo : forall s2, h3Sent s2 = h3Sent s1 -> udpWritten s2 = udpWritten s ->
      let '(s', r) := pumpUDPToH3 rest s2 in
      exists k, k <= length (e :: rest) /\
        h3Sent s' = h3Sent s ++ (encodeConnectUDPDatagram <$> omap read_payload (take k (e :: rest))) /\
        udpWritten s' = udpWritten s /\ udp_end (e :: rest) k r).
    { intros s2 Hs2 Hw2. specialize (IH s2). destruct (pumpUDPToH3 rest s2) as [s' r].
      destruct IH as (k & Hk & Hh & Hw & Hr). exists (S k). cbn [take length]. csimpl.
      rewrite Hp, Hh, Hs2, Hw, Hw2. cbn [h3Sent s1]. csimpl. rewrite <- app_assoc.
      split; [lia|]. split; [done|]. split; [done|]. by apply udp_end_cons. }
    destruct (ev_serr e) as [err|] eqn:Es; [destruct (is_too_large err) eqn:Et|].
    + destruct (countEvent_frame COversize (go "oversize") (length (encodeConnectUDPDatagram b)) s1) as (? & ? & _).
      by apply Hgo.
    + destruct (countEvent_frame CH3Write (go "h3_write_error") (length (encodeConnectUDPDatagram b)) s1)
        as (-> & -> & _).
      exists 1. cbn [take]. csimpl. rewrite Hp. unfold udp_end. cbn. eauto 15 with lia.
    + destruct (ev_cause e) as [cause|] eqn:Ec; [|by apply Hgo].
      exists 1. cbn [take]. csimpl. rewrite Hp. unfold udp_end. cbn. eauto 15 with lia.
  - destruct (countEvent_frame CUdpRead (go "udp_read_error") 0 s) as (-> & -> & _).
    exists 1. cbn [take]. csimpl. unfold read_payload at 1. rewrite Er. unfold udp_end. cbn.
    rewrite app_nil_r. eauto 15 with lia.
Qed.
End Relay.

(** The relay is transparent end to end: payloads a client encodes arrive at the UDP
    socket unchanged, once each and in order, with no counter touched, and the
    datagrams sent for packets read decode, at a peer running the same codec, to
    exactly those packets. *)
Theorem relay_transparent `{QuicVarintLaws} ps s :
  Forall (fun p => length p <= connectUDPMaxUDPPayload) ps ->
  (let '(s', r) := pumpH3ToUDP ((fun p => MkH3 (Ok (encodeConnectUDPDatagram p)) (length p) None) <$> ps) s in
   r = None /\ udpWritten s' = udpWritten s ++ ps /\ counters s' = counters s /\ logs s' = logs s) /\
  (let '(s', r) := pumpUDPToH3 ((fun p => MkUdpEv (Ok p) None None) <$> ps) s in
   r = None /\ counters s' = counters s /\
   exists sent, h3Sent s' = h3Sent s ++ sent /\ decodeConnectUDPDatagram <$> sent = Ok <$> ps).
Proof.
  intros Hall. split; revert s; induction Hall as [|p ps Hp _ IH]; intros s.
  - cbn. by rewrite app_nil_r.
  - rewrite fmap_cons. cbn [pumpH3ToUDP ev_recv ev_werr ev_wrote].
    unfold accepted. rewrite decode_encode.
    rewrite bool_decide_false by lia. rewrite bool_decide_true by done. cbn [negb].
    match goal with |- context [pumpH3ToUDP _ ?x] => specialize (IH x) end.
    destruct (pumpH3ToUDP _ _) as [s' r]. destruct IH as (-> & -> & -> & ->). cbn. by rewrite <- app_assoc.
  - cbn. split; [done|]. split; [done|]. exists []. by rewrite app_nil_r.
  - rewrite fmap_cons. cbn [pumpUDPToH3 ev_read ev_serr ev_cause].
    match goal with |- context [pumpUDPToH3 _ ?x] => specialize (IH x) end.
    destruct (pumpUDPToH3 _ _) as [s' r]. destruct IH as (-> & -> & sent & -> & Hd). cbn [h3Sent counters notifyConnectUDPActivity].
    split; [done|]. split; [done|]. exists (encodeConnectUDPDatagram p :: sent).
    rewrite <- app_assoc. split; [done|]. rewrite !fmap_cons, Hd. f_equal. apply decode_encode.
Qed.

(** ** Witnesses *)

Definition fresh_pump : pumpState := MkPump (MkCounters 0 0 0 0 0 0) true [] [] [] false.

Lemma countEvent_logs_witness :
  length (logs (Nat.iter 9 (countEvent CMalformed (go "malformed_context") 3) fresh_pump)) = 4.
Proof.
  destruct (countEvent_logs CMalformed (go "malformed_context") 3 9 fresh_pump) as (_ & _ & H).
  - reflexivity.
  - reflexivity.
  - lia.
  - exact H.
Defined.

Lemma relay_transparent_witness :
  let '(s', r) := pumpH3ToUDP ((fun p => MkH3 (Ok (encodeConnectUDPDatagram p)) (length p) None) <$>
                                [go "one"; []; go "two"]) fresh_pump in
  r = None /\ udpWritten s' = udpWritten fresh_pump ++ [go "one"; []; go "two"] /\
  counters s' = counters fresh_pump /\ logs s' = logs fresh_pump.
Proof.
  apply (relay_transparent [go "one"; []; go "two"] fresh_pump).
  assert (H3 : 3 <= connectUDPMaxUDPPayload) by (unfold connectUDPMaxUDPPayload; lia).
  apply Forall_cons_2; [exact H3|]. apply Forall_cons_2; [apply Nat.le_0_l|].
  apply Forall_cons_2; [exact H3|]. apply Forall_nil_2.
Defined.
