(* ===== verification/UdpRun.v ===== *)
(** * The life of a CONNECT-UDP association: connectUDPAssociation.run

    The loop of run in native_udp_association.go with its two pump goroutines,
    the idle timer and the shutdown, as a transition system.  The pumps appear
    through what the loop sees of them: activity notifications and their
    results. *)

From stdpp Require Import base decidable numbers list gmap strings relations.
From Stdlib Require Import ZArith Lia Ascii.
From S2P Require Import Prelude GoStrings.

Definition errConnectUDPClosed : error := ErrMsg (go "connect-udp association closed").

(** A pump goroutine: running, or its result is sent on the channel. *)
Inductive pumpStatus := PRunning | PSent.

(** The loop; after it, before cancel(), before the two calls that cancel the stream, and
    before the socket is closed; the drain, and the return. *)
Inductive runControl :=
  | Looping
  | Leaving (result : error)
  | Stopping (result : error)
  | Releasing (result : error)
  | Draining (result : error)
  | Done (result : error).

(** [cancelled] is the effect of cancel(), [streamCancelled] that of CancelRead(0) and
    CancelWrite(0); [lastReset] records when the timer was last armed. *)
Record assoc := MkAssoc {
  clock : Z;
  parentErr : option error;
  streamErr : option error;
  pump1 : pumpStatus;
  pump2 : pumpStatus;
  results : list (option error);
  activityTok : bool;
  deadline : Z;
  lastReset : Z;
  completed : nat;
  cancelled : bool;
  streamCancelled : bool;
  udpClosed : bool;
  streamClosed : bool;
  ctrl : runControl;
}.

Definition start_run (t0 idle : Z) : assoc :=
  MkAssoc t0 None None PRunning PRunning [] false (t0 + idle) t0 0 false false false false Looping.

(** The loop is left with a result. *)
Definition leave (s : assoc) (rs : list (option error)) (n : nat) (r : error) : assoc :=
  MkAssoc (clock s) (parentErr s) (streamErr s) (pump1 s) (pump2 s) rs (activityTok s) (deadline s) (lastReset s)
    n (cancelled s) (streamCancelled s) (udpClosed s) (streamClosed s) (Leaving r).

(** The shutdown: [cancel()], [stream.CancelRead(0)] with [stream.CancelWrite(0)], and
    [udp.Close()]. *)
Definition cancel_ctx (s : assoc) (r : error) : assoc :=
  MkAssoc (clock s) (parentErr s) (streamErr s) (pump1 s) (pump2 s) (results s) (activityTok s) (deadline s) (lastReset s)
    (completed s) true (streamCancelled s) (udpClosed s) (streamClosed s) (Stopping r).

Definition cancel_stream (s : assoc) (r : error) : assoc :=
  MkAssoc (clock s) (parentErr s) (streamErr s) (pump1 s) (pump2 s) (results s) (activityTok s) (deadline s) (lastReset s)
    (completed s) (cancelled s) true (udpClosed s) (streamClosed s) (Releasing r).

Definition close_udp (s : assoc) (r : error) : assoc :=
  MkAssoc (clock s) (parentErr s) (streamErr s) (pump1 s) (pump2 s) (results s) (activityTok s) (deadline s) (lastReset s)
    (completed s) (cancelled s) (streamCancelled s) true (streamClosed s) (Draining r).

(** Who acts: the clock, the pumps and contexts, or the loop itself. *)
Inductive runActor := RClock | REnv | RLoop.

Inductive run_step (idle : Z) : runActor -> assoc -> assoc -> Prop :=
  | run_time s d :
      (0 <= d)%Z ->
      run_step idle RClock s (MkAssoc (clock s + d) (parentErr s) (streamErr s) (pump1 s) (pump2 s) (results s)
        (activityTok s) (deadline s) (lastReset s) (completed s) (cancelled s) (streamCancelled s) (udpClosed s) (streamClosed s) (ctrl s))
  | run_parent_done s e :
      parentErr s = None ->
      run_step idle REnv s (MkAssoc (clock s) (Some e) (streamErr s) (pump1 s) (pump2 s) (results s)
        (activityTok s) (deadline s) (lastReset s) (completed s) (cancelled s) (streamCancelled s) (udpClosed s) (streamClosed s) (ctrl s))
  | run_stream_done s e :
      streamErr s = None ->
      run_step idle REnv s (MkAssoc (clock s) (parentErr s) (Some e) (pump1 s) (pump2 s) (results s)
        (activityTok s) (deadline s) (lastReset s) (completed s) (cancelled s) (streamCancelled s) (udpClosed s) (streamClosed s) (ctrl s))
  (** a running pump relays a datagram *)
  | run_notify s :
      pump1 s = PRunning \/ pump2 s = PRunning ->
      run_step idle REnv s (MkAssoc (clock s) (parentErr s) (streamErr s) (pump1 s) (pump2 s) (results s)
        true (deadline s) (lastReset s) (completed s) (cancelled s) (streamCancelled s) (udpClosed s) (streamClosed s) (ctrl s))
  (** a pump returns: its result goes to the channel of capacity two *)
  | run_pump1 s r :
      pump1 s = PRunning -> length (results s) < 2 ->
      run_step idle REnv s (MkAssoc (clock s) (parentErr s) (streamErr s) PSent (pump2 s) (results s ++ [r])
        (activityTok s) (deadline s) (lastReset s) (completed s) (cancelled s) (streamCancelled s) (udpClosed s) (streamClosed s) (ctrl s))
  | run_pump2 s r :
      pump2 s = PRunning -> length (results s) < 2 ->
      run_step idle REnv s (MkAssoc (clock s) (parentErr s) (streamErr s) (pump1 s) PSent (results s ++ [r])
        (activityTok s) (deadline s) (lastReset s) (completed s) (cancelled s) (streamCancelled s) (udpClosed s) (streamClosed s) (ctrl s))
  (** the select of the loop *)
  | run_result s r rs :
      ctrl s = Looping -> results s = r :: rs ->
      run_step idle RLoop s (leave s rs (S (completed s)) (default errConnectUDPClosed r))
  | run_activity s :
      ctrl s = Looping -> activityTok s = true ->
      run_step idle RLoop s (MkAssoc (clock s) (parentErr s) (streamErr s) (pump1 s) (pump2 s) (results s)
        false (clock s + idle) (clock s) (completed s) (cancelled s) (streamCancelled s) (udpClosed s) (streamClosed s) Looping)
  | run_timer s :
      ctrl s = Looping -> (deadline s <= clock s)%Z ->
      run_step idle RLoop s (leave s (results s) (completed s) ErrDeadlineExceeded)
  | run_parent s e :
      ctrl s = Looping -> parentErr s = Some e ->
      run_step idle RLoop s (leave s (results s) (completed s) e)
  | run_stream s e :
      ctrl s = Looping -> streamErr s = Some e ->
      run_step idle RLoop s (leave s (results s) (completed s) e)
  (** the shutdown *)
  | run_cancel s r : ctrl s = Leaving r -> run_step idle RLoop s (cancel_ctx s r)
  | run_cancel_stream s r : ctrl s = Stopping r -> run_step idle RLoop s (cancel_stream s r)
  | run_close_udp s r : ctrl s = Releasing r -> run_step idle RLoop s (close_udp s r)
  (** the drain *)
  | run_drain s r x rs :
      ctrl s = Draining r -> completed s < 2 -> results s = x :: rs ->
      run_step idle RLoop s (MkAssoc (clock s) (parentErr s) (streamErr s) (pump1 s) (pump2 s) rs
        (activityTok s) (deadline s) (lastReset s) (S (completed s)) (cancelled s) (streamCancelled s) (udpClosed s) (streamClosed s)
        (Draining r))
  | run_return s r :
      ctrl s = Draining r -> ~ completed s < 2 ->
      run_step idle RLoop s (MkAssoc (clock s) (parentErr s) (streamErr s) (pump1 s) (pump2 s) (results s)
        (activityTok s) (deadline s) (lastReset s) (completed s) (cancelled s) (streamCancelled s) (udpClosed s) true (Done r)).

Definition any_step (idle : Z) (s s' : assoc) : Prop := exists a, run_step idle a s s'.

Definition assoc_reachable (idle : Z) (s : assoc) : Prop :=
  exists t0, rtc (any_step idle) (start_run t0 idle) s.

(** [errors.Is] for the two context errors walks the unwrap chain. *)
Fixpoint is_deadline (e : error) : bool :=
  match e with
  | ErrDeadlineExceeded => true
  | ErrPolicy _ (Some c) => is_deadline c
  | ErrHandler _ c => is_deadline c
  | _ => false
  end.

Fixpoint is_canceled (e : error) : bool :=
  match e with
  | ErrCanceled => true
  | ErrPolicy _ (Some c) => is_canceled c
  | ErrHandler _ c => is_canceled c
  | _ => false
  end.

(** The reason the association is closed with. *)
Definition connectUDPAssociationCloseReason (err : error) : gostring :=
  if is_deadline err then go "idle_expired"
  else if is_canceled err then go "canceled"
  else go "closed".

(** ** Invariant *)

Definition sent (p : pumpStatus) : nat := match p with PSent => 1 | PRunning => 0 end.

(** How far the shutdown has come, and the result the loop was left with. *)
Definition phase (c : runControl) : nat :=
  match c with Looping => 0 | Leaving _ => 1 | Stopping _ => 2 | Releasing _ => 3 | Draining _ => 4 | Done _ => 5 end.

Definition left_with (c : runControl) : option error :=
  match c with Looping => None | Leaving r | Stopping r | Releasing r | Draining r | Done r => Some r end.

Record run_inv (idle : Z) (s : assoc) : Prop := {
  ri_count : completed s + length (results s) = sent (pump1 s) + sent (pump2 s);
  ri_loop : ctrl s = Looping -> completed s = 0 /\ deadline s = (lastReset s + idle)%Z;
  ri_cancelled : cancelled s = bool_decide (2 <= phase (ctrl s));
  ri_streamCancelled : streamCancelled s = bool_decide (3 <= phase (ctrl s));
  ri_closed : udpClosed s = bool_decide (4 <= phase (ctrl s));
  ri_streamClosed : streamClosed s = bool_decide (5 <= phase (ctrl s));
  ri_done : forall r, ctrl s = Done r -> completed s = 2;
}.

Lemma run_inv_frame idle s s' :
  completed s' = completed s -> cancelled s' = cancelled s -> streamCancelled s' = streamCancelled s ->
  udpClosed s' = udpClosed s -> streamClosed s' = streamClosed s -> deadline s' = deadline s ->
  lastReset s' = lastReset s -> ctrl s' = ctrl s ->
  completed s' + length (results s') = sent (pump1 s') + sent (pump2 s') ->
  run_inv idle s -> run_inv idle s'.
Proof.
  intros H1 H2 H3 H4 H5 H6 H7 H8 Hc []. constructor; rewrite ?H1, ?H2, ?H3, ?H4, ?H5, ?H6, ?H7, ?H8 in *; auto.
Qed.

Lemma run_inv_leave idle s rs n r :
  n + length rs = sent (pump1 s) + sent (pump2 s) -> ctrl s = Looping -> run_inv idle s -> run_inv idle (leave s rs n r).
Proof. intros Hn Hl [H1 H2 H3 H4 H5 H6 H7]. rewrite Hl in *. constructor; cbn in *; done. Qed.

Lemma sent_le p : sent p <= 1.
Proof. destruct p; simpl; lia. Qed.

Lemma run_inv_step idle s s' : any_step idle s s' -> run_inv idle s -> run_inv idle s'.
Proof.
  intros [a Hstep] Hi. pose proof (ri_count idle s Hi) as Hc.
  pose proof (sent_le (pump1 s)). pose proof (sent_le (pump2 s)).
  destruct Hstep as [s d Hd|s e He|s e He|s Hp|s r Hp Hlen|s r Hp Hlen|s r rs Hl Hr|s Hl Ha|s Hl Ht|s e Hl He|s e Hl He
    |s r Hl|s r Hl|s r Hl|s r x rs Hl Hlt Hr|s r Hl Hge];
    try (by eapply run_inv_frame; [..|exact Hi]);
    try (by apply run_inv_leave);
    try (destruct Hi as [H1 H2 H3 H4 H5 H6 H7]; rewrite Hl in *; constructor; cbn in *; done).
  - eapply run_inv_frame; [..|exact Hi]; try done. cbn. rewrite length_app, Hp in *. cbn in *. lia.
  - eapply run_inv_frame; [..|exact Hi]; try done. cbn. rewrite length_app, Hp in *. cbn in *. lia.
  - apply run_inv_leave; auto. rewrite Hr in Hc. cbn in Hc. lia.
  - destruct Hi as [H1 H2 H3 H4 H5 H6 H7]. rewrite Hl in *. destruct (H2 eq_refl). constructor; cbn in *; auto.
  - destruct Hi as [H1 H2 H3 H4 H5 H6 H7]. rewrite Hl in *. constructor; cbn in *; try done. rewrite Hr in Hc. cbn in Hc. lia.
  - destruct Hi as [H1 H2 H3 H4 H5 H6 H7]. rewrite Hl in *. constructor; cbn in *; try done. intros r' _. lia.
Qed.

Lemma reachable_run_inv idle s : assoc_reachable idle s -> run_inv idle s.
Proof.
  intros [t0 Hr]. apply (rtc_ind_r (fun x => run_inv idle x) (start_run t0 idle)) in Hr; auto.
  - by constructor.
  - intros y z _ Hyz. by apply run_inv_step.
Qed.

(** ** Theorems *)

(** When run returns, both pump goroutines have ended and their results were taken
    from the channel, the context and both directions of the stream were
    cancelled, and the UDP socket and the stream are closed; the stream is closed
    only then.  A pump's send never blocks, since its channel holds both results. *)
Theorem run_returns_clean idle s :
  assoc_reachable idle s ->
  (forall r, ctrl s = Done r ->
     pump1 s = PSent /\ pump2 s = PSent /\ results s = [] /\ cancelled s = true /\ streamCancelled s = true /\
     udpClosed s = true /\ streamClosed s = true) /\
  ((forall r, ctrl s <> Done r) -> streamClosed s = false) /\
  (pump1 s = PRunning \/ pump2 s = PRunning -> length (results s) < 2).
Proof.
  intros Hr. destruct (reachable_run_inv idle s Hr) as [H1 H2 H3 H4 H5 H6 H7].
  pose proof (sent_le (pump1 s)). pose proof (sent_le (pump2 s)). split; [|split].
  - intros r Hd. pose proof (H7 r Hd). rewrite Hd in *.
    destruct (pump1 s), (pump2 s); cbn in *; try lia. repeat split; auto. apply nil_length_inv. lia.
  - intros Hn. rewrite H6. destruct (ctrl s); try done. by destruct (Hn result).
  - intros [E|E]; rewrite E in *; cbn in *; lia.
Qed.

(** The shutdown completes: from a draining state in which both pumps have ended, the
    loop alone can take at most three steps, and they lead to the return with
    the result the loop ended with. *)
Theorem drain_completes idle s r :
  assoc_reachable idle s -> ctrl s = Draining r -> pump1 s = PSent -> pump2 s = PSent ->
  exists n s', n <= 3 /\ nsteps (run_step idle RLoop) n s s' /\ ctrl s' = Done r.
Proof.
  intros Hr Hd H1 H2. pose proof (ri_count idle s (reachable_run_inv idle s Hr)) as Hc.
  rewrite H1, H2 in Hc. cbn in Hc. clear Hr.
  assert (Hret : forall s, ctrl s = Draining r -> ~ completed s < 2 ->
    exists s', run_step idle RLoop s s' /\ ctrl s' = Done r)
    by (intros s0 H0 Hge; eexists; split; [by apply (run_return _ s0 r)|done]).
  destruct (results s) as [|x [|y [|]]] eqn:Er; cbn in Hc; try lia.
  - destruct (Hret s Hd ltac:(lia)) as (s' & Hs & ?). exists 1, s'. split; [lia|]. split; [|done].
    eapply nsteps_l; [done|constructor].
  - pose proof (run_drain idle s r x [] Hd ltac:(lia) Er) as Hs1. set (s1 := MkAssoc _ _ _ _ _ _ _ _ _ _ _ _ _ _ _) in Hs1.
    destruct (Hret s1) as (s' & Hs & ?); [done|cbn; lia|]. exists 2, s'. split; [lia|]. split; [|done].
    eapply nsteps_l; [done|]. eapply nsteps_l; [done|constructor].
  - pose proof (run_drain idle s r x [y] Hd ltac:(lia) Er) as Hs1.
    set (s1 := MkAssoc _ _ _ _ _ _ _ _ _ _ _ _ _ _ _) in Hs1.
    pose proof (run_drain idle s1 r y [] eq_refl ltac:(cbn; lia) eq_refl) as Hs2.
    set (s2 := MkAssoc _ _ _ _ _ _ _ _ _ _ _ _ _ _ _) in Hs2.
    destruct (Hret s2) as (s' & Hs & ?); [done|cbn; lia|]. exists 3, s'. split; [lia|]. split; [|done].
    eapply nsteps_l; [done|]. eapply nsteps_l; [done|]. eapply nsteps_l; [done|constructor].
Qed.

(** Why an association ends: the loop is left with the first pump result (a nil one
    counts as the closed error), with the cause of the request or stream context,
    or as idle, and the latter only when a full idle timeout passed since the timer
    was last armed, at the start or by the last activity the loop saw. *)
Theorem end_of_loop idle s s' r :
  assoc_reachable idle s -> run_step idle RLoop s s' -> ctrl s = Looping -> ctrl s' = Leaving r ->
  (exists x rs, results s = x :: rs /\ r = default errConnectUDPClosed x) \/
  parentErr s = Some r \/ streamErr s = Some r \/
  (r = ErrDeadlineExceeded /\ (lastReset s + idle <= clock s)%Z).
Proof.
  intros Hr Hs Hl Hd. destruct (ri_loop idle s (reachable_run_inv idle s Hr) Hl) as (_ & Hdl).
  inversion Hs; subst; cbn in *; simplify_eq; eauto 10; try congruence.
  do 3 right. split; [done|]. by rewrite <- Hdl.
Qed.

(** ** Witnesses *)

(** One pump ends, the loop shuts down, the other pump ends and the drain takes
    its result. *)
Definition example_draining : assoc :=
  MkAssoc 5 None None PSent PSent [Some ErrEOF] false 10 0 1 true true true false (Draining errConnectUDPClosed).

Definition example_done : assoc :=
  MkAssoc 5 None None PSent PSent [] false 10 0 2 true true true true (Done errConnectUDPClosed).

Lemma example_draining_reachable : assoc_reachable 10 example_draining.
Proof.
  exists 0%Z. eapply rtc_l; [exists RClock; by apply (run_time _ _ 5)|].
  eapply rtc_l; [exists REnv; apply (run_pump1 _ _ None); [reflexivity|cbn; lia]|].
  eapply rtc_l; [exists RLoop; by eapply run_result|].
  eapply rtc_l; [exists RLoop; by eapply run_cancel|].
  eapply rtc_l; [exists RLoop; by eapply run_cancel_stream|].
  eapply rtc_l; [exists RLoop; by eapply run_close_udp|].
  eapply rtc_l; [exists REnv; apply (run_pump2 _ _ (Some ErrEOF)); [reflexivity|cbn; lia]|].
  apply rtc_refl.
Qed.

Lemma example_done_reachable : assoc_reachable 10 example_done.
Proof.
  destruct example_draining_reachable as [t0 Hr]. exists t0.
  etrans; [exact Hr|].
  eapply rtc_l; [exists RLoop; eapply run_drain; [reflexivity|cbn; lia|reflexivity]|].
  eapply rtc_l; [exists RLoop; eapply run_return; [reflexivity|cbn; lia]|].
  apply rtc_refl.
Qed.

Lemma run_returns_clean_witness : pump1 example_done = PSent /\ streamClosed example_done = true.
Proof.
  destruct (run_returns_clean 10 example_done) as (H & _ & _).
  - exact example_done_reachable.
  - destruct (H errConnectUDPClosed) as (H1 & _ & _ & _ & _ & _ & H2); [reflexivity|]. split; assumption.
Defined.

Lemma drain_completes_witness :
  exists n s', n <= 3 /\ nsteps (run_step 10 RLoop) n example_draining s' /\ ctrl s' = Done errConnectUDPClosed.
Proof.
  apply (drain_completes 10 example_draining errConnectUDPClosed).
  - exact example_draining_reachable.
  - reflexivity.
  - reflexivity.
  - reflexivity.
Defined.

Lemma example_idle_reachable : assoc_reachable 10
  (MkAssoc 12 None None PRunning PRunning [] false 10 0 0 false false false false Looping).
Proof. exists 0%Z. eapply rtc_l; [exists RClock; by apply (run_time _ _ 12)|]. apply rtc_refl. Qed.

Lemma end_of_loop_witness : (0 + 10 <= 12)%Z.
Proof.
  destruct (end_of_loop 10 (MkAssoc 12 None None PRunning PRunning [] false 10 0 0 false false false false Looping)
    (leave (MkAssoc 12 None None PRunning PRunning [] false 10 0 0 false false false false Looping) [] 0
       ErrDeadlineExceeded) ErrDeadlineExceeded) as [(x & rs & H & _)|[H|[H|[_ H]]]].
  - exact example_idle_reachable.
  - apply run_timer; [reflexivity|cbn; lia].
  - reflexivity.
  - reflexivity.
  - discriminate H.
  - discriminate H.
  - discriminate H.
  - exact H.
Defined.
