(* ===== verification/UdpRelay.v ===== *)
(** * The CONNECT-UDP association as one system: run with its pumps

    connectUDPAssociation.run of native_udp_association.go and the two pump goroutines it
    starts, call by call: the loop is that of UdpRun, a pump stops at every call that can
    block or that another goroutine can see, and the stream and the socket deliver what
    arrives.  The theorems carry what UdpRun shows of the loop and what UdpPump shows of a
    pump on its own over to every interleaving of the three. *)

From stdpp Require Import base decidable numbers list gmap strings relations.
From Stdlib Require Import ZArith Lia Ascii.
From S2P Require Import Prelude GoStrings GoNet GoHttp UdpProtocol Varint UdpAdmission UdpPump UdpRun.

(** ** State *)

(** Where pumpH3ToUDP stands: in ReceiveDatagram, in the write of a payload, before the
    notification of activity, or returned. *)
Inductive upPoint :=
  | UpReceive
  | UpWrite (datagram payload : list byte)
  | UpNotify
  | UpDone.

(** Where pumpUDPToH3 stands: in the read, in SendDatagram, before the notification, before
    the look at the context, or returned. *)
Inductive downPoint :=
  | DownRead
  | DownSend (buffer : list byte)
  | DownNotify (buffer : list byte)
  | DownCheck (buffer : list byte)
  | DownDone.

(** The loop, what the pumps share, their points, what has arrived and was not read yet;
    then history for the statements: all arrivals, the iterations of the pumps, and when
    activity was last notified.  The activity channel is the one of the loop. *)
Record relay := MkRelay {
  r_run : assoc;
  r_pump : pumpState;
  r_up : upPoint;
  r_down : downPoint;
  r_h3in : list (list byte);
  r_udpin : list (list byte);
  r_h3all : list (list byte);
  r_udpall : list (list byte);
  r_upEvents : list h3Event;
  r_downEvents : list udpEvent;
  r_lastActivity : Z
}.

Definition start_relay (t0 idle : Z) (logger : bool) : relay :=
  MkRelay (start_run t0 idle) (MkPump (MkCounters 0 0 0 0 0 0) logger [] [] [] false) UpReceive DownRead
    [] [] [] [] [] [] t0.

(** ** The goroutines' operations on the loop's channels *)

Definition set_token (a : assoc) : assoc :=
  MkAssoc (clock a) (parentErr a) (streamErr a) (pump1 a) (pump2 a) (results a) true (deadline a) (lastReset a)
    (completed a) (cancelled a) (streamCancelled a) (udpClosed a) (streamClosed a) (ctrl a).

Definition send_up (err : option error) (a : assoc) : assoc :=
  MkAssoc (clock a) (parentErr a) (streamErr a) PSent (pump2 a) (results a ++ [err]) (activityTok a) (deadline a) (lastReset a)
    (completed a) (cancelled a) (streamCancelled a) (udpClosed a) (streamClosed a) (ctrl a).

Definition send_down (err : option error) (a : assoc) : assoc :=
  MkAssoc (clock a) (parentErr a) (streamErr a) (pump1 a) PSent (results a ++ [err]) (activityTok a) (deadline a) (lastReset a)
    (completed a) (cancelled a) (streamCancelled a) (udpClosed a) (streamClosed a) (ctrl a).

Definition with_run (s : relay) (a : assoc) : relay :=
  MkRelay a (r_pump s) (r_up s) (r_down s) (r_h3in s) (r_udpin s) (r_h3all s) (r_udpall s) (r_upEvents s) (r_downEvents s)
    (r_lastActivity s).

Definition arrive_h3 (d : list byte) (s : relay) : relay :=
  MkRelay (r_run s) (r_pump s) (r_up s) (r_down s) (r_h3in s ++ [d]) (r_udpin s) (r_h3all s ++ [d]) (r_udpall s)
    (r_upEvents s) (r_downEvents s) (r_lastActivity s).

Definition arrive_udp (p : list byte) (s : relay) : relay :=
  MkRelay (r_run s) (r_pump s) (r_up s) (r_down s) (r_h3in s) (r_udpin s ++ [p]) (r_h3all s) (r_udpall s ++ [p])
    (r_upEvents s) (r_downEvents s) (r_lastActivity s).

(** A pump moves on: its point, the shared state, the loop's channels and its history. *)
Definition up_to (s : relay) (a : assoc) (p : pumpState) (up : upPoint) (h3in : list (list byte)) (es : list h3Event) : relay :=
  MkRelay a p up (r_down s) h3in (r_udpin s) (r_h3all s) (r_udpall s) (r_upEvents s ++ es) (r_downEvents s) (r_lastActivity s).

Definition down_to (s : relay) (a : assoc) (p : pumpState) (down : downPoint) (udpin : list (list byte)) (es : list udpEvent) : relay :=
  MkRelay a p (r_up s) down (r_h3in s) udpin (r_h3all s) (r_udpall s) (r_upEvents s) (r_downEvents s ++ es) (r_lastActivity s).

(** [notifyConnectUDPActivity]: the send that does not block. *)
Definition notify (s : relay) (up : upPoint) (down : downPoint) : relay :=
  MkRelay (set_token (r_run s)) (r_pump s) up down (r_h3in s) (r_udpin s) (r_h3all s) (r_udpall s) (r_upEvents s) (r_downEvents s)
    (clock (r_run s)).

Definition write_udp (payload : list byte) (p : pumpState) : pumpState :=
  MkPump (counters p) (logger p) (logs p) (udpWritten p ++ [payload]) (h3Sent p) (activity p).

Definition send_h3 (datagram : list byte) (p : pumpState) : pumpState :=
  MkPump (counters p) (logger p) (logs p) (udpWritten p) (h3Sent p ++ [datagram]) (activity p).

Section Relaying.
Context `{QuicVarint}.

(** ** pumpH3ToUDP *)

Definition up_return (s : relay) (p : pumpState) (e : h3Event) (err : error) : relay :=
  up_to s (send_up (Some err) (r_run s)) p UpDone (r_h3in s) [e].

(** ReceiveDatagram returns a datagram. *)
Definition up_received (s : relay) (datagram : list byte) (rest : list (list byte)) : relay :=
  match accepted datagram with
  | None =>
      up_to s (r_run s) (countEvent CMalformed (go "malformed_context") (length datagram) (r_pump s)) UpReceive rest
        [MkH3 (Ok datagram) 0 None]
  | Some payload => up_to s (r_run s) (r_pump s) (UpWrite datagram payload) rest []
  end.

Definition up_receive_failed (s : relay) (err : error) : relay :=
  up_return s (countEvent CH3Read (go "h3_read_error") 0 (r_pump s)) (MkH3 (Err err) 0 None) err.

(** The write returns. *)
Definition up_wrote (s : relay) (datagram payload : list byte) (n : nat) (err : option error) : relay :=
  let p := write_udp payload (r_pump s) in
  let e := MkH3 (Ok datagram) n err in
  match err with
  | Some err => up_return s (countEvent CUdpWrite (go "udp_write_error") (length payload) p) e err
  | None =>
      if negb (bool_decide (n = length payload))
      then up_return s (countEvent CUdpWrite (go "udp_short_write") (length payload) p) e ErrShortWrite
      else up_to s (r_run s) p UpNotify (r_h3in s) [e]
  end.

(** ** pumpUDPToH3 *)

Definition down_return (s : relay) (p : pumpState) (e : udpEvent) (err : error) : relay :=
  down_to s (send_down (Some err) (r_run s)) p DownDone (r_udpin s) [e].

Definition down_read (s : relay) (packet : list byte) (rest : list (list byte)) : relay :=
  down_to s (r_run s) (r_pump s) (DownSend (take connectUDPMaxUDPPayload packet)) rest [].

Definition down_read_failed (s : relay) (err : error) : relay :=
  down_return s (countEvent CUdpRead (go "udp_read_error") 0 (r_pump s)) (MkUdpEv (Err err) None None) err.

Definition down_sent (s : relay) (buffer : list byte) (err : option error) : relay :=
  let datagram := encodeConnectUDPDatagram buffer in
  let p := send_h3 datagram (r_pump s) in
  let e := MkUdpEv (Ok buffer) err None in
  match err with
  | Some err =>
      if is_too_large err
      then down_to s (r_run s) (countEvent COversize (go "oversize") (length datagram) p) DownRead (r_udpin s) [e]
      else down_return s (countEvent CH3Write (go "h3_write_error") (length datagram) p) e err
  | None => down_to s (r_run s) p (DownNotify buffer) (r_udpin s) []
  end.

(** [select { case <-ctx.Done(): ... default: }]. *)
Definition down_checked (s : relay) (buffer : list byte) (cause : option error) : relay :=
  match cause with
  | Some err => down_return s (r_pump s) (MkUdpEv (Ok buffer) None (Some err)) err
  | None => down_to s (r_run s) (r_pump s) DownRead (r_udpin s) [MkUdpEv (Ok buffer) None None]
  end.

(** The causes the context of the pumps can have. *)
Definition ctx_cause (a : assoc) (cause : option error) : Prop :=
  match cause with
  | Some err => parentErr a = Some err \/ (cancelled a = true /\ err = ErrCanceled)
  | None => parentErr a = None /\ cancelled a = false
  end.

(** ** The system *)

(** Time, what arrives, the contexts, failures of the network, and the goroutines. *)
Inductive relayActor := RTime | RArrival | RContext | RFault | RProgram.

Inductive relay_step (idle : Z) : relayActor -> relay -> relay -> Prop :=
  | rs_time s a : run_step idle RClock (r_run s) a -> relay_step idle RTime s (with_run s a)
  | rs_loop s a : run_step idle RLoop (r_run s) a -> relay_step idle RProgram s (with_run s a)
  | rs_parent s e :
      parentErr (r_run s) = None ->
      relay_step idle RContext s (with_run s (MkAssoc (clock (r_run s)) (Some e) (streamErr (r_run s)) (pump1 (r_run s)) (pump2 (r_run s))
        (results (r_run s)) (activityTok (r_run s)) (deadline (r_run s)) (lastReset (r_run s)) (completed (r_run s))
        (cancelled (r_run s)) (streamCancelled (r_run s)) (udpClosed (r_run s)) (streamClosed (r_run s)) (ctrl (r_run s))))
  | rs_stream s e :
      streamErr (r_run s) = None ->
      relay_step idle RContext s (with_run s (MkAssoc (clock (r_run s)) (parentErr (r_run s)) (Some e) (pump1 (r_run s)) (pump2 (r_run s))
        (results (r_run s)) (activityTok (r_run s)) (deadline (r_run s)) (lastReset (r_run s)) (completed (r_run s))
        (cancelled (r_run s)) (streamCancelled (r_run s)) (udpClosed (r_run s)) (streamClosed (r_run s)) (ctrl (r_run s))))
  | rs_h3_arrives s d : relay_step idle RArrival s (arrive_h3 d s)
  (** a packet of UDP fits the buffer *)
  | rs_udp_arrives s p : length p <= connectUDPMaxUDPPayload -> relay_step idle RArrival s (arrive_udp p s)
  | rs_up_received s d rest : r_up s = UpReceive -> r_h3in s = d :: rest -> relay_step idle RProgram s (up_received s d rest)
  (** ReceiveDatagram returns once its context is done; before that it fails when the
      transport does *)
  | rs_up_cancelled s cause e :
      r_up s = UpReceive -> ctx_cause (r_run s) (Some cause) -> relay_step idle RProgram s (up_receive_failed s e)
  | rs_up_fault s e : r_up s = UpReceive -> relay_step idle RFault s (up_receive_failed s e)
  (** writing to the closed socket fails *)
  | rs_up_wrote s d payload n err :
      r_up s = UpWrite d payload -> (udpClosed (r_run s) = true -> err <> None) ->
      relay_step idle RProgram s (up_wrote s d payload n err)
  | rs_up_notify s : r_up s = UpNotify -> relay_step idle RProgram s (notify s UpReceive (r_down s))
  (** as does reading from it; an open socket fails a read when the network does *)
  | rs_down_read s packet rest :
      r_down s = DownRead -> r_udpin s = packet :: rest -> udpClosed (r_run s) = false ->
      relay_step idle RProgram s (down_read s packet rest)
  | rs_down_closed s e :
      r_down s = DownRead -> udpClosed (r_run s) = true -> relay_step idle RProgram s (down_read_failed s e)
  | rs_down_fault s e : r_down s = DownRead -> relay_step idle RFault s (down_read_failed s e)
  | rs_down_sent s buffer err : r_down s = DownSend buffer -> relay_step idle RProgram s (down_sent s buffer err)
  | rs_down_notify s buffer : r_down s = DownNotify buffer -> relay_step idle RProgram s (notify s (r_up s) (DownCheck buffer))
  | rs_down_checked s buffer cause :
      r_down s = DownCheck buffer -> ctx_cause (r_run s) cause -> relay_step idle RProgram s (down_checked s buffer cause).

Definition relay_any (idle : Z) (s s' : relay) : Prop := exists l, relay_step idle l s s'.

Definition relay_reachable (idle : Z) (s : relay) : Prop :=
  exists t0 logger, rtc (relay_any idle) (start_relay t0 idle logger) s.

Lemma relay_ind idle (P : relay -> Prop) :
  (forall t0 logger, P (start_relay t0 idle logger)) -> (forall l s s', P s -> relay_step idle l s s' -> P s') ->
  forall s, relay_reachable idle s -> P s.
Proof.
  intros Hi Hs s (t0 & logger & Hr). specialize (Hi t0 logger). revert Hi.
  induction Hr as [|x y z [l Hxy] _ IH]; [done|]. intros Hx. apply IH. by eapply Hs.
Qed.

(** ** The loop of the system is the loop of UdpRun *)

Definition up_status (up : upPoint) : pumpStatus := match up with UpDone => PSent | _ => PRunning end.

Definition down_status (down : downPoint) : pumpStatus := match down with DownDone => PSent | _ => PRunning end.

Record points_agree (s : relay) : Prop := {
  pa_up : pump1 (r_run s) = up_status (r_up s);
  pa_down : pump2 (r_run s) = down_status (r_down s)
}.

Lemma run_step_pumps idle a b l : l <> REnv -> run_step idle l a b -> pump1 b = pump1 a /\ pump2 b = pump2 a.
Proof. intros Hl Hs. by inversion Hs; subst. Qed.

Lemma room_for_result idle a : run_inv idle a -> pump1 a = PRunning \/ pump2 a = PRunning -> length (results a) < 2.
Proof.
  intros Hi Hp. pose proof (ri_count idle a Hi). pose proof (sent_le (pump1 a)). pose proof (sent_le (pump2 a)).
  destruct Hp as [E|E]; rewrite E in *; cbn in *; lia.
Qed.

Lemma send_up_step idle a e : run_inv idle a -> pump1 a = PRunning -> run_step idle REnv a (send_up e a).
Proof. intros Hi Hp. apply run_pump1; [done|]. apply (room_for_result idle); auto. Qed.

Lemma send_down_step idle a e : run_inv idle a -> pump2 a = PRunning -> run_step idle REnv a (send_down e a).
Proof. intros Hi Hp. apply run_pump2; [done|]. apply (room_for_result idle); auto. Qed.

(** A step of the system is at most one step of the loop's system. *)
Lemma relay_step_run idle l s s' :
  run_inv idle (r_run s) -> points_agree s -> relay_step idle l s s' ->
  (r_run s' = r_run s \/ any_step idle (r_run s) (r_run s')) /\ points_agree s'.
Proof.
  intros Hi [Hu Hd] Hs.
  destruct Hs as [s a Ha|s a Ha|s e He|s e He|s d|s p Hp|s d rest Hp Hq|s cause e Hp Hx|s e Hp|s d pl n err Hp Hc|s Hp|s pk rest Hp Hq Hc
    |s e Hp Hx|s e Hp|s b err Hp|s b Hp|s b c Hp Hc].
  - split; [right; by exists RClock|]. destruct (run_step_pumps idle _ _ RClock ltac:(done) Ha). split; cbn; congruence.
  - split; [right; by exists RLoop|]. destruct (run_step_pumps idle _ _ RLoop ltac:(done) Ha). split; cbn; congruence.
  - split; [right; exists REnv; by constructor|by split].
  - split; [right; exists REnv; by constructor|by split].
  - split; [by left|by split].
  - split; [by left|by split].
  - unfold up_received. rewrite Hp in Hu. destruct (accepted d); (split; [by left|by split]).
  - rewrite Hp in Hu. split; [right; exists REnv; by apply send_up_step|by split].
  - rewrite Hp in Hu. split; [right; exists REnv; by apply send_up_step|by split].
  - rewrite Hp in Hu. unfold up_wrote. destruct err as [e|]; [|destruct (negb _)].
    + split; [right; exists REnv; by apply send_up_step|by split].
    + split; [right; exists REnv; by apply send_up_step|by split].
    + split; [by left|by split].
  - rewrite Hp in Hu. split; [right; exists REnv; apply run_notify; by left|by split].
  - rewrite Hp in Hd. split; [by left|by split].
  - rewrite Hp in Hd. split; [right; exists REnv; by apply send_down_step|by split].
  - rewrite Hp in Hd. split; [right; exists REnv; by apply send_down_step|by split].
  - rewrite Hp in Hd. unfold down_sent. destruct err as [e|]; [destruct (is_too_large e)|].
    + split; [by left|by split].
    + split; [right; exists REnv; by apply send_down_step|by split].
    + split; [by left|by split].
  - rewrite Hp in Hd. split; [right; exists REnv; apply run_notify; by right|by split].
  - rewrite Hp in Hd. unfold down_checked. destruct c as [e|].
    + split; [right; exists REnv; by apply send_down_step|by split].
    + split; [by left|by split].
Qed.

Lemma relay_simulates idle s : relay_reachable idle s -> assoc_reachable idle (r_run s) /\ points_agree s.
Proof.
  revert s. apply relay_ind.
  - intros t0 lg. split; [by exists t0|by split].
  - intros l s s' [[t0 Hr] Ha] Hs.
    destruct (relay_step_run idle l s s' (reachable_run_inv idle _ (ex_intro _ t0 Hr)) Ha Hs) as [[E|Hstep] Ha'].
    + split; [exists t0; by rewrite E|done].
    + split; [exists t0; by eapply rtc_r|done].
Qed.

(** ** What the pumps share is the pumps of UdpPump, run apart *)

Definition empty_pump (logger : bool) : pumpState := MkPump (MkCounters 0 0 0 0 0 0) logger [] [] [] false.

(** The counters of pumpH3ToUDP; the others are those of pumpUDPToH3. *)
Definition up_counter (k : counter) : bool :=
  match k with CMalformed | CUdpWrite | CH3Read => true | COversize | CUdpRead | CH3Write => false end.

(** The shared state is put together from the states of the pumps. *)
Record pumps_split (p pu pd : pumpState) : Prop := {
  ps_written : udpWritten p = udpWritten pu;
  ps_sent : h3Sent p = h3Sent pd;
  ps_counter : forall k, get_counter k (counters p) = get_counter k (counters (if up_counter k then pu else pd));
  ps_logger : logger p = logger pu /\ logger p = logger pd;
  ps_logs : logs p ≡ₚ logs pu ++ logs pd
}.

Lemma countEvent_lines k r n p :
  logs (countEvent k r n p) = logs p ++
    (let count := uint64 (get_counter k (counters p) + 1) in
     if logged_count count && logger p then [MkLog r count n] else []).
Proof.
  unfold countEvent, logEvent. cbv zeta. destruct (logged_count _); cbn [andb logger logs]; [|by rewrite app_nil_r].
  destruct (logger p); cbn [logs]; by rewrite ?app_nil_r.
Qed.

Lemma split_count_up k r n p pu pd :
  up_counter k = true -> pumps_split p pu pd -> pumps_split (countEvent k r n p) (countEvent k r n pu) pd.
Proof.
  intros Hk [Hw Hs Hc [Hl1 Hl2] Hp]. pose proof (countEvent_lines k r n p) as HL. pose proof (countEvent_lines k r n pu) as HLu.
  destruct (countEvent_frame k r n p) as (F1 & F2 & _ & F3 & F4), (countEvent_frame k r n pu) as (G1 & G2 & _ & G3 & G4).
  pose proof (Hc k) as Hck. rewrite Hk in Hck. constructor; [congruence|congruence| |split; congruence|].
  - intros j. rewrite F4, get_set_counter. case_decide as Ej.
    + subst j. rewrite Hk, G4, get_set_counter, Hck. by case_decide.
    + rewrite Hc. destruct (up_counter j); [|done]. rewrite G4, get_set_counter. by case_decide.
  - rewrite HL, HLu, Hck, <- Hl1, Hp, <- !app_assoc. f_equiv. apply Permutation_app_comm.
Qed.

Lemma split_count_down k r n p pu pd :
  up_counter k = false -> pumps_split p pu pd -> pumps_split (countEvent k r n p) pu (countEvent k r n pd).
Proof.
  intros Hk [Hw Hs Hc [Hl1 Hl2] Hp]. pose proof (countEvent_lines k r n p) as HL. pose proof (countEvent_lines k r n pd) as HLd.
  destruct (countEvent_frame k r n p) as (F1 & F2 & _ & F3 & F4), (countEvent_frame k r n pd) as (G1 & G2 & _ & G3 & G4).
  pose proof (Hc k) as Hck. rewrite Hk in Hck. constructor; [congruence|congruence| |split; congruence|].
  - intros j. rewrite F4, get_set_counter. case_decide as Ej.
    + subst j. rewrite Hk, G4, get_set_counter, Hck. by case_decide.
    + rewrite Hc. destruct (up_counter j); [done|]. rewrite G4, get_set_counter. by case_decide.
  - by rewrite HL, HLd, Hck, <- Hl2, Hp, <- !app_assoc.
Qed.

Lemma split_write payload p pu pd : pumps_split p pu pd -> pumps_split (write_udp payload p) (write_udp payload pu) pd.
Proof. intros [Hw Hs Hc Hl Hp]. constructor; cbn [udpWritten h3Sent counters logger logs write_udp]; [congruence|done| |done|done].
  intros k. rewrite Hc. by destruct (up_counter k).
Qed.

Lemma split_send d p pu pd : pumps_split p pu pd -> pumps_split (send_h3 d p) pu (send_h3 d pd).
Proof. intros [Hw Hs Hc Hl Hp]. constructor; cbn [udpWritten h3Sent counters logger logs send_h3]; [done|congruence| |done|done].
  intros k. rewrite Hc. by destruct (up_counter k).
Qed.

(** The slot of the activity channel is the loop's, so it is left out. *)
Lemma split_notify_up p pu pd : pumps_split p pu pd -> pumps_split p (notifyConnectUDPActivity pu) pd.
Proof. intros [? ? Hc ? ?]. constructor; [done|done| |done|done]. intros k. rewrite Hc. by destruct (up_counter k). Qed.

Lemma split_notify_down p pu pd : pumps_split p pu pd -> pumps_split p pu (notifyConnectUDPActivity pd).
Proof. intros [? ? Hc ? ?]. constructor; [done|done| |done|done]. intros k. rewrite Hc. by destruct (up_counter k). Qed.

Lemma pumpH3ToUDP_app es es' p :
  pumpH3ToUDP (es ++ es') p =
    match pumpH3ToUDP es p with (p1, None) => pumpH3ToUDP es' p1 | (p1, Some e) => (p1, Some e) end.
Proof.
  revert p. induction es as [|e es IH]; intros p; [done|]. cbn [app pumpH3ToUDP].
  destruct (ev_recv e) as [d|]; [|done]. destruct (accepted d); [|done]. destruct (ev_werr e); [done|]. by destruct (negb _).
Qed.

Lemma pumpUDPToH3_app es es' p :
  pumpUDPToH3 (es ++ es') p =
    match pumpUDPToH3 es p with (p1, None) => pumpUDPToH3 es' p1 | (p1, Some e) => (p1, Some e) end.
Proof.
  revert p. induction es as [|e es IH]; intros p; [done|]. cbn [app pumpUDPToH3].
  destruct (ev_read e); [|done]. destruct (ev_serr e); [by destruct (is_too_large _)|]. by destruct (ev_cause e).
Qed.

(** The packet that is sent but whose iteration has not ended. *)
Definition pending (down : downPoint) : list udpEvent :=
  match down with DownNotify b | DownCheck b => [MkUdpEv (Ok b) None None] | _ => [] end.

Definition up_view (lg : bool) (s : relay) : pumpState * option error := pumpH3ToUDP (r_upEvents s) (empty_pump lg).

Definition down_view (lg : bool) (s : relay) : pumpState * option error :=
  pumpUDPToH3 (r_downEvents s ++ pending (r_down s)) (empty_pump lg).

Definition returned_if (done : bool) (r : option error) : Prop := if done then is_Some r else r = None.

Definition up_done (up : upPoint) : bool := match up with UpDone => true | _ => false end.

Definition down_done (down : downPoint) : bool := match down with DownDone => true | _ => false end.

Record relay_refines (lg : bool) (s : relay) : Prop := {
  rr_split : pumps_split (r_pump s) (up_view lg s).1 (down_view lg s).1;
  rr_up : returned_if (up_done (r_up s)) (up_view lg s).2;
  rr_down : returned_if (down_done (r_down s)) (down_view lg s).2
}.

(** The pump towards UDP moves on by the iterations [es]. *)
Lemma refine_up lg s a p up h3in es pu ru :
  relay_refines lg s -> up_done (r_up s) = false ->
  pumpH3ToUDP es (up_view lg s).1 = (pu, ru) ->
  (forall pd, pumps_split (r_pump s) (up_view lg s).1 pd -> pumps_split p pu pd) -> returned_if (up_done up) ru ->
  relay_refines lg (up_to s a p up h3in es).
Proof.
  intros [Hs Hu Hd] Hn He Hp Hr. rewrite Hn in Hu. cbn in Hu.
  assert (Hv : up_view lg (up_to s a p up h3in es) = (pu, ru)).
  { unfold up_view in *. cbn [r_upEvents up_to]. rewrite pumpH3ToUDP_app.
    destruct (pumpH3ToUDP (r_upEvents s) _) as [p1 r1]. cbn in *. by subst r1. }
  constructor; rewrite ?Hv; cbn [fst snd]; [|exact Hr|exact Hd]. apply Hp, Hs.
Qed.

(** The pump towards the client moves on by the iterations [es]; none was pending. *)
Lemma refine_down lg s a p down udpin es pd rd :
  relay_refines lg s -> down_done (r_down s) = false -> pending (r_down s) = [] ->
  pumpUDPToH3 (es ++ pending down) (down_view lg s).1 = (pd, rd) ->
  (forall pu, pumps_split (r_pump s) pu (down_view lg s).1 -> pumps_split p pu pd) -> returned_if (down_done down) rd ->
  relay_refines lg (down_to s a p down udpin es).
Proof.
  intros [Hs Hu Hd] Hn Hq He Hp Hr. rewrite Hn in Hd. cbn in Hd.
  assert (Hv : down_view lg (down_to s a p down udpin es) = (pd, rd)).
  { unfold down_view in *. cbn [r_downEvents r_down down_to]. rewrite Hq, app_nil_r in *.
    rewrite <- app_assoc, pumpUDPToH3_app.
    destruct (pumpUDPToH3 (r_downEvents s) _) as [p1 r1]. cbn in *. by subst r1. }
  constructor; rewrite ?Hv; cbn [fst snd]; [|exact Hu|exact Hr]. apply Hp, Hs.
Qed.

(** The pending iteration ends. *)
Lemma refine_checked lg s buffer cause :
  relay_refines lg s -> r_down s = DownCheck buffer -> relay_refines lg (down_checked s buffer cause).
Proof.
  intros [Hs Hu Hd] Hq. unfold down_checked. destruct cause as [err|].
  - assert (Hv : down_view lg (down_return s (r_pump s) (MkUdpEv (Ok buffer) None (Some err)) err) =
                 ((down_view lg s).1, Some err)).
    { unfold down_view in *. rewrite Hq in *. cbn [r_downEvents r_down down_return down_to pending down_done returned_if] in *.
      rewrite app_nil_r. rewrite !pumpUDPToH3_app in *. by destruct (pumpUDPToH3 (r_downEvents s) _) as [p1 [r1|]]. }
    constructor; rewrite ?Hv; cbn; [exact Hs|exact Hu|done].
  - assert (Hv : down_view lg (down_to s (r_run s) (r_pump s) DownRead (r_udpin s) [MkUdpEv (Ok buffer) None None]) =
                 down_view lg s).
    { unfold down_view. rewrite Hq. cbn [r_downEvents r_down down_to pending]. by rewrite app_nil_r. }
    constructor; rewrite ?Hv; [exact Hs|exact Hu|]. by rewrite Hq in Hd.
Qed.

(** Follows the shared state and one pump through the same updates. *)
Ltac split_pumps :=
  repeat first
    [ assumption
    | apply split_count_up; [reflexivity|]
    | apply split_count_down; [reflexivity|]
    | apply split_notify_up
    | apply split_notify_down
    | apply split_write
    | apply split_send ].

Lemma refine_up_wrote lg s d payload n err :
  accepted d = Some payload -> r_up s = UpWrite d payload -> relay_refines lg s -> relay_refines lg (up_wrote s d payload n err).
Proof.
  intros Ha Hq Hi. unfold up_wrote. destruct err as [err|]; [|destruct (negb _) eqn:En];
    (eapply refine_up;
      [done|by rewrite Hq|cbn [pumpH3ToUDP ev_recv]; rewrite Ha; cbn [ev_werr ev_wrote]; rewrite ?En; reflexivity
      |intros pd Hsp; split_pumps|by cbn]).
Qed.

Lemma refine_down_sent lg s buffer err :
  r_down s = DownSend buffer -> relay_refines lg s -> relay_refines lg (down_sent s buffer err).
Proof.
  intros Hq Hi. unfold down_sent. destruct err as [err|]; [destruct (is_too_large err) eqn:Et|];
    (eapply refine_down;
      [done|by rewrite Hq|by rewrite Hq|cbn [pumpUDPToH3 app pending ev_read ev_serr]; rewrite ?Et; reflexivity
      |intros pu Hsp; split_pumps|by cbn]).
Qed.

(** What is being written came from the datagram. *)
Definition write_agrees (s : relay) : Prop :=
  match r_up s with UpWrite d payload => accepted d = Some payload | _ => True end.

Lemma write_agrees_step idle l s s' : relay_step idle l s s' -> write_agrees s -> write_agrees s'.
Proof.
  destruct 1; unfold write_agrees; cbn; auto.
  - unfold up_received. by destruct (accepted d) eqn:E.
  - unfold up_wrote. intros _. destruct err; [done|]. by destruct (negb _).
  - unfold down_sent. destruct err as [err|]; [by destruct (is_too_large err)|done].
  - unfold down_checked. by destruct cause.
Qed.

Lemma relay_refines_step idle l lg s s' :
  relay_step idle l s s' -> write_agrees s -> relay_refines lg s -> relay_refines lg s'.
Proof.
  intros Hs Hw Hi.
  destruct Hs as [s a Ha|s a Ha|s e He|s e He|s d|s p Hp|s d rest Hp Hq|s cause e Hp Hx|s e Hp|s d pl n err Hp Hc|s Hp|s pk rest Hp Hq Hc
    |s e Hp Hx|s e Hp|s b err Hp|s b Hp|s b c Hp Hc]; try (by destruct Hi; constructor).
  - unfold up_received. destruct (accepted d) as [pl|] eqn:Ea.
    + eapply refine_up; [done|by rewrite Hp|reflexivity|done|done].
    + eapply refine_up; [done|by rewrite Hp|cbn [pumpH3ToUDP ev_recv]; by rewrite Ea|intros pd Hsp; split_pumps|by cbn].
  - eapply refine_up; [done|by rewrite Hp|reflexivity|intros ? Hsp; split_pumps|by cbn].
  - eapply refine_up; [done|by rewrite Hp|reflexivity|intros ? Hsp; split_pumps|by cbn].
  - unfold write_agrees in Hw. rewrite Hp in Hw. by apply refine_up_wrote.
  - destruct Hi as [? Hu Hd]. rewrite Hp in Hu. by constructor.
  - eapply refine_down; [done|by rewrite Hp|by rewrite Hp|reflexivity|done|done].
  - eapply refine_down; [done|by rewrite Hp|by rewrite Hp|reflexivity|intros ? Hsp; split_pumps|by cbn].
  - eapply refine_down; [done|by rewrite Hp|by rewrite Hp|reflexivity|intros ? Hsp; split_pumps|by cbn].
  - by apply refine_down_sent.
  - destruct Hi as [Hsp Hu Hd]. unfold down_view in *. rewrite Hp in *. by constructor.
  - by apply refine_checked.
Qed.

Lemma reachable_refines idle s : relay_reachable idle s -> exists lg, relay_refines lg s /\ write_agrees s.
Proof.
  revert s. apply relay_ind.
  - intros t0 lg. exists lg. split; [|done]. constructor; [|done|done]. constructor; try done. by intros [].
  - intros l s s' (lg & Hi & Hw) Hs. exists lg. split; [by eapply relay_refines_step|by eapply write_agrees_step].
Qed.

(** ** Where the datagrams are *)

(** What a pump has taken and not yet handed on. *)
Definition up_flight (up : upPoint) : list (list byte) := match up with UpWrite d _ => [d] | _ => [] end.

Definition down_flight (down : downPoint) : list (list byte) := match down with DownSend b => [b] | _ => [] end.

Record relay_flow (s : relay) : Prop := {
  rf_up : exists got, r_h3all s = got ++ up_flight (r_up s) ++ r_h3in s /\ udpWritten (r_pump s) = omap accepted got;
  rf_down : exists got, r_udpall s = got ++ down_flight (r_down s) ++ r_udpin s /\
              h3Sent (r_pump s) = encodeConnectUDPDatagram <$> got;
  rf_fits : Forall (fun p => length p <= connectUDPMaxUDPPayload) (r_udpall s)
}.

Lemma countEvent_written k r n p : udpWritten (countEvent k r n p) = udpWritten p.
Proof. by destruct (countEvent_frame k r n p) as (? & _). Qed.

Lemma countEvent_sent k r n p : h3Sent (countEvent k r n p) = h3Sent p.
Proof. by destruct (countEvent_frame k r n p) as (_ & ? & _). Qed.

Lemma flow_up s a p up h3in es got :
  relay_flow s -> h3Sent p = h3Sent (r_pump s) -> r_h3all s = got ++ up_flight up ++ h3in -> udpWritten p = omap accepted got ->
  relay_flow (up_to s a p up h3in es).
Proof. intros [? Hd ?] Hp H1 H2. constructor; cbn; [by exists got|by rewrite Hp|done]. Qed.

Lemma flow_down s a p down udpin es got :
  relay_flow s -> udpWritten p = udpWritten (r_pump s) -> r_udpall s = got ++ down_flight down ++ udpin ->
  h3Sent p = encodeConnectUDPDatagram <$> got -> relay_flow (down_to s a p down udpin es).
Proof. intros [Hu ? ?] Hp H1 H2. constructor; cbn; [by rewrite Hp|by exists got|done]. Qed.

Lemma flow_up_received s d rest :
  r_up s = UpReceive -> r_h3in s = d :: rest -> relay_flow s -> relay_flow (up_received s d rest).
Proof.
  intros Hp Hq Hi. destruct (rf_up s Hi) as (got & Hall & Hw). rewrite Hp, Hq in Hall. cbn in Hall.
  unfold up_received. destruct (accepted d) eqn:Ea.
  - by apply flow_up with got.
  - apply flow_up with (got ++ [d]); [done|apply countEvent_sent|by rewrite <- app_assoc|].
    rewrite countEvent_written, Hw, omap_app. csimpl. by rewrite Ea, app_nil_r.
Qed.

Lemma flow_up_wrote s d payload n err :
  accepted d = Some payload -> r_up s = UpWrite d payload -> relay_flow s -> relay_flow (up_wrote s d payload n err).
Proof.
  intros Ha Hp Hi. destruct (rf_up s Hi) as (got & Hall & Hw). rewrite Hp in Hall. cbn in Hall.
  unfold up_wrote. destruct err as [err|]; [|destruct (negb _)]; apply flow_up with (got ++ [d]);
    rewrite ?countEvent_sent, ?countEvent_written; cbn [up_flight app h3Sent udpWritten write_udp]; try done;
    try (by rewrite <- app_assoc); rewrite Hw, omap_app; csimpl; by rewrite Ha.
Qed.

Lemma flow_down_sent s b err : r_down s = DownSend b -> relay_flow s -> relay_flow (down_sent s b err).
Proof.
  intros Hp Hi. destruct (rf_down s Hi) as (got & Hall & Hw). rewrite Hp in Hall. cbn in Hall.
  unfold down_sent. destruct err as [err|]; [destruct (is_too_large err)|]; apply flow_down with (got ++ [b]);
    rewrite ?countEvent_sent, ?countEvent_written; cbn [down_flight app h3Sent udpWritten send_h3]; try done;
    try (by rewrite <- app_assoc); by rewrite Hw, fmap_app.
Qed.

Lemma relay_flow_step idle l s s' : relay_step idle l s s' -> write_agrees s -> relay_flow s -> relay_flow s'.
Proof.
  intros Hs Hw Hi. pose proof Hi as [(gu & Hu1 & Hu2) (gd & Hd1 & Hd2) Hf].
  destruct Hs as [s a Ha|s a Ha|s e He|s e He|s d|s p Hp|s d rest Hp Hq|s cause e Hp Hx|s e Hp|s d pl n err Hp Hc|s Hp|s pk rest Hp Hq Hc
    |s e Hp Hx|s e Hp|s b err Hp|s b Hp|s b c Hp Hc]; try (by constructor; eauto).
  - constructor; cbn; eauto. exists gu. by rewrite Hu1, <- !app_assoc.
  - constructor; cbn; eauto; [exists gd; by rewrite Hd1, <- !app_assoc|]. apply Forall_app. by auto.
  - by apply flow_up_received.
  - rewrite Hp in Hu1. apply flow_up with gu; rewrite ?countEvent_sent, ?countEvent_written; done.
  - rewrite Hp in Hu1. apply flow_up with gu; rewrite ?countEvent_sent, ?countEvent_written; done.
  - unfold write_agrees in Hw. rewrite Hp in Hw. by apply flow_up_wrote.
  - rewrite Hp in Hu1. constructor; cbn; eauto.
  - rewrite Hp, Hq in Hd1. cbn in Hd1. apply flow_down with gd; try done. rewrite Hd1. cbn. f_equal. f_equal.
    symmetry. apply take_ge. rewrite Hd1 in Hf. rewrite Forall_app, Forall_cons in Hf. by apply Hf.
  - rewrite Hp in Hd1. apply flow_down with gd; rewrite ?countEvent_sent, ?countEvent_written; done.
  - rewrite Hp in Hd1. apply flow_down with gd; rewrite ?countEvent_sent, ?countEvent_written; done.
  - by apply flow_down_sent.
  - rewrite Hp in Hd1. constructor; cbn; eauto.
  - rewrite Hp in Hd1. unfold down_checked. destruct c; by apply flow_down with gd.
Qed.

Lemma reachable_flow idle s : relay_reachable idle s -> relay_flow s.
Proof.
  enough (forall s, relay_reachable idle s -> relay_flow s /\ write_agrees s) as Hall by apply Hall.
  apply relay_ind.
  - intros t0 lg. split; [|done]. constructor; [by exists []|by exists []|by constructor].
  - intros l s' s'' [Hi Hw] Hs. split; [by eapply relay_flow_step|by eapply write_agrees_step].
Qed.

(** ** Why the association ends *)

(** A pump returned the value. *)
Definition returned_by_pump (lg : bool) (s : relay) (x : option error) : Prop :=
  is_Some x /\ (x = (up_view lg s).2 \/ x = (down_view lg s).2).

Definition explained (lg : bool) (s : relay) (r : error) : Prop :=
  returned_by_pump lg s (Some r) \/ parentErr (r_run s) = Some r \/ streamErr (r_run s) = Some r \/ r = ErrDeadlineExceeded.

Record relay_outcome (lg : bool) (s : relay) : Prop := {
  ro_results : Forall (returned_by_pump lg s) (results (r_run s));
  ro_end : forall r, left_with (ctrl (r_run s)) = Some r -> explained lg s r
}.

Lemma down_view_result lg s : (down_view lg s).2 = (pumpUDPToH3 (r_downEvents s) (empty_pump lg)).2.
Proof.
  unfold down_view. rewrite pumpUDPToH3_app. destruct (pumpUDPToH3 (r_downEvents s) _) as [p [r|]]; [done|].
  by destruct (r_down s).
Qed.

Lemma returned_mono lg s s' x es es' :
  r_upEvents s' = r_upEvents s ++ es -> r_downEvents s' = r_downEvents s ++ es' ->
  returned_by_pump lg s x -> returned_by_pump lg s' x.
Proof.
  intros Hu Hd [[r ->] Hx]. split; [by eexists|]. rewrite !down_view_result in *. unfold up_view in *. rewrite Hu, Hd.
  destruct Hx as [Hx|Hx]; [left; rewrite pumpH3ToUDP_app|right; rewrite pumpUDPToH3_app]; revert Hx;
    [destruct (pumpH3ToUDP (r_upEvents s) _) as [p1 o]|destruct (pumpUDPToH3 (r_downEvents s) _) as [p1 o]]; cbn; by intros <-.
Qed.

Lemma explained_mono lg s s' r es es' :
  r_upEvents s' = r_upEvents s ++ es -> r_downEvents s' = r_downEvents s ++ es' ->
  parentErr (r_run s') = parentErr (r_run s) \/ parentErr (r_run s) = None ->
  streamErr (r_run s') = streamErr (r_run s) \/ streamErr (r_run s) = None ->
  explained lg s r -> explained lg s' r.
Proof.
  intros Hu Hd Hp Hs [Hr|[Hr|[Hr|Hr]]].
  - left. by eapply returned_mono.
  - right; left. destruct Hp; congruence.
  - do 2 right; left. destruct Hs; congruence.
  - by do 3 right.
Qed.

(** A step that leaves the loop where it is and sends [xs]. *)
Lemma outcome_frame lg s s' es es' xs :
  relay_outcome lg s ->
  r_upEvents s' = r_upEvents s ++ es -> r_downEvents s' = r_downEvents s ++ es' ->
  parentErr (r_run s') = parentErr (r_run s) \/ parentErr (r_run s) = None ->
  streamErr (r_run s') = streamErr (r_run s) \/ streamErr (r_run s) = None ->
  ctrl (r_run s') = ctrl (r_run s) -> results (r_run s') = results (r_run s) ++ xs -> Forall (returned_by_pump lg s') xs ->
  relay_outcome lg s'.
Proof.
  intros [Hr He] Hu Hd Hp Hs Hc Hq Hx. constructor.
  - rewrite Hq. apply Forall_app. split; [|done]. eapply Forall_impl; [exact Hr|]. intros x. by eapply returned_mono.
  - rewrite Hc. intros r Hr'. eapply explained_mono; eauto.
Qed.

Lemma outcome_quiet lg s s' es es' :
  relay_outcome lg s -> r_upEvents s' = r_upEvents s ++ es -> r_downEvents s' = r_downEvents s ++ es' ->
  parentErr (r_run s') = parentErr (r_run s) -> streamErr (r_run s') = streamErr (r_run s) ->
  ctrl (r_run s') = ctrl (r_run s) -> results (r_run s') = results (r_run s) -> relay_outcome lg s'.
Proof. intros Ho Hu Hd Hp Hs Hc Hq. eapply (outcome_frame lg s s' es es' []); auto. by rewrite app_nil_r. Qed.

Lemma outcome_up_return lg s p e err :
  relay_outcome lg s -> returned_if false (up_view lg s).2 -> (forall p, (pumpH3ToUDP [e] p).2 = Some err) ->
  relay_outcome lg (up_return s p e err).
Proof.
  intros Ho Hu He. eapply (outcome_frame lg s _ [e] [] [Some err]); cbn; rewrite ?app_nil_r; auto.
  constructor; [|done]. split; [by eexists|]. left. unfold up_view in *. cbn [up_return up_to r_upEvents].
  rewrite pumpH3ToUDP_app. destruct (pumpH3ToUDP (r_upEvents s) _) as [p1 o]. cbn in Hu. by rewrite Hu, He.
Qed.

Lemma outcome_down_return lg s p e err :
  relay_outcome lg s -> returned_if false (down_view lg s).2 -> (forall p, (pumpUDPToH3 [e] p).2 = Some err) ->
  relay_outcome lg (down_return s p e err).
Proof.
  intros Ho Hu He. eapply (outcome_frame lg s _ [] [e] [Some err]); cbn; rewrite ?app_nil_r; auto.
  constructor; [|done]. split; [by eexists|]. right. rewrite down_view_result in *. cbn [down_return down_to r_downEvents].
  rewrite pumpUDPToH3_app. destruct (pumpUDPToH3 (r_downEvents s) _) as [p1 o]. cbn in Hu. by rewrite Hu, He.
Qed.

(** The loop takes results from the channel and leaves with what it saw. *)
Lemma outcome_loop lg idle s a : run_step idle RLoop (r_run s) a -> relay_outcome lg s -> relay_outcome lg (with_run s a).
Proof.
  intros Hs [Hr He]. inversion Hs as [| | | | | |? r rs Hl Hq|? Hl Ha|? Hl Ht|? e Hl Hx|? e Hl Hx|? r Hl|? r Hl|? r Hl|? r x rs Hl Hn Hq|? r Hl Hn];
    subst; rewrite Hl in He; try rewrite Hq in Hr; constructor; cbn [with_run r_run leave cancel_ctx cancel_stream close_udp results ctrl left_with] in *; try done;
    try (inversion Hr; done); try (exact He); intros r0 [= <-].
  - inversion Hr as [|? ? [[y ->] Hy] _]; subst. by left.
  - by do 3 right.
  - by right; left.
  - by do 2 right; left.
Qed.

Lemma relay_outcome_step idle l lg s s' :
  relay_step idle l s s' -> write_agrees s -> relay_refines lg s -> relay_outcome lg s -> relay_outcome lg s'.
Proof.
  intros Hs Hw [_ Hu Hd] Ho.
  destruct Hs as [s a Ha|s a Ha|s e He|s e He|s d|s p Hp|s d rest Hp Hq|s cause e Hp Hx|s e Hp|s d pl n err Hp Hc|s Hp|s pk rest Hp Hq Hc
    |s e Hp Hx|s e Hp|s b err Hp|s b Hp|s b c Hp Hc]; unfold write_agrees in Hw; try rewrite Hp in *; cbn [up_done down_done] in *;
    try (by apply (outcome_quiet lg s _ [] []); cbn; rewrite ?app_nil_r).
  - apply (outcome_quiet lg s _ [] []); cbn; rewrite ?app_nil_r; try done; by inversion Ha.
  - by eapply outcome_loop.
  - apply (outcome_frame lg s _ [] [] []); cbn; rewrite ?app_nil_r; auto.
  - apply (outcome_frame lg s _ [] [] []); cbn; rewrite ?app_nil_r; auto.
  - unfold up_received. destruct (accepted d).
    + by apply (outcome_quiet lg s _ [] []); cbn; rewrite ?app_nil_r.
    + by apply (outcome_quiet lg s _ [MkH3 (Ok d) 0 None] []); cbn; rewrite ?app_nil_r.
  - by apply outcome_up_return.
  - by apply outcome_up_return.
  - unfold up_wrote. destruct err as [err|]; [|destruct (negb _) eqn:En].
    + apply outcome_up_return; [done|done|]. intros p. cbn. by rewrite Hw.
    + apply outcome_up_return; [done|done|]. intros p. cbn. by rewrite Hw, En.
    + by apply (outcome_quiet lg s _ [MkH3 (Ok d) n None] []); cbn; rewrite ?app_nil_r.
  - by apply outcome_down_return.
  - by apply outcome_down_return.
  - unfold down_sent. destruct err as [err|]; [destruct (is_too_large err) eqn:Et|].
    + by apply (outcome_quiet lg s _ [] [MkUdpEv (Ok b) (Some err) None]); cbn; rewrite ?app_nil_r.
    + apply outcome_down_return; [done|done|]. intros p. cbn. by rewrite Et.
    + by apply (outcome_quiet lg s _ [] []); cbn; rewrite ?app_nil_r.
  - unfold down_checked. destruct c as [err|].
    + by apply outcome_down_return.
    + by apply (outcome_quiet lg s _ [] [MkUdpEv (Ok b) None None]); cbn; rewrite ?app_nil_r.
Qed.

Lemma reachable_outcome idle s :
  relay_reachable idle s -> exists lg, relay_refines lg s /\ relay_outcome lg s.
Proof.
  enough (forall s, relay_reachable idle s -> exists lg, relay_refines lg s /\ relay_outcome lg s /\ write_agrees s) as Hall.
  { intros Hr. destruct (Hall s Hr) as (lg & ? & ? & _). eauto. }
  apply relay_ind.
  - intros t0 lg. exists lg. split; [|split; [|done]].
    + constructor; [|done|done]. constructor; try done. by intros [].
    + constructor; [by constructor|]. done.
  - intros l s' s'' (lg & Hi & Ho & Hw) Hs. exists lg.
    split; [by eapply relay_refines_step|split; [by eapply relay_outcome_step|by eapply write_agrees_step]].
Qed.

(** ** Every step of the program is paid for *)

Definition up_weight (up : upPoint) : nat :=
  match up with UpReceive => 2 | UpWrite _ _ => 5 | UpNotify => 4 | UpDone => 0 end.

Definition down_weight (down : downPoint) : nat :=
  match down with DownRead => 2 | DownSend _ => 6 | DownNotify _ => 5 | DownCheck _ => 3 | DownDone => 0 end.

Definition ctrl_weight (c : runControl) : nat := 5 - phase c.

Definition err_weight (e : option error) : nat := match e with None => 1 | Some _ => 0 end.

Definition run_weight (a : assoc) : nat :=
  length (results a) + (if activityTok a then 1 else 0) + ctrl_weight (ctrl a) + err_weight (parentErr a) + err_weight (streamErr a).

Definition relay_weight (s : relay) : nat :=
  6 * length (r_h3in s) + 6 * length (r_udpin s) + up_weight (r_up s) + down_weight (r_down s) + run_weight (r_run s).

(** What a step may add to the weight, and what it must take from it. *)
Definition step_gain (l : relayActor) : nat := match l with RArrival => 6 | _ => 0 end.

Definition step_cost (l : relayActor) : nat := match l with RProgram | RContext | RFault => 1 | _ => 0 end.

Lemma loop_weight idle a b : run_step idle RLoop a b -> run_weight b < run_weight a.
Proof.
  intros Hs. unfold run_weight. inversion Hs; subst; cbn;
    repeat match goal with H : _ = _ |- _ => rewrite H; clear H end; cbn; lia.
Qed.

Lemma clock_weight idle a b : run_step idle RClock a b -> run_weight b = run_weight a.
Proof. intros Hs. by inversion Hs. Qed.

Lemma set_token_weight a : run_weight (set_token a) <= S (run_weight a).
Proof. unfold run_weight. cbn. destruct (activityTok a); lia. Qed.

Lemma send_up_weight e a : run_weight (send_up e a) = S (run_weight a).
Proof. unfold run_weight. cbn. rewrite length_app. cbn. lia. Qed.

Lemma send_down_weight e a : run_weight (send_down e a) = S (run_weight a).
Proof. unfold run_weight. cbn. rewrite length_app. cbn. lia. Qed.

Lemma relay_step_weight idle l s s' : relay_step idle l s s' -> relay_weight s' + step_cost l <= relay_weight s + step_gain l.
Proof.
  intros Hs. pose proof (set_token_weight (r_run s)) as Ht.
  destruct Hs as [s a Ha|s a Ha|s e He|s e He|s d|s p Hp|s d rest Hp Hq|s cause e Hp Hx|s e Hp|s d pl n err Hp Hc|s Hp|s pk rest Hp Hq Hc
    |s e Hp Hx|s e Hp|s b err Hp|s b Hp|s b c Hp Hc]; unfold relay_weight.
  - apply clock_weight in Ha. cbn -[run_weight]. lia.
  - apply loop_weight in Ha. cbn -[run_weight]. lia.
  - unfold run_weight. cbn. rewrite He. cbn. lia.
  - unfold run_weight. cbn. rewrite He. cbn. lia.
  - cbn -[run_weight]. rewrite length_app. cbn -[run_weight]. lia.
  - cbn -[run_weight]. rewrite length_app. cbn -[run_weight]. lia.
  - unfold up_received. rewrite Hp, Hq. destruct (accepted d); cbn -[run_weight]; lia.
  - rewrite Hp. cbn -[run_weight]. rewrite send_up_weight. lia.
  - rewrite Hp. cbn -[run_weight]. rewrite send_up_weight. lia.
  - rewrite Hp. unfold up_wrote. destruct err; [|destruct (negb _)]; cbn -[run_weight]; rewrite ?send_up_weight; lia.
  - rewrite Hp. cbn -[run_weight]. lia.
  - rewrite Hp, Hq. cbn -[run_weight]. lia.
  - rewrite Hp. cbn -[run_weight]. rewrite send_down_weight. lia.
  - rewrite Hp. cbn -[run_weight]. rewrite send_down_weight. lia.
  - rewrite Hp. unfold down_sent. destruct err as [err|]; [destruct (is_too_large err)|]; cbn -[run_weight]; rewrite ?send_down_weight; lia.
  - rewrite Hp. cbn -[run_weight]. lia.
  - rewrite Hp. unfold down_checked. destruct c; cbn -[run_weight]; rewrite ?send_down_weight; lia.
Qed.

(** A run of the system, with the actors of its steps. *)
Inductive relay_trace (idle : Z) : list relayActor -> relay -> relay -> Prop :=
  | rt_nil s : relay_trace idle [] s s
  | rt_cons l ls s s' s'' : relay_step idle l s s' -> relay_trace idle ls s' s'' -> relay_trace idle (l :: ls) s s''.

Lemma trace_weight idle ls s s' :
  relay_trace idle ls s s' -> relay_weight s' + sum_list_with step_cost ls <= relay_weight s + sum_list_with step_gain ls.
Proof.
  induction 1 as [s|l ls s s1 s2 Hs _ IH]; [cbn; lia|]. apply relay_step_weight in Hs. cbn [sum_list_with]. lia.
Qed.

(** Once the loop was left, some goroutine can go on until run has returned, without any
    help of the network: the shutdown goes through, and after it the calls that block
    return, because the context is cancelled and the socket closed. *)
Lemma drain_enabled idle s r :
  assoc_reachable idle (r_run s) -> points_agree s -> left_with (ctrl (r_run s)) = Some r -> (forall r, ctrl (r_run s) <> Done r) ->
  exists s', relay_step idle RProgram s s'.
Proof.
  intros Hr [Hu Hd] Hl Hnd. pose proof (reachable_run_inv idle _ Hr) as Hi.
  destruct (ctrl (r_run s)) as [|r0|r0|r0|r0|r0] eqn:Hc; [done| | | | |by destruct (Hnd r0)];
    [eexists; apply rs_loop; by econstructor..|].
  assert (Hcan : cancelled (r_run s) = true) by by rewrite (ri_cancelled idle _ Hi), Hc.
  assert (Hclosed : udpClosed (r_run s) = true) by by rewrite (ri_closed idle _ Hi), Hc.
  pose proof (ri_count idle _ Hi) as Hn. destruct (r_up s) as [|d pl| |] eqn:Eu.
  - eexists. apply (rs_up_cancelled idle s ErrCanceled ErrCanceled); [done|by right].
  - eexists. by apply (rs_up_wrote idle s d pl 0 (Some ErrEOF)).
  - eexists. by apply rs_up_notify.
  - destruct (r_down s) as [|b|b|b|] eqn:Ed.
    + eexists. by apply (rs_down_closed idle s ErrEOF).
    + eexists. by apply (rs_down_sent idle s b None).
    + eexists. by eapply rs_down_notify.
    + eexists. apply (rs_down_checked idle s b (Some ErrCanceled)); [done|by right].
    + rewrite Hu, Hd in Hn. cbn in Hn. destruct (results (r_run s)) as [|x rs] eqn:Eq.
      * eexists. apply rs_loop. apply (run_return idle _ r0); [done|]. cbn in Hn. lia.
      * eexists. apply rs_loop. apply (run_drain idle _ r0 x rs); [done| |done]. cbn in Hn. lia.
Qed.

Lemma draining_stays idle l a b r : run_step idle l a b -> left_with (ctrl a) = Some r -> left_with (ctrl b) = Some r.
Proof. intros Hs. inversion Hs; subst; cbn in *; repeat match goal with H : ctrl _ = _ |- _ => rewrite H; clear H end; done. Qed.

Lemma relay_draining_stays idle l s s' r :
  relay_step idle l s s' -> left_with (ctrl (r_run s)) = Some r -> left_with (ctrl (r_run s')) = Some r.
Proof.
  destruct 1; try done; try (by eapply draining_stays).
  - unfold up_received. by destruct (accepted d).
  - unfold up_wrote. destruct err; [done|]. by destruct (negb _).
  - unfold down_sent. destruct err as [err|]; [|done]. by destruct (is_too_large err).
  - unfold down_checked. by destruct cause.
Qed.

Lemma relay_trace_reach idle ls s s' : relay_trace idle ls s s' -> relay_reachable idle s -> relay_reachable idle s'.
Proof.
  induction 1 as [|l ls s s1 s2 Hs _ IH]; [done|]. intros (t0 & lg & Hr). apply IH. exists t0, lg. eapply rtc_r; [done|by exists l].
Qed.

Lemma relay_trace_draining idle ls s s' r :
  relay_trace idle ls s s' -> left_with (ctrl (r_run s)) = Some r -> left_with (ctrl (r_run s')) = Some r.
Proof. induction 1 as [|l ls s s1 s2 Hs _ IH]; [done|]. intros Hc. apply IH. by eapply relay_draining_stays. Qed.

(** ** Activity and the idle timer *)

Record activity_inv (s : relay) : Prop := {
  ai_past : (r_lastActivity s <= clock (r_run s))%Z;
  ai_seen : (r_lastActivity s <= lastReset (r_run s))%Z \/ activityTok (r_run s) = true \/ ctrl (r_run s) <> Looping
}.

Lemma activity_frame s s' :
  r_run s' = r_run s \/ (exists e, r_run s' = send_up e (r_run s)) \/ (exists e, r_run s' = send_down e (r_run s)) ->
  r_lastActivity s' = r_lastActivity s -> activity_inv s -> activity_inv s'.
Proof. intros Hr Hl [Hp Ha]. destruct Hr as [Hr|[[e Hr]|[e Hr]]]; constructor; rewrite Hr, Hl; done. Qed.

Lemma activity_step idle l s s' : relay_step idle l s s' -> activity_inv s -> activity_inv s'.
Proof.
  intros Hs Hi. pose proof Hi as [Hp Ha].
  destruct Hs as [s a Hs|s a Hs|s e He|s e He|s d|s p Hq|s d rest Hq Hn|s cause e Hq Hx|s e Hq|s d pl n err Hq Hc|s Hq|s pk rest Hq Hn Hc
    |s e Hq Hx|s e Hq|s b err Hq|s b Hq|s b c Hq Hc]; try (by constructor); try (by eapply activity_frame; eauto).
  - inversion Hs; subst. constructor; cbn; [lia|done].
  - inversion Hs; subst; constructor; cbn in *; auto; try lia; right; right; congruence.
  - unfold up_received. destruct (accepted d); by eapply activity_frame; eauto.
  - unfold up_wrote. destruct err as [err|]; [|destruct (negb _)]; by eapply activity_frame; eauto.
  - constructor; cbn; [lia|auto].
  - unfold down_sent. destruct err as [err|]; [destruct (is_too_large err)|]; by eapply activity_frame; eauto.
  - constructor; cbn; [lia|auto].
  - unfold down_checked. destruct c; by eapply activity_frame; eauto.
Qed.

Lemma reachable_activity idle s : relay_reachable idle s -> activity_inv s.
Proof.
  revert s. apply relay_ind; [intros t0 lg; constructor; cbn; [lia|left; lia]|]. intros l s s' Hi Hs. by eapply activity_step.
Qed.

(** ** Theorems *)

(** C16: the association refines its parts in every interleaving of the loop and the two
    pumps: what the loop does is an execution of the loop's own system, and what the pumps
    share (payloads written, datagrams sent, each counter, the log up to the order of its
    lines) is what pumpH3ToUDP and pumpUDPToH3 do when each runs alone on the iterations it
    went through, a pump having returned exactly when its function returns an error. *)
Theorem relay_refines_parts idle s :
  relay_reachable idle s ->
  assoc_reachable idle (r_run s) /\ points_agree s /\
  exists lg,
    let '(pu, ru) := pumpH3ToUDP (r_upEvents s) (empty_pump lg) in
    let '(pd, rd) := pumpUDPToH3 (r_downEvents s ++ pending (r_down s)) (empty_pump lg) in
    pumps_split (r_pump s) pu pd /\ returned_if (up_done (r_up s)) ru /\ returned_if (down_done (r_down s)) rd.
Proof.
  intros Hr. destruct (relay_simulates idle s Hr) as [Ha Hp]. split; [done|]. split; [done|].
  destruct (reachable_refines idle s Hr) as (lg & [Hs Hu Hd] & _). exists lg. unfold up_view, down_view in *.
  by destruct (pumpH3ToUDP _ _), (pumpUDPToH3 _ _).
Qed.

(** C29: when run has returned, both pumps have returned and their results were taken, the
    context and the stream's directions are cancelled and the socket and the stream are
    closed; and the result is the error one of the pumps returned, the cause of the request's
    or the stream's context, or the expiry of the idle timer. *)
Theorem relay_returns idle s r :
  relay_reachable idle s -> ctrl (r_run s) = Done r ->
  r_up s = UpDone /\ r_down s = DownDone /\ results (r_run s) = [] /\ cancelled (r_run s) = true /\
  streamCancelled (r_run s) = true /\ udpClosed (r_run s) = true /\ streamClosed (r_run s) = true /\ exists lg, explained lg s r.
Proof.
  intros Hr Hc. destruct (relay_simulates idle s Hr) as [Ha [Hu Hd]].
  destruct (run_returns_clean idle (r_run s) Ha) as (Hdone & _ & _).
  destruct (Hdone r Hc) as (H1 & H2 & H3 & H4 & H5 & H6 & H7). rewrite H1 in Hu. rewrite H2 in Hd.
  destruct (reachable_outcome idle s Hr) as (lg & _ & [_ He]).
  split; [by destruct (r_up s)|]. split; [by destruct (r_down s)|]. do 5 (split; [done|]). exists lg. apply He. by rewrite Hc.
Qed.

(** C17: no step is taken for nothing, and the shutdown completes: in any execution the
    steps of the loop, the pumps, the contexts and the network's failures are at most the
    weight of its first state and six for each datagram that arrives meanwhile; and once the
    loop was left with a result, an execution in which no goroutine can go on of its own has
    returned that result: cancelling the context ends the wait for a datagram, and closing
    the socket ends the read, so no failure of the network is needed for it. *)
Theorem relay_terminates idle ls s s' :
  relay_reachable idle s -> relay_trace idle ls s s' ->
  sum_list_with step_cost ls <= relay_weight s + sum_list_with step_gain ls /\
  forall r, left_with (ctrl (r_run s)) = Some r -> ~ (exists s'', relay_step idle RProgram s' s'') -> ctrl (r_run s') = Done r.
Proof.
  intros Hr Ht. pose proof (trace_weight idle ls s s' Ht) as Hw. split; [lia|]. intros r Hc Hstuck.
  pose proof (relay_trace_draining idle ls s s' r Ht Hc) as Hl.
  destruct (relay_simulates idle s' (relay_trace_reach idle ls s s' Ht Hr)) as [Ha Hp].
  destruct (ctrl (r_run s')) as [|r0|r0|r0|r0|r0] eqn:Ec; [done|..|by injection Hl as ->];
    (exfalso; apply Hstuck; apply (drain_enabled idle s' r); [done|done|by rewrite Ec|by rewrite Ec]).
Qed.

(** The loop ends the association as idle only if no pump notified activity for a full idle
    timeout, or if a notification is waiting that the select passed over for the timer. *)
Theorem idle_expiry idle s a :
  relay_reachable idle s -> run_step idle RLoop (r_run s) a -> ctrl (r_run s) = Looping -> ctrl a = Leaving ErrDeadlineExceeded ->
  (exists rs, results (r_run s) = Some ErrDeadlineExceeded :: rs) \/
  parentErr (r_run s) = Some ErrDeadlineExceeded \/ streamErr (r_run s) = Some ErrDeadlineExceeded \/
  (r_lastActivity s + idle <= clock (r_run s))%Z \/ activityTok (r_run s) = true.
Proof.
  intros Hr Hs Hl Hd. destruct (relay_simulates idle s Hr) as [Ha _]. destruct (reachable_activity idle s Hr) as [_ Hact].
  destruct (end_of_loop idle (r_run s) a ErrDeadlineExceeded Ha Hs Hl Hd) as [(x & rs & Hq & Hx)|[?|[?|[_ Ht]]]]; auto.
  - left. exists rs. destruct (reachable_outcome idle s Hr) as (lg & _ & [Hres _]). rewrite Hq in *.
    inversion Hres as [|? ? [[y ->] _]]; subst. cbn in Hx. by subst y.
  - do 3 right. destruct Hact as [?|[?|?]]; [left; lia|by right|done].
Qed.
End Relaying.

(** C27: the relay is transparent in every interleaving: at any moment the payloads written to
    the UDP socket are those of the acceptable datagrams among the ones taken from the
    stream, in order, and the datagrams sent to the client decode to the packets taken from
    the socket, in order; what is not yet handed on is in a pump or still queued.  So
    datagrams a client encodes from payloads that fit arrive as a prefix of these payloads,
    and as all of them once nothing is queued or being written. *)
Theorem relay_delivers `{QuicVarintLaws} idle s :
  relay_reachable idle s ->
  (exists got, r_h3all s = got ++ up_flight (r_up s) ++ r_h3in s /\ udpWritten (r_pump s) = omap accepted got /\
     forall ps, r_h3all s = encodeConnectUDPDatagram <$> ps -> Forall (fun p => length p <= connectUDPMaxUDPPayload) ps ->
       udpWritten (r_pump s) = take (length got) ps) /\
  (exists got, r_udpall s = got ++ down_flight (r_down s) ++ r_udpin s /\
     decodeConnectUDPDatagram <$> h3Sent (r_pump s) = Ok <$> got).
Proof.
  intros Hr. destruct (reachable_flow idle s Hr) as [(gu & Hu1 & Hu2) (gd & Hd1 & Hd2) _]. split.
  - exists gu. split; [done|]. split; [done|]. intros ps Hps Hfit. rewrite Hu2. rewrite Hps in Hu1.
    assert (Hg : gu = encodeConnectUDPDatagram <$> take (length gu) ps)
      by (rewrite fmap_take, Hu1; symmetry; apply take_app_length).
    rewrite Hg at 1. apply (Forall_take _ (length gu)) in Hfit.
    revert Hfit. generalize (take (length gu) ps). clear Hps Hu1 Hg ps. intros ps Hfit.
    induction Hfit as [|p ps Hp _ IH]; [done|]. csimpl. unfold accepted at 1. rewrite decode_encode, bool_decide_false by lia.
    by rewrite IH.
  - exists gd. split; [done|]. rewrite Hd2. clear Hd1 Hd2. induction gd as [|p gd IH]; [done|]. csimpl. by rewrite decode_encode, IH.
Qed.

(** ** Witnesses *)

(** A datagram goes up, a packet comes down, the request is cancelled while the packet is
    being sent, and the association shuts down. *)
Definition example_up : list byte := encodeConnectUDPDatagram (go "hi").

Definition example_relay_writing : relay := up_received (arrive_h3 example_up (start_relay 0 10 true)) example_up [].

Definition example_relay_wrote : relay := notify (up_wrote example_relay_writing example_up (go "hi") 2 None) UpReceive DownRead.

Definition example_buffer : list byte := take connectUDPMaxUDPPayload (go "yo").

Definition example_relay_sending : relay := down_read (arrive_udp (go "yo") example_relay_wrote) (go "yo") [].

Definition example_cancelled : assoc :=
  MkAssoc 0 (Some ErrCanceled) None PRunning PRunning [] true 10 0 0 false false false false Looping.

(** The loop was left, the context cancelled, then the stream, and the socket is closed. *)
Definition example_left : assoc := leave example_cancelled [] 0 ErrCanceled.
Definition example_stopping : assoc := cancel_ctx example_left ErrCanceled.
Definition example_releasing : assoc := cancel_stream example_stopping ErrCanceled.

Definition example_relay_draining : relay :=
  with_run example_relay_sending (close_udp example_releasing ErrCanceled).

Definition example_relay_up_ended : relay := up_receive_failed (down_sent example_relay_draining example_buffer None) ErrCanceled.

Definition example_relay_ended : relay :=
  down_checked (notify example_relay_up_ended UpDone (DownCheck example_buffer)) example_buffer (Some ErrCanceled).

Definition example_relay_done : relay :=
  with_run example_relay_ended
    (MkAssoc 0 (Some ErrCanceled) None PSent PSent [] true 10 0 2 true true true true (Done ErrCanceled)).

Lemma example_writing_trace : relay_trace 10 [RArrival; RProgram] (start_relay 0 10 true) example_relay_writing.
Proof.
  eapply rt_cons; [apply (rs_h3_arrives 10 _ example_up)|]. eapply rt_cons; [|apply rt_nil]. by apply rs_up_received.
Qed.

Lemma example_sending_trace :
  relay_trace 10 [RProgram; RProgram; RArrival; RProgram] example_relay_writing example_relay_sending.
Proof.
  eapply rt_cons; [by apply (rs_up_wrote 10 example_relay_writing example_up (go "hi") 2 None)|].
  eapply rt_cons; [by apply rs_up_notify|].
  eapply rt_cons; [apply (rs_udp_arrives 10 example_relay_wrote (go "yo")); unfold connectUDPMaxUDPPayload; cbn; lia|].
  eapply rt_cons; [by apply (rs_down_read 10 (arrive_udp (go "yo") example_relay_wrote) (go "yo") [])|]. apply rt_nil.
Qed.

Lemma example_draining_trace :
  relay_trace 10 [RContext; RProgram; RProgram; RProgram; RProgram] example_relay_sending example_relay_draining.
Proof.
  eapply rt_cons; [by apply (rs_parent 10 example_relay_sending ErrCanceled)|].
  eapply rt_cons; [apply rs_loop; by apply (run_parent 10 example_cancelled ErrCanceled)|].
  eapply rt_cons; [apply rs_loop; by apply (run_cancel 10 example_left ErrCanceled)|].
  eapply rt_cons; [apply rs_loop; by apply (run_cancel_stream 10 example_stopping ErrCanceled)|].
  eapply rt_cons; [apply rs_loop; by apply (run_close_udp 10 example_releasing ErrCanceled)|]. apply rt_nil.
Qed.

Lemma example_done_trace :
  relay_trace 10 (replicate 7 RProgram) example_relay_draining example_relay_done.
Proof.
  eapply rt_cons; [by apply (rs_down_sent 10 example_relay_draining example_buffer None)|].
  eapply rt_cons; [apply (rs_up_cancelled 10 _ ErrCanceled ErrCanceled); [reflexivity|by left]|].
  eapply rt_cons; [by apply (rs_down_notify 10 example_relay_up_ended example_buffer)|].
  eapply rt_cons; [apply (rs_down_checked 10 _ example_buffer (Some ErrCanceled)); [reflexivity|by left]|].
  eapply rt_cons; [apply rs_loop; eapply run_drain; [reflexivity|cbn; lia|reflexivity]|].
  eapply rt_cons; [apply rs_loop; eapply run_drain; [reflexivity|cbn; lia|reflexivity]|].
  eapply rt_cons; [apply rs_loop; eapply run_return; [reflexivity|cbn; lia]|]. apply rt_nil.
Qed.

Lemma example_writing_reachable : relay_reachable 10 example_relay_writing.
Proof. eapply relay_trace_reach; [apply example_writing_trace|]. by exists 0%Z, true. Qed.

Lemma example_sending_reachable : relay_reachable 10 example_relay_sending.
Proof. eapply relay_trace_reach; [apply example_sending_trace|]. apply example_writing_reachable. Qed.

Lemma example_relay_draining_reachable : relay_reachable 10 example_relay_draining.
Proof. eapply relay_trace_reach; [apply example_draining_trace|]. apply example_sending_reachable. Qed.

Lemma example_relay_done_reachable : relay_reachable 10 example_relay_done.
Proof. eapply relay_trace_reach; [apply example_done_trace|]. apply example_relay_draining_reachable. Qed.

Lemma relay_refines_parts_witness : exists lg,
  pumps_split (r_pump example_relay_done) (pumpH3ToUDP (r_upEvents example_relay_done) (empty_pump lg)).1
    (pumpUDPToH3 (r_downEvents example_relay_done ++ pending (r_down example_relay_done)) (empty_pump lg)).1.
Proof.
  destruct (relay_refines_parts 10 example_relay_done) as (_ & _ & lg & Hlg).
  - exact example_relay_done_reachable.
  - exists lg. destruct (pumpH3ToUDP _ _), (pumpUDPToH3 _ _). exact (proj1 Hlg).
Defined.

Lemma relay_returns_witness : r_up example_relay_done = UpDone /\ exists lg, explained lg example_relay_done ErrCanceled.
Proof.
  destruct (relay_returns 10 example_relay_done ErrCanceled) as (H1 & _ & _ & _ & _ & _ & _ & H2).
  - exact example_relay_done_reachable.
  - reflexivity.
  - split; assumption.
Defined.

Lemma relay_terminates_witness : 7 <= relay_weight example_relay_draining + 0 /\ ctrl (r_run example_relay_done) = Done ErrCanceled.
Proof.
  destruct (relay_terminates 10 (replicate 7 RProgram) example_relay_draining example_relay_done) as [H1 H2].
  - exact example_relay_draining_reachable.
  - exact example_done_trace.
  - split; [exact H1|]. apply H2; [reflexivity|]. intros [s'' Hs]. inversion Hs; subst; try discriminate.
    inversion H; subst; discriminate.
Defined.

Lemma idle_expiry_witness : (0 + 10 <= 12)%Z \/ false = true.
Proof.
  destruct (idle_expiry 10 (with_run (start_relay 0 10 true) (MkAssoc 12 None None PRunning PRunning [] false 10 0 0 false false false false Looping))
    (leave (MkAssoc 12 None None PRunning PRunning [] false 10 0 0 false false false false Looping) [] 0 ErrDeadlineExceeded))
    as [[rs H]|[H|[H|H]]].
  - exists 0%Z, true. apply rtc_once. exists RTime. apply rs_time. by apply (run_time 10 (start_run 0 10) 12).
  - by apply run_timer.
  - reflexivity.
  - reflexivity.
  - discriminate H.
  - discriminate H.
  - discriminate H.
  - exact H.
Defined.

Lemma relay_delivers_witness : udpWritten (r_pump example_relay_sending) = [go "hi"].
Proof.
  destruct (relay_delivers 10 example_relay_sending) as [(got & Hg & _ & Hw) _].
  - exact example_sending_reachable.
  - rewrite (Hw [go "hi"]).
    + cbn in Hg. rewrite app_nil_r in Hg. by rewrite <- Hg.
    + reflexivity.
    + apply Forall_cons_2; [|apply Forall_nil_2]. unfold connectUDPMaxUDPPayload. cbn. lia.
Defined.
