(* ===== verification/UdpServe.v ===== *)
(** * Serving a CONNECT-UDP request

    serveConnectUDP, dialConnectUDPTarget and clientAddressKey of
    native_udp_association.go, and the unwrapping of the response writer of
    native_udp_stream.go.  The effects of a request are recorded in the order the
    code performs them, deferred calls included. *)

From stdpp Require Import base decidable numbers list gmap strings.
From Stdlib Require Import ZArith Lia Ascii.
From S2P Require Import Prelude GoStrings GoNet Acl Policy GoHttp UdpProtocol UdpRun.

(** ** HTTP/3 capabilities of a wrapped response writer *)

(** A writer by identity: its two capabilities, and what [Unwrap] returns when it
    has that method. *)
Record writer := MkWriter { w_streamer : bool; w_settingser : bool; w_unwrap : option (option nat) }.

Section Stream.
Variable heap : nat -> writer.

(** The writer the loop goes on with. *)
Definition next_writer (w : nat) : option nat :=
  match w_unwrap (heap w) with
  | Some (Some next) => if bool_decide (next = w) then None else Some next
  | _ => None
  end.

(** The loop from one depth on: the streamer and settingser found so far. *)
Fixpoint find_capabilities (depth : nat) (w : option nat) (streamer settings : option nat) : option (nat * nat) :=
  match depth, w with
  | S depth', Some x =>
      let streamer := if w_streamer (heap x) then Some x else streamer in
      let settings := if w_settingser (heap x) then Some x else settings in
      match streamer, settings with
      | Some a, Some b => Some (a, b)
      | _, _ => find_capabilities depth' (next_writer x) streamer settings
      end
  | _, _ => None
  end.

Definition http3CapabilitiesFromResponseWriter (w : option nat) : option (nat * nat) :=
  find_capabilities 16 w None None.

Definition http3StreamFromResponseWriter (HTTPStream : nat -> option nat) (w : option nat) : result (option nat) :=
  match http3CapabilitiesFromResponseWriter w with
  | Some (streamer, _) => Ok (HTTPStream streamer)
  | None => Err (ErrMsg (go "HTTP/3 stream unavailable"))
  end.

(** The writer reached after [k] unwraps. *)
Fixpoint unwrapped (k : nat) (w : option nat) : option nat :=
  match k with
  | O => w
  | S k' => match w with Some x => unwrapped k' (next_writer x) | None => None end
  end.

Lemma unwrapped_None k : unwrapped k None = None.
Proof. by destruct k. Qed.

Lemma find_sound depth w st0 se0 a b :
  find_capabilities depth w st0 se0 = Some (a, b) ->
  (st0 = Some a \/ exists i, i < depth /\ unwrapped i w = Some a /\ w_streamer (heap a) = true) /\
  (se0 = Some b \/ exists i, i < depth /\ unwrapped i w = Some b /\ w_settingser (heap b) = true).
Proof.
  revert w st0 se0. induction depth as [|depth IH]; intros [x|] st0 se0; cbn [find_capabilities]; try done.
  intros Hf.
  assert (Hcase : (if w_streamer (heap x) then Some x else st0) = Some a /\ (if w_settingser (heap x) then Some x else se0) = Some b \/
    find_capabilities depth (next_writer x) (if w_streamer (heap x) then Some x else st0)
      (if w_settingser (heap x) then Some x else se0) = Some (a, b)).
  { destruct (if w_streamer (heap x) then Some x else st0), (if w_settingser (heap x) then Some x else se0); auto.
    injection Hf as -> ->. auto. }
  assert (Hhere : forall c (p : nat -> bool) old, (if p x then Some x else old) = Some c -> old = Some c \/
    exists i, i < S depth /\ unwrapped i (Some x) = Some c /\ p c = true).
  { intros c p old. destruct (p x) eqn:E; [|by left]. intros [= ->]. right. exists 0. split; [lia|done]. }
  destruct Hcase as [[Ha Hb]|Hrec].
  - split; [by apply (Hhere a (fun y => w_streamer (heap y)))|by apply (Hhere b (fun y => w_settingser (heap y)))].
  - apply IH in Hrec as [[Ha|(i & Hi & Hu & Hw)] Hb2]; (split; [|destruct Hb2 as [Hb|(j & Hj & Hv & Hx)]]);
      try (by apply (Hhere a (fun y => w_streamer (heap y))));
      try (by apply (Hhere b (fun y => w_settingser (heap y))));
      right; [exists (S j)|exists (S i)|exists (S j)]; (split; [lia|]); done.
Qed.

(** A capability is held already or comes within [depth] unwraps. *)
Definition available (p : nat -> bool) (depth : nat) (w old : option nat) : Prop :=
  is_Some old \/ exists i x, i < depth /\ unwrapped i w = Some x /\ p x = true.

Lemma available_step p depth x old :
  available p (S depth) (Some x) old ->
  available p depth (next_writer x) (if p x then Some x else old).
Proof.
  intros [Hold|(i & y & Hi & Hu & Hp)].
  - left. by destruct (p x).
  - destruct i as [|i]; [|right; exists i, y; split; [lia|done]].
    injection Hu as ->. left. by rewrite Hp.
Qed.

Lemma find_complete depth w st0 se0 :
  st0 = None \/ se0 = None ->
  available (fun x => w_streamer (heap x)) depth w st0 ->
  available (fun x => w_settingser (heap x)) depth w se0 ->
  is_Some (find_capabilities depth w st0 se0).
Proof.
  revert w st0 se0. induction depth as [|depth IH]; intros w st0 se0 Hn Ha Hb.
  { exfalso. destruct Ha as [Ha|(i & y & ? & _)]; [|lia]. destruct Hb as [Hb|(i & y & ? & _)]; [|lia].
    destruct Hn as [->| ->]; [by destruct Ha|by destruct Hb]. }
  destruct w as [x|].
  - cbn [find_capabilities].
    apply (available_step (fun y => w_streamer (heap y))) in Ha.
    apply (available_step (fun y => w_settingser (heap y))) in Hb. cbv beta in Ha, Hb.
    destruct (if w_streamer (heap x) then Some x else st0) as [a|] eqn:Ea; [|by apply IH; auto].
    destruct (if w_settingser (heap x) then Some x else se0) as [b|] eqn:Eb; [by eexists|by apply IH; auto].
  - exfalso. destruct Hn as [->| ->].
    + destruct Ha as [Ha|(i & y & _ & Hu & _)]; [by destruct Ha|by rewrite unwrapped_None in Hu].
    + destruct Hb as [Hb|(i & y & _ & Hu & _)]; [by destruct Hb|by rewrite unwrapped_None in Hu].
Qed.

(** The search for the HTTP/3 stream terminates on any chain of wrappers, cyclic ones
    included, and succeeds exactly when both capabilities occur within the first
    sixteen writers; what it returns has them. *)
Theorem capabilities_found w :
  (is_Some (http3CapabilitiesFromResponseWriter w) <->
   (exists i x, i < 16 /\ unwrapped i w = Some x /\ w_streamer (heap x) = true) /\
   (exists j y, j < 16 /\ unwrapped j w = Some y /\ w_settingser (heap y) = true)) /\
  (forall a b, http3CapabilitiesFromResponseWriter w = Some (a, b) ->
     w_streamer (heap a) = true /\ w_settingser (heap b) = true).
Proof.
  unfold http3CapabilitiesFromResponseWriter. split; [split|].
  - intros [[a b] Hf]. apply find_sound in Hf as [[?|(i & ? & ? & ?)] [?|(j & ? & ? & ?)]]; try done.
    split; [by exists i, a|by exists j, b].
  - intros [Ha Hb]. apply find_complete; [by left|by right|by right].
  - intros a b Hf. apply find_sound in Hf as [[?|(i & ? & ? & ?)] [?|(j & ? & ? & ?)]]; done.
Qed.
End Stream.

(** ** The client key of the per-client limit *)

Definition clientAddressKey `{UnicodeTables} (remoteAddress : gostring) : gostring :=
  match SplitHostPort remoteAddress with
  | Err _ => go "unknown"
  | Ok (host, _) =>
      if bool_decide (host = []) then go "unknown"
      else match ParseIP host with
           | Some ip => IP_String ip
           | None => ToLower host
           end
  end.

(** ** Dialling the target *)

(** The addresses tried, in order, and the connection. *)
Fixpoint dialConnectUDPTarget (dial : gostring -> option nat * option error) (addresses : list gostring)
    : list gostring * option nat :=
  match addresses with
  | [] => ([], None)
  | address :: rest =>
      match dial address with
      | (Some conn, None) => ([address], Some conn)
      | _ => let '(tried, c) := dialConnectUDPTarget dial rest in (address :: tried, c)
      end
  end.

(** ** The handler *)

Definition errConnectUDPResourceLimit : error := ErrMsg (go "connect-udp resource limit reached").
Definition errConnectUDPDial : error := ErrMsg (go "connect-udp target connection failed").

(** The wait for the peer's settings: received (with EnableDatagrams, or nil
    settings), or the request ended. *)
Inductive settingsWait := SettingsReceived (enableDatagrams : option bool) | RequestDone (err : error).

(** What the handler calls and reads. *)
Record serveEnv := MkServe {
  se_upstream : bool;
  se_acquire : gostring -> option Z;
  se_lookup : gostring -> result (list IP);
  se_policy : policyConfig;
  se_heap : nat -> writer;
  se_writer : option nat;
  se_settings : settingsWait;
  se_dial : gostring -> option nat * option error;
  se_stream : option nat;
  connectUDPIdleTimeout : Z;
  se_run : Z -> error;
}.

Inductive effect :=
  | Redacted
  | Acquired (client : gostring) (id : Z)
  | DialedUDP (address : gostring)
  | OpenedUDP (conn : nat)
  | WroteHeader (status : Z)
  | RanAssociation (id idle : Z)
  | LoggedClose (reason : gostring)
  | ClosedUDP (conn : nat)
  | ReleasedWith (reason : gostring).

#[global] Instance effect_eq_dec : EqDecision effect.
Proof. solve_decision. Defined.

Definition idleTimeout (e : serveEnv) : Z :=
  if (connectUDPIdleTimeout e <=? 0)%Z then connectUDPAssociationIdleTime else connectUDPIdleTimeout e.

(** From a dialled socket on: the effects before the deferred ones, and the
    close reason. *)
Definition serve_association (e : serveEnv) (id : Z) : list effect * gostring :=
  match se_stream e with
  | None => ([WroteHeader StatusOK], go "setup_failed")
  | Some _ =>
      let reason := connectUDPAssociationCloseReason (se_run e (idleTimeout e)) in
      ([WroteHeader StatusOK; RanAssociation id (idleTimeout e); LoggedClose reason], reason)
  end.

(** After admission: the returned error, the effects, and the close reason. *)
Definition serve_admitted (e : serveEnv) (id : Z) (target : connectUDPTarget)
    : option error * list effect * gostring :=
  let setup_failed err effects := (Some err, effects, go "setup_failed") in
  match resolveTargetCheckACL (se_lookup e) (se_policy e) (hostPort target) with
  | inr failure => setup_failed (ErrHandler (targetPolicyFailure_statusCode failure) (failure_error failure)) []
  | inl resolved =>
      match http3CapabilitiesFromResponseWriter (se_heap e) (se_writer e) with
      | None => setup_failed (ErrHandler connectUDPUnsupportedStatus errConnectUDPUnsupported) []
      | Some _ =>
          match se_settings e with
          | RequestDone err => setup_failed err []
          | SettingsReceived (Some true) =>
              let '(tried, conn) := dialConnectUDPTarget (se_dial e) (addresses resolved) in
              match conn with
              | None => setup_failed (ErrHandler StatusBadGateway errConnectUDPDial) (DialedUDP <$> tried)
              | Some c =>
                  let '(effects, reason) := serve_association e id in
                  (None, (DialedUDP <$> tried) ++ [OpenedUDP c] ++ effects ++ [ClosedUDP c], reason)
              end
          | SettingsReceived _ => setup_failed (ErrHandler connectUDPUnsupportedStatus errConnectUDPUnsupported) []
          end
      end
  end.

Definition serveConnectUDP `{UnicodeTables, Idna} (e : serveEnv) (r : Request)
    : option error * list effect * Request :=
  let target := parseConnectUDPTarget r in
  let r' := redactConnectUDPRequest r in
  match target with
  | Err _ => (Some (ErrHandler StatusBadRequest errConnectUDPMalformed), [Redacted], r')
  | Ok target =>
      if se_upstream e then
        (Some (ErrHandler connectUDPUnsupportedStatus errConnectUDPUnsupported), [Redacted], r')
      else
        let client := clientAddressKey (RemoteAddr r) in
        match se_acquire e client with
        | None => (Some (ErrHandler connectUDPResourceStatus errConnectUDPResourceLimit), [Redacted], r')
        | Some id =>
            let '(err, effects, reason) := serve_admitted e id target in
            (err, [Redacted; Acquired client id] ++ effects ++ [ReleasedWith reason], r')
        end
  end.

(** ** Lemmas *)

Lemma dial_prefix dial addrs :
  (dialConnectUDPTarget dial addrs).1 `prefix_of` addrs /\
  match (dialConnectUDPTarget dial addrs).2 with
  | None => (dialConnectUDPTarget dial addrs).1 = addrs
  | Some c => exists a, last (dialConnectUDPTarget dial addrs).1 = Some a /\ dial a = (Some c, None)
  end.
Proof.
  induction addrs as [|a rest IH]; cbn [dialConnectUDPTarget]; [done|].
  assert (Hrec : forall c, dial a <> (Some c, None) ->
    (let '(tried, c) := dialConnectUDPTarget dial rest in (a :: tried, c)).1 `prefix_of` a :: rest /\
    match (let '(tried, c) := dialConnectUDPTarget dial rest in (a :: tried, c)).2 with
    | None => (let '(tried, c) := dialConnectUDPTarget dial rest in (a :: tried, c)).1 = a :: rest
    | Some c => exists x, last (let '(tried, c) := dialConnectUDPTarget dial rest in (a :: tried, c)).1 = Some x /\
        dial x = (Some c, None)
    end).
  { intros _ _. destruct (dialConnectUDPTarget dial rest) as [tried [c|]]; cbn [fst snd] in *;
      destruct IH as [Hp Hc]; (split; [by apply prefix_cons|]); [|by f_equal].
    destruct Hc as (x & Hx & Hd). exists x. split; [|done]. destruct tried; [done|]. exact Hx. }
  destruct (dial a) as [[c|] [err|]] eqn:Ed; try (by apply (Hrec 0)).
  cbn. split; [by apply prefix_cons, prefix_nil|]. by exists a.
Qed.

(** The effects of an admitted request: dials only, or a served socket. *)
Lemma serve_admitted_shape e id target :
  let '(err, effects, reason) := serve_admitted e id target in
  exists tried, tried `prefix_of` (match resolveTargetCheckACL (se_lookup e) (se_policy e) (hostPort target) with
                                   | inl t => addresses t | inr _ => [] end) /\
  ((effects = DialedUDP <$> tried /\ is_Some err /\ reason = go "setup_failed") \/
   (exists c a served, effects = (DialedUDP <$> tried) ++ OpenedUDP c :: WroteHeader StatusOK :: served ++ [ClosedUDP c] /\
      last tried = Some a /\ se_dial e a = (Some c, None) /\ err = None /\
      (served = [] /\ reason = go "setup_failed" \/
       served = [RanAssociation id (idleTimeout e); LoggedClose reason] /\
       reason = connectUDPAssociationCloseReason (se_run e (idleTimeout e))))).
Proof.
  unfold serve_admitted. destruct (resolveTargetCheckACL _ _ _) as [resolved|f].
  2: { exists []. split; [done|]. left. eauto. }
  destruct (http3CapabilitiesFromResponseWriter _ _).
  2: { exists []. split; [apply prefix_nil|]. left. eauto. }
  destruct (se_settings e) as [[[]|]|err]; try (exists []; split; [apply prefix_nil|]; left; by eauto).
  pose proof (dial_prefix (se_dial e) (addresses resolved)) as [Hp Hc].
  destruct (dialConnectUDPTarget _ _) as [tried [c|]]; cbn [fst snd] in *; [|exists tried; split; [done|]; left; eauto].
  destruct Hc as (a & Ha & Hd). unfold serve_association.
  destruct (se_stream e); exists tried; (split; [done|]); right.
  - exists c, a, [RanAssociation id (idleTimeout e);
      LoggedClose (connectUDPAssociationCloseReason (se_run e (idleTimeout e)))]. repeat split; auto.
  - exists c, a, []. repeat split; auto.
Qed.

(** ** Theorems *)

(** C22: the order of effects of every CONNECT-UDP request: it is redacted first; a refused
    request does nothing else; an admitted one is released exactly once, as its last
    effect; in between it only dials, or dials, opens one socket, confirms with 200
    only then, serves, and closes that socket before the release.  An error is
    returned exactly when no success was confirmed, and the release is labelled with
    the association's own end only when it ran. *)
Theorem serve_effects `{UnicodeTables, Idna} e r :
  let '(err, effects, r') := serveConnectUDP e r in
  r' = redactConnectUDPRequest r /\
  ((effects = [Redacted] /\
    exists s, error_status <$> err = Some (Some s) /\
      s ∈ [StatusBadRequest; connectUDPUnsupportedStatus; connectUDPResourceStatus]) \/
   exists client id body reason,
     effects = Redacted :: Acquired client id :: body ++ [ReleasedWith reason] /\
     se_acquire e (clientAddressKey (RemoteAddr r)) = Some id /\
     exists tried,
       (body = DialedUDP <$> tried /\ is_Some err /\ reason = go "setup_failed") \/
       (exists c served, body = (DialedUDP <$> tried) ++ OpenedUDP c :: WroteHeader StatusOK :: served ++ [ClosedUDP c] /\
          err = None /\
          (served = [] /\ reason = go "setup_failed" \/
           served = [RanAssociation id (idleTimeout e); LoggedClose reason] /\
           reason = connectUDPAssociationCloseReason (se_run e (idleTimeout e))))).
Proof.
  unfold serveConnectUDP. destruct (parseConnectUDPTarget r) as [target|]; cbv zeta.
  2: { split; [done|]. left. split; [done|]. eexists. split; [done|]. set_solver. }
  destruct (se_upstream e).
  { split; [done|]. left. split; [done|]. eexists. split; [done|]. set_solver. }
  destruct (se_acquire e _) as [id|] eqn:Eq.
  2: { split; [done|]. left. split; [done|]. eexists. split; [done|]. set_solver. }
  pose proof (serve_admitted_shape e id target) as Hs.
  destruct (serve_admitted e id target) as [[err effects] reason].
  destruct Hs as (tried & _ & [Hs|(c & a & served & -> & _ & _ & Herr & Hs)]); (split; [done|]); right;
    eexists _, id, _, reason; (split; [done|]); (split; [done|]); exists tried; eauto 10.
Qed.

(** No CONNECT-UDP request reaches an address the ACL did not approve: every address
    dialled is the text of an allowed answer of the resolver for the requested
    host, on the requested and whitelisted port. *)
Lemma serve_dials_approved `{UnicodeTables, Idna} e r a :
  DialedUDP a ∈ (serveConnectUDP e r).1.2 ->
  exists target host port ips ip,
    parseConnectUDPTarget r = Ok target /\ SplitHostPort (hostPort target) = Ok (host, port) /\
    portIsAllowed (AllowedPorts (se_policy e)) port = true /\ se_lookup e host = Ok ips /\ ip ∈ ips /\ ip <> [] /\
    hostIsAllowed (aclRules (se_policy e)) host ip = true /\ a = JoinHostPort (IP_String ip) port.
Proof.
  unfold serveConnectUDP. destruct (parseConnectUDPTarget r) as [target|] eqn:Ep; cbv zeta; [|set_solver].
  destruct (se_upstream e); [set_solver|]. destruct (se_acquire e _) as [id|]; [|set_solver].
  pose proof (serve_admitted_shape e id target) as Hs.
  destruct (serve_admitted e id target) as [[err effects] reason]. cbn [fst snd]. intros Hin.
  destruct Hs as (tried & Hpre & Hs).
  assert (Ha : a ∈ tried).
  { destruct Hs as [[-> _]|(c & x & served & -> & _ & _ & _ & Hserved)];
      [|destruct Hserved as [[-> _]|[-> _]]]; set_solver. }
  destruct (resolveTargetCheckACL _ _ _) as [resolved|f] eqn:Er; [|by apply prefix_nil_inv in Hpre as ->; set_solver].
  assert (Hal : a ∈ addresses resolved) by (destruct Hpre as [rest ->]; set_solver).
  unfold resolveTargetCheckACL in Er.
  destruct (prepareTargetPolicy (se_policy e) (hostPort target)) as [[host port] [f|]] eqn:Epp; [done|].
  apply prepareTargetPolicy_None in Epp as (Hsplit & Hport & _).
  destruct (se_lookup e host) as [ips|] eqn:El; [|done].
  case_bool_decide; [done|]. injection Er as <-. cbn [addresses] in Hal.
  rewrite collectAddresses_dedup in Hal. cbn [app] in Hal. apply dedup_from_elem in Hal as [Hal _].
  apply allowed_addresses_elem in Hal as (ip & Hip & Hne & Hok & ->).
  exists target, host, port, ips, ip. repeat split; auto.
Qed.

Lemma clientAddressKey_ip `{UnicodeTables} ip ip16 port :
  valid_ip ip -> plain_port port -> To16 ip = Some ip16 ->
  clientAddressKey (JoinHostPort (IP_String ip) port) = IP_String ip16.
Proof.
  intros Hv Hp H16. unfold clientAddressKey. rewrite SplitHostPort_address, ParseIP_String, H16 by done.
  rewrite bool_decide_false; [done|]. apply target_host_not_nil. left. by exists ip.
Qed.

(** The per-client limit counts clients by address: two remote addresses have the
    same key exactly when they are the same IP address (a four-byte address and its
    mapped form are one), whatever their ports. *)
Theorem client_key_by_address `{UnicodeTables} ip1 ip2 port1 port2 :
  valid_ip ip1 -> valid_ip ip2 -> plain_port port1 -> plain_port port2 ->
  clientAddressKey (JoinHostPort (IP_String ip1) port1) = clientAddressKey (JoinHostPort (IP_String ip2) port2) <->
  To16 ip1 = To16 ip2.
Proof.
  intros Hv1 Hv2 Hp1 Hp2. destruct (valid_ip_To16 ip1 Hv1) as (a & Ha & Hla).
  destruct (valid_ip_To16 ip2 Hv2) as (b & Hb & Hlb).
  rewrite (clientAddressKey_ip ip1 a), (clientAddressKey_ip ip2 b), Ha, Hb by done.
  split; [|by intros [= ->]]. intros He.
  assert (Hself : forall x, length x = 16 -> ParseIP (IP_String x) = Some x).
  { intros x Hx. rewrite ParseIP_String by by right. unfold To16. by repeat case_bool_decide; try lia. }
  rewrite <- (Hself a), <- (Hself b), He by done. done.
Qed.

(** ** Witnesses *)

#[local] Instance serve_unicode : UnicodeTables :=
  {| unicode_lower := id; unicode_equal_fold := fun s t => bool_decide (s = t) |}.
#[local] Instance serve_idna : Idna := {| ToASCII := Ok |}.

Definition example_serve : serveEnv :=
  MkServe false (fun _ => Some 1%Z) example_lookup example_policy
    (fun w => match w with 0 => MkWriter false true (Some (Some 1)) | _ => MkWriter true false (Some (Some 0)) end)
    (Some 0) (SettingsReceived (Some true))
    (fun a => if bool_decide (a = go "9.9.9.9:443") then (Some 7, None) else (None, Some errConnectUDPDial))
    (Some 3) 0 (fun _ => ErrCanceled).

(** The run of the example: the first address fails, the second serves. *)
Example serve_example :
  (serveConnectUDP example_serve (example_udp_request (masque_path (go "dns.test") (Itoa 443)))).1 =
  (None, [Redacted; Acquired (go "192.0.2.7") 1; DialedUDP (go "1.1.1.1:443"); DialedUDP (go "9.9.9.9:443");
          OpenedUDP 7; WroteHeader 200; RanAssociation 1 connectUDPAssociationIdleTime;
          LoggedClose (go "canceled"); ClosedUDP 7; ReleasedWith (go "canceled")]).
Proof. vm_compute. reflexivity. Qed.

Lemma client_key_by_address_witness :
  clientAddressKey (go "192.0.2.7:50000") = clientAddressKey (go "192.0.2.7:1") <->
  To16 (z_bytes [192; 0; 2; 7]%Z) = To16 (z_bytes [192; 0; 2; 7]%Z).
Proof.
  apply (client_key_by_address (z_bytes [192; 0; 2; 7]%Z) (z_bytes [192; 0; 2; 7]%Z) (go "50000") (go "1")).
  - left. reflexivity.
  - left. reflexivity.
  - repeat split; apply ContainsByte_false; reflexivity.
  - repeat split; apply ContainsByte_false; reflexivity.
Defined.
