(* ===== verification/Padding.v ===== *)
(** * Naive padding and the copy loop: forwardproxy.go

    The negotiation of the padding type, the padding response headers, and
    flushingIoCopy with its three modes.  A reader is the bytes it still has, the
    error it ends with and an oracle for how it cuts them into reads; a writer
    keeps what it was given and a plan of the outcomes of its writes. *)

From stdpp Require Import base decidable numbers list gmap strings.
From Stdlib Require Import ZArith Lia Ascii.
From S2P Require Import Prelude GoStrings GoNet GoHttp.

(** ** Negotiation *)

Definition naivePaddingTypeRequestHeader : gostring := go "Padding-Type-Request".
Definition naivePaddingTypeReplyHeader : gostring := go "Padding-Type-Reply".
Definition naivePaddingNone : Z := 0.
Definition naivePaddingVariant1 : Z := 1.

(** The body of the two loops always returns, so only the first candidate of the
    first value decides. *)
Definition candidate_type (candidate : gostring) : result Z :=
  let c := TrimSpace candidate in
  if bool_decide (c = go "1") then Ok naivePaddingVariant1
  else if bool_decide (c = go "0") then Ok naivePaddingNone
  else Err (ErrMsg (go "invalid Naive padding type")).

Fixpoint first_candidate (values : list gostring) : option gostring :=
  match values with
  | [] => None
  | value :: rest =>
      match Split value "," with
      | candidate :: _ => Some candidate
      | [] => first_candidate rest
      end
  end.

Definition negotiateNaivePadding (header : Header) : result Z :=
  match header !! CanonicalHeaderKey naivePaddingTypeRequestHeader with
  | None =>
      if negb (bool_decide (Get header (go "Padding") = [])) then Ok naivePaddingVariant1
      else Ok naivePaddingNone
  | Some values =>
      match first_candidate values with
      | Some candidate => candidate_type candidate
      | None => Err (ErrMsg (go "no Naive padding type requested"))
      end
  end.

(** ** The padding response header *)

Definition padding_codes : gostring := go "!#$()+<>?@[]^`{}".

(** Sixteen codes from the random bits, four bits each. *)
Fixpoint code_bytes (n : nat) (bits : Z) : gostring :=
  match n with
  | O => []
  | S n' => nth (Z.to_nat (Z.land bits 15)) padding_codes zero :: code_bytes n' (Z.shiftr bits 4)
  end.

(** [r32] is rand.Intn(32) and [bits] rand.Uint64(). *)
Definition padding_value (r32 : nat) (bits : Z) : gostring :=
  let paddingLen := r32 + 30 in
  code_bytes 16 bits ++ replicate (paddingLen - 16) "~"%char.

Definition setNaivePaddingResponseHeaders (r32 : nat) (bits : Z) (response request : Header) (paddingType : Z) : Header :=
  let response := Set_ response (go "Padding") (padding_value r32 bits) in
  match request !! CanonicalHeaderKey naivePaddingTypeRequestHeader with
  | Some _ => Set_ response naivePaddingTypeReplyHeader (Itoa paddingType)
  | None => response
  end.

(** ** Readers and writers *)

(** [eager]: the reader returns its final error together with its last bytes. *)
Record reader := MkReader { data : list byte; fin : error; chunks : list nat; eager : bool }.

Definition set_data (r : reader) (d : list byte) (cs : list nat) : reader := MkReader d (fin r) cs (eager r).

(** One [Read] into a buffer of [n] bytes: at least one byte while there are any. *)
Definition Read (n : nat) (r : reader) : list byte * option error * reader :=
  match data r with
  | [] => ([], Some (fin r), r)
  | d =>
      let '(want, cs) := match chunks r with [] => (length d, []) | k :: cs => (k, cs) end in
      let k := Nat.max 1 (Nat.min want (Nat.min n (length d))) in
      let rest := drop k d in
      (take k d, if eager r && bool_decide (rest = []) then Some (fin r) else None, set_data r rest cs)
  end.

Definition is_eof (e : error) : bool := match e with ErrEOF => true | _ => false end.

(** [io.ReadFull] of [n] bytes: an error only when it came short, the unexpected
    one after some bytes. *)
Definition ReadFull (n : nat) (r : reader) : list byte * option error * reader :=
  if bool_decide (n <= length (data r)) then (take n (data r), None, set_data r (drop n (data r)) (chunks r))
  else if bool_decide (data r = []) then ([], Some (fin r), r)
  else (data r, Some (if is_eof (fin r) then ErrUnexpectedEOF else fin r), set_data r [] (chunks r)).

(** A planned write: how many bytes it takes, its error, and the error of the
    flush after it.  Without a plan a write and its flush succeed. *)
Record writePlan := MkPlan { wp_n : nat; wp_err : option error; wp_flush : option error }.

Record sink := MkSink { out : list byte; plan : list writePlan }.

Definition Write (p : list byte) (w : sink) : nat * option error * option error * sink :=
  match plan w with
  | [] => (length p, None, None, MkSink (out w ++ p) [])
  | wp :: rest =>
      let nw := Nat.min (wp_n wp) (length p) in
      (nw, wp_err wp, wp_flush wp, MkSink (out w ++ take nw p) rest)
  end.

(** ** flushingIoCopy *)

Inductive paddingMode := NoPadding | AddPadding | RemovePadding.
Definition NumFirstPaddings : nat := 8.
Definition bufferSize : nat := Z.to_nat 65536.

(** Bytes stored into the buffer at an offset. *)
Definition store (off : nat) (b buf : list byte) : list byte :=
  take off buf ++ b ++ drop (off + length b) buf.

Definition byte_at (i : nat) (buf : list byte) : Z := Z_of_byte (default zero (buf !! i)).

(** The reads of one iteration: the bytes [buf[0:nr]] to write, [er], the reader,
    the buffer, and [numPadding]. *)
Definition copy_read (mode : paddingMode) (rnd : nat -> nat) (numPadding : nat) (r : reader) (buf : list byte)
    : list byte * option error * reader * list byte * nat :=
  match mode, bool_decide (numPadding < NumFirstPaddings) with
  | AddPadding, true =>
      let paddingSize := rnd numPadding in
      let maxRead := bufferSize - 3 - paddingSize in
      let '(c, er, r) := Read (maxRead - 3) r in
      let buf := store 3 c buf in
      let nr := length c in
      if bool_decide (0 < nr) then
        let z := Z.of_nat nr in
        let buf := store 0 [byte_of_Z (z `div` 256); byte_of_Z (z `mod` 256); byte_of_Z (Z.of_nat paddingSize)] buf in
        let buf := store (3 + nr) (replicate paddingSize zero) buf in
        (take (nr + 3 + paddingSize) buf, er, r, buf, S numPadding)
      else ([], er, r, buf, S numPadding)
  | RemovePadding, true =>
      let '(hd, er, r) := ReadFull 3 r in
      let buf := store 0 hd buf in
      if bool_decide (0 < length hd) then
        let nr := Z.to_nat (byte_at 0 buf * 256 + byte_at 1 buf) in
        let paddingSize := Z.to_nat (byte_at 2 buf) in
        let '(p, er, r) := ReadFull nr r in
        let buf := store 0 p buf in
        if bool_decide (0 < length p) then
          let '(_, er, r) := ReadFull paddingSize r in
          (take (length p) buf, er, r, buf, S numPadding)
        else ([], er, r, buf, S numPadding)
      else ([], er, r, buf, S numPadding)
  | _, _ =>
      let '(c, er, r) := Read (length buf) r in
      (take (length c) (store 0 c buf), er, r, store 0 c buf, numPadding)
  end.

(** The loop; [flusher] says that [dst] is a response writer.  [None] is out of
    fuel. *)
Fixpoint flushingIoCopy (fuel : nat) (flusher : bool) (mode : paddingMode) (rnd : nat -> nat) (numPadding : nat)
    (w : sink) (r : reader) (buf : list byte) (written : Z) : option (Z * option error * sink * reader) :=
  match fuel with
  | O => None
  | S fuel' =>
      let '(p, er, r, buf, numPadding) := copy_read mode rnd numPadding r buf in
      let after (w : sink) (written : Z) :=
        match er with
        | Some e => Some (written, if is_eof e then None else Some e, w, r)
        | None => flushingIoCopy fuel' flusher mode rnd numPadding w r buf written
        end in
      if bool_decide (0 < length p) then
        let '(nw, ew, ef, w) := Write p w in
        let written := (written + Z.of_nat nw)%Z in
        match ew, (if flusher then ef else None) with
        | Some e, _ => Some (written, Some e, w, r)
        | None, Some e => Some (written, Some e, w, r)
        | None, None =>
            if negb (bool_decide (length p = nw)) then Some (written, Some ErrShortWrite, w, r)
            else after w written
        end
      else after w written
  end.

(** The loop of the standard library's [io.CopyBuffer]. *)
Fixpoint CopyBuffer (fuel : nat) (w : sink) (r : reader) (buf : list byte) (written : Z)
    : option (Z * option error * sink * reader) :=
  match fuel with
  | O => None
  | S fuel' =>
      let '(c, er, r) := Read (length buf) r in
      let buf := store 0 c buf in
      let after (w : sink) (written : Z) :=
        match er with
        | Some e => Some (written, if is_eof e then None else Some e, w, r)
        | None => CopyBuffer fuel' w r buf written
        end in
      if bool_decide (0 < length c) then
        let '(nw, ew, _, w) := Write c w in
        let written := (written + Z.of_nat nw)%Z in
        match ew with
        | Some e => Some (written, Some e, w, r)
        | None =>
            if negb (bool_decide (length c = nw)) then Some (written, Some ErrShortWrite, w, r)
            else after w written
        end
      else after w written
  end.

(** ** Lemmas: reads and stores *)

Lemma Read_spec n r c er r' :
  0 < n -> Read n r = (c, er, r') ->
  data r = c ++ data r' /\ length c <= n /\ fin r' = fin r /\
  (c = [] <-> data r = []) /\ (er = None \/ er = Some (fin r) /\ data r' = []) /\
  (data r = [] -> er = Some (fin r)).
Proof.
  intros Hn. unfold Read. destruct (data r) as [|x d] eqn:Ed.
  - intros [= <- <- <-]. rewrite Ed. cbn. repeat split; auto; lia.
  - destruct (match chunks r with [] => _ | _ :: _ => _ end) as [want cs].
    set (k := Nat.max 1 (Nat.min want (Nat.min n (length (x :: d))))). intros [= <- <- <-].
    assert (Hk : 1 <= k <= n) by lia. cbn [data set_data fin].
    split; [by rewrite take_drop|]. split; [rewrite length_take; lia|]. split; [done|].
    split; [split; [|done]; by destruct k; [lia|]|]. split; [|done].
    destruct (eager r); cbn [andb]; [|by left]. case_bool_decide; [by right|by left].
Qed.

Lemma ReadFull_enough n r b rest :
  data r = b ++ rest -> length b = n -> ReadFull n r = (b, None, set_data r rest (chunks r)).
Proof.
  intros Hd <-. unfold ReadFull. rewrite Hd, bool_decide_true by (rewrite length_app; lia).
  by rewrite take_app_length, drop_app_length.
Qed.

Lemma ReadFull_nil n r : 0 < n -> data r = [] -> ReadFull n r = ([], Some (fin r), r).
Proof.
  intros Hn Hd. unfold ReadFull. rewrite Hd. rewrite bool_decide_false by (cbn; lia). by rewrite bool_decide_true.
Qed.

Lemma store_length off b buf : off + length b <= length buf -> length (store off b buf) = length buf.
Proof. intros H. unfold store. rewrite !length_app, length_take, length_drop. lia. Qed.

Lemma take_store0 b buf : take (length b) (store 0 b buf) = b.
Proof. unfold store. rewrite take_0, app_nil_l. apply take_app_length. Qed.

(** The frame the three stores of the padding branch leave at the front. *)
Lemma store_frame hd c z buf :
  length hd = 3 -> 3 + length c + length z <= length buf ->
  take (length c + 3 + length z) (store (3 + length c) z (store 0 hd (store 3 c buf))) = hd ++ c ++ z.
Proof.
  intros Hh Hl.
  assert (HY : store 0 hd (store 3 c buf) = (hd ++ c) ++ drop (3 + length c) buf).
  { unfold store. rewrite take_0, app_nil_l, Hh, Nat.add_0_l, <- app_assoc. f_equal.
    rewrite drop_app_ge by (rewrite length_take; lia). rewrite length_take.
    replace (3 - Nat.min 3 (length buf)) with 0 by lia. by rewrite drop_0. }
  rewrite HY. unfold store.
  assert (Hn : 3 + length c = length (hd ++ c)) by (rewrite length_app; lia).
  rewrite Hn, take_app_length, app_assoc.
  replace (length c + 3 + length z) with (length ((hd ++ c) ++ z)) by (rewrite !length_app; lia).
  by rewrite take_app_length, app_assoc.
Qed.

Lemma bufferSize_val : Z.of_nat bufferSize = 65536%Z.
Proof. unfold bufferSize. lia. Qed.

#[local] Opaque bufferSize.

(** The sixteen-bit length of a frame. *)
Lemma frame_length n : n < bufferSize ->
  Z.to_nat (Z_of_byte (byte_of_Z (Z.of_nat n `div` 256)) * 256 + Z_of_byte (byte_of_Z (Z.of_nat n `mod` 256))) = n.
Proof.
  intros Hn. pose proof bufferSize_val. rewrite !Z_of_byte_of_Z.
  rewrite (Z.mod_small (Z.of_nat n `div` 256)) by (split; [apply Z.div_pos; lia|apply Z.div_lt_upper_bound; lia]).
  rewrite Zmod_mod. pose proof (Z.div_mod (Z.of_nat n) 256). lia.
Qed.

(** ** What padding does to a stream *)

Definition frame (c : list byte) (paddingSize : nat) : list byte :=
  [byte_of_Z (Z.of_nat (length c) `div` 256); byte_of_Z (Z.of_nat (length c) `mod` 256);
   byte_of_Z (Z.of_nat paddingSize)] ++ c ++ replicate paddingSize zero.

(** [padded k d o]: [o] carries the payload [d] when [k] frames came before. *)
Inductive padded : nat -> list byte -> list byte -> Prop :=
  | padded_end k : padded k [] []
  | padded_frame k c ps d o :
      k < NumFirstPaddings -> c <> [] -> ps < 256 -> length c + 3 + ps <= bufferSize - 3 ->
      padded (S k) d o -> padded k (c ++ d) (frame c ps ++ o)
  | padded_rest k d : NumFirstPaddings <= k -> padded k d d.

(** The error the copy reports for the error its source ends with. *)
Definition copy_error (e : error) : option error := if is_eof e then None else Some e.

Lemma copy_read_add rnd np r buf c er r' :
  np < NumFirstPaddings -> rnd np < 256 -> length buf = bufferSize ->
  Read (bufferSize - 3 - rnd np - 3) r = (c, er, r') ->
  exists buf', length buf' = bufferSize /\
    copy_read AddPadding rnd np r buf =
      (if bool_decide (0 < length c) then frame c (rnd np) else [], er, r', buf', S np).
Proof.
  intros Hnp Hps Hbuf Hr. pose proof bufferSize_val. unfold copy_read. rewrite bool_decide_true by done. rewrite Hr.
  destruct (Read_spec (bufferSize - 3 - rnd np - 3) r c er r' ltac:(lia) Hr) as (_ & Hlen & _).
  case_bool_decide as Hc.
  - eexists. split; [|rewrite <- (length_replicate (rnd np) zero) at 1;
      rewrite store_frame by (rewrite ?length_replicate; cbn [length]; lia); reflexivity].
    assert (H1 : length (store 3 c buf) = bufferSize) by (rewrite store_length; lia).
    set (hd := [_; _; _]). assert (H2 : length (store 0 hd (store 3 c buf)) = bufferSize)
      by (rewrite store_length; [done|cbn [length hd]; lia]).
    rewrite store_length; [done|]. rewrite length_replicate. lia.
  - eexists. split; [|done]. rewrite store_length; lia.
Qed.

(** One iteration towards a writer that accepts everything. *)
Lemma copy_step fuel fl mode rnd np w r buf wr p er r' buf' np' :
  copy_read mode rnd np r buf = (p, er, r', buf', np') -> plan w = [] ->
  flushingIoCopy (S fuel) fl mode rnd np w r buf wr =
  match er with
  | Some e => Some (wr + Z.of_nat (length p), copy_error e, MkSink (out w ++ p) [], r')%Z
  | None => flushingIoCopy fuel fl mode rnd np' (MkSink (out w ++ p) []) r' buf' (wr + Z.of_nat (length p))
  end.
Proof.
  intros Hc Hw. cbn [flushingIoCopy]. rewrite Hc. destruct w as [o pl]. cbn [plan out] in *. subst pl.
  case_bool_decide as Hp.
  - unfold Write. cbn [plan out]. rewrite bool_decide_true by done. cbn [negb]. by destruct fl, er.
  - destruct p; [|cbn in Hp; lia]. rewrite app_nil_r, Z.add_0_r. by destruct er.
Qed.

(** Unpadded reads: the mode has no padding, or its frames are used up. *)
Definition unpadded (mode : paddingMode) (np : nat) : Prop := mode = NoPadding \/ NumFirstPaddings <= np.

Lemma copy_read_plain mode rnd np r buf c er r' :
  unpadded mode np -> Read (length buf) r = (c, er, r') ->
  copy_read mode rnd np r buf = (c, er, r', store 0 c buf, np).
Proof.
  intros Hu Hr. unfold copy_read. destruct mode.
  - by rewrite Hr, take_store0.
  - destruct Hu as [?|Hu]; [done|]. rewrite bool_decide_false by lia. by rewrite Hr, take_store0.
  - destruct Hu as [?|Hu]; [done|]. rewrite bool_decide_false by lia. by rewrite Hr, take_store0.
Qed.

Lemma plain_loop fl mode rnd np fuel w r buf wr :
  unpadded mode np -> plan w = [] -> 0 < length buf -> length (data r) < fuel ->
  exists r', flushingIoCopy fuel fl mode rnd np w r buf wr =
    Some (wr + Z.of_nat (length (data r)), copy_error (fin r), MkSink (out w ++ data r) [], r')%Z.
Proof.
  intros Hu. revert w r buf wr. induction fuel as [|fuel IH]; intros w r buf wr Hw Hb Hf; [lia|].
  destruct (Read (length buf) r) as [[c er] r1] eqn:Er.
  destruct (Read_spec _ _ _ _ _ Hb Er) as (Hd & Hlen & Hfin & Hnil & Her & Hend).
  rewrite (copy_step _ _ _ _ _ _ _ _ _ _ _ _ _ _ (copy_read_plain mode rnd np r buf c er r1 Hu Er) Hw).
  destruct er as [e|].
  - exists r1. destruct Her as [?|[[= ->] Hr1]]; [done|]. rewrite Hr1, app_nil_r in Hd. by rewrite Hd.
  - assert (c <> []) by (intros ->; destruct Hnil as [Hn _]; specialize (Hend (Hn eq_refl)); done).
    assert (Hlt : length (data r) = length c + length (data r1)) by (rewrite Hd, length_app; done).
    destruct c as [|x c]; [done|]. cbn [length] in Hlt.
    destruct (IH (MkSink (out w ++ x :: c) []) r1 (store 0 (x :: c) buf) (wr + Z.of_nat (length (x :: c)))%Z)
      as [r' Hr']; [done|rewrite store_length; cbn [length] in *; lia|lia|].
    exists r'. rewrite Hr', Hfin, Hd, length_app. cbn [out]. rewrite <- app_assoc.
    f_equal. f_equal. f_equal. f_equal. lia.
Qed.

(** A read shortens what is left, unless it reports an error. *)
Lemma Read_shorter n r c r' : 0 < n -> Read n r = (c, None, r') -> length (data r') < length (data r).
Proof.
  intros Hn Hr. destruct (Read_spec _ _ _ _ _ Hn Hr) as (Hd & _ & _ & Hnil & _ & Hend).
  rewrite Hd, length_app. destruct c; [|cbn; lia]. by specialize (Hend (proj1 Hnil eq_refl)).
Qed.

(** One round per byte and one more are enough for any writer. *)
Lemma CopyBuffer_total fuel w r buf wr :
  0 < length buf -> length (data r) < fuel -> is_Some (CopyBuffer fuel w r buf wr).
Proof.
  revert w r buf wr. induction fuel as [|fuel IH]; intros w r buf wr Hb Hf; [lia|].
  cbn [CopyBuffer]. destruct (Read (length buf) r) as [[c er] r1] eqn:Er.
  assert (Hnext : forall w' wr', is_Some (match er with
      | Some e => Some (wr', if is_eof e then None else Some e, w', r1)
      | None => CopyBuffer fuel w' r1 (store 0 c buf) wr' end)).
  { intros w' wr'. destruct er as [e|]; [done|]. pose proof (Read_shorter _ _ _ _ Hb Er).
    destruct (Read_spec _ _ _ _ _ Hb Er) as (_ & Hc & _). apply IH; [rewrite store_length; lia|lia]. }
  cbv zeta. case_bool_decide; [|apply Hnext]. destruct (Write c w) as [[[nw [e|]] ef] w1]; [done|].
  case_bool_decide; cbn [negb]; [apply Hnext|done].
Qed.

(** Flushes that never fail change nothing. *)
Definition quiet (fl : bool) (w : sink) : Prop := fl = false \/ Forall (fun wp => wp_flush wp = None) (plan w).

Lemma quiet_write fl c w nw ew ef w' :
  quiet fl w -> Write c w = (nw, ew, ef, w') -> (if fl then ef else None) = None /\ quiet fl w'.
Proof.
  intros [->|Hq] Hw; [split; [done|by left]|]. unfold Write in Hw.
  destruct (plan w) as [|wp rest] eqn:Ep; injection Hw as <- <- <- <-.
  - split; [by destruct fl|]. right. constructor.
  - apply Forall_cons in Hq as [Hq Hr]. rewrite Hq. split; [by destruct fl|by right].
Qed.

Lemma plain_is_CopyBuffer fl mode rnd np fuel w r buf wr :
  unpadded mode np -> quiet fl w ->
  flushingIoCopy fuel fl mode rnd np w r buf wr = CopyBuffer fuel w r buf wr.
Proof.
  intros Hu. revert w r buf wr. induction fuel as [|fuel IH]; intros w r buf wr Hq; [done|].
  cbn [flushingIoCopy CopyBuffer]. destruct (Read (length buf) r) as [[c er] r1] eqn:Er.
  rewrite (copy_read_plain mode rnd np r buf c er r1 Hu Er). cbv zeta.
  case_bool_decide; [|by destruct er; [|apply IH]].
  destruct (Write c w) as [[[nw ew] ef] w1] eqn:Ew. destruct (quiet_write fl c w _ _ _ _ Hq Ew) as [-> Hq1].
  destruct ew; [done|]. case_bool_decide; cbn [negb]; [|done]. destruct er; [done|by apply IH].
Qed.

Lemma add_loop fl rnd np fuel w r buf wr :
  (forall i, rnd i < 256) -> plan w = [] -> length buf = bufferSize -> length (data r) < fuel ->
  exists o r', flushingIoCopy fuel fl AddPadding rnd np w r buf wr =
    Some (wr + Z.of_nat (length o), copy_error (fin r), MkSink (out w ++ o) [], r')%Z /\ padded np (data r) o.
Proof.
  intros Hrnd. pose proof bufferSize_val as Hbs.
  revert np w r buf wr. induction fuel as [|fuel IH]; intros np w r buf wr Hw Hb Hf; [lia|].
  destruct (decide (np < NumFirstPaddings)) as [Hnp|Hnp].
  2: { destruct (plain_loop fl AddPadding rnd np (S fuel) w r buf wr) as [r' Hr'];
         [right; lia|done|lia|done|]. exists (data r), r'. split; [done|]. constructor. lia. }
  destruct (Read (bufferSize - 3 - rnd np - 3) r) as [[c er] r1] eqn:Er. pose proof (Hrnd np) as Hps.
  destruct (Read_spec (bufferSize - 3 - rnd np - 3) _ _ _ _ ltac:(lia) Er) as (Hd & Hlen & Hfin & Hnil & Her & Hend).
  destruct (copy_read_add rnd np r buf c er r1 Hnp Hps Hb Er) as (buf' & Hb' & Hc).
  rewrite (copy_step _ _ _ _ _ _ _ _ _ _ _ _ _ _ Hc Hw).
  destruct c as [|x c].
  - rewrite (Hend (proj1 Hnil eq_refl)), (proj1 Hnil eq_refl). exists [], r1.
    rewrite bool_decide_false by (cbn; lia). split; [done|constructor].
  - set (c' := x :: c) in *. rewrite bool_decide_true by (cbn; lia).
    assert (Hpad : forall o, padded (S np) (data r1) o -> padded np (data r) (frame c' (rnd np) ++ o)).
    { intros o Ho. rewrite Hd. apply padded_frame; auto; lia. }
    destruct er as [e|].
    + destruct Her as [?|[[= ->] Hr1]]; [done|]. exists (frame c' (rnd np)), r1. split; [done|].
      rewrite <- (app_nil_r (frame _ _)). apply Hpad. rewrite Hr1. constructor.
    + assert (Hlt : length (data r) = S (length c + length (data r1))) by (rewrite Hd, length_app; done).
      destruct (IH (S np) (MkSink (out w ++ frame c' (rnd np)) []) r1 buf' (wr + Z.of_nat (length (frame c' (rnd np))))%Z)
        as (o & r' & Ho & Hp); [done|done|lia|].
      exists (frame c' (rnd np) ++ o), r'. split; [|by apply Hpad].
      rewrite Ho, Hfin, length_app. cbn [out]. rewrite <- app_assoc. f_equal. f_equal. f_equal. f_equal. lia.
Qed.

Lemma length_pos (c : list byte) : c <> [] -> 0 < length c.
Proof. destruct c; [intros H; by destruct H|simpl; lia]. Qed.

Lemma copy_read_remove rnd np r buf c ps o :
  np < NumFirstPaddings -> c <> [] -> ps < 256 -> length c + 3 + ps <= bufferSize - 3 -> length buf = bufferSize ->
  data r = frame c ps ++ o ->
  exists r' buf', length buf' = bufferSize /\ data r' = o /\ fin r' = fin r /\
    copy_read RemovePadding rnd np r buf = (c, None, r', buf', S np).
Proof.
  intros Hnp Hc Hps Hl Hb Hd. pose proof bufferSize_val.
  assert (Hpos : 0 < length c) by (apply length_pos; exact Hc).
  unfold copy_read. rewrite bool_decide_true by done.
  unfold frame in Hd. set (hd := [_; _; _]) in Hd. rewrite <- !app_assoc in Hd.
  rewrite (ReadFull_enough 3 r hd (c ++ replicate ps zero ++ o)) by done.
  rewrite bool_decide_true by (cbn; lia).
  assert (Hnr : Z.to_nat (byte_at 0 (store 0 hd buf) * 256 + byte_at 1 (store 0 hd buf)) = length c)
    by (apply frame_length; lia).
  assert (Hpsz : Z.to_nat (byte_at 2 (store 0 hd buf)) = ps).
  { change (byte_at 2 (store 0 hd buf)) with (Z_of_byte (byte_of_Z (Z.of_nat ps))).
    rewrite Z_of_byte_of_Z, Z.mod_small by lia. lia. }
  rewrite Hnr, Hpsz. clear Hnr Hpsz.
  rewrite (ReadFull_enough (length c) _ c (replicate ps zero ++ o)) by done.
  rewrite bool_decide_true by exact Hpos.
  rewrite (ReadFull_enough ps _ (replicate ps zero) o) by (rewrite ?length_replicate; done).
  rewrite take_store0. eexists _, _. split; [|split; [|split; [|reflexivity]]]; [|done|done].
  rewrite !store_length; [done|cbn; lia|rewrite store_length; [lia|cbn; lia]].
Qed.

Lemma remove_loop fl rnd np d o : padded np d o ->
  forall fuel w r buf wr, data r = o -> plan w = [] -> length buf = bufferSize -> length o < fuel ->
  exists r', flushingIoCopy fuel fl RemovePadding rnd np w r buf wr =
    Some (wr + Z.of_nat (length d), copy_error (fin r), MkSink (out w ++ d) [], r')%Z.
Proof.
  pose proof bufferSize_val. induction 1 as [k|k c ps d o Hk Hc Hps Hl Ho IH|k d Hk]; intros fuel w r buf wr Hd Hw Hb Hf.
  - destruct (decide (k < NumFirstPaddings)) as [Hk|Hk].
    + destruct fuel as [|fuel]; [cbn in Hf; lia|].
      assert (Hrd : copy_read RemovePadding rnd k r buf = ([], Some (fin r), r, store 0 [] buf, S k)).
      { unfold copy_read. rewrite bool_decide_true by exact Hk. rewrite (ReadFull_nil 3 r) by (exact Hd || lia).
        rewrite bool_decide_false by (simpl; lia). reflexivity. }
      rewrite (copy_step _ _ _ _ _ _ _ _ _ _ _ _ _ _ Hrd Hw). by exists r.
    + rewrite <- Hd. apply plain_loop; [right; lia|exact Hw|lia|]. rewrite Hd. exact Hf.
  - destruct (copy_read_remove rnd k r buf c ps o Hk Hc Hps Hl Hb Hd) as (r1 & buf' & Hb' & Hr1 & Hf1 & Hrd).
    destruct fuel as [|fuel]; [lia|]. rewrite (copy_step _ _ _ _ _ _ _ _ _ _ _ _ _ _ Hrd Hw).
    rewrite length_app in Hf. unfold frame in Hf. cbn [length app] in Hf.
    destruct (IH fuel (MkSink (out w ++ c) []) r1 buf' (wr + Z.of_nat (length c))%Z) as [r' Hr']; [exact Hr1|reflexivity|exact Hb'|lia|].
    exists r'. rewrite Hr', Hf1, length_app. cbn [out]. rewrite <- app_assoc. f_equal. f_equal. f_equal. f_equal. lia.
  - rewrite <- Hd in Hf |- *. apply plain_loop; [right; lia|exact Hw|lia|exact Hf].
Qed.

(** ** Theorems *)

(** C5: padding is invisible to the payload: what the padding side writes, however its
    source is cut into reads and whatever padding sizes are drawn, the unpadding
    side turns back into exactly the original bytes, however the network cuts
    them, and both copies end without an error. *)
Theorem padding_roundtrip fl1 fl2 rnd1 rnd2 d cs1 cs2 eager1 eager2 buf1 buf2 :
  (forall i, rnd1 i < 256) -> length buf1 = bufferSize -> length buf2 = bufferSize ->
  exists o r1 r2,
    flushingIoCopy (S (length d)) fl1 AddPadding rnd1 0 (MkSink [] []) (MkReader d ErrEOF cs1 eager1) buf1 0 =
      Some (Z.of_nat (length o), None, MkSink o [], r1) /\
    flushingIoCopy (S (length o)) fl2 RemovePadding rnd2 0 (MkSink [] []) (MkReader o ErrEOF cs2 eager2) buf2 0 =
      Some (Z.of_nat (length d), None, MkSink d [], r2).
Proof.
  intros Hrnd Hb1 Hb2.
  destruct (add_loop fl1 rnd1 0 (S (length d)) (MkSink [] []) (MkReader d ErrEOF cs1 eager1) buf1 0)
    as (o & r1 & Ho & Hp); [done|done|done|cbn; lia|].
  destruct (remove_loop fl2 rnd2 0 _ _ Hp (S (length o)) (MkSink [] []) (MkReader o ErrEOF cs2 eager2) buf2 0)
    as [r2 Hr2]; [done|done|done|lia|].
  exists o, r1, r2. split; [exact Ho|exact Hr2].
Qed.

(** Without padding the copy is the identity and total: every byte of the source is
    written once and in order, the loop ends after at most one iteration per byte
    and one more, and it reports the source's error unless that is the end of file. *)
Theorem plain_copy_identity fl rnd r buf :
  0 < length buf ->
  exists r', flushingIoCopy (S (length (data r))) fl NoPadding rnd 0 (MkSink [] []) r buf 0 =
    Some (Z.of_nat (length (data r)), copy_error (fin r), MkSink (data r) [], r').
Proof.
  intros Hb. destruct (plain_loop fl NoPadding rnd 0 (S (length (data r))) (MkSink [] []) r buf 0) as [r' Hr'];
    [by left|done|done|lia|]. by exists r'.
Qed.

(** Without padding, towards a writer whose flushes succeed or that is none, the copy
    is io.CopyBuffer: the same bytes, count and error for every reader and every
    writer, failing and short writes included, and it ends. *)
Theorem unpadded_is_io_copy fl rnd w r buf :
  0 < length buf -> quiet fl w ->
  exists result, CopyBuffer (S (length (data r))) w r buf 0 = Some result /\
    flushingIoCopy (S (length (data r))) fl NoPadding rnd 0 w r buf 0 = Some result.
Proof.
  intros Hb Hq. destruct (CopyBuffer_total (S (length (data r))) w r buf 0) as [result Hr]; [done|lia|].
  exists result. split; [done|]. rewrite <- Hr. apply plain_is_CopyBuffer; [by left|done].
Qed.

(** A frame the unpadding side cannot trust: the padding of an empty frame is not
    skipped, so the next header is read from it, and a payload cut short by the
    end of the stream is reported as a clean end. *)
Lemma unpadding_masks_damage :
  (exists r, flushingIoCopy 20 false RemovePadding (fun _ => 0) 0 (MkSink [] [])
     (MkReader (frame [] 2 ++ frame (go "hi") 0) ErrEOF [] false) (replicate bufferSize zero) 0 =
     Some (1%Z, None, MkSink (go "i") [], r)) /\
  (exists r, flushingIoCopy 20 false RemovePadding (fun _ => 0) 0 (MkSink [] [])
     (MkReader (z_bytes [0; 5; 0]%Z ++ go "hi") ErrEOF [] false) (replicate bufferSize zero) 0 =
     Some (2%Z, None, MkSink (go "hi") [], r)).
Proof. split; eexists; vm_compute; reflexivity. Qed.

Lemma first_candidate_cons v rest : exists c cs, Split v "," = c :: cs /\ first_candidate (v :: rest) = Some c.
Proof. cbn [first_candidate]. destruct (Split_nonempty v ",") as (c & cs & ->). eauto. Qed.

(** Negotiation: without a type request the legacy Padding header alone asks for
    variant 1; with one, the text before the first comma of its first value decides,
    1 and 0 being the only types, and anything else (or no value) is refused. *)
Theorem negotiation h :
  match h !! CanonicalHeaderKey naivePaddingTypeRequestHeader with
  | None => negotiateNaivePadding h =
              Ok (if bool_decide (Get h (go "Padding") = []) then naivePaddingNone else naivePaddingVariant1)
  | Some [] => exists e, negotiateNaivePadding h = Err e
  | Some (v :: _) =>
      exists c rest, Split v "," = c :: rest /\
        (negotiateNaivePadding h = Ok naivePaddingVariant1 <-> TrimSpace c = go "1") /\
        (negotiateNaivePadding h = Ok naivePaddingNone <-> TrimSpace c = go "0") /\
        ((exists e, negotiateNaivePadding h = Err e) <-> TrimSpace c <> go "1" /\ TrimSpace c <> go "0")
  end.
Proof.
  unfold negotiateNaivePadding. destruct (h !! _) as [[|v vs]|]; [by eexists| |by case_bool_decide].
  destruct (first_candidate_cons v vs) as (c & rest & Hs & ->). exists c, rest. split; [done|].
  assert (H01 : go "1" <> go "0") by discriminate. unfold candidate_type, naivePaddingVariant1, naivePaddingNone.
  repeat case_bool_decide; naive_solver congruence.
Qed.

Lemma reply_key : CanonicalHeaderKey naivePaddingTypeReplyHeader = naivePaddingTypeReplyHeader.
Proof. reflexivity. Qed.

Lemma padding_key : CanonicalHeaderKey (go "Padding") = go "Padding".
Proof. reflexivity. Qed.

Lemma code_bytes_spec n bits : length (code_bytes n bits) = n /\ Forall (fun c => c ∈ padding_codes) (code_bytes n bits).
Proof.
  revert bits. induction n as [|n IH]; intros bits; cbn [code_bytes]; [by split|].
  destruct (IH (Z.shiftr bits 4)) as [Hl Hc]. split; [cbn; by rewrite Hl|]. constructor; [|done].
  rewrite list_elem_of_In. apply nth_In. change (Z.land bits 15) with (Z.land bits (Z.ones 4)).
  rewrite Z.land_ones by lia. pose proof (Z.mod_pos_bound bits (2 ^ 4)).
  change (length padding_codes) with 16. lia.
Qed.

(** The padding reply: the response gets one Padding value of 30 to 61 bytes, sixteen
    codes and then tildes, whatever bits are drawn; the chosen type is announced
    exactly to a client that asked for one, and no other response header changes. *)
Theorem padding_reply r32 bits response request t :
  r32 < 32 -> (t = naivePaddingNone \/ t = naivePaddingVariant1) ->
  let response' := setNaivePaddingResponseHeaders r32 bits response request t in
  (exists v, Values response' (go "Padding") = [v] /\ 30 <= length v <= 61 /\
     Forall (fun c => c ∈ padding_codes) (take 16 v) /\ Forall (fun c => c = "~"%char) (drop 16 v)) /\
  Values response' naivePaddingTypeReplyHeader =
    (if bool_decide (is_Some (request !! CanonicalHeaderKey naivePaddingTypeRequestHeader))
     then [Itoa t] else Values response naivePaddingTypeReplyHeader) /\
  (forall k, CanonicalHeaderKey k <> go "Padding" -> CanonicalHeaderKey k <> naivePaddingTypeReplyHeader ->
     Values response' k = Values response k).
Proof.
  intros Hr _ response'. unfold response', setNaivePaddingResponseHeaders.
  set (v := padding_value r32 bits). set (resp1 := Set_ response (go "Padding") v).
  assert (Hp : Values resp1 (go "Padding") = [v]) by apply Values_Set_same.
  destruct (code_bytes_spec 16 bits) as [Hl Hc].
  assert (Hv : 30 <= length v <= 61 /\ Forall (fun c => c ∈ padding_codes) (take 16 v) /\
               Forall (fun c => c = "~"%char) (drop 16 v)).
  { unfold v, padding_value. rewrite length_app, length_replicate, Hl.
    rewrite take_app_length', drop_app_length' by done.
    split; [lia|]. split; [done|]. apply Forall_replicate. done. }
  destruct (request !! _) as [x|]; [rewrite bool_decide_true by done|rewrite bool_decide_false by (by intros [? ?])].
  - split; [exists v; split; [|done]; by rewrite Values_Set_other|].
    split; [apply Values_Set_same|]. intros k H1 H2.
    rewrite Values_Set_other by (rewrite reply_key; congruence).
    apply Values_Set_other. rewrite padding_key. congruence.
  - split; [by exists v|]. split; [by apply Values_Set_other|]. intros k H1 _.
    apply Values_Set_other. rewrite padding_key. congruence.
Qed.

(** ** Witnesses *)

Lemma padding_roundtrip_witness :
  length (replicate bufferSize zero) = bufferSize /\
  exists o r1 r2,
    flushingIoCopy 6 true AddPadding (fun i => i) 0 (MkSink [] []) (MkReader (go "hello") ErrEOF [2; 2] false)
      (replicate bufferSize zero) 0 = Some (Z.of_nat (length o), None, MkSink o [], r1) /\
    flushingIoCopy (S (length o)) false RemovePadding (fun _ => 0) 0 (MkSink [] []) (MkReader o ErrEOF [1; 3] true)
      (replicate bufferSize zero) 0 = Some (5%Z, None, MkSink (go "hello") [], r2).
Proof.
  split; [apply length_replicate|].
  destruct (padding_roundtrip true false (fun i => Nat.min i 255) (fun _ => 0) (go "hello") [2; 2] [1; 3] false true
    (replicate bufferSize zero) (replicate bufferSize zero)) as (o & r1 & r2 & H1 & H2).
  - intros i. lia.
  - apply length_replicate.
  - apply length_replicate.
  - exists o, r1, r2. split; [|exact H2]. rewrite <- H1. vm_compute. reflexivity.
Defined.

Lemma plain_copy_identity_witness :
  exists r', flushingIoCopy 4 true NoPadding (fun _ => 0) 0 (MkSink [] []) (MkReader (go "abc") ErrEOF [1] true)
    (replicate 4 zero) 0 = Some (3%Z, None, MkSink (go "abc") [], r').
Proof.
  apply (plain_copy_identity true (fun _ => 0) (MkReader (go "abc") ErrEOF [1] true) (replicate 4 zero)).
  apply Nat.lt_0_succ.
Defined.

Lemma unpadded_is_io_copy_witness :
  exists result,
    CopyBuffer 4 (MkSink [] [MkPlan 1 None None]) (MkReader (go "abc") ErrEOF [2] true) (replicate 4 zero) 0 = Some result /\
    flushingIoCopy 4 true NoPadding (fun _ => 0) 0 (MkSink [] [MkPlan 1 None None])
      (MkReader (go "abc") ErrEOF [2] true) (replicate 4 zero) 0 = Some result.
Proof.
  apply (unpadded_is_io_copy true (fun _ => 0) (MkSink [] [MkPlan 1 None None]) (MkReader (go "abc") ErrEOF [2] true)
    (replicate 4 zero)).
  - apply Nat.lt_0_succ.
  - right. repeat constructor.
Defined.

Lemma padding_reply_witness :
  length (padding_value 3 5) = 33 /\
  Values (setNaivePaddingResponseHeaders 3 5 ∅ {[ naivePaddingTypeRequestHeader := [go "1, 0"] ]} naivePaddingVariant1)
    naivePaddingTypeReplyHeader = [go "1"].
Proof.
  split; [reflexivity|].
  destruct (padding_reply 3 5 ∅ {[ naivePaddingTypeRequestHeader := [go "1, 0"] ]} naivePaddingVariant1) as (_ & H & _).
  - lia.
  - right. reflexivity.
  - rewrite H. vm_compute. reflexivity.
Defined.
