(* ===== verification/Headers.v ===== *)
(** * Hop-by-hop headers and the forwarded response: forwardproxy.go

    removeHopByHop and forwardResponse.  A Go map is ranged over in an unspecified
    order: the order is an argument, constrained to enumerate the map. *)

From stdpp Require Import base decidable numbers list gmap strings.
From Stdlib Require Import ZArith Lia Ascii.
From S2P Require Import Prelude GoStrings GoNet GoHttp Padding.

Definition hopByHopHeaders : list gostring :=
  [go "Keep-Alive"; go "Proxy-Authenticate"; go "Proxy-Authorization"; go "Upgrade"; go "Connection";
   go "Proxy-Connection"; go "Te"; go "Trailer"; go "Transfer-Encoding"].

(** The names the first Connection value lists. *)
Definition connection_names (header : Header) : list gostring :=
  TrimSpace <$> Split (Get header (go "Connection")) ",".

Definition removeHopByHop (header : Header) : Header :=
  let connectionHeaders := Get header (go "Connection") in
  let header := foldl (fun hd h => Del hd (TrimSpace h)) header (Split connectionHeaders ",") in
  foldl (fun hd h => Del hd h) header hopByHopHeaders.

(** ** forwardResponse *)

Record Response := MkResponse {
  StatusCode : Z;
  Resp_ProtoMajor : Z;
  Resp_ProtoMinor : Z;
  Resp_Header : Header;
  Resp_Body : reader;
}.

(** The response writer: its header map, the status sent, and the body. *)
Record respWriter := MkRW { rw_header : Header; rw_status : option Z; rw_body : sink }.

Definition set_rw_header (w : respWriter) (h : Header) : respWriter := MkRW h (rw_status w) (rw_body w).

(** [WriteHeader]: the first status counts.  A body byte sends 200 before it. *)
Definition WriteHeader (w : respWriter) (status : Z) : respWriter :=
  MkRW (rw_header w) (Some (default status (rw_status w))) (rw_body w).

(** A write whose outcome the caller ignores. *)
Definition WriteString (w : respWriter) (p : list byte) : respWriter :=
  let w := WriteHeader w StatusOK in
  let '(_, _, _, body) := Write p (rw_body w) in MkRW (rw_header w) (rw_status w) body.

Definition via_value (major minor : Z) : gostring := Itoa major ++ go "." ++ Itoa minor ++ go " caddy".

Definition add_all (h : Header) (entries : list (gostring * list gostring)) : Header :=
  foldl (fun h e => foldl (fun h v => Add h e.1 v) h e.2) h entries.

(** [order] lists the response headers in the order the loop meets them; [buf] is
    the pooled buffer.  The fuel of the copy is enough: [CopyBuffer_total]. *)
Definition forwardResponse (order : list (gostring * list gostring)) (buf : list byte) (w : respWriter)
    (response : Response) : respWriter * option error :=
  let h := Del (rw_header w) (go "Server") in
  let h := Add h (go "Via") (via_value (Resp_ProtoMajor response) (Resp_ProtoMinor response)) in
  let h := removeHopByHop (add_all h order) in
  let w := WriteHeader (set_rw_header w h) (StatusCode response) in
  let body := Resp_Body response in
  let '(_, err, sent, _) :=
    default (0%Z, None, rw_body w, body) (CopyBuffer (S (length (data body))) (rw_body w) body buf 0) in
  (MkRW (rw_header w) (rw_status w) sent, err).

(** ** Lemmas *)

Lemma foldl_Del_lookup names h k :
  foldl (fun hd x => Del hd x) h names !! k =
  if decide (k ∈ CanonicalHeaderKey <$> names) then None else h !! k.
Proof.
  revert h. induction names as [|n names IH]; intros h; cbn [foldl].
  - rewrite decide_False; [done|]. apply not_elem_of_nil.
  - rewrite IH, fmap_cons. unfold Del. destruct (decide (k ∈ CanonicalHeaderKey <$> names)) as [Hin|Hn].
    + rewrite decide_True by by right. done.
    + destruct (decide (CanonicalHeaderKey n = k)) as [<-|Hne].
      * rewrite lookup_delete_eq, decide_True by left. done.
      * rewrite lookup_delete_ne, decide_False by (rewrite ?not_elem_of_cons; auto). done.
Qed.

Lemma foldl_Del_fmap (f : gostring -> gostring) names h :
  foldl (fun hd x => Del hd (f x)) h names = foldl (fun hd x => Del hd x) h (f <$> names).
Proof. revert h. induction names as [|n names IH]; intros h; [done|]. cbn [foldl]. by rewrite IH. Qed.

Lemma hop_names_canonical : CanonicalHeaderKey <$> hopByHopHeaders = hopByHopHeaders.
Proof. vm_compute. reflexivity. Qed.

Lemma removeHopByHop_lookup h k :
  removeHopByHop h !! k =
  if decide (k ∈ hopByHopHeaders ++ (CanonicalHeaderKey <$> connection_names h)) then None else h !! k.
Proof.
  unfold removeHopByHop. rewrite foldl_Del_lookup, hop_names_canonical, foldl_Del_fmap, foldl_Del_lookup.
  fold (connection_names h).
  destruct (decide (k ∈ hopByHopHeaders)); [by rewrite decide_True by (apply elem_of_app; auto)|].
  destruct (decide (k ∈ CanonicalHeaderKey <$> connection_names h));
    [by rewrite decide_True by (apply elem_of_app; auto)|].
  rewrite decide_False; [done|]. rewrite elem_of_app. tauto.
Qed.

Lemma foldl_Add_lookup vs h key k :
  vs <> [] ->
  foldl (fun h v => Add h key v) h vs !! k =
  if decide (CanonicalHeaderKey key = k) then Some (default [] (h !! k) ++ vs) else h !! k.
Proof.
  revert h. induction vs as [|v vs IH]; intros h Hne; [done|]. cbn [foldl].
  assert (H1 : Add h key v !! k =
    if decide (CanonicalHeaderKey key = k) then Some (default [] (h !! k) ++ [v]) else h !! k).
  { unfold Add. case_decide as E; [subst; by rewrite lookup_insert_eq|by rewrite lookup_insert_ne]. }
  destruct vs as [|v' vs]; [done|]. rewrite IH, H1 by done. case_decide; [|done].
  f_equal. unfold default, from_option, id. by rewrite <- (app_assoc _ [v]).
Qed.

(** The values of one canonical key in a list of headers with distinct keys. *)
Lemma add_all_lookup entries h k :
  NoDup entries.*1 -> Forall (fun e => CanonicalHeaderKey e.1 = e.1 /\ e.2 <> []) entries ->
  default [] (add_all h entries !! k) =
  default [] (h !! k) ++ default [] ((list_to_map entries : Header) !! k).
Proof.
  unfold add_all. revert h. induction entries as [|[key vs] entries IH]; intros h Hnd Hc; cbn [foldl].
  { change (list_to_map [] : Header) with (∅ : Header). rewrite lookup_empty. by rewrite app_nil_r. }
  rewrite fmap_cons in Hnd. apply NoDup_cons in Hnd as [Hk Hnd]. apply Forall_cons in Hc as [[Hck Hne] Hc].
  cbn [fst snd] in *. rewrite IH by done. rewrite foldl_Add_lookup by done. rewrite list_to_map_cons, Hck.
  case_decide as E; subst.
  - rewrite lookup_insert_eq. unfold default at 3, from_option, id. rewrite (not_elem_of_list_to_map_1 entries) by done.
    by rewrite app_nil_r.
  - by rewrite lookup_insert_ne.
Qed.

(** ** Theorems *)

(** Hop-by-hop removal is exact: a key is removed exactly when it is one of the nine
    listed headers or, canonicalised, a name of the first Connection value; every
    other key keeps its values, and a second removal changes nothing (the empty key,
    which no parsed request has, excepted). *)
Theorem removeHopByHop_exact h :
  (forall k, removeHopByHop h !! k =
     if decide (k ∈ hopByHopHeaders ++ (CanonicalHeaderKey <$> connection_names h)) then None else h !! k) /\
  (h !! [] = None -> removeHopByHop (removeHopByHop h) = removeHopByHop h).
Proof.
  split; [apply removeHopByHop_lookup|]. intros Hempty. apply map_eq. intros k.
  assert (Hconn : Get (removeHopByHop h) (go "Connection") = []).
  { unfold Get, Values. rewrite removeHopByHop_lookup, decide_True; [done|].
    apply elem_of_app. left. do 4 right. left. }
  rewrite (removeHopByHop_lookup (removeHopByHop h)). unfold connection_names. rewrite Hconn.
  case_decide as Hin; [|done]. rewrite removeHopByHop_lookup. case_decide as Hn; [done|].
  apply elem_of_app in Hin as [Hin|Hin]; [destruct Hn; apply elem_of_app; by left|].
  change (CanonicalHeaderKey <$> (TrimSpace <$> Split [] ",")) with [@nil byte] in Hin.
  apply list_elem_of_singleton in Hin as ->. done.
Qed.

(** The headers of a forwarded response, key by key: the proxy's own (Server dropped, a
    Via added whatever hide_via says) followed by the upstream's, without the hop-by-hop
    ones. *)
Lemma forwardResponse_headers order buf w resp :
  0 < length buf -> order ≡ₚ map_to_list (Resp_Header resp) ->
  (forall k vs, Resp_Header resp !! k = Some vs -> CanonicalHeaderKey k = k /\ vs <> []) ->
  let own := Add (Del (rw_header w) (go "Server")) (go "Via") (via_value (Resp_ProtoMajor resp) (Resp_ProtoMinor resp)) in
  let all k := default [] (own !! k) ++ default [] (Resp_Header resp !! k) in
  let '(w', err) := forwardResponse order buf w resp in
  (forall k, default [] (rw_header w' !! k) =
     if decide (k ∈ hopByHopHeaders ++
                  (CanonicalHeaderKey <$> (TrimSpace <$> Split (hd [] (all (go "Connection"))) ",")))
     then [] else all k) /\
  rw_status w' = Some (default (StatusCode resp) (rw_status w)) /\
  (plan (rw_body w) = [] ->
     rw_body w' = MkSink (out (rw_body w) ++ data (Resp_Body resp)) [] /\ err = copy_error (fin (Resp_Body resp))).
Proof.
  intros Hbuf Hord Hcan own all. unfold forwardResponse. fold own.
  pose proof (CopyBuffer_total (S (length (data (Resp_Body resp)))) (rw_body w) (Resp_Body resp) buf 0 Hbuf) as [x Hx]; [lia|].
  cbn [WriteHeader set_rw_header rw_body rw_header rw_status]. rewrite Hx. destruct x as [[[n err] sent] rest].
  cbn [from_option id WriteHeader set_rw_header rw_header rw_status rw_body].
  assert (Hnd : NoDup order.*1) by (rewrite Hord; apply NoDup_fst_map_to_list).
  assert (Hmap : (list_to_map order : Header) = Resp_Header resp).
  { rewrite (list_to_map_proper _ _ Hnd Hord). apply list_to_map_to_list. }
  assert (Hall : forall k, default [] (add_all own order !! k) = all k).
  { intros k. unfold all. rewrite add_all_lookup, Hmap; [done|done|]. apply Forall_forall. intros [key vs] Hin.
    rewrite Hord in Hin. apply elem_of_map_to_list in Hin. by apply Hcan. }
  split.
  2: { split; [done|]. intros Hp.
       destruct (plain_loop false NoPadding (fun _ => 0) 0 (S (length (data (Resp_Body resp)))) (rw_body w) (Resp_Body resp)
         buf 0) as [r' Hr']; [by left|done|done|lia|].
       rewrite plain_is_CopyBuffer, Hx in Hr' by (by left). by injection Hr' as _ -> -> _. }
  intros k. rewrite removeHopByHop_lookup.
  assert (Hg : Get (add_all own order) (go "Connection") = hd [] (all (go "Connection"))).
  { unfold Get, Values. change (CanonicalHeaderKey (go "Connection")) with (go "Connection"). rewrite Hall.
    by destruct (all (go "Connection")). }
  unfold connection_names. rewrite Hg. case_decide; [done|]. apply Hall.
Qed.

(** C35: a forwarded response carries exactly the upstream's end-to-end headers: for every
    key but Via the values are those the writer had (Server dropped) followed by the
    upstream's, except that hop-by-hop keys and those the first combined Connection value
    names are gone, and the values of Via end with the upstream's; the order in which Go
    ranges over the header map does not matter; the status is passed on, and the whole body
    when the client takes it, with the error the upstream's body ended with. *)
Theorem forwardResponse_end_to_end order buf w resp :
  0 < length buf -> order ≡ₚ map_to_list (Resp_Header resp) ->
  (forall k vs, Resp_Header resp !! k = Some vs -> CanonicalHeaderKey k = k /\ vs <> []) ->
  let all k := default [] (Del (rw_header w) (go "Server") !! k) ++ default [] (Resp_Header resp !! k) in
  let dropped := hopByHopHeaders ++ (CanonicalHeaderKey <$> (TrimSpace <$> Split (hd [] (all (go "Connection"))) ",")) in
  let '(w', err) := forwardResponse order buf w resp in
  (forall k, k <> go "Via" -> default [] (rw_header w' !! k) = if decide (k ∈ dropped) then [] else all k) /\
  (go "Via" ∉ dropped -> exists before, default [] (rw_header w' !! go "Via") = before ++ default [] (Resp_Header resp !! go "Via")) /\
  rw_status w' = Some (default (StatusCode resp) (rw_status w)) /\
  (plan (rw_body w) = [] ->
     rw_body w' = MkSink (out (rw_body w) ++ data (Resp_Body resp)) [] /\ err = copy_error (fin (Resp_Body resp))).
Proof.
  intros Hbuf Hord Hcan. cbv zeta. pose proof (forwardResponse_headers order buf w resp Hbuf Hord Hcan) as Hf.
  destruct (forwardResponse order buf w resp) as [w' err]. cbv zeta in Hf. destruct Hf as (Hk & Hrest).
  assert (Hown : forall k, k <> go "Via" ->
    Add (Del (rw_header w) (go "Server")) (go "Via") (via_value (Resp_ProtoMajor resp) (Resp_ProtoMinor resp)) !! k =
    Del (rw_header w) (go "Server") !! k).
  { intros k Hne. by rewrite Add_lookup, decide_False by (change (CanonicalHeaderKey (go "Via")) with (go "Via"); done). }
  rewrite (Hown (go "Connection")) in Hk by done. split; [|split; [|exact Hrest]].
  - intros k Hne. rewrite Hk. by rewrite Hown.
  - intros Hd. rewrite Hk, decide_False by done. by eexists.
Qed.

(** ** Witnesses *)

Definition example_response : Response :=
  MkResponse 204 1 1 (list_to_map [(go "Connection", [go "close, x-secret"]); (go "X-Secret", [go "1"]); (go "Age", [go "5"])])
    (MkReader (go "body") ErrEOF [] false).

Lemma removeHopByHop_exact_witness :
  removeHopByHop (removeHopByHop (Resp_Header example_response)) = removeHopByHop (Resp_Header example_response) /\
  removeHopByHop (Resp_Header example_response) !! go "X-Secret" = None.
Proof.
  split; [|vm_compute; reflexivity]. apply (removeHopByHop_exact (Resp_Header example_response)).
  vm_compute. reflexivity.
Defined.

Lemma forwardResponse_end_to_end_witness :
  let '(w', _) := forwardResponse (map_to_list (Resp_Header example_response)) [zero] (MkRW ∅ None (MkSink [] []))
                    example_response in
  rw_status w' = Some 204%Z /\ out (rw_body w') = go "body".
Proof.
  pose proof (forwardResponse_end_to_end (map_to_list (Resp_Header example_response)) [zero] (MkRW ∅ None (MkSink [] []))
    example_response) as H.
  destruct (forwardResponse _ _ _ _) as [w' err]. destruct H as (_ & _ & Hs & Hb).
  - apply Nat.lt_0_succ.
  - reflexivity.
  - intros k vs Hk%elem_of_list_to_map_2.
    repeat (apply elem_of_cons in Hk as [[= -> ->]|Hk]; [split; [vm_compute; reflexivity|discriminate]|]).
    by apply not_elem_of_nil in Hk.
  - split; [exact Hs|]. destruct (Hb eq_refl) as [-> _]. reflexivity.
Defined.
