(* ===== verification/Auth.v ===== *)
(** * Proxy authentication: EncodeAuthCredentials of caddyfile.go and checkCredentials

    Standard base64 (encoding/base64) and UTF-8 validity (unicode/utf8) as the
    standard library computes them, the credential the Caddyfile stores, and the
    check of a request, with the user identifier it records for the access log. *)

From stdpp Require Import base decidable numbers list gmap strings.
From Stdlib Require Import ZArith Lia Ascii.
From S2P Require Import Prelude GoStrings GoNet GoHttp.

(** ** base64.StdEncoding *)

Definition b64_char (v : Z) : byte :=
  if (v <? 26)%Z then byte_of_Z (65 + v)
  else if (v <? 52)%Z then byte_of_Z (71 + v)
  else if (v <? 62)%Z then byte_of_Z (v - 4)
  else if (v =? 62)%Z then "+"%char else "/"%char.

Definition b64_val (c : byte) : option Z :=
  if is_upper c then Some (Z_of_byte c - 65)%Z
  else if is_lower c then Some (Z_of_byte c - 71)%Z
  else if is_digit c then Some (Z_of_byte c + 4)%Z
  else if byte_eqb c "+" then Some 62%Z
  else if byte_eqb c "/" then Some 63%Z
  else None.

Fixpoint b64_encode (s : list byte) : gostring :=
  match s with
  | [] => []
  | [a] =>
      let x := Z_of_byte a in
      [b64_char (x `div` 4); b64_char (x `mod` 4 * 16); "="; "="]%char
  | [a; b] =>
      let x := Z_of_byte a in let y := Z_of_byte b in
      [b64_char (x `div` 4); b64_char (x `mod` 4 * 16 + y `div` 16); b64_char (y `mod` 16 * 4); "="%char]
  | a :: b :: c :: rest =>
      let x := Z_of_byte a in let y := Z_of_byte b in let z := Z_of_byte c in
      b64_char (x `div` 4) :: b64_char (x `mod` 4 * 16 + y `div` 16) ::
      b64_char (y `mod` 16 * 4 + z `div` 64) :: b64_char (z `mod` 64) :: b64_encode rest
  end%Z.

(** Four characters at a time, padding only at the end: the bytes [Decode] has stored when
    it returns, and whether it returned without an error.  What was stored before an error
    stays in the buffer, and a quantum with padding is stored even if characters follow. *)
Fixpoint b64_quanta (s : gostring) : list byte * bool :=
  match s with
  | [] => ([], true)
  | a :: b :: c :: d :: rest =>
      match b64_val a, b64_val b with
      | Some x, Some y =>
          match b64_val c, b64_val d with
          | Some z, Some w =>
              let '(r, ok) := b64_quanta rest in
              (byte_of_Z (x * 4 + y `div` 16) :: byte_of_Z (y `mod` 16 * 16 + z `div` 4) ::
               byte_of_Z (z `mod` 4 * 64 + w) :: r, ok)
          | Some z, None =>
              if byte_eqb d "=" then
                ([byte_of_Z (x * 4 + y `div` 16); byte_of_Z (y `mod` 16 * 16 + z `div` 4)], bool_decide (rest = []))
              else ([], false)
          | None, _ =>
              if byte_eqb c "=" && byte_eqb d "=" then ([byte_of_Z (x * 4 + y `div` 16)], bool_decide (rest = []))
              else ([], false)
          end
      | _, _ => ([], false)
      end
  | _ => ([], false)
  end%Z.

(** The decoder skips carriage returns and line feeds. *)
Definition b64_store (s : gostring) : list byte * bool :=
  b64_quanta (filter (fun c => c <> "010"%char /\ c <> "013"%char) s).

Definition b64_decode (s : gostring) : option (list byte) :=
  let '(stored, ok) := b64_store s in if ok then Some stored else None.

(** [base64.StdEncoding.DecodedLen], and the zeroed buffer of that length after [Decode]. *)
Definition DecodedLen (n : nat) : nat := n `div` 4 * 3.

Definition b64_buffer (s : gostring) : list byte :=
  let len := DecodedLen (length s) in take len ((b64_store s).1 ++ replicate len "000"%char).

Definition EncodeAuthCredentials (user pass : gostring) : gostring := b64_encode (user ++ go ":" ++ pass).

(** ** utf8.Valid *)

Definition cont (c : byte) : bool := in_range "128" "191" c.

Fixpoint utf8_valid (s : list byte) : bool :=
  match s with
  | [] => true
  | a :: s1 =>
      if is_ascii a then utf8_valid s1
      else match s1 with
      | b :: s2 =>
          if in_range "194" "223" a && cont b then utf8_valid s2
          else match s2 with
          | c :: s3 =>
              if (in_range "224" "224" a && in_range "160" "191" b ||
                  (in_range "225" "236" a || in_range "238" "239" a) && cont b ||
                  in_range "237" "237" a && in_range "128" "159" b) && cont c then utf8_valid s3
              else match s3 with
              | d :: s4 =>
                  (in_range "240" "240" a && in_range "144" "191" b || in_range "241" "243" a && cont b ||
                   in_range "244" "244" a && in_range "128" "143" b) && cont c && cont d && utf8_valid s4
              | [] => false
              end
          | [] => false
          end
      | [] => false
      end
  end.

(** ** checkCredentials *)

(** What a check does: the error it returns with the identifier it recorded, if
    any; or a run-time panic. *)
Inductive authResult :=
  | AuthOk (userId : gostring)
  | AuthErr (err : error) (userId : option gostring)
  | AuthPanic.

Definition errInvalidCredentials : error := ErrMsg (go "invalid credentials").

Section Check.
Context `{UnicodeTables}.
(** The text of [base64.CorruptInputError]. *)
Variable decode_error : gostring -> gostring.

(** The credential that matches: its buffer up to the first colon is the user, a decode
    error being ignored; the slice expression panics when there is none. *)
Definition accept_credential (creds : gostring) : authResult :=
  let cred := b64_buffer creds in
  match IndexByte cred ":" with
  | Some i => AuthOk (take i cred)
  | None => AuthPanic
  end.

Definition rejected_id (token : gostring) : error * gostring :=
  match b64_decode token with
  | None => (ErrMsg (decode_error token), go "invalidbase64:" ++ decode_error token)
  | Some buf =>
      (errInvalidCredentials,
       if utf8_valid buf then
         match IndexByte buf ":" with
         | Some i => go "invalid:" ++ take i buf
         | None => go "invalidformat:" ++ buf
         end
       else go "invalid::")
  end.

Definition checkCredentials (AuthCredentials : list gostring) (header : Header) : authResult :=
  match Split (Get header (go "Proxy-Authorization")) " " with
  | [scheme; token] =>
      if negb (bool_decide (ToLower scheme = go "basic")) then
        AuthErr (ErrMsg (go "auth type is not supported")) None
      else
        match list_find (fun creds => creds = token) AuthCredentials with
        | Some (_, creds) => accept_credential creds
        | None => let '(err, userId) := rejected_id token in AuthErr err (Some userId)
        end
  | _ => AuthErr (ErrMsg (go "Proxy-Authorization is required! Expected format: <type> <credentials>")) None
  end.
End Check.

(** ** Lemmas *)

Lemma b64_val_char v : (0 <= v < 64)%Z -> b64_val (b64_char v) = Some v.
Proof.
  intros Hv. assert (Hn : exists n, n < 64 /\ v = Z.of_nat n) by (exists (Z.to_nat v); lia).
  destruct Hn as (n & Hn & ->). do 64 (destruct n as [|n]; [vm_compute; reflexivity|]). lia.
Qed.

Lemma b64_char_not_eq v : (0 <= v < 64)%Z -> b64_char v <> "="%char /\ b64_char v <> "010"%char /\ b64_char v <> "013"%char /\ b64_char v <> " "%char.
Proof.
  intros Hv. pose proof (b64_val_char v Hv) as Hb. repeat split; intros E; rewrite E in Hb; vm_compute in Hb; done.
Qed.

(** Encoded text is padding and characters of the alphabet. *)
Definition b64_text (c : byte) : Prop := c <> "010"%char /\ c <> "013"%char /\ c <> " "%char.

Ltac sextets :=
  repeat match goal with
  | |- context [Z_of_byte ?a] =>
      lazymatch goal with H : (0 <= Z_of_byte a < 256)%Z |- _ => fail | _ => pose proof (Z_of_byte_range a) end
  end.

Lemma b64_encode_ind (P : list byte -> Prop) :
  P [] -> (forall a, P [a]) -> (forall a b, P [a; b]) -> (forall a b c l, P l -> P (a :: b :: c :: l)) -> forall l, P l.
Proof.
  intros H0 H1 H2 H3. fix IH 1. intros [|a [|b [|c l]]]; [done|apply H1|apply H2|apply H3, IH].
Qed.

Lemma sextet_bounds x y z :
  (0 <= x < 256 -> 0 <= y < 256 -> 0 <= z < 256 ->
   0 <= x `div` 4 < 64 /\ 0 <= x `mod` 4 * 16 < 64 /\ 0 <= x `mod` 4 * 16 + y `div` 16 < 64 /\
   0 <= y `mod` 16 * 4 < 64 /\ 0 <= y `mod` 16 * 4 + z `div` 64 < 64 /\ 0 <= z `mod` 64 < 64)%Z.
Proof.
  intros. pose proof (Z.mod_pos_bound x 4). pose proof (Z.mod_pos_bound y 16). pose proof (Z.mod_pos_bound z 64).
  assert (0 <= x `div` 4 < 64)%Z by (split; [apply Z.div_pos|apply Z.div_lt_upper_bound]; lia).
  assert (0 <= y `div` 16 < 16)%Z by (split; [apply Z.div_pos|apply Z.div_lt_upper_bound]; lia).
  assert (0 <= z `div` 64 < 4)%Z by (split; [apply Z.div_pos|apply Z.div_lt_upper_bound]; lia). lia.
Qed.

(** The bytes a quantum gives back. *)
Lemma sextet_join x y z :
  (0 <= x < 256 -> 0 <= y < 256 -> 0 <= z < 256 ->
   x `div` 4 * 4 + (x `mod` 4 * 16 + y `div` 16) `div` 16 = x /\
   x `div` 4 * 4 + (x `mod` 4 * 16) `div` 16 = x /\
   (x `mod` 4 * 16 + y `div` 16) `mod` 16 * 16 + (y `mod` 16 * 4 + z `div` 64) `div` 4 = y /\
   (x `mod` 4 * 16 + y `div` 16) `mod` 16 * 16 + (y `mod` 16 * 4) `div` 4 = y /\
   (y `mod` 16 * 4 + z `div` 64) `mod` 4 * 64 + z `mod` 64 = z)%Z.
Proof. intros. repeat split; Z.to_euclidean_division_equations; lia. Qed.

Lemma b64_encode_text s : Forall b64_text (b64_encode s).
Proof.
  assert (Hc : forall v, (0 <= v < 64)%Z -> b64_text (b64_char v)) by (intros v Hv; by apply b64_char_not_eq).
  assert (He : b64_text "="%char) by done.
  induction s as [|a|a b|a b c l IH] using b64_encode_ind; cbn [b64_encode]; sextets.
  - constructor.
  - destruct (sextet_bounds (Z_of_byte a) 0 0) as (? & ? & ? & ? & ? & ?); try lia. repeat (apply Forall_cons_2; [by auto|]). constructor.
  - destruct (sextet_bounds (Z_of_byte a) (Z_of_byte b) 0) as (? & ? & ? & ? & ? & ?); try lia. repeat (apply Forall_cons_2; [by auto|]). constructor.
  - destruct (sextet_bounds (Z_of_byte a) (Z_of_byte b) (Z_of_byte c)) as (? & ? & ? & ? & ? & ?); try lia.
    repeat (apply Forall_cons_2; [by auto|]). done.
Qed.

Lemma b64_quanta_encode s : b64_quanta (b64_encode s) = (s, true).
Proof.
  induction s as [|a|a b|a b c l IH] using b64_encode_ind; cbn [b64_encode b64_quanta]; sextets; [done|..].
  - destruct (sextet_bounds (Z_of_byte a) 0 0) as (? & ? & _); try lia.
    destruct (sextet_join (Z_of_byte a) 0 0) as (_ & E & _); try lia.
    rewrite !b64_val_char by done. cbn -[Z.div Z.modulo]. by rewrite E, byte_of_Z_of_byte.
  - destruct (sextet_bounds (Z_of_byte a) (Z_of_byte b) 0) as (? & _ & ? & ? & _); try lia.
    destruct (sextet_join (Z_of_byte a) (Z_of_byte b) 0) as (E1 & _ & _ & E2 & _); try lia.
    rewrite !b64_val_char by done. cbn -[Z.div Z.modulo]. by rewrite E1, E2, !byte_of_Z_of_byte.
  - destruct (sextet_bounds (Z_of_byte a) (Z_of_byte b) (Z_of_byte c)) as (? & _ & ? & _ & ? & ?); try lia.
    destruct (sextet_join (Z_of_byte a) (Z_of_byte b) (Z_of_byte c)) as (E1 & _ & E2 & _ & E3); try lia.
    rewrite !b64_val_char, IH by done. by rewrite E1, E2, E3, !byte_of_Z_of_byte.
Qed.

Lemma filter_all {A} (P : A -> Prop) `{forall x, Decision (P x)} l : Forall P l -> filter P l = l.
Proof. induction 1 as [|x l Hx _ IH]; [done|]. rewrite filter_cons, decide_True by done. by rewrite IH. Qed.

Lemma b64_store_encode s : b64_store (b64_encode s) = (s, true).
Proof.
  unfold b64_store. rewrite filter_all; [apply b64_quanta_encode|].
  eapply Forall_impl; [apply b64_encode_text|]. by intros c (? & ? & _).
Qed.

Lemma b64_decode_encode s : b64_decode (b64_encode s) = Some s.
Proof. unfold b64_decode. by rewrite b64_store_encode. Qed.

(** The buffer has room for what was encoded. *)
Lemma DecodedLen_encode s : length s <= DecodedLen (length (b64_encode s)).
Proof.
  unfold DecodedLen. induction s as [|a|a b|a b c l IH] using b64_encode_ind; cbn [b64_encode length]; try (cbn; lia).
  change (Datatypes.S (Datatypes.S (Datatypes.S (Datatypes.S (length (b64_encode l)))))) with (1 * 4 + length (b64_encode l)).
  rewrite Nat.div_add_l by lia. lia.
Qed.

(** The encoding separates credentials. *)
Lemma b64_encode_inj s t : b64_encode s = b64_encode t -> s = t.
Proof. intros E. apply (inj Some). by rewrite <- !b64_decode_encode, E. Qed.

(** A token: the text after the scheme has no space. *)
Lemma basic_header scheme token :
  " "%char ∉ scheme -> " "%char ∉ token -> Split (scheme ++ " "%char :: token) " " = [scheme; token].
Proof. intros Hs Ht. by rewrite Split_app, Split_none. Qed.

Lemma encoded_no_space s : " "%char ∉ b64_encode s.
Proof. intros Hin. apply (proj1 (Forall_forall _ _) (b64_encode_text s)) in Hin as (_ & _ & ?). done. Qed.

Lemma list_find_eq {A} `{EqDecision A} (l : list A) x :
  match list_find (fun y => y = x) l with Some (_, y) => y = x /\ x ∈ l | None => x ∉ l end.
Proof.
  destruct (list_find _ l) as [[i y]|] eqn:E.
  - apply list_find_Some in E as (Hi & -> & _). split; [done|]. by eapply list_elem_of_lookup_2.
  - apply list_find_None in E. intros Hin. by apply (proj1 (Forall_forall _ _) E x Hin).
Qed.

Lemma accept_encoded user pass : ":"%char ∉ user -> accept_credential (EncodeAuthCredentials user pass) = AuthOk user.
Proof.
  intros Hu. unfold accept_credential, b64_buffer, EncodeAuthCredentials. rewrite b64_store_encode. cbn [fst].
  rewrite take_app, take_ge by apply DecodedLen_encode. rewrite <- app_assoc.
  change ((go ":" ++ pass) ++ ?t) with (":"%char :: (pass ++ t)). rewrite IndexByte_app by done. by rewrite take_app_length.
Qed.

(** A configured credential is accepted. *)
Lemma configured_accepted `{UnicodeTables} decode_error creds header scheme user pass :
  ":"%char ∉ user -> ToLower scheme = go "basic" -> " "%char ∉ scheme ->
  Get header (go "Proxy-Authorization") = scheme ++ " "%char :: EncodeAuthCredentials user pass ->
  EncodeAuthCredentials user pass ∈ creds -> checkCredentials decode_error creds header = AuthOk user.
Proof.
  intros Hu Hs Hsp Hget Hin. unfold checkCredentials. rewrite Hget, basic_header by (done || apply encoded_no_space).
  rewrite bool_decide_true by done. cbn [negb]. pose proof (list_find_eq creds (EncodeAuthCredentials user pass)) as Hf.
  destruct (list_find _ creds) as [[i c]|]; [destruct Hf as [-> _]; by apply accept_encoded|done].
Qed.

(** Only a configured credential is accepted. *)
Lemma accepted_configured `{UnicodeTables} decode_error creds header user :
  checkCredentials decode_error creds header = AuthOk user ->
  exists scheme token, Split (Get header (go "Proxy-Authorization")) " " = [scheme; token] /\
    ToLower scheme = go "basic" /\ token ∈ creds /\ accept_credential token = AuthOk user.
Proof.
  unfold checkCredentials. destruct (Split _ _) as [|scheme [|token [|]]]; try done.
  case_bool_decide as Hs; [|done]. cbn [negb]. pose proof (list_find_eq creds token) as Hf.
  destruct (list_find _ _) as [[i c]|]; [|by destruct (rejected_id decode_error token)].
  destruct Hf as [-> Hin]. intros Ha. by exists scheme, token.
Qed.

(** ** Theorems *)

(** With configured users, what the check says of a request: its user, or a refusal. *)
Lemma credentials_exact_users `{UnicodeTables} decode_error users header :
  Forall (fun up => ":"%char ∉ up.1) users ->
  forall user, checkCredentials decode_error ((fun up => EncodeAuthCredentials up.1 up.2) <$> users) header = AuthOk user <->
    exists scheme pass, (user, pass) ∈ users /\ ToLower scheme = go "basic" /\
      Split (Get header (go "Proxy-Authorization")) " " = [scheme; EncodeAuthCredentials user pass].
Proof.
  intros Hall user. split.
  - intros (scheme & token & Hs & Hb & ([u p] & -> & Hup)%list_elem_of_fmap & Hok)%accepted_configured. cbn [fst snd] in *.
    rewrite accept_encoded in Hok by (by apply (proj1 (Forall_forall _ _) Hall) in Hup). injection Hok as <-. by exists scheme, p.
  - intros (scheme & pass & Hup & Hb & Hs). unfold checkCredentials. rewrite Hs, bool_decide_true by done. cbn [negb].
    pose proof (list_find_eq ((fun up => EncodeAuthCredentials up.1 up.2) <$> users) (EncodeAuthCredentials user pass)) as Hf.
    destruct (list_find _ _) as [[i c]|].
    + destruct Hf as [-> _]. apply accept_encoded. by apply (proj1 (Forall_forall _ _) Hall) in Hup.
    + destruct Hf. apply list_elem_of_fmap. by exists (user, pass).
Qed.

(** A check that does not accept with such credentials does not panic, and marks what it
    records. *)
Lemma refused_marked `{UnicodeTables} decode_error users header :
  Forall (fun up => ":"%char ∉ up.1) users ->
  match checkCredentials decode_error ((fun up => EncodeAuthCredentials up.1 up.2) <$> users) header with
  | AuthOk _ | AuthErr _ None => True
  | AuthErr _ (Some id) => exists text, id = go "invalid" ++ text
  | AuthPanic => False
  end.
Proof.
  intros Hall. unfold checkCredentials. destruct (Split _ _) as [|scheme [|token [|]]]; try done. destruct (negb _); [done|].
  pose proof (list_find_eq ((fun up => EncodeAuthCredentials up.1 up.2) <$> users) token) as Hf.
  destruct (list_find _ _) as [[i c]|].
  - destruct Hf as [-> ([u p] & -> & Hup)%list_elem_of_fmap]. rewrite accept_encoded; [done|].
    by apply (proj1 (Forall_forall _ _) Hall) in Hup.
  - unfold rejected_id. destruct (b64_decode token) as [buf|]; [destruct (utf8_valid buf); [destruct (IndexByte buf ":")|]|];
      by eexists.
Qed.

(** C34: credentials: with the credentials a Caddyfile stores (no user name has a colon), a
    request authenticates as a user exactly when its Proxy-Authorization is the Basic
    scheme, in any letter case, one space, and the encoding of that user with a password
    configured for it.  Every other value, be it malformed, no base64, without a colon or
    with a wrong password, is refused, never with a panic, and the identifier recorded for
    it, if any, is marked as invalid. *)
Theorem credentials_exact `{UnicodeTables} decode_error users header :
  Forall (fun up => ":"%char ∉ up.1) users ->
  let check := checkCredentials decode_error ((fun up => EncodeAuthCredentials up.1 up.2) <$> users) header in
  (forall user, check = AuthOk user <->
     exists scheme pass, (user, pass) ∈ users /\ ToLower scheme = go "basic" /\
       Split (Get header (go "Proxy-Authorization")) " " = [scheme; EncodeAuthCredentials user pass]) /\
  ((forall user, check <> AuthOk user) -> exists err id, check = AuthErr err id) /\
  (forall err id, check = AuthErr err (Some id) -> exists text, id = go "invalid" ++ text).
Proof.
  intros Hall. cbv zeta. split; [by apply credentials_exact_users|]. pose proof (refused_marked decode_error users header Hall) as Hr.
  destruct (checkCredentials _ _ _) as [user|err [id|]|]; [|eauto..|done].
  - split; [naive_solver|done].
  - split; [eauto|]. by intros err' id' [= _ <-].
  - split; [eauto|done].
Qed.

(** A request without exactly one space in its Proxy-Authorization value, or with
    another scheme, is refused without looking at the credentials and without
    recording a user. *)
Theorem malformed_authorization `{UnicodeTables} decode_error creds header :
  (length (Split (Get header (go "Proxy-Authorization")) " ") <> 2 \/
   exists scheme token, Split (Get header (go "Proxy-Authorization")) " " = [scheme; token] /\
     ToLower scheme <> go "basic") ->
  exists err, forall creds', checkCredentials decode_error creds header = AuthErr err None /\
    checkCredentials decode_error creds' header = AuthErr err None.
Proof.
  unfold checkCredentials. intros [Hl|(scheme & token & -> & Hs)].
  - destruct (Split _ _) as [|? [|? [|]]]; cbn in Hl; try lia; by eexists.
  - rewrite bool_decide_false by done. by eexists.
Qed.

(** A configured credential without a colon (possible in a JSON configuration, never
    from a Caddyfile) panics on the request that presents it. *)
Lemma credential_without_colon_panics `{UnicodeTables} decode_error header :
  Get header (go "Proxy-Authorization") = go "Basic " ++ b64_encode (go "secret") ->
  checkCredentials decode_error [b64_encode (go "secret")] header = AuthPanic.
Proof. unfold checkCredentials. intros ->. vm_compute. reflexivity. Qed.

(** ** Witnesses *)

#[local] Instance auth_unicode : UnicodeTables :=
  {| unicode_lower := id; unicode_equal_fold := fun s t => bool_decide (s = t) |}.

Lemma credentials_exact_witness :
  checkCredentials (fun _ => []) [EncodeAuthCredentials (go "bob") (go "x:y"); EncodeAuthCredentials (go "al") (go "pw")]
    {[ go "Proxy-Authorization" := [go "BASIC YWw6cHc="] ]} = AuthOk (go "al") /\
  exists err id, checkCredentials (fun _ => [])
    [EncodeAuthCredentials (go "bob") (go "x:y"); EncodeAuthCredentials (go "al") (go "pw")]
    {[ go "Proxy-Authorization" := [go "Basic YWw6c*c="] ]} = AuthErr err id.
Proof.
  pose proof (credentials_exact (fun _ => []) [(go "bob", go "x:y"); (go "al", go "pw")]) as Hexact.
  assert (Hall : Forall (fun up : gostring * gostring => ":"%char ∉ up.1) [(go "bob", go "x:y"); (go "al", go "pw")])
    by (repeat constructor; apply ContainsByte_false; reflexivity). split.
  - destruct (Hexact {[ go "Proxy-Authorization" := [go "BASIC YWw6cHc="] ]} Hall) as [Hok _]. apply Hok.
    exists (go "BASIC"), (go "pw"). split; [right; left|]. split; vm_compute; reflexivity.
  - destruct (Hexact {[ go "Proxy-Authorization" := [go "Basic YWw6c*c="] ]} Hall) as (_ & Hno & _). apply Hno.
    intros user. vm_compute. discriminate.
Defined.

Lemma malformed_authorization_witness :
  exists err, forall creds', checkCredentials (fun _ => []) [go "x"] ∅ = AuthErr err None /\
    checkCredentials (fun _ => []) creds' ∅ = AuthErr err None.
Proof.
  apply (malformed_authorization (fun _ => []) [go "x"] ∅). left. vm_compute. discriminate.
Defined.
