(* ===== verification/Handler.v ===== *)
(** * The request handler: ServeHTTP of forwardproxy.go

    How a request is routed - hidden page, PAC file, next handler, CONNECT-UDP,
    tunnel, forwarded request - with the response headers set on the way, the
    request that is sent on, and the error of every failure.  Caddy's host
    matcher, the transport and the dialers are functions of the environment. *)

From stdpp Require Import base decidable numbers list gmap strings.
From Stdlib Require Import ZArith Lia Ascii.
From S2P Require Import Prelude GoStrings GoNet GoHttp Acl Policy UdpProtocol UdpServe Padding Headers Auth.

(** ** Configuration and environment *)

Record handlerConfig := MkHandler {
  PACPath : gostring;
  HideIP : bool;
  HideVia : bool;
  ProbeResistance : option gostring;
  AuthCredentials : option (list gostring);
  upstream : option URL;
}.

Abbreviation connection := nat (only parsing).

(** The body of a request: the bytes and end of its stream, and what closing it
    returns. *)
Record requestBody := MkBody { body_data : reader; body_close : option error }.

(** What the handler calls.  [next] is what the next handler leaves of its request,
    [serveUDP] serveConnectUDP, [dial] dialContextCheckACL for "tcp" under the
    context's extra header, [flush] the flush after the 200, [reqBody] the request's
    body unless it is nil, [roundTrip] the transport, the three after it the upstream
    connection, [header_order] the order of ranging over the response headers and
    [pooled] a buffer of the pool. *)
Record handlerEnv := MkHandlerEnv {
  hosts_match : Request -> bool;
  corrupt_input : gostring -> gostring;
  next : Request -> Request;
  serveUDP : Request -> option error * list effect * Request;
  dial : option Header -> gostring -> option connection + error;
  flush : option error;
  reqBody : option requestBody;
  roundTrip : Request -> option Response * option error;
  dialUpstream : option Header -> gostring -> option connection * option error;
  writeUpstream : option error;
  readUpstream : result Response;
  header_order : Header -> list (gostring * list gostring);
  pooled : list byte;
}.

(** ** Smaller handlers *)

Definition shouldServePACFile (h : handlerConfig) (r : Request) : bool :=
  bool_decide (0 < length (PACPath h)) &&
  match Req_URL r with Some u => bool_decide (Path u = PACPath h) | None => false end.

Definition auth_realm : gostring := go "Basic realm=" ++ ["034"%char] ++ go "Caddy Secure Web Proxy" ++ ["034"%char].

Definition lf : gostring := ["010"%char].
Definition quoted (s : gostring) : gostring := ["034"%char] ++ s ++ ["034"%char].

(** [fmt.Fprintf(w, pacFile, r.Host)]. *)
Definition pacFile (host : gostring) : gostring :=
  let tab : gostring := ["009"%char] in
  lf ++ go "function FindProxyForURL(url, host) {" ++ lf ++
  tab ++ go "if (host === " ++ quoted (go "127.0.0.1") ++ go " || host === " ++ quoted (go "::1") ++
    go " || host === " ++ quoted (go "localhost") ++ go ")" ++ lf ++
  tab ++ tab ++ go "return " ++ quoted (go "DIRECT") ++ go ";" ++ lf ++
  tab ++ go "return " ++ quoted (go "HTTPS " ++ host) ++ go ";" ++ lf ++
  go "}" ++ lf.

Definition servePacFile (w : respWriter) (r : Request) : respWriter := WriteString w (pacFile (Req_Host r)).

Definition hiddenPage (message : gostring) : gostring :=
  go "<html>" ++ lf ++ go "<head>" ++ lf ++ go "  <title>Hidden Proxy Page</title>" ++ lf ++ go "</head>" ++ lf ++
  go "<body>" ++ lf ++ go "<h1>Hidden Proxy Page!</h1>" ++ lf ++ message ++ go "<br/>" ++ lf ++
  go "</body>" ++ lf ++ go "</html>".

Definition AuthFail : gostring := go "Please authenticate yourself to the proxy.".
Definition AuthSuccess : gostring :=
  go "Congratulations, you are successfully authenticated to the proxy! Go browse all the things!".

(** [w.Header().Set]. *)
Definition set_reply (w : respWriter) (key value : gostring) : respWriter :=
  set_rw_header w (Set_ (rw_header w) key value).

Definition serveHiddenPage (w : respWriter) (authErr : option error) : respWriter * option error :=
  let w := set_reply w (go "Content-Type") (go "text/html") in
  match authErr with
  | Some e =>
      let w := set_reply w (go "Proxy-Authenticate") auth_realm in
      (WriteString (WriteHeader w StatusProxyAuthRequired) (hiddenPage AuthFail), Some e)
  | None => (WriteString w (hiddenPage AuthSuccess), None)
  end.

(** ** Requests sent on *)

Definition set_header (r : Request) (h : Header) : Request :=
  MkRequest (Method r) (Proto r) (ProtoMajor r) (ProtoMinor r) h (Req_Host r) (RemoteAddr r) (RequestURI r) (Req_URL r).

Definition forwarded_value (r : Request) : gostring :=
  go "for=" ++ ["034"%char] ++ RemoteAddr r ++ ["034"%char].

(** The header the context carries to an upstream dialer. *)
Definition context_header `{UnicodeTables} (h : handlerConfig) (r : Request) : option Header :=
  if HideIP h then None
  else
    let kept := filter (fun e : gostring * list gostring =>
                  ToLower e.1 = go "forwarded" \/ ToLower e.1 = go "x-forwarded-for") (Req_Header r) in
    Some (Add kept (go "Forwarded") (forwarded_value r)).

(** The rewriting of a request that is not CONNECT. *)
Definition forward_request (h : handlerConfig) (r : Request) (u : URL) : Request :=
  let scheme := if bool_decide (Scheme u = []) then go "http" else Scheme u in
  let host := if bool_decide (URL_Host u = []) then Req_Host r else URL_Host u in
  let u := MkURL scheme (User u) host (Path u) (RawPath u) (ForceQuery u) (RawQuery u) (Fragment u) (RawFragment u)
             (Opaque u) (OmitHost u) in
  let hd := removeHopByHop (Req_Header r) in
  let hd := if HideIP h then hd else Add hd (go "Forwarded") (forwarded_value r) in
  let hd := if HideVia h then hd else Add hd (go "Via") (via_value 1 1) in
  MkRequest (Method r) (go "HTTP/1.1") 1 1 hd (Req_Host r) (RemoteAddr r) [] (Some u).

(** The further changes towards an upstream proxy with the given user info. *)
Definition upstream_request (user : Userinfo) (r : Request) (u : URL) : Request * gostring :=
  let creds := Userinfo_String user in
  let hd := if bool_decide (creds = []) then Req_Header r
            else Set_ (Req_Header r) (go "Proxy-Authorization") (go "Basic " ++ b64_encode creds) in
  let host := if bool_decide (Port u = []) then JoinHostPort (URL_Host u) (go "80") else URL_Host u in
  (MkRequest (Method r) (Proto r) (ProtoMajor r) (ProtoMinor r) hd (Req_Host r) (RemoteAddr r) (RequestURI r)
     (Some (set_url_host u host)), host).

(** ** Outcomes *)

(** How a request was answered: by the next handler, the hidden page, the PAC file,
    CONNECT-UDP with its error and effects, a tunnel of a protocol version with or
    without padding on a connection, a forwarded response with the error of its
    copy, an error, or a panic. *)
Inductive answer :=
  | ANext (r : Request)
  | AHidden (authErr : option error)
  | APac
  | AConnectUDP (err : option error) (effects : list effect)
  | ATunnel (major : Z) (padding : bool) (c : connection)
  | AForward (sent : Request) (viaUpstream : option gostring) (response : Response) (err : option error)
  | AFail (err : error)
  | APanic.

(** What the handler dials, sends and closes. *)
Inductive event :=
  | DialTarget (hostPort : gostring)
  | CloseTarget (c : connection)
  | RoundTrip (r : Request)
  | DialUpstream (host : gostring) (r : Request)
  | CloseBody
  | CloseResponse.

(** The answer, the response writer, the request as the middleware around the handler
    finds it, and the events in order, deferred calls included. *)
Record outcome := MkOutcome {
  o_answer : answer;
  o_writer : respWriter;
  o_request : Request;
  o_events : list event;
}.

Definition done_with (w : respWriter) (r : Request) (a : answer) : outcome := MkOutcome a w r [].

Definition to_next (e : handlerEnv) (w : respWriter) (r : Request) : outcome := done_with w (next e r) (ANext r).

Definition idempotent (method : gostring) : bool :=
  bool_decide (method = go "GET") || bool_decide (method = go "HEAD") ||
  bool_decide (method = go "OPTIONS") || bool_decide (method = go "TRACE").

(** The end of the forwarding branch, from the response or error on: [body] is the
    body then in the request, [sent] the request and [events] what happened before. *)
Definition finish_forward (e : handlerEnv) (w : respWriter) (sent : Request) (via : option gostring)
    (body : option requestBody) (response : option Response) (err : option error) (events : list event) : outcome :=
  match body with
  | None => MkOutcome APanic w sent events
  | Some body =>
      let events := events ++ [CloseBody] in
      match body_close body with
      | Some _ =>
          MkOutcome (AFail (ErrHandler StatusBadGateway (ErrMsg (go "failed to close response body")))) w sent events
      | None =>
          let events := events ++ match response with Some _ => [CloseResponse] | None => [] end in
          match err, response with
          | Some (ErrHandler s er), _ => MkOutcome (AFail (ErrHandler s er)) w sent events
          | Some _, _ =>
              MkOutcome (AFail (ErrHandler StatusBadGateway (ErrMsg (go "failed to read response")))) w sent events
          | None, Some resp =>
              let '(w, err) := forwardResponse (header_order e (Resp_Header resp)) (pooled e) w resp in
              MkOutcome (AForward sent via resp err) w sent events
          | None, None => MkOutcome APanic w sent events
          end
      end
  end.

(** The body is read ahead and kept for a retry: the read error, and the body that
    replaces it, whose closing does nothing. *)
Definition save_body (e : handlerEnv) (r : Request) : option error * option requestBody :=
  match reqBody e with
  | Some body =>
      if idempotent (Method r)
      then (copy_error (fin (body_data body)), Some (MkBody (MkReader (data (body_data body)) ErrEOF [] false) None))
      else (None, Some body)
  | None => (None, None)
  end.

(** The error of the first statement that splits the request's host, kept in a variable of
    ServeHTTP: the transport's result replaces it, the upstream branch declares another
    [err] of its own and leaves this one as it was. *)
Definition split_error (r : Request) : option error :=
  match SplitHostPort (Req_Host r) with Ok _ => None | Err err => Some err end.

(** Not CONNECT. *)
Definition serve_forward `{UnicodeTables} (h : handlerConfig) (e : handlerEnv) (w : respWriter) (ctx : option Header)
    (r : Request) (u : URL) : outcome :=
  let fr := forward_request h r u in
  let fu := default u (Req_URL fr) in
  match upstream h with
  | None =>
      let '(readErr, body) := save_body e r in
      match readErr with
      | Some _ => done_with w fr (AFail (ErrHandler StatusBadRequest (ErrMsg (go "failed to read request body"))))
      | None =>
          let '(response, err) := roundTrip e fr in
          finish_forward e w fr None body response err [RoundTrip fr]
      end
  | Some up =>
    match User up with
    | None => done_with w fr APanic
    | Some user =>
      let '(fr, host) := upstream_request user fr fu in
      let fail msg :=
        MkOutcome (AFail (ErrHandler StatusBadGateway (ErrMsg (go msg)))) w fr [DialUpstream host fr] in
      match dialUpstream e ctx host with
      | (_, Some _) => fail "failed to dial upstream"%string
      (* writing to a nil connection *)
      | (None, None) => MkOutcome APanic w fr [DialUpstream host fr]
      | (Some _, None) =>
          match writeUpstream e with
          | Some _ => fail "failed to write upstream request"%string
          | None =>
              match readUpstream e with
              | Err _ => fail "failed to read upstream response"%string
              | Ok resp => finish_forward e w fr (Some host) (reqBody e) (Some resp) (split_error r) [DialUpstream host fr]
              end
          end
      end
    end
  end.

(** The relay over an established connection, with the calls deferred to its end. *)
Definition serve_tunnel (e : handlerEnv) (w : respWriter) (r : Request) (padding : bool) (hostPort : gostring)
    (c : connection) : outcome :=
  if (ProtoMajor r =? 1)%Z then
    MkOutcome (ATunnel 1 false c) w r [DialTarget hostPort; CloseTarget c]
  else
    match reqBody e with
    | None => MkOutcome APanic w r [DialTarget hostPort; CloseTarget c]
    | Some _ => MkOutcome (ATunnel (ProtoMajor r) padding c) w r [DialTarget hostPort; CloseBody; CloseTarget c]
    end.

(** CONNECT; [r32] and [bits] are the random draws of the padding header. *)
Definition serve_connect `{UnicodeTables} (h : handlerConfig) (e : handlerEnv) (r32 : nat) (bits : Z) (w : respWriter)
    (ctx : option Header) (r : Request) (u : URL) : outcome :=
  match negotiateNaivePadding (Req_Header r) with
  | Err err => done_with w r (AFail (ErrHandler StatusBadRequest err))
  | Ok paddingType =>
      let w := set_rw_header w (setNaivePaddingResponseHeaders r32 bits (rw_header w) (Req_Header r) paddingType) in
      if isConnectUDPRequest r then
        let '(err, effects, r') := serveUDP e r in
        let w := if decide (WroteHeader StatusOK ∈ effects) then WriteHeader w StatusOK else w in
        done_with w r' (AConnectUDP err effects)
      else if isUnsupportedExtendedConnect r then
        done_with w r (AFail (ErrHandler connectUDPUnsupportedStatus errConnectUDPUnsupported))
      else if ((ProtoMajor r =? 2)%Z || (ProtoMajor r =? 3)%Z) &&
              (bool_decide (0 < length (Scheme u)) || bool_decide (0 < length (Path u))) then
        done_with w r (AFail (ErrHandler StatusBadRequest
          (ErrMsg (go "CONNECT request has :scheme and/or :path pseudo-header fields"))))
      else
        let hostPort := if bool_decide (URL_Host u = []) then Req_Host r else URL_Host u in
        match dial e ctx hostPort with
        | inr err => MkOutcome (AFail err) w r [DialTarget hostPort]
        | inl None =>
            MkOutcome (AFail (ErrHandler StatusForbidden
              (ErrMsg (go "hostname " ++ Hostname u ++ go " is not allowed")))) w r [DialTarget hostPort]
        | inl (Some c) =>
            let w := WriteHeader w StatusOK in
            match flush e with
            | Some _ =>
                MkOutcome (AFail (ErrHandler StatusInternalServerError (ErrMsg (go "ResponseWriter flush error")))) w r
                  [DialTarget hostPort; CloseTarget c]
            | None => serve_tunnel e w r (paddingType =? naivePaddingVariant1)%Z hostPort c
            end
        end
  end.

(** The request host without its port. *)
Definition request_host (r : Request) : gostring :=
  match SplitHostPort (Req_Host r) with Ok (h, _) => h | Err _ => Req_Host r end.

(** After authentication. *)
Definition serve_authorized `{UnicodeTables} (h : handlerConfig) (e : handlerEnv) (r32 : nat) (bits : Z)
    (w : respWriter) (r : Request) : outcome :=
  if negb (ProtoMajor r =? 1)%Z && negb (ProtoMajor r =? 2)%Z && negb (ProtoMajor r =? 3)%Z then
    done_with w r (AFail (ErrHandler StatusHTTPVersionNotSupported (ErrMsg (go "unsupported HTTP major version"))))
  else
    match Req_URL r with
    | None => done_with w r APanic
    | Some u =>
        let ctx := context_header h r in
        if bool_decide (Method r = MethodConnect) then serve_connect h e r32 bits w ctx r u
        else serve_forward h e w ctx r u
    end.

(** The routing, once the credentials were checked. *)
Definition route_request `{UnicodeTables} (h : handlerConfig) (e : handlerEnv) (r32 : nat) (bits : Z) (w : respWriter)
    (r : Request) (authErr : option error) : outcome :=
  let nativeUDP := isConnectUDPRequest r in
  let hidden :=
    match ProbeResistance h with
    | Some domain => bool_decide (0 < length domain) && bool_decide (request_host r = domain)
    | None => false
    end in
  if hidden then
    let '(w', err) := serveHiddenPage w authErr in done_with w' r (AHidden err)
  else if hosts_match e r &&
     (negb (bool_decide (Method r = MethodConnect)) ||
      (match authErr with Some _ => true | None => false end &&
       (negb nativeUDP || match ProbeResistance h with Some _ => true | None => false end))) then
    if shouldServePACFile h r then done_with (servePacFile w r) r APac else to_next e w r
  else
    match authErr with
    | Some err =>
        match ProbeResistance h with
        | Some _ => to_next e w r
        | None =>
            done_with (set_reply w (go "Proxy-Authenticate") auth_realm) r
              (AFail (ErrHandler StatusProxyAuthRequired err))
        end
    | None => serve_authorized h e r32 bits w r
    end.

(** The deferred redaction of a CONNECT-UDP request. *)
Definition redacting (nativeUDP : bool) (o : outcome) : outcome :=
  if nativeUDP then MkOutcome (o_answer o) (o_writer o) (redactConnectUDPRequest (o_request o)) (o_events o) else o.

Definition ServeHTTP `{UnicodeTables} (h : handlerConfig) (e : handlerEnv) (r32 : nat) (bits : Z) (w : respWriter)
    (r : Request) : outcome :=
  redacting (isConnectUDPRequest r)
    match AuthCredentials h with
    | None => route_request h e r32 bits w r None
    | Some creds =>
        match checkCredentials (corrupt_input e) creds (Req_Header r) with
        | AuthOk _ => route_request h e r32 bits w r None
        | AuthErr err _ => route_request h e r32 bits w r (Some err)
        | AuthPanic => done_with w r APanic
        end
    end.

(** ** Lemmas *)

(** Answers that use the proxy. *)
Definition proxied (a : answer) : bool :=
  match a with AConnectUDP _ _ | ATunnel _ _ _ | AForward _ _ _ _ => true | _ => false end.

Section Routing.
Context `{UnicodeTables}.
Variables (h : handlerConfig) (e : handlerEnv) (r32 : nat) (bits : Z) (w : respWriter) (r : Request).

Definition secret_host : Prop :=
  exists domain, ProbeResistance h = Some domain /\ domain <> [] /\ request_host r = domain.

(** Passing a request on: the PAC file under its path, or the next handler. *)
Definition passed_on (pac : bool) : outcome :=
  if pac && shouldServePACFile h r then done_with (servePacFile w r) r APac else to_next e w r.

(** The routing decisions, from the authentication error on. *)
Lemma route_cases authErr :
  let o := route_request h e r32 bits w r authErr in
  (secret_host /\ o_answer o = AHidden authErr /\ o_events o = []) \/
  (~ secret_host /\
   ((hosts_match e r = true /\ (Method r <> MethodConnect \/ authErr <> None) /\ o = passed_on true) \/
    ((hosts_match e r = false \/ Method r = MethodConnect /\ (authErr = None \/ ProbeResistance h = None)) /\
     match authErr with
     | Some err =>
         o = match ProbeResistance h with
             | Some _ => passed_on false
             | None => done_with (set_reply w (go "Proxy-Authenticate") auth_realm) r
                         (AFail (ErrHandler StatusProxyAuthRequired err))
             end
     | None => o = serve_authorized h e r32 bits w r
     end))).
Proof.
  intros o. unfold o, route_request. destruct (match ProbeResistance h with Some _ => _ | None => false end) eqn:Eh.
  - left. destruct (ProbeResistance h) as [d|] eqn:Ed; [|done]. reflect_bools.
    split; [|by destruct authErr]. exists d. split; [done|]. split; [|done]. intros ->. simpl in *. lia.
  - right. split.
    { intros (d & Hd & Hne & Hh). rewrite Hd in Eh. apply andb_false_iff in Eh as [Eh|Eh]; reflect_bools; [|done].
      destruct d; [done|simpl in *; lia]. }
    destruct (hosts_match e r && _) eqn:Em.
    + left. apply andb_true_iff in Em as [? Em]. split; [done|]. split; [|done].
      apply orb_true_iff in Em as [Em|Em]; reflect_bools; [by left|right; by destruct authErr].
    + right. split; [|by destruct authErr].
      apply andb_false_iff in Em as [?|Em]; [by left|right]. apply orb_false_iff in Em as [Em Ea]. reflect_bools.
      split; [done|]. destruct authErr; [right|by left]. destruct (ProbeResistance h); [|done].
      cbn in Ea. by rewrite orb_true_r in Ea.
Qed.

(** The check of the credentials, as the handler uses it. *)
Definition authentication : option (option error) :=
  match AuthCredentials h with
  | None => Some None
  | Some creds =>
      match checkCredentials (corrupt_input e) creds (Req_Header r) with
      | AuthOk _ => Some None
      | AuthErr err _ => Some (Some err)
      | AuthPanic => None
      end
  end.

(** The request before the deferred redaction. *)
Definition routed : outcome :=
  match authentication with Some a => route_request h e r32 bits w r a | None => done_with w r APanic end.

Lemma ServeHTTP_route : ServeHTTP h e r32 bits w r = redacting (isConnectUDPRequest r) routed.
Proof.
  unfold ServeHTTP, routed, authentication. destruct (AuthCredentials h); [|done].
  by destruct (checkCredentials _ _ _).
Qed.

Lemma redacting_same b o :
  o_answer (redacting b o) = o_answer o /\ o_writer (redacting b o) = o_writer o /\
  o_events (redacting b o) = o_events o.
Proof. by destruct b. Qed.

Lemma serve_connect_events ctx u :
  let hp := if bool_decide (URL_Host u = []) then Req_Host r else URL_Host u in
  let o := serve_connect h e r32 bits w ctx r u in
  ((forall m p c, o_answer o <> ATunnel m p c) \/
   exists c p, o_answer o = ATunnel (ProtoMajor r) p c /\
     dial e ctx hp = inl (Some c) /\ flush e = None /\
     o_events o = DialTarget hp :: (if (ProtoMajor r =? 1)%Z then [] else [CloseBody]) ++ [CloseTarget c] /\
     (ProtoMajor r = 2%Z \/ ProtoMajor r = 3%Z -> Scheme u = [] /\ Path u = []) /\
     (p = true <-> ProtoMajor r <> 1%Z /\ negotiateNaivePadding (Req_Header r) = Ok naivePaddingVariant1) /\
     rw_status (o_writer o) = Some (default StatusOK (rw_status w))) /\
  (o_events o = [] \/
   exists rest, o_events o = DialTarget hp :: rest /\
     match dial e ctx hp with
     | inl (Some c) => rest = [CloseTarget c] \/ rest = [CloseBody; CloseTarget c]
     | _ => rest = []
     end).
Proof.
  cbv zeta. unfold serve_connect. destruct (negotiateNaivePadding (Req_Header r)) as [t|]; [|split; by left].
  destruct (isConnectUDPRequest r); [destruct (serveUDP e r) as [[? ?] ?]; split; by left|].
  destruct (isUnsupportedExtendedConnect r); [split; by left|].
  destruct (((ProtoMajor r =? 2)%Z || (ProtoMajor r =? 3)%Z) && _) eqn:Ep; [split; by left|]. cbv zeta.
  set (hp := if bool_decide (URL_Host u = []) then _ else _).
  destruct (dial e ctx hp) as [[c|]|err] eqn:Ed; cbn; [|split; [by left|right; by eexists]..].
  destruct (flush e) eqn:Ef; [split; [by left|right; eexists; split; [done|by left]]|].
  assert (Hsp : ProtoMajor r = 2%Z \/ ProtoMajor r = 3%Z -> Scheme u = [] /\ Path u = []).
  { intros Hm. apply andb_false_iff in Ep as [Ep|Ep]; apply orb_false_iff in Ep as [E2 E3]; reflect_bools.
    - destruct Hm; congruence.
    - split; apply nil_length_inv; lia. }
  unfold serve_tunnel. destruct (ProtoMajor r =? 1)%Z eqn:E1.
  - apply Z.eqb_eq in E1. split; [right|right; eexists; split; [done|by left]].
    exists c, false. rewrite E1. repeat (split; [done|]). split; [lia|]. split; [|done].
    split; [done|by intros [[] _]].
  - apply Z.eqb_neq in E1. destruct (reqBody e); [|split; [by left|right; eexists; split; [done|by left]]].
    split; [right|right; eexists; split; [done|by right]].
    exists c, (t =? naivePaddingVariant1)%Z. repeat (split; [done|]). split; [|done].
    rewrite Z.eqb_eq. split; [intros ->; by split|by intros [_ [= ?]]].
Qed.
End Routing.

(** The header of the forwarded request. *)
Lemma forward_request_header h r u k :
  Req_Header (forward_request h r u) !! k =
  if decide (k = go "Via" /\ HideVia h = false) then
    Some (default [] (removeHopByHop (Req_Header r) !! k) ++ [go "1.1 caddy"])
  else if decide (k = go "Forwarded" /\ HideIP h = false) then
    Some (default [] (removeHopByHop (Req_Header r) !! k) ++ [forwarded_value r])
  else removeHopByHop (Req_Header r) !! k.
Proof.
  unfold forward_request. cbn [Req_Header]. change (via_value 1 1) with (go "1.1 caddy").
  assert (Hvf : go "Via" <> go "Forwarded") by discriminate.
  assert (Hadd : forall hd key v, key = CanonicalHeaderKey key -> Add hd key v !! k =
    if decide (k = key) then Some (default [] (hd !! k) ++ [v]) else hd !! k).
  { intros hd key v Hk. rewrite Add_lookup, <- Hk. by repeat case_decide; subst. }
  destruct (HideVia h), (HideIP h); rewrite ?Hadd by done;
    destruct (decide (k = go "Via")) as [Hv|Hv], (decide (k = go "Forwarded")) as [Hf|Hf]; try congruence;
    repeat case_decide; tauto || done || (exfalso; naive_solver).
Qed.

Lemma removed_key hd k : k ∈ hopByHopHeaders -> removeHopByHop hd !! k = None.
Proof. intros Hk. rewrite removeHopByHop_lookup, decide_True; [done|]. apply elem_of_app. by left. Qed.

Lemma finish_forward_events e w sent via body resp err events a :
  a ∈ o_events (finish_forward e w sent via body resp err events) -> a ∈ events \/ a = CloseBody \/ a = CloseResponse.
Proof.
  unfold finish_forward. destruct body as [body|]; [|by left].
  assert (Hrest : a ∈ (events ++ [CloseBody]) ++ match resp with Some _ => [CloseResponse] | None => [] end ->
                  a ∈ events \/ a = CloseBody \/ a = CloseResponse) by (destruct resp; set_solver).
  destruct (body_close body); [cbn; set_solver|]. destruct err as [[]|]; try exact Hrest.
  destruct resp as [resp|]; [|exact Hrest]. by destruct (forwardResponse _ _ _ _).
Qed.

(** What a forwarding request sends. *)
Lemma serve_forward_events `{UnicodeTables} h e w ctx r u a :
  a ∈ o_events (serve_forward h e w ctx r u) ->
  match a with
  | RoundTrip sent => upstream h = None /\ sent = forward_request h r u
  | DialUpstream host sent =>
      exists up user, upstream h = Some up /\ User up = Some user /\
        Req_Header sent = (if bool_decide (Userinfo_String user = []) then Req_Header (forward_request h r u)
          else Set_ (Req_Header (forward_request h r u)) (go "Proxy-Authorization")
                 (go "Basic " ++ b64_encode (Userinfo_String user)))
  | CloseBody | CloseResponse => True
  | DialTarget _ | CloseTarget _ => False
  end.
Proof.
  unfold serve_forward. destruct (upstream h) as [up|].
  - destruct (User up) as [user|] eqn:Eu; [|by intros ?%not_elem_of_nil]. unfold upstream_request. cbv zeta. intros Ha.
    set (fr := MkRequest _ _ _ _ _ _ _ _ _) in Ha. set (host := if bool_decide (Port _ = []) then _ else _) in Ha.
    assert (Hor : a = DialUpstream host fr \/ a = CloseBody \/ a = CloseResponse).
    { destruct (dialUpstream _ _ _) as [[c|] [er|]], (writeUpstream e), (readUpstream e);
        try (apply list_elem_of_singleton in Ha as ->; by left).
      apply finish_forward_events in Ha as [->%list_elem_of_singleton|?]; auto. }
    destruct Hor as [->|[-> | ->]]; [|done..]. exists up, user. done.
  - destruct (save_body e r) as [[er|] body]; [by intros ?%not_elem_of_nil|].
    destruct (roundTrip e _) as [resp err]. intros [->%list_elem_of_singleton|[-> | ->]]%finish_forward_events; done.
Qed.

Lemma finish_forward_answer e w sent via body resp err events :
  let o := finish_forward e w sent via body resp err events in
  match o_answer o with
  | AForward sent' via' resp' err' =>
      sent' = sent /\ via' = via /\ resp = Some resp' /\ err = None /\ o_request o = sent /\
      forwardResponse (header_order e (Resp_Header resp')) (pooled e) w resp' = (o_writer o, err') /\
      o_events o = events ++ [CloseBody; CloseResponse]
  | AFail _ | APanic => True
  | _ => False
  end.
Proof.
  unfold finish_forward. destruct body as [body|]; [|done]. destruct (body_close body); [done|].
  destruct err as [[]|]; try done. destruct resp as [resp|]; [|done].
  destruct (forwardResponse _ _ _ _) eqn:Ef. cbn. by rewrite <- app_assoc.
Qed.

Lemma serve_connect_answer `{UnicodeTables} h e r32 bits w r ctx u :
  (forall sent via resp err, o_answer (serve_connect h e r32 bits w ctx r u) <> AForward sent via resp err).
Proof.
  intros sent via resp err. unfold serve_connect. destruct (negotiateNaivePadding (Req_Header r)) as [t|]; [|done].
  destruct (isConnectUDPRequest r); [by destruct (serveUDP e r) as [[? ?] ?]|].
  destruct (isUnsupportedExtendedConnect r); [done|].
  destruct (((ProtoMajor r =? 2)%Z || (ProtoMajor r =? 3)%Z) && _); [done|]. cbv zeta.
  destruct (dial e ctx _) as [[c|]|er]; [|done..]. destruct (flush e); [done|]. unfold serve_tunnel.
  destruct (ProtoMajor r =? 1)%Z; [done|]. by destruct (reqBody e).
Qed.

Lemma serve_forward_answer `{UnicodeTables} h e w ctx r u :
  match o_answer (serve_forward h e w ctx r u) with AForward _ _ _ _ | AFail _ | APanic => True | _ => False end.
Proof.
  assert (Hf : forall sent via body resp err events,
    match o_answer (finish_forward e w sent via body resp err events) with
    | AForward _ _ _ _ | AFail _ | APanic => True | _ => False end).
  { intros sent via body resp err events. pose proof (finish_forward_answer e w sent via body resp err events) as Hs.
    cbv zeta in Hs. by destruct (o_answer _). }
  unfold serve_forward. destruct (upstream h) as [up|].
  - destruct (User up) as [user|]; [|done]. destruct (upstream_request user _ _) as [fr host].
    destruct (dialUpstream e ctx host) as [[c|] [er|]], (writeUpstream e), (readUpstream e); try done; apply Hf.
  - destruct (save_body e r) as [[er|] body]; [done|]. destruct (roundTrip e _). apply Hf.
Qed.

Lemma serve_forward_no_tunnel `{UnicodeTables} h e w ctx r u m p c :
  o_answer (serve_forward h e w ctx r u) <> ATunnel m p c.
Proof.
  intros Ha. pose proof (serve_forward_answer h e w ctx r u) as Hs. by rewrite Ha in Hs.
Qed.

Lemma serve_forward_no_udp `{UnicodeTables} h e w ctx r u err effects :
  o_answer (serve_forward h e w ctx r u) <> AConnectUDP err effects.
Proof.
  intros Ha. pose proof (serve_forward_answer h e w ctx r u) as Hs. by rewrite Ha in Hs.
Qed.

(** ** Theorems *)

(** C2: the authentication gate: when credentials are configured and the request's are
    refused, nothing is dialled or sent and the proxy functions are not reached; the
    answer is the hidden page with the error, the PAC file, the next handler, or a
    407 that asks for credentials. *)
Theorem auth_gate `{UnicodeTables} h e r32 bits w r err :
  authentication h e r = Some (Some err) ->
  let o := ServeHTTP h e r32 bits w r in
  o_events o = [] /\ proxied (o_answer o) = false /\
  (forall er, o_answer o = AFail er ->
     er = ErrHandler StatusProxyAuthRequired err /\
     Values (rw_header (o_writer o)) (go "Proxy-Authenticate") = [auth_realm]).
Proof.
  intros Ha o. unfold o. rewrite ServeHTTP_route.
  destruct (redacting_same (isConnectUDPRequest r) (routed h e r32 bits w r)) as (-> & -> & ->). unfold routed. rewrite Ha.
  destruct (route_cases h e r32 bits w r (Some err)) as [(_ & -> & ->)|(_ & [(_ & _ & ->)|(_ & ->)])]; [done|..].
  - unfold passed_on. by destruct (true && shouldServePACFile h r).
  - destruct (ProbeResistance h); [done|]. cbn. split; [done|]. split; [done|].
    intros er [= <-]. split; [done|apply Values_Set_same].
Qed.

(** C6: probe resistance: with it enabled, an unauthenticated request whose host is not the
    secret domain is handed to the next handler with the response untouched (or gets
    the PAC file under its path, on the proxy's own hosts): nothing in the answer
    shows that there is a proxy. *)
Theorem probe_resistance_invisible `{UnicodeTables} h e r32 bits w r err :
  ProbeResistance h <> None -> authentication h e r = Some (Some err) -> ~ secret_host h r ->
  ServeHTTP h e r32 bits w r = redacting (isConnectUDPRequest r) (passed_on h e w r (hosts_match e r)).
Proof.
  intros Hp Ha Hs. rewrite ServeHTTP_route. f_equal. unfold routed. rewrite Ha.
  destruct (route_cases h e r32 bits w r (Some err)) as [(? & _)|(_ & [(Hm & _ & ->)|(Hm & ->)])]; [done|..].
  - by rewrite Hm.
  - destruct (ProbeResistance h); [|done]. destruct Hm as [->|(_ & [?|?])]; done.
Qed.

(** The proxy's own hosts stay a web site: a request that is not CONNECT for one of them
    and not for the secret domain always goes to the next handler or the PAC file,
    whatever its credentials, and is never forwarded. *)
Theorem own_host_not_proxied `{UnicodeTables} h e r32 bits w r a :
  authentication h e r = Some a -> hosts_match e r = true -> Method r <> MethodConnect -> ~ secret_host h r ->
  ServeHTTP h e r32 bits w r = redacting (isConnectUDPRequest r) (passed_on h e w r true).
Proof.
  intros Ha Hm Hc Hs. rewrite ServeHTTP_route. f_equal. unfold routed. rewrite Ha.
  destruct (route_cases h e r32 bits w r a) as [(? & _)|(_ & [(_ & _ & ->)|([?|[? _]] & _)])];
    [done|done|congruence|done].
Qed.

(** What the handler did when it answered or dialled for an accepted request. *)
Lemma ServeHTTP_accepted `{UnicodeTables} h e r32 bits w r :
  o_events (ServeHTTP h e r32 bits w r) <> [] \/ proxied (o_answer (ServeHTTP h e r32 bits w r)) = true ->
  authentication h e r = Some None /\
  o_answer (ServeHTTP h e r32 bits w r) = o_answer (serve_authorized h e r32 bits w r) /\
  o_writer (ServeHTTP h e r32 bits w r) = o_writer (serve_authorized h e r32 bits w r) /\
  o_events (ServeHTTP h e r32 bits w r) = o_events (serve_authorized h e r32 bits w r).
Proof.
  rewrite ServeHTTP_route.
  destruct (redacting_same (isConnectUDPRequest r) (routed h e r32 bits w r)) as (-> & -> & ->). unfold routed.
  destruct (authentication h e r) as [a|]; [|by intros [?|?]].
  destruct (route_cases h e r32 bits w r a) as [(_ & -> & ->)|(_ & [(_ & _ & ->)|(_ & Ho)])].
  - by intros [?|?].
  - unfold passed_on. destruct (true && shouldServePACFile h r); by intros [?|?].
  - destruct a as [err|]; rewrite Ho; [|done]. destruct (ProbeResistance h); by intros [?|?].
Qed.

Lemma serve_authorized_connect `{UnicodeTables} h e r32 bits w r :
  (o_events (serve_authorized h e r32 bits w r) = [] /\
     proxied (o_answer (serve_authorized h e r32 bits w r)) = false) \/
  (ProtoMajor r = 1 \/ ProtoMajor r = 2 \/ ProtoMajor r = 3)%Z /\
  exists u, Req_URL r = Some u /\
    serve_authorized h e r32 bits w r =
      if bool_decide (Method r = MethodConnect) then serve_connect h e r32 bits w (context_header h r) r u
      else serve_forward h e w (context_header h r) r u.
Proof.
  unfold serve_authorized. destruct (negb _ && _ && _) eqn:Ev; [by left|].
  destruct (Req_URL r) as [u|]; [right|by left]. split; [|by exists u].
  destruct (Z.eqb_spec (ProtoMajor r) 1), (Z.eqb_spec (ProtoMajor r) 2), (Z.eqb_spec (ProtoMajor r) 3); auto; discriminate.
Qed.

(** An accepted CONNECT-UDP request that is not for the hidden page is served as one. *)
Lemma served_udp `{UnicodeTables} h e r32 bits w r :
  authentication h e r = Some None -> ~ secret_host h r -> isConnectUDPRequest r = true -> Req_URL r <> None ->
  (exists t, negotiateNaivePadding (Req_Header r) = Ok t) ->
  let o := ServeHTTP h e r32 bits w r in
  o_answer o = AConnectUDP (serveUDP e r).1.1 (serveUDP e r).1.2 /\
  (WroteHeader StatusOK ∈ (serveUDP e r).1.2 -> rw_status w = None -> rw_status (o_writer o) = Some StatusOK).
Proof.
  intros Ha Hs Hu Hurl [t Ht] o. unfold o. rewrite ServeHTTP_route.
  destruct (redacting_same (isConnectUDPRequest r) (routed h e r32 bits w r)) as (-> & -> & _). unfold routed. rewrite Ha.
  pose proof Hu as Hm. unfold isConnectUDPRequest in Hm. reflect_bools.
  destruct (route_cases h e r32 bits w r None) as [(? & _)|(_ & [(_ & [?|?] & _)|(_ & ->)])]; [done..|].
  destruct (serve_authorized_connect h e r32 bits w r) as [[_ Hp]|(_ & u & _ & ->)].
  - exfalso. revert Hp. unfold serve_authorized, serve_connect.
    repeat match goal with Hq : ProtoMajor r = _ |- _ => rewrite Hq end. destruct (Req_URL r); [|done].
    rewrite bool_decide_true, Ht, Hu by done. cbn. by destruct (serveUDP e r) as [[? ?] ?].
  - rewrite bool_decide_true by done. unfold serve_connect. rewrite Ht, Hu. destruct (serveUDP e r) as [[err effects] r1].
    cbn [o_answer o_writer done_with fst snd]. split; [done|]. intros Hin Hw. rewrite decide_True by done. cbn. by rewrite Hw.
Qed.

(** A tunnel is opened only by an accepted CONNECT: the credentials were accepted, the
    target was dialled once through the ACL-checked dial with that very host and port
    and gave the tunnel's connection, the 200 was sent before, HTTP/2 and HTTP/3
    requests had no scheme or path, and the stream is padded exactly when the client
    negotiated variant 1 over HTTP/2 or HTTP/3; the connection is closed at the end. *)
Lemma tunnel_requires_dial `{UnicodeTables} h e r32 bits w r m p c :
  let o := ServeHTTP h e r32 bits w r in
  o_answer o = ATunnel m p c ->
  authentication h e r = Some None /\
  exists u hostPort, Req_URL r = Some u /\ Method r = MethodConnect /\
    hostPort = (if bool_decide (URL_Host u = []) then Req_Host r else URL_Host u) /\
    dial e (context_header h r) hostPort = inl (Some c) /\ flush e = None /\
    m = ProtoMajor r /\ (m = 1 \/ m = 2 \/ m = 3)%Z /\
    (m = 2%Z \/ m = 3%Z -> Scheme u = [] /\ Path u = []) /\
    (p = true <-> m <> 1%Z /\ negotiateNaivePadding (Req_Header r) = Ok naivePaddingVariant1) /\
    rw_status (o_writer o) = Some (default StatusOK (rw_status w)) /\
    o_events o = DialTarget hostPort :: (if (m =? 1)%Z then [] else [CloseBody]) ++ [CloseTarget c].
Proof.
  intros o Ha. unfold o in *. destruct (ServeHTTP_accepted h e r32 bits w r) as (Hauth & Eo & Ew & Ee); [right; by rewrite Ha|].
  rewrite Ew, Ee. rewrite Eo in Ha. split; [done|].
  destruct (serve_authorized_connect h e r32 bits w r) as [[_ Hp]|(Hm & u & Hu & E)]; [by rewrite Ha in Hp|].
  rewrite E in *. case_bool_decide as Hc; [|by apply serve_forward_no_tunnel in Ha].
  destruct (serve_connect_events h e r32 bits w r (context_header h r) u) as [[Hn|(c' & p' & Ho & Hd & Hf & He & Hs & Hp & Hst)] _];
    [by apply Hn in Ha|].
  rewrite Ho in Ha. injection Ha as <- <- <-. eexists u, _. split_and!; done || apply Hp || idtac.
Qed.

(** C33: no target connection leaks: whatever a request ends with, a tunnel, an error after the
    dial, a failed flush or a panic, a connection the ACL-checked dial returned is
    closed as the last thing the handler does. *)
Theorem target_always_closed `{UnicodeTables} h e r32 bits w r hostPort :
  DialTarget hostPort ∈ o_events (ServeHTTP h e r32 bits w r) ->
  match dial e (context_header h r) hostPort with
  | inl (Some c) => last (o_events (ServeHTTP h e r32 bits w r)) = Some (CloseTarget c)
  | _ => o_events (ServeHTTP h e r32 bits w r) = [DialTarget hostPort]
  end.
Proof.
  intros Ha. destruct (ServeHTTP_accepted h e r32 bits w r) as (_ & _ & _ & E); [left; by intros E; rewrite E in Ha; apply not_elem_of_nil in Ha|].
  rewrite E in *. destruct (serve_authorized_connect h e r32 bits w r) as [[Hn _]|(_ & u & _ & E')];
    [by rewrite Hn in Ha; apply not_elem_of_nil in Ha|].
  rewrite E' in *. case_bool_decide; [|by apply serve_forward_events in Ha].
  destruct (serve_connect_events h e r32 bits w r (context_header h r) u) as [_ [Hn|(rest & He & Hr)]];
    [by rewrite Hn in Ha; apply not_elem_of_nil in Ha|].
  rewrite He in *. apply elem_of_cons in Ha as [[= ->]|Ha].
  - destruct (dial _ _ _) as [[c|]|err]; [destruct Hr as [-> | ->]|subst rest|subst rest]; done.
  - destruct (dial _ _ (if bool_decide _ then _ else _)) as [[c|]|err]; [destruct Hr as [-> | ->]| |]; set_solver.
Qed.

(** C13: what a forwarded request carries: the client's proxy credentials and every other
    hop-by-hop header are dropped; towards an upstream Proxy-Authorization is only
    ever the configured upstream's; with hide_ip no Forwarded value is added, with
    hide_via no Via value, and otherwise exactly one is appended, the client's address and
    a version followed by the pseudonym caddy; all other headers are the client's. *)
Theorem forwarded_headers `{UnicodeTables} h e r32 bits w r a sent :
  a ∈ o_events (ServeHTTP h e r32 bits w r) ->
  a = RoundTrip sent \/ (exists host, a = DialUpstream host sent) ->
  let kept := removeHopByHop (Req_Header r) in
  Req_Header sent !! go "Proxy-Authorization" =
    match upstream h ≫= User with
    | Some user => if bool_decide (Userinfo_String user = []) then None
                   else Some [go "Basic " ++ b64_encode (Userinfo_String user)]
    | None => None
    end /\
  Req_Header sent !! go "Forwarded" =
    (if HideIP h then kept !! go "Forwarded" else Some (default [] (kept !! go "Forwarded") ++ [forwarded_value r])) /\
  (exists version, Req_Header sent !! go "Via" =
    if HideVia h then kept !! go "Via" else Some (default [] (kept !! go "Via") ++ [version ++ go " caddy"])) /\
  (forall k, k ∉ [go "Forwarded"; go "Via"; go "Proxy-Authorization"] -> Req_Header sent !! k = kept !! k).
Proof.
  intros Ha Hs kept.
  assert (exists u, a ∈ o_events (serve_forward h e w (context_header h r) r u)) as [u Hu].
  { destruct (ServeHTTP_accepted h e r32 bits w r) as (_ & _ & _ & E);
      [left; by intros E; rewrite E in Ha; apply not_elem_of_nil in Ha|]. rewrite E in Ha.
    destruct (serve_authorized_connect h e r32 bits w r) as [[Hn _]|(_ & u & _ & E')];
      [by rewrite Hn in Ha; apply not_elem_of_nil in Ha|]. exists u. rewrite E' in Ha. case_bool_decide; [|done].
    destruct (serve_connect_events h e r32 bits w r (context_header h r) u) as [_ [Hn|(rest & He & Hr)]];
      [by rewrite Hn in Ha; apply not_elem_of_nil in Ha|].
    rewrite He in Ha. destruct (dial _ _ _) as [[c|]|err]; [destruct Hr as [-> | ->]|subst rest|subst rest];
      exfalso; destruct Hs as [->|[? ->]]; set_solver. }
  apply serve_forward_events in Hu.
  assert (Hpa : Req_Header (forward_request h r u) !! go "Proxy-Authorization" = None).
  { rewrite forward_request_header, !decide_False by (by intros [? _]). apply removed_key. do 2 right. left. }
  assert (Hrest : forall hd : Header, (forall k, k <> go "Proxy-Authorization" -> hd !! k = Req_Header (forward_request h r u) !! k) ->
    hd !! go "Forwarded" = (if HideIP h then kept !! go "Forwarded" else Some (default [] (kept !! go "Forwarded") ++ [forwarded_value r])) /\
    (exists version, hd !! go "Via" =
      if HideVia h then kept !! go "Via" else Some (default [] (kept !! go "Via") ++ [version ++ go " caddy"])) /\
    (forall k, k ∉ [go "Forwarded"; go "Via"; go "Proxy-Authorization"] -> hd !! k = kept !! k)).
  { intros hd Hhd. split; [|split].
    - rewrite Hhd, forward_request_header, decide_False by (done || by intros [? _]). 
      destruct (HideIP h); [by rewrite decide_False by (by intros [_ ?])|by rewrite decide_True by done].
    - exists (go "1.1"). rewrite Hhd, forward_request_header by done. destruct (HideVia h); [|by rewrite decide_True by done].
      by rewrite decide_False, decide_False by (by intros [? ?]).
    - intros k Hk. rewrite !not_elem_of_cons in Hk. destruct Hk as (? & ? & ? & _).
      rewrite Hhd, forward_request_header, !decide_False by (done || by intros [? _]). done. }
  destruct Hs as [->|[host ->]].
  - destruct Hu as [Hup ->]. rewrite Hup. split; [exact Hpa|]. by apply Hrest.
  - destruct Hu as (up & user & Hup & Hus & Hsent). rewrite Hup, Hsent. cbn [mbind option_bind]. rewrite Hus.
    case_bool_decide; [split; [exact Hpa|by apply Hrest]|].
    unfold Set_. change (CanonicalHeaderKey (go "Proxy-Authorization")) with (go "Proxy-Authorization").
    split; [by rewrite lookup_insert_eq|]. apply Hrest. intros k Hk. by rewrite lookup_insert_ne.
Qed.

(** A forwarded response is the origin's or the upstream's, relayed by forwardResponse into
    the client's untouched writer: the credentials were accepted, the request was sent
    once, and its body and the response's body were closed. *)
Theorem forwarded_once `{UnicodeTables} h e r32 bits w r sent via resp err :
  let o := ServeHTTP h e r32 bits w r in
  o_answer o = AForward sent via resp err ->
  authentication h e r = Some None /\ Method r <> MethodConnect /\
  forwardResponse (header_order e (Resp_Header resp)) (pooled e) w resp = (o_writer o, err) /\
  match via with
  | None => upstream h = None /\ roundTrip e sent = (Some resp, None) /\
            o_events o = [RoundTrip sent; CloseBody; CloseResponse]
  | Some host => (exists c, dialUpstream e (context_header h r) host = (Some c, None)) /\ readUpstream e = Ok resp /\
            o_events o = [DialUpstream host sent; CloseBody; CloseResponse]
  end.
Proof.
  intros o Ha. unfold o in *. destruct (ServeHTTP_accepted h e r32 bits w r) as (Hauth & Eo & Ew & Ee); [right; by rewrite Ha|].
  rewrite Ew, Ee. rewrite Eo in Ha. split; [done|].
  destruct (serve_authorized_connect h e r32 bits w r) as [[_ Hp]|(_ & u & _ & E)]; [by rewrite Ha in Hp|].
  rewrite E in *. case_bool_decide as Hc.
  { by apply serve_connect_answer in Ha. }
  split; [done|]. unfold serve_forward in *. destruct (upstream h) as [up|].
  - destruct (User up) as [user|]; [|done]. destruct (upstream_request user _ _) as [fr host].
    destruct (dialUpstream e _ host) as [[c|] [er|]] eqn:Ed; try done. destruct (writeUpstream e); [done|].
    destruct (readUpstream e) as [resp'|] eqn:Er; [|done].
    pose proof (finish_forward_answer e w fr (Some host) (reqBody e) (Some resp') (split_error r) [DialUpstream host fr]) as Hs.
    cbv zeta in Hs. rewrite Ha in Hs. destruct Hs as (-> & -> & [= ->] & _ & _ & Hf & ->). eauto 10.
  - destruct (save_body e r) as [[er|] body]; [done|]. destruct (roundTrip e _) as [response rerr] eqn:Er.
    pose proof (finish_forward_answer e w (forward_request h r u) None body response rerr [RoundTrip (forward_request h r u)]) as Hs.
    cbv zeta in Hs. rewrite Ha in Hs. destruct Hs as (-> & -> & -> & -> & _ & Hf & ->). auto 10.
Qed.

(** Upstream credentials are percent-escaped before they are encoded, so the
    upstream sees a different password when it has a reserved byte. *)
Lemma upstream_credentials_escaped :
  Userinfo_String (MkUserinfo (go "user") (Some (go "p@ss"))) = go "user:p%40ss".
Proof. vm_compute. reflexivity. Qed.

(** The host dialled for a request that is not CONNECT is the one it asks for; the dialer of
    an HTTP upstream opens a CONNECT tunnel to that host, so what is written into it, the
    credentials of the upstream included, goes to the host the client chose. *)
Lemma upstream_credentials_to_target `{UnicodeTables} h e w ctx r u up user host sent :
  upstream h = Some up -> User up = Some user -> Userinfo_String user <> [] ->
  DialUpstream host sent ∈ o_events (serve_forward h e w ctx r u) ->
  (exists v, Req_URL sent = Some v /\ URL_Host v = host) /\
  host = (let v := default u (Req_URL (forward_request h r u)) in
          if bool_decide (Port v = []) then JoinHostPort (URL_Host v) (go "80") else URL_Host v) /\
  Get (Req_Header sent) (go "Proxy-Authorization") = go "Basic " ++ b64_encode (Userinfo_String user).
Proof.
  intros Hup Hu Hne. unfold serve_forward. rewrite Hup, Hu.
  destruct (upstream_request user (forward_request h r u) (default u (Req_URL (forward_request h r u)))) as [fr via] eqn:E. intros Ha.
  assert (Hev : DialUpstream host sent = DialUpstream via fr).
  { destruct (dialUpstream _ _ _) as [[c|] [er|]], (writeUpstream e), (readUpstream e);
      try (by apply list_elem_of_singleton in Ha).
    by apply finish_forward_events in Ha as [->%list_elem_of_singleton|[?|?]]. }
  injection Hev as -> ->. unfold upstream_request in E. rewrite bool_decide_false in E by done. injection E as <- <-.
  split; [by eexists|]. split; [done|]. cbn [Req_Header]. unfold Get. by rewrite Values_Set_same.
Qed.

(** With an upstream, a request whose Host has no port is refused after its response was
    read: the error of splitting the host is still in the variable the end of the handler
    tests. *)
Lemma upstream_refuses_host_without_port `{UnicodeTables} h e w ctx r u up :
  upstream h = Some up -> split_error r <> None ->
  forall sent via resp err, o_answer (serve_forward h e w ctx r u) <> AForward sent via resp err.
Proof.
  intros Hup Hs sent via resp err Ha. unfold serve_forward in Ha. rewrite Hup in Ha. destruct (User up) as [user|]; [|done].
  destruct (upstream_request user _ _) as [fr host]. destruct (dialUpstream e ctx host) as [[c|] [er|]]; try done.
  destruct (writeUpstream e); [done|]. destruct (readUpstream e) as [resp'|]; [|done].
  pose proof (finish_forward_answer e w fr (Some host) (reqBody e) (Some resp') (split_error r) [DialUpstream host fr]) as Hf.
  cbv zeta in Hf. rewrite Ha in Hf. by destruct Hf as (_ & _ & _ & ? & _).
Qed.

(** The version in the Via value of a forwarded request is always the proxy's own. *)
Lemma forwarded_via_version h r u :
  HideVia h = false ->
  Req_Header (forward_request h r u) !! go "Via" = Some (default [] (removeHopByHop (Req_Header r) !! go "Via") ++ [go "1.1 caddy"]).
Proof. intros Hv. rewrite forward_request_header, Hv. by rewrite decide_True by done. Qed.

(** Without user information in the upstream URL a request that is not CONNECT
    panics. *)
Lemma upstream_without_credentials_panics `{UnicodeTables} h e w ctx r u up :
  upstream h = Some up -> User up = None -> o_answer (serve_forward h e w ctx r u) = APanic.
Proof. intros Hup Hu. unfold serve_forward. by rewrite Hup, Hu. Qed.

(** ** Witnesses *)

#[local] Instance handler_unicode : UnicodeTables :=
  {| unicode_lower := id; unicode_equal_fold := fun s t => bool_decide (s = t) |}.

Definition example_handler (probe : option gostring) : handlerConfig :=
  MkHandler [] true false probe (Some [EncodeAuthCredentials (go "al") (go "pw")]) None.

Definition example_env : handlerEnv :=
  MkHandlerEnv (fun r => bool_decide (Req_Host r = go "own.test")) (fun _ => []) id
    (fun r => (Some errConnectUDPUnsupported, [], r))
    (fun _ _ => inl (Some 4)) None (Some (MkBody (MkReader [] ErrEOF [] false) None))
    (fun _ => (Some example_response, None)) (fun _ _ => (Some 5, None)) None (Ok example_response) map_to_list [zero].

Definition new_writer : respWriter := MkRW ∅ None (MkSink [] []).

Definition with_auth : Header := {[ go "Proxy-Authorization" := [go "Basic YWw6cHc="] ]}.

Definition connect_request (hd : Header) : Request :=
  MkRequest MethodConnect (go "HTTP/2.0") 2 0 hd (go "dns.test:443") (go "192.0.2.7:50000") []
    (Some (plain_url [] (go "dns.test:443") [])).

Definition get_request (host : gostring) (hd : Header) : Request :=
  MkRequest (go "GET") (go "HTTP/1.1") 1 1 hd host (go "192.0.2.7:50000") []
    (Some (plain_url (go "http") host (go "/"))).

Definition missing_auth : error :=
  ErrMsg (go "Proxy-Authorization is required! Expected format: <type> <credentials>").

Lemma auth_gate_witness :
  o_events (ServeHTTP (example_handler None) example_env 0 0 new_writer (connect_request ∅)) = [].
Proof.
  destruct (auth_gate (example_handler None) example_env 0 0 new_writer (connect_request ∅) missing_auth) as [H _].
  - vm_compute. reflexivity.
  - exact H.
Defined.

Lemma probe_resistance_invisible_witness :
  ServeHTTP (example_handler (Some (go "secret.test"))) example_env 0 0 new_writer (connect_request ∅) =
  to_next example_env new_writer (connect_request ∅).
Proof.
  rewrite (probe_resistance_invisible (example_handler (Some (go "secret.test"))) example_env 0 0 new_writer
    (connect_request ∅) missing_auth).
  - vm_compute. reflexivity.
  - discriminate.
  - vm_compute. reflexivity.
  - intros (d & [= <-] & _ & H). vm_compute in H. discriminate H.
Defined.

Lemma own_host_not_proxied_witness :
  ServeHTTP (example_handler None) example_env 0 0 new_writer (get_request (go "own.test") with_auth) =
  to_next example_env new_writer (get_request (go "own.test") with_auth).
Proof.
  rewrite (own_host_not_proxied (example_handler None) example_env 0 0 new_writer (get_request (go "own.test") with_auth) None).
  - vm_compute. reflexivity.
  - vm_compute. reflexivity.
  - vm_compute. reflexivity.
  - discriminate.
  - intros (d & H & _). discriminate H.
Defined.

Lemma target_always_closed_witness :
  last (o_events (ServeHTTP (example_handler None) example_env 0 0 new_writer (connect_request with_auth))) =
  Some (CloseTarget 4).
Proof.
  apply (target_always_closed (example_handler None) example_env 0 0 new_writer (connect_request with_auth) (go "dns.test:443")).
  assert (E : o_events (ServeHTTP (example_handler None) example_env 0 0 new_writer (connect_request with_auth)) =
              [DialTarget (go "dns.test:443"); CloseBody; CloseTarget 4]) by (vm_compute; reflexivity).
  rewrite E. left.
Defined.

Lemma forwarded_once_witness :
  rw_status (o_writer (ServeHTTP (example_handler None) example_env 0 0 new_writer (get_request (go "far.test") with_auth))) =
  Some 204%Z.
Proof.
  set (o := ServeHTTP _ _ _ _ _ _).
  destruct (forwarded_once (example_handler None) example_env 0 0 new_writer (get_request (go "far.test") with_auth)
    (forward_request (example_handler None) (get_request (go "far.test") with_auth)
       (plain_url (go "http") (go "far.test") (go "/"))) None example_response None) as (_ & _ & H & _).
  - vm_compute. reflexivity.
  - change (ServeHTTP _ _ _ _ _ _) with o in H. apply (f_equal (fun x => rw_status x.1)) in H. exact (eq_sym H).
Defined.

Lemma forwarded_headers_witness :
  let sent := forward_request (example_handler None) (get_request (go "far.test") with_auth)
                (plain_url (go "http") (go "far.test") (go "/")) in
  Req_Header sent !! go "Proxy-Authorization" = None.
Proof.
  intros sent.
  destruct (forwarded_headers (example_handler None) example_env 0 0 new_writer (get_request (go "far.test") with_auth)
    (RoundTrip sent) sent) as [H _].
  - assert (E : o_events (ServeHTTP (example_handler None) example_env 0 0 new_writer (get_request (go "far.test") with_auth)) =
               [RoundTrip sent; CloseBody; CloseResponse]) by (vm_compute; reflexivity).
    rewrite E. left.
  - left. reflexivity.
  - exact H.
Defined.
