(* ===== verification/Proxy.v ===== *)
(** * The whole proxy: the handler over the real dialers

    ServeHTTP with dialContextCheckACL and serveConnectUDP in the places of the
    environment it calls them through, and what follows for a request from
    the wire to the connections it reaches. *)

From stdpp Require Import base decidable numbers list gmap strings relations.
From Stdlib Require Import ZArith Lia Ascii.
From S2P Require Import Prelude GoStrings GoNet GoHttp Acl Policy Feed DialRace DialProps Dial UdpProtocol UdpServe.
From S2P Require Import Padding Headers Auth Handler.

(** ** Composition *)

(** [h.dialContextCheckACL(ctx, "tcp", hostPort)]. *)
Definition dial_target (direct : option Header -> dialEnv) (ctx : option Header) (hostPort : gostring)
    : option connection + error :=
  match (dialContextCheckACL (direct ctx) (go "tcp") hostPort).1 with
  | inl c => inl (Some c)
  | inr err => inr err
  end.

Definition proxy_env `{UnicodeTables, Idna} (base : handlerEnv) (direct : option Header -> dialEnv) (udp : serveEnv)
    : handlerEnv :=
  MkHandlerEnv (hosts_match base) (corrupt_input base) (next base) (serveConnectUDP udp) (dial_target direct)
    (flush base) (reqBody base) (roundTrip base) (dialUpstream base) (writeUpstream base) (readUpstream base)
    (header_order base) (pooled base).

(** The host and port a CONNECT request asks for. *)
Definition requested (r : Request) : gostring :=
  match Req_URL r with
  | Some u => if bool_decide (URL_Host u = []) then Req_Host r else URL_Host u
  | None => []
  end.

(** The race's outcome is that of one of its runs. *)
Definition race_runs (d : dialEnv) (host port : gostring) : Prop :=
  exists s, reachable (de_policy d) (go "tcp") host port s /\
    ctl s = Returned (dialTCPIncremental d (dialTimeout d) (go "tcp") host port).

(** ** Lemmas *)

Lemma dial_target_direct d direct ctx hostPort c :
  direct ctx = d -> de_upstream d = false -> dial_target direct ctx hostPort = inl (Some c) ->
  exists host port, prepareTargetPolicy (de_policy d) hostPort = (host, port, None) /\
    dialTCPIncremental d (dialTimeout d) (go "tcp") host port = inl c.
Proof.
  intros Hd Hu. unfold dial_target, dialContextCheckACL. rewrite Hd, (tcp_network (go "tcp")), Hu by left.
  destruct (prepareTargetPolicy (de_policy d) hostPort) as [[host port] [f|]]; [done|].
  destruct (dialTCPIncremental d _ _ host port) as [x|err] eqn:Ei.
  - intros [= ->]. exists host, port. by rewrite Ei.
  - destruct (as_policy err) as [[[] ?]|]; done.
Qed.

Lemma serve_connect_url `{UnicodeTables} h e r32 bits w ctx r u :
  Req_URL r <> None -> Req_URL ((serveUDP e r).2) <> None ->
  Req_URL (o_request (serve_connect h e r32 bits w ctx r u)) <> None.
Proof.
  intros Hr Hs. unfold serve_connect, serve_tunnel. go_cases; done.
Qed.

(** The request a CONNECT-UDP request leaves always has a URL. *)
Lemma routed_url `{UnicodeTables} h e r32 bits w r :
  isConnectUDPRequest r = true -> Req_URL r <> None -> Req_URL (next e r) <> None -> Req_URL ((serveUDP e r).2) <> None ->
  Req_URL (o_request (routed h e r32 bits w r)) <> None.
Proof.
  intros Hc Hr Hn Hs. unfold routed. destruct (authentication h e r) as [a|]; [|done].
  unfold isConnectUDPRequest in Hc. reflect_bools. 
  unfold route_request, serve_authorized, to_next.
  destruct (match ProbeResistance h with Some _ => _ | None => false end); [by destruct (serveHiddenPage w a)|].
  destruct (hosts_match e r && _); [by destruct (shouldServePACFile h r)|].
  destruct a as [err|]; [by destruct (ProbeResistance h)|]. destruct (negb _ && _ && _); [done|].
  destruct (Req_URL r) as [u|] eqn:Eu; [|done]. rewrite bool_decide_true by done.
  apply serve_connect_url; [by rewrite Eu|done].
Qed.

(** ** Theorems *)

(** C10: a tunnel reaches only what the configuration allows: it needs accepted credentials and
    a CONNECT; the port asked for is whitelisted and no domain rule refuses the host;
    every address the dial race ever started for it is the text of an approved
    address of that host on that port; the tunnel runs over the race's winner, which
    is the only connection left open once the race's goroutines have ended, and is
    closed when the request ends; it is padded exactly when the client negotiated
    variant 1 over HTTP/2 or HTTP/3. *)
Theorem tunnel_reaches_approved `{UnicodeTables, Idna} h base direct udp r32 bits w r m p c :
  let o := ServeHTTP h (proxy_env base direct udp) r32 bits w r in
  let d := direct (context_header h r) in
  o_answer o = ATunnel m p c -> de_upstream d = false ->
  (forall host port, prepareTargetPolicy (de_policy d) (requested r) = (host, port, None) -> race_runs d host port) ->
  authentication h (proxy_env base direct udp) r = Some None /\ Method r = MethodConnect /\
  last (o_events o) = Some (CloseTarget c) /\
  (p = true <-> m <> 1%Z /\ negotiateNaivePadding (Req_Header r) = Ok naivePaddingVariant1) /\
  exists host port s,
    SplitHostPort (requested r) = Ok (host, port) /\ portIsAllowed (AllowedPorts (de_policy d)) port = true /\
    (domainPolicy (aclRules (de_policy d)) host = None \/ domainPolicy (aclRules (de_policy d)) host = Some None) /\
    reachable (de_policy d) (go "tcp") host port s /\ ctl s = Returned (inl c) /\
    Forall (fun e => approved (de_policy d) (go "tcp") host port (st_addr e)) (starts s) /\
    (attempts s = [] -> openConns s = {[c]}).
Proof.
  intros o d Ha Hu Hruns. destruct (tunnel_requires_dial h (proxy_env base direct udp) r32 bits w r m p c Ha)
    as (Hauth & u & hp & Hurl & Hm & -> & Hd & _ & _ & _ & _ & Hp & _ & He).
  split; [done|]. split; [done|]. split; [unfold o; rewrite He; by destruct (m =? 1)%Z|]. split; [done|].
  unfold requested in *. rewrite Hurl in *. set (hp := if bool_decide _ then _ else _) in *.
  apply (dial_target_direct d) in Hd as (host & port & Hpol & Hdial); [|done..].
  destruct (Hruns host port Hpol) as (s & Hs & Hc). rewrite Hdial in Hc.
  apply prepareTargetPolicy_None in Hpol as (Hsplit & Hport & Hdom). exists host, port, s.
  repeat (split; [done|]). split; [by apply starts_approved|].
  intros Hat. rewrite (open_at_end _ _ _ _ s Hs Hat), Hc. done.
Qed.

(** C1: no CONNECT-UDP request reaches an address the ACL did not approve, and none is served
    without accepted credentials: every address dialled on behalf of a request is the
    text of an allowed answer of the resolver for the host of its path, on the
    requested and whitelisted port. *)
Theorem udp_reaches_approved `{UnicodeTables, Idna} h base direct udp r32 bits w r err effects a :
  let o := ServeHTTP h (proxy_env base direct udp) r32 bits w r in
  o_answer o = AConnectUDP err effects -> DialedUDP a ∈ effects ->
  authentication h (proxy_env base direct udp) r = Some None /\
  exists target host port ips ip,
    parseConnectUDPTarget r = Ok target /\ SplitHostPort (hostPort target) = Ok (host, port) /\
    portIsAllowed (AllowedPorts (se_policy udp)) port = true /\ se_lookup udp host = Ok ips /\ ip ∈ ips /\ ip <> [] /\
    hostIsAllowed (aclRules (se_policy udp)) host ip = true /\ a = JoinHostPort (IP_String ip) port.
Proof.
  intros o Ha Hin. unfold o in Ha.
  destruct (ServeHTTP_accepted h (proxy_env base direct udp) r32 bits w r) as (Hauth & Eo & _);
    [right; by rewrite Ha|]. split; [done|].
  apply (serve_dials_approved udp r). rewrite Eo in Ha.
  assert (Hserved : (serveConnectUDP udp r).1.2 = effects); [|by rewrite Hserved].
  destruct (serve_authorized_connect h (proxy_env base direct udp) r32 bits w r) as [[_ Hp]|(_ & u & _ & E)];
    [by rewrite Ha in Hp|]. rewrite E in Ha. case_bool_decide; [|by apply serve_forward_no_udp in Ha].
  unfold serve_connect in Ha. destruct (negotiateNaivePadding (Req_Header r)) as [t|]; [|done].
  destruct (isConnectUDPRequest r).
  - cbn [serveUDP proxy_env] in Ha. destruct (serveConnectUDP udp r) as [[er ef] r']. by injection Ha as _ ->.
  - exfalso. revert Ha. unfold serve_tunnel. go_cases; done.
Qed.

(** C37: the target of a CONNECT-UDP request never reaches the middleware around the handler:
    however the request ends, refused, passed to the next handler, answered by the
    hidden page, served, or with a panic, its URL and request URI are then the
    redacted ones, without query or fragment. *)
Theorem udp_target_redacted `{UnicodeTables, Idna} h base direct udp r32 bits w r :
  let o := ServeHTTP h (proxy_env base direct udp) r32 bits w r in
  isConnectUDPRequest r = true -> Req_URL r <> None -> Req_URL (next base r) <> None ->
  RequestURI (o_request o) = connectUDPRedactedPath /\
  exists u, Req_URL (o_request o) = Some u /\ Path u = connectUDPRedactedPath /\ RawPath u = [] /\
    RawQuery u = [] /\ ForceQuery u = false /\ Fragment u = [].
Proof.
  intros o Hc Hr Hn. unfold o. rewrite ServeHTTP_route, Hc. cbn [redacting o_request].
  pose proof (routed_url h (proxy_env base direct udp) r32 bits w r Hc Hr Hn) as Hu. cbn [serveUDP proxy_env] in Hu.
  unfold redactConnectUDPRequest. destruct (Req_URL (o_request _)) as [u|].
  - split; [done|]. by eexists.
  - destruct Hu; [|done]. unfold serveConnectUDP, redactConnectUDPRequest. destruct (Req_URL r) as [u|]; [|done].
    go_cases; done.
Qed.

(** ** Witnesses *)

#[local] Instance proxy_unicode : UnicodeTables :=
  {| unicode_lower := id; unicode_equal_fold := fun s t => bool_decide (s = t) |}.
#[local] Instance proxy_idna : Idna := {| ToASCII := Ok |}.

Definition open_handler : handlerConfig := MkHandler [] true false None None None.

Definition example_direct (ctx : option Header) : dialEnv := example_dial (inl 0).

Definition example_udp : Request := example_udp_request (masque_path (go "dns.test") (Itoa 443)).

Lemma tunnel_reaches_approved_witness :
  exists host port s,
    SplitHostPort (go "dns.test:443") = Ok (host, port) /\ ctl s = Returned (inl 0) /\
    (attempts s = [] -> openConns s = {[0]}).
Proof.
  destruct (tunnel_reaches_approved (example_handler None) example_env example_direct example_serve 0 0 new_writer
    (connect_request with_auth) 2 false 0) as (_ & _ & _ & _ & host & port & s & Hs & _ & _ & _ & Hc & _ & Ho).
  - vm_compute. reflexivity.
  - reflexivity.
  - intros host port Hp. assert (E : (host, port) = (go "dns.test", go "443")).
    { apply (f_equal fst) in Hp. change ((go "dns.test", go "443") = (host, port)) in Hp. exact (eq_sym Hp). }
    injection E as -> ->. exists winner. split; [exact (race_run_reachable _ _ _ _ _ _ winner_run)|reflexivity].
  - exists host, port, s. split; [exact Hs|]. split; [exact Hc|exact Ho].
Defined.

Lemma udp_reaches_approved_witness :
  exists target host port ips ip,
    parseConnectUDPTarget example_udp = Ok target /\ SplitHostPort (hostPort target) = Ok (host, port) /\
    portIsAllowed (AllowedPorts (se_policy example_serve)) port = true /\
    se_lookup example_serve host = Ok ips /\ ip ∈ ips /\ ip <> [] /\
    hostIsAllowed (aclRules (se_policy example_serve)) host ip = true /\
    go "9.9.9.9:443" = JoinHostPort (IP_String ip) port.
Proof.
  destruct (udp_reaches_approved open_handler example_env example_direct example_serve 0 0 new_writer example_udp None
    (serveConnectUDP example_serve example_udp).1.2 (go "9.9.9.9:443")) as [_ H].
  - vm_compute. reflexivity.
  - assert (E : take 4 (serveConnectUDP example_serve example_udp).1.2 =
                [Redacted; Acquired (go "192.0.2.7") 1; DialedUDP (go "1.1.1.1:443"); DialedUDP (go "9.9.9.9:443")])
      by (vm_compute; reflexivity).
    apply (subseteq_take 4). rewrite E. do 3 right. left.
  - exact H.
Defined.

Lemma udp_target_redacted_witness :
  RequestURI (o_request (ServeHTTP open_handler (proxy_env example_env example_direct example_serve) 0 0 new_writer
    example_udp)) = go "/.well-known/masque/udp/redacted/0/".
Proof.
  apply (udp_target_redacted open_handler example_env example_direct example_serve 0 0 new_writer example_udp).
  - vm_compute. reflexivity.
  - discriminate.
  - discriminate.
Defined.
