(* ===== verification/Tunnel.v ===== *)
(** * Tunnels: serveHijack and dualStream of forwardproxy.go

    dualStream copies both directions of a tunnel at once: the upload runs in its own
    goroutine, the download in the handler's, and the handler's deferred calls close
    both ends when the download is over.  One iteration of a copy is one step, and
    every interleaving of the two copies with the closing calls is a path of
    [tstep]. *)

From stdpp Require Import base decidable numbers list gmap strings relations.
From Stdlib Require Import ZArith Lia Ascii Wf_nat.
From S2P Require Import Prelude GoStrings GoNet GoHttp Padding Headers.

(** ** One iteration of flushingIoCopy *)

Record copying := MkCopying { c_np : nat; c_sink : sink; c_reader : reader; c_buf : list byte; c_written : Z }.

Definition finished : Type := Z * option error * sink * reader.

Definition copy_iter (flusher : bool) (mode : paddingMode) (rnd : nat -> nat) (c : copying) : copying + finished :=
  let '(p, er, r, buf, np) := copy_read mode rnd (c_np c) (c_reader c) (c_buf c) in
  let after (w : sink) (written : Z) : copying + finished :=
    match er with
    | Some e => inr (written, if is_eof e then None else Some e, w, r)
    | None => inl (MkCopying np w r buf written)
    end in
  if bool_decide (0 < length p) then
    let '(nw, ew, ef, w) := Write p (c_sink c) in
    let written := (c_written c + Z.of_nat nw)%Z in
    match ew, (if flusher then ef else None) with
    | Some e, _ => inr (written, Some e, w, r)
    | None, Some e => inr (written, Some e, w, r)
    | None, None =>
        if negb (bool_decide (length p = nw)) then inr (written, Some ErrShortWrite, w, r)
        else after w written
    end
  else after (c_sink c) (c_written c).

(** The copy goes on from a state of its loop. *)
Definition resume (fuel : nat) (flusher : bool) (mode : paddingMode) (rnd : nat -> nat) (c : copying) : option finished :=
  flushingIoCopy fuel flusher mode rnd (c_np c) (c_sink c) (c_reader c) (c_buf c) (c_written c).

(** ** The two streams *)

(** A [stream] call: copying, or over with the copy's result and the half-close of
    its writer, if that can be closed for writing alone. *)
Inductive stream := Streaming (c : copying) | Ended (f : finished) (halfClosed : bool).

Record tunnel := MkTunnel {
  upload : stream;
  download : stream;
  returned : option (option error);
  clientClosed : bool;
  targetClosed : bool;
}.

(** The upload unpads and the download pads, or neither does.  [flusher] says that
    the client side is a response writer, the two [closeWrite] that a writer has
    CloseWrite. *)
Record tunnelConfig := MkTunnelConfig {
  padding : bool;
  flusher : bool;
  targetCloseWrite : bool;
  clientCloseWrite : bool;
  random : nat -> nat;
}.

Definition upload_mode (k : tunnelConfig) : paddingMode := if padding k then RemovePadding else NoPadding.
Definition download_mode (k : tunnelConfig) : paddingMode := if padding k then AddPadding else NoPadding.

Definition stream_step (fl : bool) (mode : paddingMode) (rnd : nat -> nat) (closeWrite : bool) (c : copying) : stream :=
  match copy_iter fl mode rnd c with
  | inl c' => Streaming c'
  | inr f => Ended f closeWrite
  end.

Inductive tstep (k : tunnelConfig) : tunnel -> tunnel -> Prop :=
  | t_upload s c :
      upload s = Streaming c -> targetClosed s = false ->
      tstep k s (MkTunnel (stream_step false (upload_mode k) (random k) (targetCloseWrite k) c) (download s)
                   (returned s) (clientClosed s) (targetClosed s))
  (* the reader or the writer of the upload was closed under it *)
  | t_upload_cut s c r e :
      upload s = Streaming c -> clientClosed s || targetClosed s = true ->
      tstep k s (MkTunnel (Ended (c_written c, Some e, c_sink c, r) (targetCloseWrite k)) (download s)
                   (returned s) (clientClosed s) (targetClosed s))
  | t_download s c :
      download s = Streaming c ->
      tstep k s (MkTunnel (upload s) (stream_step (flusher k) (download_mode k) (random k) (clientCloseWrite k) c)
                   (returned s) (clientClosed s) (targetClosed s))
  | t_return s n err w r hc :
      download s = Ended (n, err, w, r) hc -> returned s = None ->
      tstep k s (MkTunnel (upload s) (download s) (Some err) (clientClosed s) (targetClosed s))
  | t_close_client s x :
      returned s = Some x -> clientClosed s = false ->
      tstep k s (MkTunnel (upload s) (download s) (returned s) true (targetClosed s))
  | t_close_target s :
      clientClosed s = true -> targetClosed s = false ->
      tstep k s (MkTunnel (upload s) (download s) (returned s) (clientClosed s) true).

(** [dualStream(target, clientReader, clientWriter, padding)]: what each side sends,
    and the writers to each side. *)
Definition dualStream (fromClient fromTarget : reader) (toTarget toClient : sink) (buf1 buf2 : list byte) : tunnel :=
  MkTunnel (Streaming (MkCopying 0 toTarget fromClient buf1 0)) (Streaming (MkCopying 0 toClient fromTarget buf2 0))
    None false false.

(** ** serveHijack *)

(** The client connection after a hijack: what the server had buffered of it, what
    follows on the connection, and the outcome of flushing the response. *)
Record hijacked := MkHijacked { hj_buffered : list byte; hj_rest : reader; hj_flush : option error }.

(** The response writer, the target's writer, and the tunnel or the error. *)
Definition serveHijack (w : respWriter) (hijack : result hijacked) (toTarget toClient : sink) (fromTarget : reader)
    (buf1 buf2 : list byte) : respWriter * sink * (tunnel + error) :=
  let w := WriteHeader w StatusOK in
  let fail msg := inr (ErrHandler StatusInternalServerError (ErrMsg (go msg))) in
  match hijack with
  | Err _ => (w, toTarget, fail "hijack failed"%string)
  | Ok hj =>
      let toTarget :=
        if bool_decide (0 < length (hj_buffered hj)) then (Write (hj_buffered hj) toTarget).2 else toTarget in
      match hj_flush hj with
      | Some _ => (w, toTarget, fail "failed to flush to client"%string)
      | None => (w, toTarget, inl (dualStream (hj_rest hj) fromTarget toTarget toClient buf1 buf2))
      end
  end.

(** ** A copy as the iteration of its steps *)

Lemma copy_iter_step fuel fl mode rnd c :
  resume (S fuel) fl mode rnd c =
  match copy_iter fl mode rnd c with inl c' => resume fuel fl mode rnd c' | inr f => Some f end.
Proof.
  unfold resume, copy_iter. cbn [flushingIoCopy].
  destruct (copy_read mode rnd (c_np c) (c_reader c) (c_buf c)) as [[[[p er] r] buf] np]. cbv zeta.
  case_bool_decide; [|by destruct er].
  destruct (Write p (c_sink c)) as [[[nw [e|]] ef] w]; [done|].
  destruct (if fl then ef else None); [done|]. case_bool_decide; cbn [negb]; [by destruct er|done].
Qed.

(** Every read that reports no error takes something off the stream. *)
Lemma Read_takes n r c r' : Read n r = (c, None, r') -> length (data r') < length (data r).
Proof.
  unfold Read. destruct (data r) as [|x d]; [done|].
  destruct (match chunks r with [] => _ | _ :: _ => _ end) as [want cs]. intros [= _ _ <-].
  cbn [data set_data]. rewrite length_drop. cbn [length]. lia.
Qed.

Lemma ReadFull_le n r c er r' : ReadFull n r = (c, er, r') -> length (data r') + length c = length (data r).
Proof.
  unfold ReadFull. case_bool_decide; [|case_bool_decide as Hd; [|]]; intros [= <- _ <-]; cbn [data set_data length].
  - rewrite length_drop, length_take. lia.
  - lia.
  - lia.
Qed.

Lemma ReadFull_takes n r c er r' :
  0 < n -> ReadFull n r = (c, er, r') -> length c = 0 /\ is_Some er /\ r' = r \/ length (data r') < length (data r).
Proof.
  intros Hn Hr. pose proof (ReadFull_le _ _ _ _ _ Hr) as Hl. revert Hr. unfold ReadFull.
  case_bool_decide; [|case_bool_decide as Hd]; intros [= <- <- <-]; [|by left; eauto|].
  - right. rewrite length_take in Hl. lia.
  - right. destruct (data r); [done|]. cbn [data set_data length] in *. lia.
Qed.

Lemma copy_read_takes mode rnd np r buf p r' buf' np' :
  copy_read mode rnd np r buf = (p, None, r', buf', np') -> length (data r') < length (data r).
Proof.
  assert (Hplain : forall n (f : list byte -> option error -> reader -> list byte * option error * reader * list byte * nat),
    (forall c er r1, (f c er r1).1.1.1.2 = er /\ (f c er r1).1.1.2 = r1) ->
    (let '(c, er, r1) := Read n r in f c er r1) = (p, None, r', buf', np') -> length (data r') < length (data r)).
  { intros n f Hf. destruct (Read n r) as [[c er] r1] eqn:Er. intros H. destruct (Hf c er r1) as [He Hr].
    rewrite H in He, Hr. cbn in He, Hr. subst er r1. by apply Read_takes in Er. }
  unfold copy_read. intros H. destruct mode, (bool_decide (np < NumFirstPaddings));
    try (apply Hplain in H; [exact H|intros; cbv zeta; try case_bool_decide; by split]).
  destruct (ReadFull 3 r) as [[hd er] r1] eqn:E1. cbv zeta in H. apply ReadFull_takes in E1 as [(Hl & [e ->] & ->)|Hlt]; [..|lia].
  - rewrite bool_decide_false in H by lia. by injection H.
  - case_bool_decide; [|by injection H as _ _ -> _ _].
    destruct (ReadFull _ r1) as [[q er2] r2] eqn:E2. apply ReadFull_le in E2.
    case_bool_decide; [|injection H as _ _ -> _ _; lia].
    destruct (ReadFull _ r2) as [[j er3] r3] eqn:E3. apply ReadFull_le in E3. injection H as _ _ -> _ _. lia.
Qed.

Lemma copy_iter_shorter fl mode rnd c c' :
  copy_iter fl mode rnd c = inl c' -> length (data (c_reader c')) < length (data (c_reader c)).
Proof.
  unfold copy_iter. destruct (copy_read mode rnd (c_np c) (c_reader c) (c_buf c)) as [[[[p er] r] buf] np] eqn:Er.
  assert (Hnext : forall w n, match er with Some e => inr (n, if is_eof e then None else Some e, w, r)
    | None => inl (MkCopying np w r buf n) end = inl c' -> length (data (c_reader c')) < length (data (c_reader c))).
  { intros w n. destruct er; [done|]. intros [= <-]. by apply copy_read_takes in Er. }
  cbv zeta. case_bool_decide; [|apply Hnext]. destruct (Write p (c_sink c)) as [[[nw [e|]] ef] w]; [done|].
  destruct (if fl then ef else None); [done|]. case_bool_decide; cbn [negb]; [apply Hnext|done].
Qed.

(** What a copy ends with: fuel for one iteration per byte and one more. *)
Definition outcome_of (fl : bool) (mode : paddingMode) (rnd : nat -> nat) (c : copying) : option finished :=
  resume (S (length (data (c_reader c)))) fl mode rnd c.

Lemma resume_more fl mode rnd n m c f : resume n fl mode rnd c = Some f -> n <= m -> resume m fl mode rnd c = Some f.
Proof.
  revert m c. induction n as [|n IH]; intros m c; [done|]. destruct m as [|m]; [lia|]. rewrite !copy_iter_step.
  destruct (copy_iter fl mode rnd c) as [c'|]; [|done]. intros Hr Hm. apply IH; [done|lia].
Qed.

Lemma resume_total fl mode rnd n c : length (data (c_reader c)) < n -> is_Some (resume n fl mode rnd c).
Proof.
  revert c. induction n as [|n IH]; intros c Hn; [lia|]. rewrite copy_iter_step.
  destruct (copy_iter fl mode rnd c) as [c'|] eqn:Ec; [|done]. apply copy_iter_shorter in Ec. apply IH. lia.
Qed.

Lemma outcome_iter fl mode rnd c :
  outcome_of fl mode rnd c =
  match copy_iter fl mode rnd c with inl c' => outcome_of fl mode rnd c' | inr f => Some f end.
Proof.
  unfold outcome_of. rewrite copy_iter_step. destruct (copy_iter fl mode rnd c) as [c'|] eqn:Ec; [|done].
  apply copy_iter_shorter in Ec. destruct (resume_total fl mode rnd (S (length (data (c_reader c')))) c') as [f Hf]; [lia|].
  rewrite Hf. apply (resume_more fl mode rnd _ _ _ _ Hf). lia.
Qed.

Lemma outcome_total fl mode rnd c : is_Some (outcome_of fl mode rnd c).
Proof. apply resume_total. lia. Qed.

Definition sink_of (f : finished) : sink := f.1.2.

Lemma Write_out p w : out w `prefix_of` out (Write p w).2.
Proof. unfold Write. destruct (plan w); by apply prefix_app_r. Qed.

Lemma copy_iter_out fl mode rnd c :
  out (c_sink c) `prefix_of`
  match copy_iter fl mode rnd c with inl c' => out (c_sink c') | inr f => out (sink_of f) end.
Proof.
  unfold copy_iter. destruct (copy_read mode rnd (c_np c) (c_reader c) (c_buf c)) as [[[[p er] r] buf] np]. cbv zeta.
  case_bool_decide; [|by destruct er].
  pose proof (Write_out p (c_sink c)) as Hp. destruct (Write p (c_sink c)) as [[[nw [e|]] ef] w]; [done|].
  destruct (if fl then ef else None); [done|]. case_bool_decide; cbn [negb]; [by destruct er|done].
Qed.

(** The bytes written so far are the first bytes of the whole copy's. *)
Lemma outcome_prefix fl mode rnd c f :
  outcome_of fl mode rnd c = Some f -> out (c_sink c) `prefix_of` out (sink_of f).
Proof.
  unfold outcome_of. generalize (S (length (data (c_reader c)))) as n. intros n. revert c.
  induction n as [|n IH]; intros c; [done|]. rewrite copy_iter_step. pose proof (copy_iter_out fl mode rnd c) as Hi.
  destruct (copy_iter fl mode rnd c) as [c'|f']; [|by intros [= ->]]. intros Hf. etrans; [exact Hi|by apply IH].
Qed.

(** ** Invariant of a tunnel *)

Section Invariant.
Variable k : tunnelConfig.
Variables c_up c_down : copying.

Definition tunnel_start : tunnel := MkTunnel (Streaming c_up) (Streaming c_down) None false false.
Definition tunnel_reachable : tunnel -> Prop := rtc (tstep k) tunnel_start.

Abbreviation up_outcome := (outcome_of false (upload_mode k) (random k)).
Abbreviation down_outcome := (outcome_of (flusher k) (download_mode k) (random k)).

Definition stream_sink (s : stream) : sink :=
  match s with Streaming c => c_sink c | Ended f _ => sink_of f end.

Record tunnel_inv (s : tunnel) : Prop := {
  ti_down : match download s with
            | Streaming c => down_outcome c = down_outcome c_down /\ returned s = None
            | Ended f hc => down_outcome c_down = Some f /\ hc = clientCloseWrite k
            end;
  ti_up : match upload s with
          | Streaming c => up_outcome c = up_outcome c_up
          | Ended f hc =>
              hc = targetCloseWrite k /\
              (up_outcome c_up = Some f \/
               clientClosed s = true /\ exists g, up_outcome c_up = Some g /\ out (sink_of f) `prefix_of` out (sink_of g))
          end;
  ti_returned : forall err, returned s = Some err -> exists n w r hc, download s = Ended (n, err, w, r) hc;
  ti_client : clientClosed s = true -> returned s <> None;
  ti_target : targetClosed s = true -> clientClosed s = true;
}.

Lemma tunnel_inv_start : tunnel_inv tunnel_start.
Proof. by constructor. Qed.

Lemma tunnel_inv_step s s' : tunnel_inv s -> tstep k s s' -> tunnel_inv s'.
Proof.
  intros [Hd Hu Hr Hc Ht] Hstep. destruct Hstep as [s c Es Et|s c r e Es Et|s c Es|s n err w r hc Es Er|s x Er Ec|s Ec Et];
    constructor; cbn; auto.
  - rewrite Es in Hu. unfold stream_step. rewrite outcome_iter in Hu. destruct (copy_iter _ _ _ c) as [c'|f]; auto.
  - rewrite Es in Hu. split; [done|]. right. split; [destruct (clientClosed s), (targetClosed s); auto|].
    destruct (outcome_total false (upload_mode k) (random k) c_up) as [g Hg]. exists g. split; [done|].
    rewrite Hg in Hu. by apply (outcome_prefix false (upload_mode k) (random k) c).
  - rewrite Es in Hd. destruct Hd as [Hd Hn]. unfold stream_step. rewrite outcome_iter in Hd.
    destruct (copy_iter _ _ _ c) as [c'|f]; auto.
  - intros err Hn. destruct (Hr err Hn) as (n & w & r & hc & E). by rewrite Es in E.
  - rewrite Es in *. done.
  - intros err' [= <-]. eauto.
  - destruct (upload s); [done|]. destruct Hu as [? [?|[? ?]]]; eauto.
  - by rewrite Er.
Qed.

Lemma tunnel_reachable_inv s : tunnel_reachable s -> tunnel_inv s.
Proof.
  unfold tunnel_reachable. apply rtc_ind_r; [apply tunnel_inv_start|]. intros s1 s2 _ Hs Hi. by eapply tunnel_inv_step.
Qed.

(** What was written to a side so far is a prefix of its copy's output. *)
Lemma tunnel_prefixes s fu fd :
  tunnel_inv s -> up_outcome c_up = Some fu -> down_outcome c_down = Some fd ->
  out (stream_sink (upload s)) `prefix_of` out (sink_of fu) /\
  out (stream_sink (download s)) `prefix_of` out (sink_of fd).
Proof.
  intros [Hd Hu _ _ _] Hfu Hfd. split.
  - destruct (upload s) as [c|f hc]; cbn.
    + apply (outcome_prefix false (upload_mode k) (random k)). by rewrite Hu.
    + destruct Hu as [_ [Hu|(_ & g & Hg & Hp)]]; simplify_eq; done.
  - destruct (download s) as [c|f hc]; cbn.
    + apply (outcome_prefix (flusher k) (download_mode k) (random k)). by destruct Hd as [-> _].
    + destruct Hd as [Hd _]. by simplify_eq.
Qed.

(** Nothing that was written is taken back. *)
Lemma tunnel_grows s : tunnel_reachable s -> out (c_sink c_up) `prefix_of` out (stream_sink (upload s)).
Proof.
  unfold tunnel_reachable. revert s. apply rtc_ind_r; [done|]. intros s s' _ Hstep IH.
  destruct Hstep as [s c Es|s c r e Es _| | | |]; cbn in *; try exact IH.
  - rewrite Es in IH. etrans; [exact IH|]. unfold stream_step. cbn [stream_sink].
    pose proof (copy_iter_out false (upload_mode k) (random k) c) as Hp. by destruct (copy_iter _ _ _ c).
  - by rewrite Es in IH.
Qed.
End Invariant.

(** A tunnel without padding between sides that accept what is written. *)
Lemma plain_tunnel k fromClient fromTarget toTarget toClient buf1 buf2 s :
  padding k = false -> 0 < length buf1 -> 0 < length buf2 -> plan toTarget = [] -> plan toClient = [] ->
  rtc (tstep k) (dualStream fromClient fromTarget toTarget toClient buf1 buf2) s ->
  out toTarget `prefix_of` out (stream_sink (upload s)) /\
  out (stream_sink (upload s)) `prefix_of` out toTarget ++ data fromClient /\
  (forall f hc, upload s = Ended f hc -> clientClosed s = false -> out (sink_of f) = out toTarget ++ data fromClient) /\
  (forall err, returned s = Some err ->
     err = copy_error (fin fromTarget) /\ out (stream_sink (download s)) = out toClient ++ data fromTarget).
Proof.
  intros Hk Hb1 Hb2 Hp1 Hp2 Hs.
  set (c_up := MkCopying 0 toTarget fromClient buf1 0). set (c_down := MkCopying 0 toClient fromTarget buf2 0).
  pose proof (tunnel_reachable_inv k c_up c_down s Hs) as Hi.
  destruct (plain_loop false NoPadding (random k) 0 (S (length (data fromClient))) toTarget fromClient buf1 0) as [r1 Hr1];
    [by left|done|done|lia|].
  destruct (plain_loop (flusher k) NoPadding (random k) 0 (S (length (data fromTarget))) toClient fromTarget buf2 0)
    as [r2 Hr2]; [by left|done|done|lia|].
  assert (Hfu : outcome_of false (upload_mode k) (random k) c_up =
    Some (0 + Z.of_nat (length (data fromClient)), copy_error (fin fromClient), MkSink (out toTarget ++ data fromClient) [], r1)%Z)
    by (unfold upload_mode; rewrite Hk; exact Hr1).
  assert (Hfd : outcome_of (flusher k) (download_mode k) (random k) c_down =
    Some (0 + Z.of_nat (length (data fromTarget)), copy_error (fin fromTarget), MkSink (out toClient ++ data fromTarget) [], r2)%Z)
    by (unfold download_mode; rewrite Hk; exact Hr2).
  split; [exact (tunnel_grows k c_up c_down s Hs)|].
  destruct (tunnel_prefixes k c_up c_down s _ _ Hi Hfu Hfd) as [Hpu _]. destruct Hi as [Hd Hu Hr _ _].
  split; [exact Hpu|]. split.
  - intros f hc E Hc. rewrite E in Hu. destruct Hu as [_ [Hu|[? _]]]; [|congruence]. rewrite Hfu in Hu. by injection Hu as <-.
  - intros err Hn. destruct (Hr err Hn) as (n & w & r & hc & E). rewrite E in Hd |- *. destruct Hd as [Hd _].
    rewrite Hfd in Hd. injection Hd as <- <- <- <-. done.
Qed.

(** A tunnel with padding between sides that accept what is written. *)
Lemma padded_tunnel k d o fromClient fromTarget buf1 buf2 s :
  padding k = true -> (forall i, random k i < 256) -> length buf1 = bufferSize -> length buf2 = bufferSize ->
  data fromClient = o -> padded 0 d o ->
  rtc (tstep k) (dualStream fromClient fromTarget (MkSink [] []) (MkSink [] []) buf1 buf2) s ->
  out (stream_sink (upload s)) `prefix_of` d /\
  (forall f hc, upload s = Ended f hc -> clientClosed s = false -> out (sink_of f) = d) /\
  (forall err, returned s = Some err ->
     err = copy_error (fin fromTarget) /\ padded 0 (data fromTarget) (out (stream_sink (download s)))).
Proof.
  intros Hp Hrnd Hb1 Hb2 Ho Hpad Hs.
  set (c_up := MkCopying 0 (MkSink [] []) fromClient buf1 0). set (c_down := MkCopying 0 (MkSink [] []) fromTarget buf2 0).
  pose proof (tunnel_reachable_inv k c_up c_down s Hs) as Hi.
  destruct (remove_loop false (random k) 0 d o Hpad (S (length (data fromClient))) (MkSink [] []) fromClient buf1 0) as [r1 Hr1];
    [done|done|done|rewrite Ho; lia|].
  destruct (add_loop (flusher k) (random k) 0 (S (length (data fromTarget))) (MkSink [] []) fromTarget buf2 0)
    as (o2 & r2 & Ho2 & Hp2); [done|done|done|lia|].
  assert (Hfu : outcome_of false (upload_mode k) (random k) c_up = Some (Z.of_nat (length d), copy_error (fin fromClient), MkSink d [], r1))
    by (unfold upload_mode; rewrite Hp; exact Hr1).
  assert (Hfd : outcome_of (flusher k) (download_mode k) (random k) c_down =
    Some (Z.of_nat (length o2), copy_error (fin fromTarget), MkSink o2 [], r2))
    by (unfold download_mode; rewrite Hp; exact Ho2).
  destruct (tunnel_prefixes k c_up c_down s _ _ Hi Hfu Hfd) as [Hpu _]. destruct Hi as [Hd Hu Hr _ _].
  split; [exact Hpu|]. split.
  - intros f hc E Hc. rewrite E in Hu. destruct Hu as [_ [Hu|[? _]]]; [|congruence]. rewrite Hfu in Hu. by injection Hu as <-.
  - intros err Hn. destruct (Hr err Hn) as (n & w & r & hc & E). rewrite E in Hd |- *. destruct Hd as [Hd _].
    rewrite Hfd in Hd. injection Hd as <- <- <- <-. done.
Qed.

(** ** Theorems *)

(** C15: a tunnel refines its two copies: in every interleaving, what each side has been sent
    is a prefix of what the sequential copy of that direction sends; dualStream returns
    the download's error once the download is complete, not before, and only then are
    the two ends closed; an upload that ended before the client side was closed is
    complete too, and has closed the target for writing if that is possible. *)
Theorem tunnel_refines_copies k c_up c_down s :
  tunnel_reachable k c_up c_down s ->
  exists fu fd,
    outcome_of false (upload_mode k) (random k) c_up = Some fu /\
    outcome_of (flusher k) (download_mode k) (random k) c_down = Some fd /\
    out (stream_sink (upload s)) `prefix_of` out (sink_of fu) /\
    out (stream_sink (download s)) `prefix_of` out (sink_of fd) /\
    (forall err, returned s = Some err -> download s = Ended fd (clientCloseWrite k) /\ err = fd.1.1.2) /\
    (clientClosed s = true \/ targetClosed s = true -> returned s <> None) /\
    (forall f hc, upload s = Ended f hc -> hc = targetCloseWrite k /\ (clientClosed s = false -> f = fu)).
Proof.
  intros Hi%tunnel_reachable_inv. destruct (outcome_total false (upload_mode k) (random k) c_up) as [fu Hfu].
  destruct (outcome_total (flusher k) (download_mode k) (random k) c_down) as [fd Hfd].
  destruct (tunnel_prefixes k c_up c_down s fu fd Hi Hfu Hfd) as [Hpu Hpd]. destruct Hi as [Hd Hu Hr Hc Ht].
  exists fu, fd. repeat (split; [done|]). split; [|split].
  - intros err Hn. destruct (Hr err Hn) as (n & w & r & hc & E). rewrite E in Hd. destruct Hd as [Hd ->].
    rewrite Hd in Hfd. injection Hfd as <-. by rewrite E.
  - intros [H|H]; auto.
  - intros f hc E. rewrite E in Hu. destruct Hu as [-> [Hu|[H _]]]; (split; [done|]); intros Hn; congruence.
Qed.

(** C18: what crosses a tunnel with padding: when the client sends a padded stream that carries
    [d] and both sides accept what is written, the target has received a prefix of [d]
    and nothing else, all of it when the upload ended by itself; when the tunnel
    returns, the client has received a padded stream that carries exactly what the
    target sent, and the error is the target's unless that is the end of file. *)
Theorem padded_tunnel_transparent k d o fromClient fromTarget buf1 buf2 s :
  padding k = true -> (forall i, random k i < 256) -> length buf1 = bufferSize -> length buf2 = bufferSize ->
  data fromClient = o -> padded 0 d o ->
  rtc (tstep k) (dualStream fromClient fromTarget (MkSink [] []) (MkSink [] []) buf1 buf2) s ->
  out (stream_sink (upload s)) `prefix_of` d /\
  (forall f hc, upload s = Ended f hc -> clientClosed s = false -> out (sink_of f) = d) /\
  (forall err, returned s = Some err ->
     err = copy_error (fin fromTarget) /\ padded 0 (data fromTarget) (out (stream_sink (download s)))).
Proof. apply padded_tunnel. Qed.

(** A hijacked tunnel loses nothing the server had buffered: the target receives the
    buffered bytes and then those that follow on the connection, in order, and the
    client the target's; the response is confirmed with 200 before the hijack, and a
    failed hijack or flush is a 500. *)
Theorem hijack_stream w hijack fromTarget buf1 buf2 :
  0 < length buf1 -> 0 < length buf2 ->
  let '(w', toTarget, result) := serveHijack w hijack (MkSink [] []) (MkSink [] []) fromTarget buf1 buf2 in
  rw_status w' = Some (default StatusOK (rw_status w)) /\
  match result with
  | inr err => error_status err = Some StatusInternalServerError /\
      match hijack with Err _ => True | Ok hj => hj_flush hj <> None end
  | inl start =>
      exists hj, hijack = Ok hj /\ hj_flush hj = None /\
      forall k s, padding k = false -> rtc (tstep k) start s ->
        let sent := hj_buffered hj ++ data (hj_rest hj) in
        hj_buffered hj `prefix_of` out (stream_sink (upload s)) /\
        out (stream_sink (upload s)) `prefix_of` sent /\
        (forall f hc, upload s = Ended f hc -> clientClosed s = false -> out (sink_of f) = sent) /\
        (forall err, returned s = Some err ->
           err = copy_error (fin fromTarget) /\ out (stream_sink (download s)) = data fromTarget)
  end.
Proof.
  intros Hb1 Hb2. unfold serveHijack. destruct hijack as [hj|e]; [|done].
  assert (Hsink : (if bool_decide (0 < length (hj_buffered hj)) then (Write (hj_buffered hj) (MkSink [] [])).2
                   else MkSink [] []) = MkSink (hj_buffered hj) []).
  { case_bool_decide as Hl; [done|]. destruct (hj_buffered hj); [done|cbn in Hl; lia]. }
  cbv zeta. rewrite Hsink. destruct (hj_flush hj) as [fe|] eqn:Ef; [done|].
  split; [done|]. exists hj. split; [done|]. split; [done|]. intros k s Hk Hs.
  destruct (plain_tunnel k (hj_rest hj) fromTarget (MkSink (hj_buffered hj) []) (MkSink [] []) buf1 buf2 s)
    as (H1 & H2 & H3 & H4); auto.
Qed.

(** ** Termination *)

Definition stream_weight (s : stream) : nat :=
  match s with Streaming c => S (length (data (c_reader c))) | Ended _ _ => 0 end.

Definition tunnel_weight (s : tunnel) : nat :=
  stream_weight (upload s) + stream_weight (download s) + match returned s with None => 1 | Some _ => 0 end +
  (if clientClosed s then 0 else 1) + (if targetClosed s then 0 else 1).

Lemma stream_step_weight fl mode rnd cw c :
  stream_weight (stream_step fl mode rnd cw c) < stream_weight (Streaming c).
Proof.
  unfold stream_step. destruct (copy_iter fl mode rnd c) as [c'|] eqn:E; cbn [stream_weight]; [|lia].
  apply copy_iter_shorter in E. lia.
Qed.

Lemma tstep_weight k s s' : tstep k s s' -> tunnel_weight s' < tunnel_weight s.
Proof.
  intros [s0 c Es _|s0 c r e Es _|s0 c Es|s0 n err w r hc _ Er|s0 x Er Ec|s0 Ec Et]; unfold tunnel_weight; cbn.
  1, 3: rewrite Es; pose proof (stream_step_weight false (upload_mode k) (random k) (targetCloseWrite k) c);
    pose proof (stream_step_weight (flusher k) (download_mode k) (random k) (clientCloseWrite k) c);
    cbn [stream_weight] in *; lia.
  - rewrite Es. cbn [stream_weight]. lia.
  - rewrite Er. cbn. lia.
  - rewrite Ec. destruct (targetClosed s); lia.
  - rewrite Ec, Et. lia.
Qed.

(** No tunnel hangs on its own: no run is infinite, each iteration taking something off
    a stream, and the only states without a next step are those where both copies are
    over, the error was returned and both ends are closed. *)
Theorem tunnel_ends k s :
  Acc (fun s2 s1 => tstep k s1 s2) s /\
  ((forall s', ~ tstep k s s') ->
   (exists f hc, upload s = Ended f hc) /\ (exists f hc, download s = Ended f hc) /\ returned s <> None /\
   clientClosed s = true /\ targetClosed s = true).
Proof.
  split.
  - apply (well_founded_lt_compat _ tunnel_weight). intros s2 s1. apply tstep_weight.
  - intros Hno. destruct (download s) as [c|fd hd] eqn:Ed; [by destruct (Hno _ (t_download k s c Ed))|].
    destruct (returned s) as [x|] eqn:Er.
    2: { destruct fd as [[[n err] w] r]. by destruct (Hno _ (t_return k s n err w r hd Ed Er)). }
    destruct (clientClosed s) eqn:Ec; [|by destruct (Hno _ (t_close_client k s x Er Ec))].
    destruct (targetClosed s) eqn:Et; [|by destruct (Hno _ (t_close_target k s Ec Et))].
    destruct (upload s) as [c|fu hu] eqn:Eu; [|eauto 10].
    destruct (Hno _ (t_upload_cut k s c (c_reader c) ErrEOF Eu ltac:(by rewrite Ec))).
Qed.

(** ** Scripted runs and witnesses *)

Inductive taction := TUpload | TCut (e : error) | TDownload | TReturn | TCloseClient | TCloseTarget.

Definition texec (k : tunnelConfig) (a : taction) (s : tunnel) : option tunnel :=
  match a, upload s, download s with
  | TUpload, Streaming c, _ =>
      if targetClosed s then None
      else Some (MkTunnel (stream_step false (upload_mode k) (random k) (targetCloseWrite k) c) (download s)
                   (returned s) (clientClosed s) (targetClosed s))
  | TCut e, Streaming c, _ =>
      if clientClosed s || targetClosed s
      then Some (MkTunnel (Ended (c_written c, Some e, c_sink c, c_reader c) (targetCloseWrite k)) (download s)
                   (returned s) (clientClosed s) (targetClosed s))
      else None
  | TDownload, _, Streaming c =>
      Some (MkTunnel (upload s) (stream_step (flusher k) (download_mode k) (random k) (clientCloseWrite k) c)
              (returned s) (clientClosed s) (targetClosed s))
  | TReturn, _, Ended (_, err, _, _) _ =>
      match returned s with
      | None => Some (MkTunnel (upload s) (download s) (Some err) (clientClosed s) (targetClosed s))
      | Some _ => None
      end
  | TCloseClient, _, _ =>
      match returned s, clientClosed s with
      | Some _, false => Some (MkTunnel (upload s) (download s) (returned s) true (targetClosed s))
      | _, _ => None
      end
  | TCloseTarget, _, _ =>
      if clientClosed s && negb (targetClosed s)
      then Some (MkTunnel (upload s) (download s) (returned s) (clientClosed s) true) else None
  | _, _, _ => None
  end.

Lemma texec_step k a s s' : texec k a s = Some s' -> tstep k s s'.
Proof.
  destruct s as [up down ret cc tc]. unfold texec. cbn [upload download returned clientClosed targetClosed].
  set (s := MkTunnel up down ret cc tc). intros H. destruct a.
  - destruct up as [c|]; [|done]. destruct tc; [done|]. injection H as <-. by apply (t_upload k s c).
  - destruct up as [c|]; [|done]. destruct (cc || tc) eqn:E; [|done]. injection H as <-. by apply (t_upload_cut k s c _ e).
  - destruct down as [c|]; [|by destruct up]. destruct up; injection H as <-; by apply (t_download k s c).
  - destruct down as [|[[[n err] w] r] hc]; [by destruct up|].
    destruct ret; [by destruct up|]. destruct up; injection H as <-; by apply (t_return k s n err w r hc).
  - destruct ret as [x|], cc; try (by destruct up, down). destruct up, down; injection H as <-; by apply (t_close_client k s x).
  - destruct cc, tc; try (by destruct up, down). destruct up, down; injection H as <-; by apply (t_close_target k s).
Qed.

Fixpoint trun (k : tunnelConfig) (script : list taction) (s : tunnel) : option tunnel :=
  match script with [] => Some s | a :: rest => texec k a s ≫= trun k rest end.

Lemma trun_steps k script s s' : trun k script s = Some s' -> rtc (tstep k) s s'.
Proof.
  revert s. induction script as [|a script IH]; intros s; cbn [trun]; [by intros [= ->]|].
  destruct (texec k a s) as [s1|] eqn:E; [|done]. intros H%IH. eapply rtc_l; [by eapply texec_step|done].
Qed.

Definition example_tunnel (padded : bool) : tunnelConfig := MkTunnelConfig padded false true true (fun _ => 3).

Definition example_client (data : list byte) : reader := MkReader data ErrEOF [] false.

Definition full_buffer : list byte := replicate bufferSize zero.

Definition plain_start : tunnel :=
  dualStream (example_client (go "hi")) (example_client (go "yo")) (MkSink [] []) (MkSink [] []) [zero; zero] [zero].

(** The target stops sending at once: the handler returns and closes both ends. *)
Definition target_first : list taction := [TDownload; TDownload; TDownload; TReturn; TCloseClient; TCut ErrEOF; TCloseTarget].

(** The client stops sending first: the target is closed for writing, and the
    download goes on. *)
Definition client_first : list taction := [TUpload; TUpload; TDownload].

Definition tunnel_after (k : tunnelConfig) (script : list taction) (s : tunnel) : tunnel := default s (trun k script s).

Lemma example_run k script s :
  is_Some (trun k script s) -> rtc (tstep k) s (tunnel_after k script s).
Proof.
  intros H. apply (trun_steps k script). unfold tunnel_after. by destruct H as [s' ->].
Qed.

(** An upload still running when the target's stream ends is cut off: what the client
    had sent is lost. *)
Lemma upload_cut_short :
  exists s, rtc (tstep (example_tunnel false)) plain_start s /\ returned s = Some None /\
    out (stream_sink (upload s)) = [] /\ out (stream_sink (download s)) = go "yo" /\ targetClosed s = true.
Proof.
  exists (tunnel_after (example_tunnel false) target_first plain_start).
  split; [apply example_run; eexists; vm_compute; reflexivity|]. vm_compute. auto.
Qed.

Lemma tunnel_refines_copies_witness :
  let s := tunnel_after (example_tunnel false) client_first plain_start in
  (exists f, upload s = Ended f true) /\ returned s = None /\
  exists fu, outcome_of false NoPadding (fun _ => 3) (MkCopying 0 (MkSink [] []) (example_client (go "hi")) [zero; zero] 0) = Some fu /\
    out (stream_sink (upload s)) `prefix_of` out (sink_of fu).
Proof.
  intros s. split; [eexists; vm_compute; reflexivity|]. split; [vm_compute; reflexivity|].
  destruct (tunnel_refines_copies (example_tunnel false)
    (MkCopying 0 (MkSink [] []) (example_client (go "hi")) [zero; zero] 0)
    (MkCopying 0 (MkSink [] []) (example_client (go "yo")) [zero] 0) s) as (fu & fd & H1 & _ & H2 & _).
  - apply example_run. eexists. vm_compute. reflexivity.
  - exists fu. split; [exact H1|exact H2].
Defined.

Definition padded_start : tunnel :=
  dualStream (example_client (frame (go "hi") 2)) (example_client (go "yo")) (MkSink [] []) (MkSink [] [])
    full_buffer full_buffer.

Lemma padded_tunnel_transparent_witness :
  let s := tunnel_after (example_tunnel true) [TUpload; TUpload; TDownload; TDownload; TReturn] padded_start in
  returned s = Some None /\ padded 0 (go "yo") (out (stream_sink (download s))).
Proof.
  intros s. assert (Hr : returned s = Some None) by (vm_compute; reflexivity). split; [exact Hr|].
  destruct (padded_tunnel_transparent (example_tunnel true) (go "hi") (frame (go "hi") 2) (example_client (frame (go "hi") 2))
    (example_client (go "yo")) full_buffer full_buffer s) as (_ & _ & H).
  - reflexivity.
  - intros i. cbn. lia.
  - apply length_replicate.
  - apply length_replicate.
  - reflexivity.
  - rewrite <- (app_nil_r (frame _ _)). apply (padded_frame 0 (go "hi") 2 [] []); [apply Nat.lt_0_succ|discriminate|lia| |constructor].
    pose proof bufferSize_val. cbn [length]. change (length (go "hi")) with 2. lia.
  - apply example_run. eexists. vm_compute. reflexivity.
  - apply (H None). exact Hr.
Defined.

Lemma hijack_stream_witness :
  let '(w', _, r) := serveHijack (MkRW ∅ None (MkSink [] [])) (Ok (MkHijacked (go "a") (example_client (go "b")) None))
                       (MkSink [] []) (MkSink [] []) (example_client (go "c")) [zero] [zero] in
  rw_status w' = Some 200%Z.
Proof.
  destruct (hijack_stream (MkRW ∅ None (MkSink [] [])) (Ok (MkHijacked (go "a") (example_client (go "b")) None))
    (example_client (go "c")) [zero] [zero]) as [H _].
  - apply Nat.lt_0_succ.
  - apply Nat.lt_0_succ.
  - exact H.
Defined.
