(* ===== verification/Caddyfile.v ===== *)
(** * The Caddyfile directive: caddyfile.go, and readLinesFromFile of forwardproxy.go

    UnmarshalCaddyfile over Caddy's token dispenser, which is third-party code and
    enters as a class: the operations the parser calls, and, for a well laid out
    block, what its documentation says they return.  The refinement theorem takes the
    token-level parser to a function on the lines of the block. *)

From stdpp Require Import base decidable numbers list gmap strings.
From Stdlib Require Import ZArith Lia Ascii.
From S2P Require Import Prelude GoStrings GoNet GoHttp Acl Auth.

(** ** The configuration a Caddyfile sets *)

Record config := MkConfig {
  cf_PACPath : gostring;
  cf_HideIP : bool;
  cf_HideVia : bool;
  cf_DisableInsecureUpstreamsCheck : bool;
  cf_Hosts : list gostring;
  cf_ProbeResistance : option gostring;
  cf_DialTimeout : Z;
  cf_MaxIdleConns : Z;
  cf_MaxIdleConnsPerHost : Z;
  cf_Upstream : gostring;
  cf_ACL : list ACLRule;
  cf_AllowedPorts : list Z;
  cf_AuthCredentials : option (list gostring);
}.

Definition empty_config : config := MkConfig [] false false false [] None 0 0 0 [] [] [] None.

(** ** Caddy's dispenser *)

Class Dispenser (D : Type) := {
  Next : D -> bool * D;
  NextBlock : Z -> D -> bool * D;
  Nesting : D -> Z;
  Val : D -> gostring;
  RemainingArgs : D -> list gostring * D;
  ArgErr : D -> error;
  Errf : D -> gostring -> error;
}.

(** What else the parser calls: caddy.ParseDuration, in nanoseconds, and the contents
    of the file a cleaned name opens. *)
Record outside := MkOutside {
  ParseDuration : gostring -> result Z;
  readFile : gostring -> result (list byte);
}.

(** ** readLinesFromFile *)

Definition maxLine : nat := Z.to_nat 65536.
Definition errTooLong : error := ErrMsg (go "bufio.Scanner: token too long").

(** A line as bufio.ScanLines delivers it. *)
Definition drop_cr (line : list byte) : list byte :=
  match last line with
  | Some c => if byte_eqb c "013" then take (length line - 1) line else line
  | None => line
  end.

(** The scan stops with an error at a line that does not fit the buffer. *)
Fixpoint scan_lines (lines : list (list byte)) : list gostring * option error :=
  match lines with
  | [] => ([], None)
  | [l] => if bool_decide (l = []) then ([], None)
           else if bool_decide (maxLine <= length l) then ([], Some errTooLong) else ([drop_cr l], None)
  | l :: rest =>
      if bool_decide (maxLine <= length l) then ([], Some errTooLong)
      else let '(more, err) := scan_lines rest in (drop_cr l :: more, err)
  end.

Definition readLinesFromFile (o : outside) (filename : gostring) : result (list gostring) :=
  match readFile o filename with
  | Err e => Err e
  | Ok contents =>
      match scan_lines (Split contents "010") with
      | (lines, None) => Ok lines
      | (_, Some e) => Err e
      end
  end.

(** ** The directives of the block *)

(** A directive that is refused: with the dispenser's complaint about its arguments, with
    a message, or with the error of a file. *)
Inductive refusal := BadArgs | Bad (msg : gostring) | BadFile (err : error).

Definition no_args (args : list gostring) (set : config -> config) (h : config) : config + refusal :=
  match args with [] => inl (set h) | _ => inr BadArgs end.

Definition set_auth (h : config) (c : option (list gostring)) : config :=
  MkConfig (cf_PACPath h) (cf_HideIP h) (cf_HideVia h) (cf_DisableInsecureUpstreamsCheck h) (cf_Hosts h)
    (cf_ProbeResistance h) (cf_DialTimeout h) (cf_MaxIdleConns h) (cf_MaxIdleConnsPerHost h) (cf_Upstream h) (cf_ACL h)
    (cf_AllowedPorts h) c.
Definition set_hosts (h : config) (hosts : list gostring) : config :=
  MkConfig (cf_PACPath h) (cf_HideIP h) (cf_HideVia h) (cf_DisableInsecureUpstreamsCheck h) hosts
    (cf_ProbeResistance h) (cf_DialTimeout h) (cf_MaxIdleConns h) (cf_MaxIdleConnsPerHost h) (cf_Upstream h) (cf_ACL h)
    (cf_AllowedPorts h) (cf_AuthCredentials h).
Definition set_ports (h : config) (ports : list Z) : config :=
  MkConfig (cf_PACPath h) (cf_HideIP h) (cf_HideVia h) (cf_DisableInsecureUpstreamsCheck h) (cf_Hosts h)
    (cf_ProbeResistance h) (cf_DialTimeout h) (cf_MaxIdleConns h) (cf_MaxIdleConnsPerHost h) (cf_Upstream h) (cf_ACL h)
    ports (cf_AuthCredentials h).
Definition set_hide_ip (h : config) : config :=
  MkConfig (cf_PACPath h) true (cf_HideVia h) (cf_DisableInsecureUpstreamsCheck h) (cf_Hosts h)
    (cf_ProbeResistance h) (cf_DialTimeout h) (cf_MaxIdleConns h) (cf_MaxIdleConnsPerHost h) (cf_Upstream h) (cf_ACL h)
    (cf_AllowedPorts h) (cf_AuthCredentials h).
Definition set_hide_via (h : config) : config :=
  MkConfig (cf_PACPath h) (cf_HideIP h) true (cf_DisableInsecureUpstreamsCheck h) (cf_Hosts h)
    (cf_ProbeResistance h) (cf_DialTimeout h) (cf_MaxIdleConns h) (cf_MaxIdleConnsPerHost h) (cf_Upstream h) (cf_ACL h)
    (cf_AllowedPorts h) (cf_AuthCredentials h).
Definition set_insecure (h : config) : config :=
  MkConfig (cf_PACPath h) (cf_HideIP h) (cf_HideVia h) true (cf_Hosts h)
    (cf_ProbeResistance h) (cf_DialTimeout h) (cf_MaxIdleConns h) (cf_MaxIdleConnsPerHost h) (cf_Upstream h) (cf_ACL h)
    (cf_AllowedPorts h) (cf_AuthCredentials h).
Definition set_probe (h : config) (domain : gostring) : config :=
  MkConfig (cf_PACPath h) (cf_HideIP h) (cf_HideVia h) (cf_DisableInsecureUpstreamsCheck h) (cf_Hosts h)
    (Some domain) (cf_DialTimeout h) (cf_MaxIdleConns h) (cf_MaxIdleConnsPerHost h) (cf_Upstream h) (cf_ACL h)
    (cf_AllowedPorts h) (cf_AuthCredentials h).
Definition set_pac (h : config) (path : gostring) : config :=
  MkConfig path (cf_HideIP h) (cf_HideVia h) (cf_DisableInsecureUpstreamsCheck h) (cf_Hosts h)
    (cf_ProbeResistance h) (cf_DialTimeout h) (cf_MaxIdleConns h) (cf_MaxIdleConnsPerHost h) (cf_Upstream h) (cf_ACL h)
    (cf_AllowedPorts h) (cf_AuthCredentials h).
Definition set_dial_timeout (h : config) (t : Z) : config :=
  MkConfig (cf_PACPath h) (cf_HideIP h) (cf_HideVia h) (cf_DisableInsecureUpstreamsCheck h) (cf_Hosts h)
    (cf_ProbeResistance h) t (cf_MaxIdleConns h) (cf_MaxIdleConnsPerHost h) (cf_Upstream h) (cf_ACL h)
    (cf_AllowedPorts h) (cf_AuthCredentials h).
Definition set_max_idle (h : config) (n : Z) : config :=
  MkConfig (cf_PACPath h) (cf_HideIP h) (cf_HideVia h) (cf_DisableInsecureUpstreamsCheck h) (cf_Hosts h)
    (cf_ProbeResistance h) (cf_DialTimeout h) n (cf_MaxIdleConnsPerHost h) (cf_Upstream h) (cf_ACL h)
    (cf_AllowedPorts h) (cf_AuthCredentials h).
Definition set_max_idle_host (h : config) (n : Z) : config :=
  MkConfig (cf_PACPath h) (cf_HideIP h) (cf_HideVia h) (cf_DisableInsecureUpstreamsCheck h) (cf_Hosts h)
    (cf_ProbeResistance h) (cf_DialTimeout h) (cf_MaxIdleConns h) n (cf_Upstream h) (cf_ACL h)
    (cf_AllowedPorts h) (cf_AuthCredentials h).
Definition set_upstream (h : config) (u : gostring) : config :=
  MkConfig (cf_PACPath h) (cf_HideIP h) (cf_HideVia h) (cf_DisableInsecureUpstreamsCheck h) (cf_Hosts h)
    (cf_ProbeResistance h) (cf_DialTimeout h) (cf_MaxIdleConns h) (cf_MaxIdleConnsPerHost h) u (cf_ACL h)
    (cf_AllowedPorts h) (cf_AuthCredentials h).
Definition add_acl (h : config) (r : ACLRule) : config :=
  MkConfig (cf_PACPath h) (cf_HideIP h) (cf_HideVia h) (cf_DisableInsecureUpstreamsCheck h) (cf_Hosts h)
    (cf_ProbeResistance h) (cf_DialTimeout h) (cf_MaxIdleConns h) (cf_MaxIdleConnsPerHost h) (cf_Upstream h)
    (cf_ACL h ++ [r]) (cf_AllowedPorts h) (cf_AuthCredentials h).

Definition basic_auth (args : list gostring) (h : config) : config + refusal :=
  match args with
  | [user; pass] =>
      if bool_decide (length user = 0) then inr (Bad (go "empty usernames are not allowed"))
      else if ContainsByte user ":" then inr (Bad (go "character ':' in usernames is not allowed"))
      else inl (set_auth h (Some (default [] (cf_AuthCredentials h) ++ [EncodeAuthCredentials user pass])))
  | _ => inr BadArgs
  end.

Definition hosts (args : list gostring) (h : config) : config + refusal :=
  match args with
  | [] => inr BadArgs
  | _ => if negb (bool_decide (length (cf_Hosts h) = 0)) then inr (Bad (go "hosts subdirective specified twice"))
         else inl (set_hosts h args)
  end.

(** The ports, or the first one that is none. *)
Fixpoint parse_ports (args : list gostring) : list Z + gostring :=
  match args with
  | [] => inl []
  | p :: rest =>
      match Atoi p with
      | Some intPort =>
          if (intPort <=? 0)%Z || (65535 <? intPort)%Z then inr p
          else match parse_ports rest with inl ps => inl (intPort :: ps) | inr q => inr q end
      | None => inr p
      end
  end.

Definition ports (args : list gostring) (h : config) : config + refusal :=
  match args with
  | [] => inr BadArgs
  | _ =>
      if negb (bool_decide (length (cf_AllowedPorts h) = 0)) then inr (Bad (go "ports subdirective specified twice"))
      else match parse_ports args with
           | inl ps => inl (set_ports h ps)
           | inr p => inr (Bad (go "ports are expected to be space-separated and in 0-65535 range, but got: " ++ p))
           end
  end.

Definition probe_resistance (args : list gostring) (h : config) : config + refusal :=
  match args with
  | [] => inl (set_probe h [])
  | [domain] => inl (set_probe h domain)
  | _ => inr BadArgs
  end.

Definition serve_pac (args : list gostring) (h : config) : config + refusal :=
  let twice := negb (bool_decide (length (cf_PACPath h) = 0)) in
  match args with
  | [] => if twice then inr (Bad (go "serve_pac subdirective specified twice")) else inl (set_pac h (go "/proxy.pac"))
  | [path] =>
      if twice then inr (Bad (go "serve_pac subdirective specified twice"))
      else inl (set_pac h (if HasPrefix path (go "/") then path else go "/" ++ path))
  | _ => inr BadArgs
  end.

Definition dial_timeout (o : outside) (args : list gostring) (h : config) : config + refusal :=
  match args with
  | [arg] =>
      match ParseDuration o arg with
      | Err _ => inr BadArgs
      | Ok timeout =>
          if (timeout <? 0)%Z then inr (Bad (go "dial_timeout cannot be negative.")) else inl (set_dial_timeout h timeout)
      end
  | _ => inr BadArgs
  end.

(** A directive with one number. *)
Definition number (set : config -> Z -> config) (args : list gostring) (h : config) : config + refusal :=
  match args with
  | [arg] => match Atoi arg with Some val => inl (set h val) | None => inr BadArgs end
  | _ => inr BadArgs
  end.

Definition upstream_directive (args : list gostring) (h : config) : config + refusal :=
  match args with
  | [u] =>
      if negb (bool_decide (cf_Upstream h = [])) then inr (Bad (go "upstream directive specified more than once"))
      else inl (set_upstream h u)
  | _ => inr BadArgs
  end.

(** The cases of the switch but [acl], each with what it does to its arguments. *)
Definition directives (o : outside) : list (gostring * (list gostring -> config -> config + refusal)) :=
  [(go "basic_auth", basic_auth); (go "hosts", hosts); (go "ports", ports);
   (go "hide_ip", fun args => no_args args set_hide_ip); (go "hide_via", fun args => no_args args set_hide_via);
   (go "disable_insecure_upstreams_check", fun args => no_args args set_insecure);
   (go "probe_resistance", probe_resistance); (go "serve_pac", serve_pac); (go "dial_timeout", dial_timeout o);
   (go "max_idle_conns", number set_max_idle); (go "max_idle_conns_per_host", number set_max_idle_host);
   (go "upstream", upstream_directive)].

Definition find_directive (o : outside) (name : gostring) : option (list gostring -> config -> config + refusal) :=
  match list_find (fun entry => entry.1 = name) (directives o) with Some (_, (_, set)) => Some set | None => None end.

(** One line of the [acl] block. *)
Definition acl_line (o : outside) (aclDirective : gostring) (args : list gostring) : ACLRule + refusal :=
  let from_file (complaint : string) (allow : bool) :=
    match args with
    | [filename] =>
        match readLinesFromFile o filename with
        | Ok subjects => inl (MkACLRule subjects allow)
        | Err e => inr (BadFile e)
        end
    | _ => inr (Bad (go complaint))
    end in
  match args with
  | [] => inr BadArgs
  | _ =>
      if bool_decide (aclDirective = go "allow") then inl (MkACLRule args true)
      else if bool_decide (aclDirective = go "allow_file") then from_file "allowfile accepts a single filename argument"%string true
      else if bool_decide (aclDirective = go "deny") then inl (MkACLRule args false)
      else if bool_decide (aclDirective = go "deny_file") then from_file "denyfile accepts a single filename argument"%string false
      else inr (Bad (go "expected acl directive: allow/allowfile/deny/denyfile." ++ go "got: " ++ aclDirective))
  end.

(** ** UnmarshalCaddyfile *)

Section Parser.
Context {D : Type} `{!Dispenser D}.
Variable o : outside.

Definition refuse (d : D) (r : refusal) : error :=
  match r with BadArgs => ArgErr d | Bad msg => Errf d msg | BadFile e => e end.

(** The loop over the [acl] block; [None] is out of fuel. *)
Fixpoint acl_block (fuel : nat) (nesting : Z) (h : config) (d : D) : option (result (config * D)) :=
  match fuel with
  | O => None
  | S fuel' =>
      let '(more, d) := NextBlock nesting d in
      if more then
        let aclDirective := Val d in
        let '(args, d) := RemainingArgs d in
        match acl_line o aclDirective args with
        | inl rule => acl_block fuel' nesting (add_acl h rule) d
        | inr r => Some (Err (refuse d r))
        end
      else Some (Ok (h, d))
  end.

(** One directive; the fuel is that of an [acl] block. *)
Definition directive (fuel : nat) (h : config) (d : D) : option (result (config * D)) :=
  let name := Val d in
  if bool_decide (name = go "acl") then acl_block fuel (Nesting d) h d
  else
    match find_directive o name with
    | Some set =>
        let '(args, d) := RemainingArgs d in
        Some match set args h with inl h => Ok (h, d) | inr r => Err (refuse d r) end
    | None => Some (Err (ArgErr d))
    end.

Fixpoint block (fuel : nat) (nesting : Z) (h : config) (d : D) : option (result (config * D)) :=
  match fuel with
  | O => None
  | S fuel' =>
      let '(more, d) := NextBlock nesting d in
      if more then
        match directive fuel' h d with
        | Some (Ok (h, d)) => block fuel' nesting h d
        | Some (Err e) => Some (Err e)
        | None => None
        end
      else Some (Ok (h, d))
  end.

Definition UnmarshalCaddyfile (fuel : nat) (h : config) (d : D) : option (result (config * D)) :=
  let '(_, d) := Next d in
  let '(args, d) := RemainingArgs d in
  match args with
  | _ :: _ => Some (Err (ArgErr d))
  | [] => block fuel (Nesting d) h d
  end.
End Parser.

(** ** The lines of a block *)

(** A line: a directive with its arguments, or an [acl] block. *)
Inductive line := Line (name : gostring) (args : list gostring) | Acl (lines : list (gostring * list gostring)).

(** What the dispenser promises for a block laid out in lines: [starts] is its state at the
    directive, [in_block] in the block with lines to come, [in_acl] in a nested block
    with lines to come of both. *)
Class DispenserLaws (D : Type) `{Dispenser D} := {
  starts : list line -> D -> Prop;
  in_block : Z -> list line -> D -> Prop;
  in_acl : Z -> list (gostring * list gostring) -> Z -> list line -> D -> Prop;
  Next_starts : forall lines d, starts lines d ->
    exists d', RemainingArgs (Next d).2 = ([], d') /\ in_block (Nesting d') lines d';
  NextBlock_end : forall n d, in_block n [] d -> (NextBlock n d).1 = false;
  NextBlock_line : forall n name args rest d, in_block n (Line name args :: rest) d ->
    exists d1 d2, NextBlock n d = (true, d1) /\ Val d1 = name /\ RemainingArgs d1 = (args, d2) /\ in_block n rest d2;
  NextBlock_acl : forall n lines rest d, in_block n (Acl lines :: rest) d ->
    exists d1, NextBlock n d = (true, d1) /\ Val d1 = go "acl" /\ in_acl (Nesting d1) lines n rest d1;
  acl_end : forall m n rest d, in_acl m [] n rest d ->
    exists d1, NextBlock m d = (false, d1) /\ in_block n rest d1;
  acl_next : forall m name args lines n rest d, in_acl m ((name, args) :: lines) n rest d ->
    exists d1 d2, NextBlock m d = (true, d1) /\ Val d1 = name /\ RemainingArgs d1 = (args, d2) /\ in_acl m lines n rest d2;
}.

(** The meaning of the lines: the configuration, unless one is refused. *)
Fixpoint acl_meaning (o : outside) (h : config) (lines : list (gostring * list gostring)) : option config :=
  match lines with
  | [] => Some h
  | (name, args) :: rest =>
      match acl_line o name args with inl rule => acl_meaning o (add_acl h rule) rest | inr _ => None end
  end.

Definition line_meaning (o : outside) (h : config) (l : line) : option config :=
  match l with
  | Line name args =>
      match find_directive o name with
      | Some set => match set args h with inl h => Some h | inr _ => None end
      | None => None
      end
  | Acl lines => acl_meaning o h lines
  end.

Fixpoint meaning (o : outside) (h : config) (lines : list line) : option config :=
  match lines with [] => Some h | l :: rest => line_meaning o h l ≫= fun h => meaning o h rest end.

(** The tokens of the lines bound the rounds of the loops. *)
Definition line_size (l : line) : nat := match l with Line _ _ => 1 | Acl lines => S (length lines) end.
Definition size (lines : list line) : nat := sum_list_with line_size lines.

(** ** Lemmas *)

Section Refinement.
Context {D : Type} `{HD : Dispenser D, !DispenserLaws D}.
Variable o : outside.

(** The parser's result agrees with the meaning, and ends where [K] says. *)
Definition agrees (res : option (result (config * D))) (m : option config) (K : D -> Prop) : Prop :=
  match res, m with
  | Some (Ok (h, d)), Some h' => h = h' /\ K d
  | Some (Err _), None => True
  | _, _ => False
  end.

Lemma acl_block_meaning m n rest lines fuel h d :
  in_acl m lines n rest d -> length lines < fuel ->
  agrees (acl_block o fuel m h d) (acl_meaning o h lines) (in_block n rest).
Proof.
  revert fuel h d. induction lines as [|[name args] lines IH]; intros fuel h d Hd Hf;
    (destruct fuel as [|fuel]; [cbn in Hf; lia|]); cbn [acl_block acl_meaning].
  - apply acl_end in Hd as (d1 & -> & Hd). by split.
  - apply acl_next in Hd as (d1 & d2 & -> & -> & -> & Hd).
    destruct (acl_line o name args) as [rule|r]; [|done]. apply IH; [done|]. cbn in Hf. lia.
Qed.

Definition proper_line (l : line) : Prop := match l with Line name _ => name <> go "acl" | Acl _ => True end.

Lemma block_meaning n lines fuel h d :
  Forall proper_line lines -> in_block n lines d -> size lines < fuel ->
  agrees (block o fuel n h d) (meaning o h lines) (fun _ => True).
Proof.
  intros Hp. revert fuel h d. induction Hp as [|l lines Hl Hp IH]; intros fuel h d Hd Hf;
    (destruct fuel as [|fuel]; [cbn in Hf; lia|]); cbn [block meaning].
  - apply NextBlock_end in Hd. destruct (NextBlock n d) as [more d1]. cbn in Hd. subst. done.
  - change (size (l :: lines)) with (line_size l + size lines) in Hf. destruct l as [name args|inner]; cbn [line_size] in Hf.
    + apply NextBlock_line in Hd as (d1 & d2 & -> & Hv & Ha & Hd). unfold directive. rewrite Hv.
      rewrite bool_decide_false by done. cbn [line_meaning]. destruct (find_directive o name) as [set|]; [|done].
      rewrite Ha. destruct (set args h) as [h'|r]; [|done]. apply IH; [done|lia].
    + apply NextBlock_acl in Hd as (d1 & -> & Hv & Hd). unfold directive. rewrite Hv, bool_decide_true by done.
      pose proof (acl_block_meaning (Nesting d1) n lines inner fuel h d1 Hd) as Hacl. cbn [line_meaning].
      destruct (acl_block o fuel (Nesting d1) h d1) as [[[h' d2]|e]|], (acl_meaning o h inner) as [h''|];
        try (destruct Hacl; lia); [|done].
      destruct Hacl as [-> Hd2]; [lia|]. apply IH; [done|lia].
Qed.

Lemma unmarshal_meaning lines h d fuel :
  Forall proper_line lines -> starts lines d -> size lines < fuel ->
  agrees (UnmarshalCaddyfile o fuel h d) (meaning o h lines) (fun _ => True).
Proof.
  intros Hp (d' & Ha & Hb)%Next_starts Hf. unfold UnmarshalCaddyfile. destruct (Next d) as [b d1]. cbn [snd] in Ha.
  rewrite Ha. by apply block_meaning.
Qed.
End Refinement.

(** ** Well-formed configurations *)

(** A credential of a named user, without a colon in the name. *)
Definition stored_credential (creds : gostring) : Prop :=
  exists user pass, user <> [] /\ (":"%char ∉ user) /\ creds = EncodeAuthCredentials user pass.

Record config_wf (h : config) : Prop := {
  wf_ports : Forall (fun p => 1 <= p <= 65535)%Z (cf_AllowedPorts h);
  wf_auth : Forall stored_credential (default [] (cf_AuthCredentials h));
  wf_auth_some : cf_AuthCredentials h <> Some [];
  wf_timeout : (0 <= cf_DialTimeout h)%Z;
  wf_pac : cf_PACPath h = [] \/ HasPrefix (cf_PACPath h) (go "/") = true;
}.

Lemma parse_ports_range args ps : parse_ports args = inl ps -> Forall (fun p => 1 <= p <= 65535)%Z ps.
Proof.
  revert ps. induction args as [|p args IH]; intros ps; cbn [parse_ports]; [by intros [= <-]|].
  destruct (Atoi p) as [z|]; [|done]. destruct ((z <=? 0)%Z || (65535 <? z)%Z) eqn:E; [done|].
  destruct (parse_ports args) as [qs|]; [|done]. intros [= <-]. apply orb_false_iff in E as [?%Z.leb_gt ?%Z.ltb_ge].
  constructor; [lia|by apply IH].
Qed.

Lemma line_config_wf o name set args h h' :
  find_directive o name = Some set -> config_wf h -> set args h = inl h' -> config_wf h'.
Proof.
  unfold find_directive. destruct (list_find _ _) as [[i [n f]]|] eqn:E; [|done]. intros [= <-].
  apply list_find_Some in E as (Hi & _ & _). apply list_elem_of_lookup_2 in Hi. unfold directives in Hi.
  intros Hwf Hset. pose proof Hwf as [Hp Ha Hs Ht Hc]. 
  repeat (apply elem_of_cons in Hi as [[= -> ->]|Hi]; [revert Hset|]); [..|by apply not_elem_of_nil in Hi].
  - unfold basic_auth. destruct args as [|user [|pass [|]]]; try done. case_bool_decide as Hu; [done|].
    destruct (ContainsByte user ":") eqn:Ec; [done|]. intros [= <-]. split; try done; cbn.
    + apply Forall_app. split; [done|]. repeat constructor. exists user, pass. split; [by intros ->|].
      split; [by apply ContainsByte_false|done].
    + intros [= E]. by apply app_eq_nil in E as [_ ?].
  - unfold hosts. destruct args; [done|]. case_bool_decide; [|done]. by intros [= <-].
  - unfold ports. destruct args as [|p args]; [done|]. case_bool_decide; [|done]. cbn [negb].
    destruct (parse_ports (p :: args)) as [ps|] eqn:Eps; [|done]. intros [= <-]. split; try done. by eapply parse_ports_range.
  - unfold no_args. destruct args; [|done]. by intros [= <-].
  - unfold no_args. destruct args; [|done]. by intros [= <-].
  - unfold no_args. destruct args; [|done]. by intros [= <-].
  - unfold probe_resistance. destruct args as [|? [|]]; try done; by intros [= <-].
  - unfold serve_pac. destruct args as [|path [|]]; [| |done]; case_bool_decide; try done; cbn [negb];
      intros [= <-]; (split; try done); right.
    + reflexivity.
    + change (HasPrefix (if HasPrefix path (go "/") then path else go "/" ++ path) (go "/") = true).
      destruct (HasPrefix path (go "/")) eqn:Ep; [exact Ep|]. exact (HasPrefix_app (go "/") path).
  - unfold dial_timeout. destruct args as [|arg [|]]; try done. destruct (ParseDuration o arg) as [t|]; [|done].
    destruct (t <? 0)%Z eqn:Et; [done|]. intros [= <-]. apply Z.ltb_ge in Et. by split.
  - unfold number. destruct args as [|arg [|]]; try done. destruct (Atoi arg); [|done]. by intros [= <-].
  - unfold number. destruct args as [|arg [|]]; try done. destruct (Atoi arg); [|done]. by intros [= <-].
  - unfold upstream_directive. destruct args as [|u [|]]; try done. case_bool_decide; [|done]. by intros [= <-].
Qed.

Lemma acl_meaning_wf o h lines h' : config_wf h -> acl_meaning o h lines = Some h' -> config_wf h'.
Proof.
  revert h. induction lines as [|[name args] lines IH]; intros h Hwf; cbn [acl_meaning]; [by intros [= <-]|].
  destruct (acl_line o name args) as [rule|]; [|done]. apply IH. by destruct Hwf.
Qed.

Lemma meaning_wf o h lines h' : config_wf h -> meaning o h lines = Some h' -> config_wf h'.
Proof.
  revert h. induction lines as [|l lines IH]; intros h Hwf; cbn [meaning]; [by intros [= <-]|].
  destruct (line_meaning o h l) as [h1|] eqn:El; [|done]. apply IH. destruct l as [name args|inner]; cbn in El.
  - destruct (find_directive o name) as [set|] eqn:Ef; [|done]. destruct (set args h) as [h2|] eqn:Es; [|done].
    injection El as <-. by eapply line_config_wf.
  - by eapply acl_meaning_wf.
Qed.

(** ** The users of a block *)

(** The user and password of each basic_auth line, in order. *)
Definition line_user (l : line) : option (gostring * gostring) :=
  match l with
  | Line name [user; pass] => if bool_decide (name = go "basic_auth") then Some (user, pass) else None
  | _ => None
  end.

Definition block_users (lines : list line) : list (gostring * gostring) := omap line_user lines.

Lemma block_users_line lines user pass : (user, pass) ∈ block_users lines -> Line (go "basic_auth") [user; pass] ∈ lines.
Proof.
  intros (l & Hl & Hu)%list_elem_of_omap. destruct l as [name [|u [|p [|]]]|]; try done. cbn in Hu.
  case_bool_decide; [|done]. by simplify_eq.
Qed.

Lemma line_block_users lines user pass : Line (go "basic_auth") [user; pass] ∈ lines -> (user, pass) ∈ block_users lines.
Proof. intros Hin. apply list_elem_of_omap. eexists. split; [exact Hin|]. done. Qed.

(** A line that is not refused has a user without a colon. *)
Lemma meaning_user_colon o h lines h' user pass :
  meaning o h lines = Some h' -> Line (go "basic_auth") [user; pass] ∈ lines -> ":"%char ∉ user.
Proof.
  revert h. induction lines as [|l lines IH]; intros h Hm Hin; [by apply not_elem_of_nil in Hin|]. cbn [meaning] in Hm.
  destruct (line_meaning o h l) as [h1|] eqn:El; [|done]. apply elem_of_cons in Hin as [<-|Hin]; [|by eapply IH].
  unfold line_meaning in El. change (find_directive o (go "basic_auth")) with (Some basic_auth) in El. unfold basic_auth in El.
  destruct (bool_decide _); [done|]. destruct (ContainsByte user ":") eqn:Ec; [done|].
  by apply ContainsByte_false.
Qed.

(** The credentials with those of some users added. *)
Definition with_users (auth : option (list gostring)) (users : list (gostring * gostring)) : option (list gostring) :=
  match users with
  | [] => auth
  | _ => Some (default [] auth ++ ((fun up => EncodeAuthCredentials up.1 up.2) <$> users))
  end.

Lemma with_users_app auth us vs : with_users (with_users auth us) vs = with_users auth (us ++ vs).
Proof.
  destruct us as [|u us]; [done|]. destruct vs as [|v vs]; [by rewrite app_nil_r|]. cbn. by rewrite <- app_assoc, fmap_app.
Qed.

(** A line adds the credential of its user, and no other line touches the credentials. *)
Lemma directive_users o name set args h h' :
  find_directive o name = Some set -> set args h = inl h' ->
  cf_AuthCredentials h' = with_users (cf_AuthCredentials h) (block_users [Line name args]).
Proof.
  unfold find_directive. destruct (list_find _ _) as [[i [n f]]|] eqn:E; [|done]. intros [= <-].
  apply list_find_Some in E as (Hi & Hn & _). cbn in Hn. subst n. apply list_elem_of_lookup_2 in Hi. unfold directives in Hi.
  intros Hset.
  repeat (apply elem_of_cons in Hi as [[= -> ->]|Hi]; [revert Hset|]); [..|by apply not_elem_of_nil in Hi].
  { unfold basic_auth. destruct args as [|user [|pass [|]]]; try done. case_bool_decide; [done|].
    destruct (ContainsByte user ":"); [done|]. by intros [= <-]. }
  all: assert (Hno : forall name' : gostring, name' <> go "basic_auth" -> block_users [Line name' args] = [])
    by (intros name' Hne; cbn; destruct args as [|? [|? [|]]]; cbn; try done; by rewrite bool_decide_false);
    rewrite Hno by done; clear Hno; cbn [with_users];
    unfold hosts, ports, no_args, probe_resistance, serve_pac, dial_timeout, number, upstream_directive;
    repeat case_match; intros; simplify_eq; done.
Qed.

Lemma acl_meaning_users o h lines h' : acl_meaning o h lines = Some h' -> cf_AuthCredentials h' = cf_AuthCredentials h.
Proof.
  revert h. induction lines as [|[name args] lines IH]; intros h; cbn [acl_meaning]; [by intros [= <-]|].
  destruct (acl_line o name args) as [rule|]; [|done]. intros Hm. by rewrite (IH _ Hm).
Qed.

(** The credentials of a configuration are those of the basic_auth lines and no others. *)
Lemma meaning_credentials o h lines h' :
  meaning o h lines = Some h' -> cf_AuthCredentials h' = with_users (cf_AuthCredentials h) (block_users lines).
Proof.
  revert h. induction lines as [|l lines IH]; intros h; cbn [meaning]; [by intros [= <-]|].
  destruct (line_meaning o h l) as [h1|] eqn:El; [|done]. cbn [mbind option_bind]. intros Hm. rewrite (IH _ Hm).
  change (l :: lines) with ([l] ++ lines). unfold block_users at 2. rewrite omap_app, <- with_users_app. f_equal.
  destruct l as [name args|inner]; cbn in El.
  - destruct (find_directive o name) as [set|] eqn:Ef; [|done]. destruct (set args h) as [h2|] eqn:Es; [|done].
    injection El as <-. by eapply directive_users.
  - by eapply acl_meaning_users.
Qed.

(** ** Printing a configuration *)

(** A directive, if it is needed. *)
Definition optional (present : bool) (name : string) (args : list gostring) : list line :=
  if present then [Line (go name) args] else [].

Definition print_rule (r : ACLRule) : gostring * list gostring :=
  (if Allow r then go "allow" else go "deny", Subjects r).

(** The lines that give a configuration whose credentials are those of [users];
    [duration] writes a duration. *)
Definition print (duration : Z -> gostring) (users : list (gostring * gostring)) (h : config) : list line :=
  ((fun up => Line (go "basic_auth") [up.1; up.2]) <$> users) ++
  optional (negb (bool_decide (cf_Hosts h = []))) "hosts" (cf_Hosts h) ++
  optional (negb (bool_decide (cf_AllowedPorts h = []))) "ports" (Itoa <$> cf_AllowedPorts h) ++
  optional (cf_HideIP h) "hide_ip" [] ++
  optional (cf_HideVia h) "hide_via" [] ++
  optional (cf_DisableInsecureUpstreamsCheck h) "disable_insecure_upstreams_check" [] ++
  match cf_ProbeResistance h with Some domain => [Line (go "probe_resistance") [domain]] | None => [] end ++
  optional (negb (bool_decide (cf_PACPath h = []))) "serve_pac" [cf_PACPath h] ++
  [Line (go "dial_timeout") [duration (cf_DialTimeout h)];
   Line (go "max_idle_conns") [Itoa (cf_MaxIdleConns h)];
   Line (go "max_idle_conns_per_host") [Itoa (cf_MaxIdleConnsPerHost h)]] ++
  optional (negb (bool_decide (cf_Upstream h = []))) "upstream" [cf_Upstream h] ++
  [Acl (print_rule <$> cf_ACL h)].

(** A configuration a Caddyfile can give. *)
Record expressible (users : list (gostring * gostring)) (h : config) : Prop := {
  ex_users : Forall (fun up => up.1 <> [] /\ (":"%char ∉ up.1)) users;
  ex_auth : cf_AuthCredentials h = match users with [] => None | _ => Some ((fun up => EncodeAuthCredentials up.1 up.2) <$> users) end;
  ex_ports : Forall (fun p => 1 <= p <= 65535)%Z (cf_AllowedPorts h);
  ex_timeout : (0 <= cf_DialTimeout h)%Z;
  ex_idle : (- max_int <= cf_MaxIdleConns h <= max_int)%Z;
  ex_idle_host : (- max_int <= cf_MaxIdleConnsPerHost h <= max_int)%Z;
  ex_pac : cf_PACPath h = [] \/ HasPrefix (cf_PACPath h) (go "/") = true;
  ex_acl : Forall (fun r => Subjects r <> []) (cf_ACL h);
}.

Lemma meaning_app o h l1 l2 : meaning o h (l1 ++ l2) = meaning o h l1 ≫= fun h => meaning o h l2.
Proof.
  revert h. induction l1 as [|l l1 IH]; intros h; cbn [meaning app]; [done|].
  destruct (line_meaning o h l) as [h1|]; [|done]. apply IH.
Qed.

Lemma meaning_users o users h :
  Forall (fun up => up.1 <> [] /\ (":"%char ∉ up.1)) users ->
  meaning o h ((fun up => Line (go "basic_auth") [up.1; up.2]) <$> users) =
  Some (set_auth h match users with
                   | [] => cf_AuthCredentials h
                   | _ => Some (default [] (cf_AuthCredentials h) ++ ((fun up => EncodeAuthCredentials up.1 up.2) <$> users))
                   end).
Proof.
  intros Hu. revert h. induction Hu as [|[user pass] users [Hne Hc] Hu IH]; intros h; [by destruct h|].
  cbn [fmap list_fmap meaning fst snd line_meaning]. change (find_directive o (go "basic_auth")) with (Some basic_auth).
  cbv iota beta. unfold basic_auth. cbn [fst snd] in *. rewrite bool_decide_false by (destruct user; [done|cbn; lia]).
  rewrite (proj2 (ContainsByte_false user ":") Hc). cbn [mbind option_bind]. rewrite IH. f_equal.
  unfold set_auth. cbn. destruct users; [done|]. by rewrite <- app_assoc.
Qed.

Lemma parse_ports_print ps : Forall (fun p => 1 <= p <= 65535)%Z ps -> parse_ports (Itoa <$> ps) = inl ps.
Proof.
  induction 1 as [|p ps Hp _ IH]; [done|]. cbn [fmap list_fmap parse_ports].
  rewrite Atoi_Itoa by (unfold max_int; lia). rewrite (proj2 (Z.leb_gt p 0)), (proj2 (Z.ltb_ge 65535 p)) by lia.
  cbn [orb]. by rewrite IH.
Qed.

Lemma acl_meaning_print o rules h :
  Forall (fun r => Subjects r <> []) rules ->
  acl_meaning o h (print_rule <$> rules) =
  Some (MkConfig (cf_PACPath h) (cf_HideIP h) (cf_HideVia h) (cf_DisableInsecureUpstreamsCheck h) (cf_Hosts h)
    (cf_ProbeResistance h) (cf_DialTimeout h) (cf_MaxIdleConns h) (cf_MaxIdleConnsPerHost h) (cf_Upstream h)
    (cf_ACL h ++ rules) (cf_AllowedPorts h) (cf_AuthCredentials h)).
Proof.
  intros Hr. revert h. induction Hr as [|[subjects allow] rules Hs Hr IH]; intros h.
  { cbn. rewrite app_nil_r. by destruct h. }
  cbn [fmap list_fmap acl_meaning print_rule Allow Subjects] in *.
  assert (E : acl_line o (if allow then go "allow" else go "deny") subjects = inl (MkACLRule subjects allow))
    by (unfold acl_line; destruct subjects; [done|]; by destruct allow).
  rewrite E, IH. cbn. by rewrite <- app_assoc.
Qed.

(** The meaning of an optional line, either way. *)
Lemma meaning_optional o present name args set h h' :
  find_directive o (go name) = Some set ->
  (present = true -> set args h = inl h') -> (present = false -> h' = h) ->
  meaning o h (optional present name args) = Some h'.
Proof.
  intros Hf Ht Hn. unfold optional. destruct present; [|by rewrite Hn].
  cbn [meaning line_meaning]. rewrite Hf, Ht by done. done.
Qed.

Lemma ports_print h ps :
  Forall (fun p => 1 <= p <= 65535)%Z ps -> ps <> [] -> cf_AllowedPorts h = [] -> ports (Itoa <$> ps) h = inl (set_ports h ps).
Proof.
  intros Hp Hne Hh. unfold ports. pose proof (parse_ports_print ps Hp) as Ep. rewrite Hh.
  destruct ps as [|p ps]; [done|]. change (Itoa <$> (p :: ps)) with (Itoa p :: (Itoa <$> ps)) in *. by rewrite Ep.
Qed.

(** The first half of a print-out: who may use the proxy, for which hosts and ports. *)
Lemma meaning_print_access o users hs ps hip hvia ins auth rest :
  Forall (fun up => up.1 <> [] /\ (":"%char ∉ up.1)) users ->
  auth = match users with [] => None | _ => Some ((fun up => EncodeAuthCredentials up.1 up.2) <$> users) end ->
  Forall (fun p => 1 <= p <= 65535)%Z ps ->
  meaning o empty_config
    (((fun up => Line (go "basic_auth") [up.1; up.2]) <$> users) ++
     optional (negb (bool_decide (hs = []))) "hosts" hs ++
     optional (negb (bool_decide (ps = []))) "ports" (Itoa <$> ps) ++
     optional hip "hide_ip" [] ++ optional hvia "hide_via" [] ++
     optional ins "disable_insecure_upstreams_check" [] ++ rest) =
  meaning o (MkConfig [] hip hvia ins hs None 0 0 0 [] [] ps auth) rest.
Proof.
  intros Hu Ha Hp. rewrite meaning_app, meaning_users by done. cbn [mbind option_bind].
  assert (Eauth : match users with [] => None | _ => Some ([] ++ ((fun up => EncodeAuthCredentials up.1 up.2) <$> users)) end = auth)
    by (by rewrite Ha; destruct users).
  cbn [empty_config cf_AuthCredentials default from_option]. rewrite Eauth. clear Eauth.
  rewrite meaning_app, (meaning_optional o _ _ _ hosts _ (MkConfig [] false false false hs None 0 0 0 [] [] [] auth));
    [|done|case_bool_decide; [done|by destruct hs]|by case_bool_decide; [subst|]].
  cbn [mbind option_bind].
  rewrite meaning_app, (meaning_optional o _ _ _ ports _ (MkConfig [] false false false hs None 0 0 0 [] [] ps auth));
    [|done|case_bool_decide; [done|intros _; by apply ports_print]|by case_bool_decide; [subst|]].
  cbn [mbind option_bind]. rewrite meaning_app, (meaning_optional o _ _ _ (fun args => no_args args set_hide_ip) _
    (MkConfig [] hip false false hs None 0 0 0 [] [] ps auth)); [|done|by intros ->|by intros ->].
  cbn [mbind option_bind]. rewrite meaning_app, (meaning_optional o _ _ _ (fun args => no_args args set_hide_via) _
    (MkConfig [] hip hvia false hs None 0 0 0 [] [] ps auth)); [|done|by intros ->|by intros ->].
  cbn [mbind option_bind]. rewrite meaning_app, (meaning_optional o _ _ _ (fun args => no_args args set_insecure) _
    (MkConfig [] hip hvia ins hs None 0 0 0 [] [] ps auth)); [|done|by intros ->|by intros ->].
  done.
Qed.

Lemma meaning_print_numbers o duration h rest :
  ParseDuration o (duration (cf_DialTimeout h)) = Ok (cf_DialTimeout h) -> (0 <= cf_DialTimeout h)%Z ->
  (- max_int <= cf_MaxIdleConns h <= max_int)%Z -> (- max_int <= cf_MaxIdleConnsPerHost h <= max_int)%Z ->
  forall h0, set_max_idle_host (set_max_idle (set_dial_timeout h0 (cf_DialTimeout h)) (cf_MaxIdleConns h)) (cf_MaxIdleConnsPerHost h) = h ->
  meaning o h0
    ([Line (go "dial_timeout") [duration (cf_DialTimeout h)]; Line (go "max_idle_conns") [Itoa (cf_MaxIdleConns h)];
      Line (go "max_idle_conns_per_host") [Itoa (cf_MaxIdleConnsPerHost h)]] ++ rest) = meaning o h rest.
Proof.
  intros Hdur Ht Hi Hih h0 Hh. cbn [app meaning line_meaning].
  change (find_directive o (go "dial_timeout")) with (Some (dial_timeout o)).
  change (find_directive o (go "max_idle_conns")) with (Some (number set_max_idle)).
  change (find_directive o (go "max_idle_conns_per_host")) with (Some (number set_max_idle_host)).
  unfold dial_timeout, number. rewrite Hdur, (proj2 (Z.ltb_ge _ 0)) by lia. cbn [mbind option_bind].
  rewrite !Atoi_Itoa_signed by done. cbn [mbind option_bind]. by rewrite Hh.
Qed.

(** ** Theorems *)

(** C19: the token-level parser computes the meaning of the block: for every dispenser that
    delivers its lines, with fuel for its tokens, UnmarshalCaddyfile ends, with the
    configuration the lines set one after the other, or with an error exactly when
    one of them is refused. *)
Theorem caddyfile_refines {D} `{HD : Dispenser D, !DispenserLaws D} o lines d h :
  Forall proper_line lines -> starts lines d ->
  match UnmarshalCaddyfile o (S (size lines)) h d with
  | Some (Ok (h', _)) => meaning o h lines = Some h'
  | Some (Err _) => meaning o h lines = None
  | None => False
  end.
Proof.
  intros Hp Hs. pose proof (unmarshal_meaning o lines h d (S (size lines)) Hp Hs ltac:(lia)) as Ha. unfold agrees in Ha.
  destruct (UnmarshalCaddyfile o (S (size lines)) h d) as [[[h' d']|e]|], (meaning o h lines) as [h''|]; try done.
  by destruct Ha as [-> _].
Qed.

(** C38: every configuration a Caddyfile gives is well formed: its ports are ports, its
    credentials are those of named users without a colon, so that no request can make
    the credential check panic, its timeout is not negative and its PAC path is one. *)
Theorem caddyfile_config_wf `{UnicodeTables} o lines h decode_error header :
  meaning o empty_config lines = Some h ->
  config_wf h /\ checkCredentials decode_error (default [] (cf_AuthCredentials h)) header <> AuthPanic.
Proof.
  intros Hm. assert (Hwf : config_wf h) by (apply (meaning_wf o empty_config lines); [|done]; split; cbn; auto; done).
  split; [done|]. unfold checkCredentials. destruct (Split _ _) as [|scheme [|token [|]]]; try done.
  destruct (negb _); [done|]. pose proof (list_find_eq (default [] (cf_AuthCredentials h)) token) as Hf.
  destruct (list_find _ _) as [[i creds]|]; [|by destruct (rejected_id decode_error token)]. destruct Hf as [-> Hin].
  apply (proj1 (Forall_forall _ _) (wf_auth h Hwf)) in Hin as (user & pass & _ & Hc & ->). by rewrite accept_encoded.
Qed.

(** C39: printing and parsing are inverse: a configuration a Caddyfile can give is the meaning
    of its own print-out, whatever notation durations are written in. *)
Theorem caddyfile_roundtrip o duration users h :
  expressible users h -> ParseDuration o (duration (cf_DialTimeout h)) = Ok (cf_DialTimeout h) ->
  meaning o empty_config (print duration users h) = Some h.
Proof.
  intros [Hu Ha Hp Ht Hi Hih Hpac Hacl] Hdur.
  destruct h as [pac hip hvia ins hs probe dt mi mih up acl ps auth]. cbn in Hu, Ha, Hp, Ht, Hi, Hih, Hpac, Hacl, Hdur.
  unfold print. cbn [cf_PACPath cf_HideIP cf_HideVia cf_DisableInsecureUpstreamsCheck cf_Hosts cf_ProbeResistance
    cf_DialTimeout cf_MaxIdleConns cf_MaxIdleConnsPerHost cf_Upstream cf_ACL cf_AllowedPorts].
  rewrite (meaning_print_access o users hs ps hip hvia ins auth) by done. rewrite meaning_app.
  assert (Epr : meaning o (MkConfig [] hip hvia ins hs None 0 0 0 [] [] ps auth)
    match probe with Some domain => [Line (go "probe_resistance") [domain]] | None => [] end =
    Some (MkConfig [] hip hvia ins hs probe 0 0 0 [] [] ps auth)) by by destruct probe.
  rewrite Epr. cbn [mbind option_bind]. rewrite meaning_app, (meaning_optional o _ _ _ serve_pac _
    (MkConfig pac hip hvia ins hs probe 0 0 0 [] [] ps auth)); [|done| |by case_bool_decide; [subst|]].
  2: { case_bool_decide; [done|]. intros _. destruct Hpac as [?|Hpac]; [done|]. unfold serve_pac.
       change (HasPrefix pac (go "/") = true) in Hpac. by rewrite Hpac. }
  cbn [mbind option_bind].
  rewrite (meaning_print_numbers o duration (MkConfig pac hip hvia ins hs probe dt mi mih [] [] ps auth)) by done.
  rewrite meaning_app, (meaning_optional o _ _ _ upstream_directive _
    (MkConfig pac hip hvia ins hs probe dt mi mih up [] ps auth)); [|done|by case_bool_decide|by case_bool_decide; [subst|]].
  cbn [mbind option_bind meaning line_meaning]. by rewrite acl_meaning_print.
Qed.

(** ** A dispenser that satisfies the laws *)

(** A cursor over lines: the level and value it is at, the arguments left on the line,
    the lines left of an [acl] block it is in, and those of the outer block. *)
Record cursor := MkCursor {
  cu_level : Z;
  cu_val : gostring;
  cu_args : list gostring;
  cu_inner : list (gostring * list gostring);
  cu_outer : list line;
}.

Definition cursor_next (n : Z) (d : cursor) : bool * cursor :=
  if (n =? 0)%Z then
    match cu_outer d with
    | [] => (false, d)
    | Line name args :: rest => (true, MkCursor 1 name args [] rest)
    | Acl lines :: rest => (true, MkCursor 1 (go "acl") [] lines rest)
    end
  else
    match cu_inner d with
    | [] => (false, d)
    | (name, args) :: lines => (true, MkCursor 2 name args lines (cu_outer d))
    end.

#[export] Instance cursor_dispenser : Dispenser cursor := {|
  Next := fun d => (true, d);
  NextBlock := cursor_next;
  Nesting := cu_level;
  Val := cu_val;
  RemainingArgs := fun d => (cu_args d, MkCursor (cu_level d) (cu_val d) [] (cu_inner d) (cu_outer d));
  ArgErr := fun d => ErrMsg (go "wrong argument count or unexpected line ending after '" ++ cu_val d ++ go "'");
  Errf := fun _ msg => ErrMsg msg;
|}.

#[export] Program Instance cursor_laws : DispenserLaws cursor := {|
  starts := fun lines d => d = MkCursor 0 (go "forward_proxy") [] [] lines;
  in_block := fun n lines d => n = 0%Z /\ cu_outer d = lines;
  in_acl := fun m lines n rest d => m = 1%Z /\ n = 0%Z /\ cu_inner d = lines /\ cu_outer d = rest;
|}.
Next Obligation. intros lines d ->. by eexists. Qed.
Next Obligation. intros n d [-> E]. unfold NextBlock, cursor_dispenser, cursor_next. by rewrite E. Qed.
Next Obligation.
  intros n name args rest d [-> E]. unfold NextBlock, cursor_dispenser, cursor_next. rewrite E. do 2 eexists. done.
Qed.
Next Obligation.
  intros n lines rest d [-> E]. unfold NextBlock, cursor_dispenser, cursor_next. rewrite E. by eexists.
Qed.
Next Obligation.
  intros m n rest d (-> & -> & E & Eo). unfold NextBlock, cursor_dispenser, cursor_next. rewrite E. by eexists.
Qed.
Next Obligation.
  intros m name args lines n rest d (-> & -> & E & Eo). unfold NextBlock, cursor_dispenser, cursor_next. rewrite E.
  by do 2 eexists.
Qed.

(** ** Witnesses *)

#[local] Instance caddyfile_unicode : UnicodeTables :=
  {| unicode_lower := id; unicode_equal_fold := fun s t => bool_decide (s = t) |}.

(** Durations in whole nanoseconds, and one file. *)
Definition example_outside : outside :=
  MkOutside (fun s => match Atoi s with Some z => Ok z | None => Err (ErrMsg (go "invalid duration")) end)
    (fun name => if bool_decide (name = go "denied") then Ok (go "a.test" ++ ["013"%char; "010"%char] ++ go "b.test")
                 else Err (ErrMsg (go "no such file"))).

Definition example_lines : list line :=
  [Line (go "basic_auth") [go "al"; go "pw"]; Line (go "ports") [go "443"; go "80"];
   Acl [(go "allow", [go "all"]); (go "deny_file", [go "denied"])]].

Definition example_config : config :=
  MkConfig [] false false false [] None 0 0 0 []
    [MkACLRule [go "all"] true; MkACLRule [go "a.test"; go "b.test"] false] [443%Z; 80%Z]
    (Some [EncodeAuthCredentials (go "al") (go "pw")]).

Lemma caddyfile_refines_witness :
  match UnmarshalCaddyfile example_outside (S (size example_lines)) empty_config
          (MkCursor 0 (go "forward_proxy") [] [] example_lines) with
  | Some (Ok (h', _)) => meaning example_outside empty_config example_lines = Some h'
  | Some (Err _) => meaning example_outside empty_config example_lines = None
  | None => False
  end.
Proof.
  apply (caddyfile_refines example_outside example_lines).
  - repeat constructor; discriminate.
  - reflexivity.
Defined.

Lemma caddyfile_config_wf_witness :
  config_wf example_config /\
  checkCredentials (fun _ => []) (default [] (cf_AuthCredentials example_config)) ∅ <> AuthPanic.
Proof.
  apply (caddyfile_config_wf example_outside example_lines). vm_compute. reflexivity.
Defined.

Lemma caddyfile_roundtrip_witness :
  meaning example_outside empty_config (print Itoa [(go "al", go "pw")] example_config) = Some example_config.
Proof.
  apply (caddyfile_roundtrip example_outside Itoa).
  - split; cbn; try (unfold max_int; lia).
    + repeat constructor; [discriminate|apply ContainsByte_false; reflexivity].
    + reflexivity.
    + repeat constructor; discriminate.
    + left. reflexivity.
    + repeat constructor; discriminate.
  - vm_compute. reflexivity.
Defined.
