(* ===== verification/Interop.v ===== *)
(** * The interoperability client: cmd/m4-rfc9298-client/main.go

    An independent CONNECT-UDP client with its fixtures.  quic-go and its http3 package are
    a class of operations on the state [S] of the network, about which nothing is assumed;
    the record [delivered] says what of a request HTTP/3 carries to the server.  The
    theorems put the client's requests, datagrams and padded frames in front of the
    proxy's own definitions. *)

From stdpp Require Import base decidable numbers list gmap strings.
From Stdlib Require Import ZArith Lia Ascii.
From S2P Require Import Prelude GoStrings GoNet GoHttp GoUrl Acl Policy UdpProtocol Varint UdpAdmission UdpPump UdpServe Padding Headers Auth Handler Proxy Tunnel.

(** ** Programs: state passing with early returns *)

Definition prog (S A : Type) : Type := S -> result A * S.

#[export] Instance prog_ret {S} : MRet (prog S) := fun A a s => (Ok a, s).
#[export] Instance prog_bind {S} : MBind (prog S) := fun A B k m s =>
  let '(r, s') := m s in match r with Ok a => k a s' | Err e => (Err e, s') end.

Definition fail {S A} (e : error) : prog S A := fun s => (Err e, s).

Definition modify {S} (f : S -> S) : prog S unit := fun s => (Ok tt, f s).

(** A deferred call. *)
Definition deferring {S A} (cleanup : S -> S) (m : prog S A) : prog S A := fun s =>
  let '(r, s') := m s in (r, cleanup s').

(** ** The transport *)

Record settings := MkSettings { EnableDatagrams : bool; EnableExtendedConnect : bool }.

(** What the client prints: a line of text, the line of the idle mode with the time that
    passed, rounded to the second, or an error, to the standard error stream. *)
Inductive outputLine := Line (text : gostring) | IdleLine (elapsed : Z) | ErrorLine (err : error).

(** Connections and streams are numbers; a failed [ReceivedSettings] is the end of the
    context; [CancelStream] cancels both directions of a stream.  [ListenUDP] resolves the
    address and gives the socket with its port, [ServeSocket] starts the goroutine that
    answers what the socket receives into a buffer of the given size, [ReceiveWithin] is
    ReceiveDatagram under a timeout, and [StreamDone] waits for the end of the stream's
    context and fails when the client's own ends first. *)
Class Transport (S : Type) := {
  DialAddr : gostring -> gostring -> prog S nat;
  ReceivedSettings : nat -> prog S (option settings);
  CloseWithError : nat -> S -> S;
  OpenRequestStream : nat -> prog S nat;
  SendRequestHeader : nat -> Request -> prog S unit;
  ReadResponse : nat -> prog S Z;
  SendDatagram : nat -> list byte -> prog S unit;
  ReceiveDatagram : nat -> prog S (list byte);
  CancelStream : nat -> S -> S;
  ListenUDP : gostring -> gostring -> prog S (nat * Z);
  ServeSocket : nat -> Z -> (list byte -> option (list byte)) -> S -> S;
  CloseSocket : nat -> S -> S;
  ReceiveWithin : nat -> Z -> prog S (list byte);
  StreamDone : nat -> prog S unit;
  Now : S -> Z;
  Sleep : Z -> S -> S;
  Output : outputLine -> S -> S;
}.

(** ** The client *)

Record client := MkClient { cl_proxy : gostring; cl_auth : gostring; cl_quic : nat }.

Definition basic_value (user pass : gostring) : gostring :=
  if negb (bool_decide (user = [])) || negb (bool_decide (pass = []))
  then go "Basic " ++ b64_encode (user ++ go ":" ++ pass) else [].

Definition client_msg (msg : string) : error := ErrMsg (go msg).

Definition encode (payload : list byte) : list byte := zero_byte :: payload.

Definition decode (datagram : list byte) : result (list byte) :=
  match datagram with
  | c :: payload =>
      if byte_eqb c zero_byte then Ok payload else Err (client_msg "non-canonical or unsupported Context ID")
  | [] => Err (client_msg "non-canonical or unsupported Context ID")
  end.

(** The request [open] sends; the path is built from a host name and a port. *)
Definition open_request (c : client) (host : gostring) (port : Z) `{UnicodeTables} : result Request :=
  requestURL ← url_Parse (go "https://" ++ cl_proxy c ++ connectUDPURIPrefix ++ PathEscape host ++ go "/" ++ Itoa port ++ go "/");
  let header := Set_ ∅ (go "Capsule-Protocol") (go "?1") in
  let header := if bool_decide (cl_auth c = []) then header else Set_ header (go "Proxy-Authorization") (cl_auth c) in
  Ok (MkRequest MethodConnect connectUDPProtocol 3 0 header (URL_Host requestURL) [] [] (Some requestURL)).

Section Client.
Context {S : Type} `{Transport S, UnicodeTables}.

Definition lift {A} (r : result A) : prog S A := fun s => (r, s).

(** The settings the server has to negotiate; without them the connection is closed. *)
Definition await_settings (proxy username password : gostring) (qconn : nat) : prog S client := fun s =>
  match ReceivedSettings qconn s with
  | (Err e, s) => (Err e, CloseWithError qconn s)
  | (Ok settings, s) =>
      if match settings with Some st => EnableDatagrams st && EnableExtendedConnect st | None => false end
      then (Ok (MkClient proxy (basic_value username password) qconn), s)
      else (Err (client_msg "server did not negotiate RFC 9297 settings"), CloseWithError qconn s)
  end.

Definition dialClient (proxy username password : gostring) : prog S client :=
  '(host, _) ← lift (SplitHostPort proxy);
  qconn ← DialAddr proxy host;
  await_settings proxy username password qconn.

Definition open (c : client) (host : gostring) (port : Z) : prog S (nat * Z) :=
  stream ← OpenRequestStream (cl_quic c);
  request ← lift (open_request c host port);
  SendRequestHeader stream request ≫= fun _ =>
  status ← ReadResponse stream;
  mret (stream, status).

Definition closeStream (stream : nat) : S -> S := CancelStream stream.

Definition echo (c : client) (host : gostring) (port : Z) (payload : list byte) : prog S unit :=
  '(stream, status) ← open c host port;
  deferring (closeStream stream)
    (if negb (status =? StatusOK)%Z then fail (client_msg "CONNECT-UDP status")
     else
       SendDatagram stream (encode payload) ≫= fun _ =>
       datagram ← ReceiveDatagram stream;
       got ← lift (decode datagram);
       if bool_decide (got = payload) then mret tt else fail (client_msg "echo mismatch")).

(** *** Sockets *)

Definition startEcho (network address : gostring) : prog S (nat * Z) :=
  '(conn, port) ← ListenUDP network address;
  modify (ServeSocket conn 65535 Some) ≫= fun _ => mret (conn, port).

(** *** runLimits *)

(** Admit streams [i], [i + 1], ..., as many as the fuel says, half of them over each of the
    two connections: the error and the streams held. *)
Fixpoint admit_streams (c second : client) (port : Z) (count i : nat) (streams : list nat) (s : S)
    : (option error * list nat) * S :=
  match count with
  | O => ((None, streams), s)
  | Datatypes.S count' =>
      let owner := if bool_decide (64 <= i) then second else c in
      let '(r, s) := open owner (go "127.0.0.1") port s in
      match r with
      | Err e => ((Some e, streams), s)
      | Ok (stream, status) =>
          if negb (status =? StatusOK)%Z then ((Some (client_msg "association admission"), streams), s)
          else admit_streams c second port count' (i + 1) (streams ++ [stream]) s
      end
  end.

(** The attempts to use the released place again. *)
Fixpoint replace_stream (c : client) (port : Z) (attempts : nat) (streams : list nat) (s : S)
    : (option error * list nat) * S :=
  match attempts with
  | O => ((Some (client_msg "released association capacity was not reusable"), streams), s)
  | Datatypes.S attempts' =>
      let s := Sleep (50 * 1000000) s in
      let '(r, s) := open c (go "127.0.0.1") port s in
      match r with
      | Err e => ((Some e, streams), s)
      | Ok (replacement, status) =>
          if (status =? StatusOK)%Z then ((None, streams ++ [replacement]), Output (Line (go "M4_G5_RESOURCE_LIMIT_OK")) s)
          else replace_stream c port attempts' streams (closeStream replacement s)
      end
  end.

(** What is done once the 128 streams are open. *)
Definition probe_limit (c : client) (port : Z) (streams : list nat) (s : S) : (option error * list nat) * S :=
  let '(r, s) := open c (go "127.0.0.1") port s in
  match r with
  | Err e => ((Some e, streams), s)
  | Ok (rejected, status) =>
      let s := closeStream rejected s in
      if negb (status =? StatusServiceUnavailable)%Z then ((Some (client_msg "129th association"), streams), s)
      else
        match streams with
        | [] => ((Some (client_msg "index out of range"), []), s)
        | first :: rest => replace_stream c port 20 rest (closeStream first s)
        end
  end.

Definition limits_body (c second : client) (port : Z) : prog S unit := fun s =>
  let '((err, streams), s) := admit_streams c second port 128 0 [] s in
  let '((err, streams), s) :=
    match err with None => probe_limit c port streams s | Some _ => ((err, streams), s) end in
  (match err with Some e => Err e | None => Ok tt end, foldl (fun s stream => closeStream stream s) s streams).

Definition runLimits (c : client) : prog S unit :=
  second ← dialClient (cl_proxy c) [] [];
  deferring (CloseWithError (cl_quic second))
    ('(echo, port) ← startEcho (go "udp4") (go "127.0.0.1:0");
     deferring (CloseSocket echo) (limits_body c (MkClient (cl_proxy second) (cl_auth c) (cl_quic second)) port)).
End Client.

(** ** The DNS fixture *)

Definition or_byte (c : byte) (bits : Z) : byte := byte_of_Z (Z.lor (Z_of_byte c) bits).

(** What startDNSFixture answers to a packet, if anything. *)
Definition dns_fixture (query : list byte) : option (list byte) :=
  if bool_decide (length query < 12) then None
  else
    let response := alter (fun c => or_byte c 128) 2 query in
    let response := alter (fun c => or_byte c 128) 3 response in
    Some (<[7 := zero_byte]> (<[6 := zero_byte]> response)).

Definition dnsQuery : list byte :=
  z_bytes [0x4d; 0x34; 0x01; 0x00; 0x00; 0x01; 0x00; 0x00; 0x00; 0x00; 0x00; 0x00; 0x02]%Z ++ go "m4" ++ z_bytes [7]%Z ++
  go "example" ++ z_bytes [0; 0; 1; 0; 1]%Z.

(** runMatrix's check of the answer. *)
Definition dns_valid (response : list byte) : bool :=
  negb (bool_decide (length response < 12)) &&
  bool_decide (response !! 0 = Some (byte_of_Z 77)) && bool_decide (response !! 1 = Some (byte_of_Z 52)) &&
  match response !! 2 with Some c => negb (Z.land (Z_of_byte c) 128 =? 0)%Z | None => false end.

(** ** The padding exchange of runTCPPadding *)

Definition padding_request (auth addr : gostring) : Request :=
  let header := if bool_decide (auth = []) then ∅ else Set_ ∅ (go "Proxy-Authorization") auth in
  let header := Set_ header (go "Padding") (go "cover") in
  MkRequest MethodConnect (go "HTTP/1.1") 1 1 (Set_ header (go "Padding-Type-Request") (go "1, 0")) addr [] []
    (Some (plain_url (go "https") addr (go "/"))).

(** The frame sent while the response is pending. *)
Definition fast_open_frame : list byte := z_bytes [0; 1; 0]%Z ++ go "x".

(** The target: the bytes it answers with. *)
Definition padding_target (r : reader) : result (list byte) :=
  match ReadFull 1 r with
  | (c, None, _) => if bool_decide (c = go "x") then Ok (go "y") else Err (client_msg "unexpected TCP request byte")
  | (_, Some e, _) => Err e
  end.

Definition check_padding_response (status : Z) (header : Header) : option error :=
  if negb (status =? StatusOK)%Z then Some (client_msg "TCP CONNECT status")
  else if negb (bool_decide (Get header (go "Padding-Type-Reply") = go "1")) || bool_decide (Get header (go "Padding") = [])
  then Some (client_msg "TCP CONNECT response lacks negotiated padding headers")
  else None.

(** Reading the padded answer off the stream. *)
Definition read_padded (r : reader) : option error :=
  match ReadFull 3 r with
  | (_, Some e, _) => Some e
  | (header, None, r) =>
      let payloadSize := Z.to_nat (Z.lor (Z.shiftl (Z_of_byte (nth 0 header zero_byte)) 8) (Z_of_byte (nth 1 header zero_byte))) in
      let paddingSize := Z.to_nat (Z_of_byte (nth 2 header zero_byte)) in
      match ReadFull (payloadSize + paddingSize) r with
      | (_, Some e, _) => Some e
      | (framed, None, _) =>
          if negb (bool_decide (payloadSize = 1)) || negb (bool_decide (framed !! 0 = Some "y"%char))
          then Some (client_msg "TCP CONNECT padded response mismatch") else None
      end
  end.

(** ** The request on its way *)


(** ** The request *)









(** ** The codec *)

(** RFC 9000, section 16: a value below 64 is encoded in one byte, which is that value. *)
Class QuicVarintShort `{QuicVarint} : Prop := Append_short v : (0 <= v < 64)%Z -> Append [] v = [byte_of_Z v].

Lemma encode_server `{QuicVarintShort} p : encode p = encodeConnectUDPDatagram p.
Proof. unfold encodeConnectUDPDatagram. by rewrite Append_short by (unfold connectUDPContextID; lia). Qed.

Lemma decode_spec d p : decode d = Ok p <-> d = encode p.
Proof.
  unfold decode, encode. destruct d as [|c d]; [done|]. destruct (byte_eqb c zero_byte) eqn:Ec.
  - apply byte_eqb_true in Ec as ->. split; [by intros [= ->]|by intros [= ->]].
  - apply byte_eqb_false in Ec. split; [done|]. by intros [= ->].
Qed.

(** ** The DNS fixture and the padding exchange *)

Lemma or_byte_bit c : (Z.land (Z_of_byte (or_byte c 128)) 128 =? 0)%Z = false.
Proof. destruct c as [[] [] [] [] [] [] [] []]; vm_compute; reflexivity. Qed.

(** The DNS fixture answers every query of the client's identifier with a valid response:
    it has the query's length, identifier and question, and passes the client's check;
    what is shorter than a header is not answered. *)
Theorem dns_fixture_answers query :
  match dns_fixture query with
  | None => length query < 12
  | Some response =>
      length response = length query /\ take 2 response = take 2 query /\ drop 8 response = drop 8 query /\
      dns_valid response = bool_decide (take 2 query = take 2 dnsQuery)
  end.
Proof.
  unfold dns_fixture. case_bool_decide as Hl; [done|].
  set (f := fun c => or_byte c 128). set (response := <[7:=_]> _).
  assert (Hlen : length response = length query) by (unfold response; by rewrite !length_insert, !length_alter).
  assert (Hlook : forall j, j < 2 \/ 8 <= j -> response !! j = query !! j).
  { intros j Hj. unfold response. rewrite !list_lookup_insert_ne, !list_lookup_alter_ne by lia. done. }
  assert (H2 : response !! 2 = f <$> query !! 2).
  { unfold response. rewrite !list_lookup_insert_ne, list_lookup_alter_ne, list_lookup_alter_eq by lia. done. }
  split; [done|]. split; [|split].
  - apply list_eq. intros j. destruct (decide (j < 2)); [rewrite !lookup_take_lt by lia; auto|].
    by rewrite !lookup_take_ge by lia.
  - apply list_eq. intros j. rewrite !lookup_drop. apply Hlook. lia.
  - unfold dns_valid. rewrite Hlen, (Hlook 0), (Hlook 1), H2, (bool_decide_false (length query < 12)) by lia.
    destruct query as [|a [|b [|c q]]]; try (cbn in Hl; lia). cbn [lookup list_lookup fmap option_fmap option_map take].
    unfold f. rewrite or_byte_bit. cbn [negb andb]. rewrite andb_true_r.
    repeat case_bool_decide; try done; naive_solver.
Qed.

(** The one frame that carries one byte. *)
Lemma padded_none k o : k < NumFirstPaddings -> padded k [] o -> o = [].
Proof.
  intros Hk Hp. remember [] as d eqn:Ed in Hp. destruct Hp as [k|k b ps d o _ Hb _ _ _|k d Hk']; [done| |lia].
  by apply app_nil in Ed as [-> _].
Qed.

Lemma padded_one c o : padded 0 [c] o -> exists ps, ps < 256 /\ o = frame [c] ps.
Proof.
  intros Hp. remember 0 as k eqn:Ek in Hp. remember [c] as d eqn:Ed in Hp.
  destruct Hp as [k|k b ps d o Hk Hb Hps Hl Ho|k d Hk]; [done| |unfold NumFirstPaddings in Hk; lia].
  destruct b as [|b0 b]; [done|]. injection Ed as -> Ed. apply app_nil in Ed as [-> ->]. exists ps. split; [exact Hps|].
  apply padded_none in Ho as ->; [by rewrite app_nil_r|]. unfold NumFirstPaddings. lia.
Qed.

Lemma read_padded_frame r ps : ps < 256 -> data r = frame (go "y") ps -> read_padded r = None.
Proof.
  intros Hps Hd. unfold read_padded.
  rewrite (ReadFull_enough 3 r (z_bytes [0; 1]%Z ++ [byte_of_Z (Z.of_nat ps)]) (go "y" ++ replicate ps zero)) by done.
  cbn [nth z_bytes fmap list_fmap app]. set (n := Z.to_nat (Z.lor _ _)). assert (Hn : n = 1) by reflexivity. rewrite Hn.
  rewrite Z_of_byte_of_Z, Z.mod_small, Nat2Z.id by lia.
  rewrite (ReadFull_enough (1 + ps) _ (go "y" ++ replicate ps zero) []);
    [done|by rewrite app_nil_r|by rewrite length_app, length_replicate].
Qed.

Definition padding_header (auth : gostring) : Header := Req_Header (padding_request auth []).

Lemma padding_requested auth :
  padding_header auth !! go "Padding-Type-Request" = Some [go "1, 0"] /\
  negotiateNaivePadding (padding_header auth) = Ok naivePaddingVariant1.
Proof.
  assert (Hl : padding_header auth !! go "Padding-Type-Request" = Some [go "1, 0"])
    by (unfold padding_header, padding_request, Set_; cbn [Req_Header]; apply lookup_insert_eq).
  split; [done|]. unfold negotiateNaivePadding.
  change (CanonicalHeaderKey naivePaddingTypeRequestHeader) with (go "Padding-Type-Request"). by rewrite Hl.
Qed.

(** C31: the padding exchange of the client works over this proxy: its request negotiates variant
    1 and the response headers pass its check, whatever is drawn for them; its frame sent
    ahead makes the target answer, in every interleaving of the two copies in which the
    upload is over before the client is closed, and when the tunnel returns, what the
    client reads is the target's answer in one padded frame. *)
Theorem padding_exchange auth r32 bits k chunks1 eager1 chunks2 eager2 buf1 buf2 s :
  r32 < 32 -> (forall i, random k i < 256) -> length buf1 = bufferSize -> length buf2 = bufferSize -> padding k = true ->
  rtc (tstep k) (dualStream (MkReader fast_open_frame ErrEOF chunks1 eager1) (MkReader (go "y") ErrEOF chunks2 eager2)
    (MkSink [] []) (MkSink [] []) buf1 buf2) s ->
  negotiateNaivePadding (padding_header auth) = Ok naivePaddingVariant1 /\
  check_padding_response StatusOK
    (setNaivePaddingResponseHeaders r32 bits ∅ (padding_header auth) naivePaddingVariant1) = None /\
  (forall f hc cs e, upload s = Ended f hc -> clientClosed s = false ->
     padding_target (MkReader (out (sink_of f)) ErrEOF cs e) = Ok (go "y")) /\
  (forall err cs e, returned s = Some err ->
     err = None /\ read_padded (MkReader (out (stream_sink (download s))) ErrEOF cs e) = None).
Proof.
  intros Hr Hrnd Hb1 Hb2 Hk Hs. destruct (padding_requested auth) as [Hreq Hneg]. split; [done|]. split.
  { destruct (padding_reply r32 bits ∅ (padding_header auth) naivePaddingVariant1 Hr ltac:(by right)) as ((p & Hp & Hl & _) & Ht & _).
    change (CanonicalHeaderKey naivePaddingTypeRequestHeader) with (go "Padding-Type-Request") in Ht.
    rewrite bool_decide_true in Ht by (by rewrite Hreq). unfold check_padding_response, Get.
    change (go "Padding-Type-Reply") with naivePaddingTypeReplyHeader. rewrite Ht, Hp.
    rewrite bool_decide_true by done. rewrite bool_decide_false; [done|]. intros ->. cbn in Hl. lia. }
  pose proof bufferSize_val as Hbs.
  assert (Hpad : padded 0 (go "x" ++ []) (frame (go "x") 0 ++ [])).
  { apply padded_frame; [unfold NumFirstPaddings; lia|done|lia|cbn [length go String.list_ascii_of_string]; lia|constructor]. }
  destruct (padded_tunnel k (go "x") fast_open_frame (MkReader fast_open_frame ErrEOF chunks1 eager1)
    (MkReader (go "y") ErrEOF chunks2 eager2) buf1 buf2 s Hk Hrnd Hb1 Hb2 eq_refl Hpad Hs) as (_ & Hup & Hdown).
  split.
  - intros f hc cs e Hf Hc. rewrite (Hup f hc Hf Hc). vm_compute. reflexivity.
  - intros err cs e Hret. destruct (Hdown err Hret) as [-> Hp]. split; [done|].
    apply (padded_one "y") in Hp as (ps & Hps & Hp). by apply (read_padded_frame _ ps).
Qed.

(** C40: the client's datagram codec, which does not use QUIC integers, is the server's, for
    every codec of QUIC integers with the laws of RFC 9000: the encodings are equal, the
    same datagrams decode, to the same payload, and so the same datagrams are refused. *)
Theorem client_codec_agrees `{HV : QuicVarint, !QuicVarintLaws, !QuicVarintShort} :
  (forall p, encode p = encodeConnectUDPDatagram p) /\
  (forall d p, decode d = Ok p <-> decodeConnectUDPDatagram d = Ok p) /\
  (forall d, (exists e, decode d = Err e) <-> exists e, decodeConnectUDPDatagram d = Err e).
Proof.
  assert (Heq : forall d p, decode d = Ok p <-> decodeConnectUDPDatagram d = Ok p)
    by (intros d p; by rewrite decode_spec, decode_encoded, encode_server).
  split; [apply encode_server|]. split; [done|]. intros d. split; intros [e He].
  - destruct (decodeConnectUDPDatagram d) as [p|e'] eqn:E; [|by eexists]. apply Heq in E. congruence.
  - destruct (decode d) as [p|e'] eqn:E; [|by eexists]. apply Heq in E. congruence.
Qed.

(** ** The client's request at the proxy *)







(** ** Witnesses *)

#[local] Instance interop_unicode : UnicodeTables :=
  {| unicode_lower := id; unicode_equal_fold := fun s t => bool_decide (s = t) |}.
#[local] Instance interop_idna : Idna := {| ToASCII := Ok |}.

#[export] Instance rfc9000_short : QuicVarintShort.
Proof.
  intros v Hv. cbn [Append rfc9000_varint app]. unfold varint_bytes, varint_tag. rewrite (proj2 (Z.ltb_lt v 64)) by lia.
  cbn [tag_length Z.eqb be_bytes]. by rewrite Z.mul_0_l, Z.add_0_r, Z.div_1_r.
Qed.

Lemma client_codec_agrees_witness :
  decode (z_bytes [0; 104; 105]%Z) = Ok (go "hi") /\ decodeConnectUDPDatagram (z_bytes [0; 104; 105]%Z) = Ok (go "hi").
Proof.
  split; [reflexivity|]. apply (proj1 (proj2 client_codec_agrees)). reflexivity.
Defined.






(** The frame goes up, the answer comes down, and the tunnel returns. *)
Definition padding_run : tunnel :=
  tunnel_after (example_tunnel true) [TUpload; TUpload; TDownload; TDownload; TReturn]
    (dualStream (MkReader fast_open_frame ErrEOF [] false) (MkReader (go "y") ErrEOF [] false) (MkSink [] []) (MkSink [] [])
       full_buffer full_buffer).

Lemma padding_exchange_witness :
  exists f hc, upload padding_run = Ended f hc /\ padding_target (MkReader (out (sink_of f)) ErrEOF [] false) = Ok (go "y") /\
    returned padding_run = Some None /\
    read_padded (MkReader (out (stream_sink (download padding_run))) ErrEOF [] false) = None.
Proof.
  destruct (padding_exchange (go "Basic dGVzdDpwYXNz") 3 5 (example_tunnel true) [] false [] false full_buffer full_buffer padding_run)
    as (_ & _ & Hup & Hdown).
  - lia.
  - intros i. cbn [random example_tunnel]. lia.
  - apply length_replicate.
  - apply length_replicate.
  - reflexivity.
  - apply example_run. eexists. vm_compute. reflexivity.
  - assert (Hret : returned padding_run = Some None) by (vm_compute; reflexivity).
    assert (Hopen : clientClosed padding_run = false) by (vm_compute; reflexivity).
    destruct (upload padding_run) as [c|f hc] eqn:Eu; [exfalso; apply (f_equal (fun x => match x with Ended _ _ => true | _ => false end)) in Eu; vm_compute in Eu; discriminate Eu|].
    exists f, hc. split; [reflexivity|]. split; [apply (Hup f hc); [reflexivity|exact Hopen]|]. split; [exact Hret|].
    apply (Hdown None [] false Hret).
Defined.
