(* ===== verification/Goroutines.v ===== *)
(** * Goroutines that are waited for

    A goroutine as the tree of the calls it makes, one node for each call that another
    goroutine can see, and the pool of goroutines that the interoperability client starts,
    waits for with a sync.WaitGroup and reads the results of from a channel with a place for
    each (cmd/m4-rfc9298-client/main.go, runMatrix).  A schedule says which goroutine moves
    next; what is shown of a pool is shown for every schedule. *)

From stdpp Require Import base decidable numbers list gmap.
From Stdlib Require Import Lia.
From S2P Require Import Prelude GoStrings Interop.

(** ** Trees of calls *)

(** A call takes the state of the world and gives a result, which the rest depends on. *)
Inductive tree (S A : Type) : Type :=
  | Return (r : result A)
  | Call (B : Type) (call : S -> B * S) (k : B -> tree S A).

Arguments Return {S A} _.
Arguments Call {S A B} _ _.

Section Trees.
Context {S : Type}.

(** A goroutine that nothing interrupts. *)
Fixpoint alone {A} (t : tree S A) : prog S A := fun s =>
  match t with
  | Return r => (r, s)
  | Call call k => let '(b, s') := call s in alone (k b) s'
  end.

(** One call of the state, and an update of it. *)
Definition call {A} (m : prog S A) : tree S A := Call m Return.

Definition update (f : S -> S) : tree S unit := Call (fun s => (tt, f s)) (fun _ => Return (Ok tt)).

Fixpoint tree_then {A B} (t : tree S A) (k : result A -> tree S B) : tree S B :=
  match t with
  | Return r => k r
  | Call call k' => Call call (fun b => tree_then (k' b) k)
  end.

#[export] Instance tree_bind : MBind (tree S) := fun A B k t =>
  tree_then t (fun r => match r with Ok a => k a | Err e => Return (Err e) end).

(** A deferred update: it runs after the rest, however that ends. *)
Definition tree_deferring {A} (cleanup : S -> S) (t : tree S A) : tree S A :=
  tree_then t (fun r => Call (fun s => (tt, cleanup s)) (fun _ => Return r)).

Lemma alone_call {A} (m : prog S A) s : alone (call m) s = m s.
Proof. cbn. by destruct (m s). Qed.

Lemma alone_then {A B} (t : tree S A) (k : result A -> tree S B) s :
  alone (tree_then t k) s = let '(r, s') := alone t s in alone (k r) s'.
Proof. revert s. induction t as [r|C c k' IH]; intros s; [done|]. cbn. destruct (c s) as [b s']. apply IH. Qed.

Lemma alone_bind {A B} (t : tree S A) (k : A -> tree S B) (m : prog S A) (k' : A -> prog S B) s :
  (forall s, alone t s = m s) -> (forall a s, alone (k a) s = k' a s) -> alone (t ≫= k) s = (m ≫= k') s.
Proof.
  intros Ht Hk. unfold mbind, tree_bind, prog_bind. rewrite alone_then, Ht. destruct (m s) as [[a|e] s']; [apply Hk|done].
Qed.

Lemma alone_deferring {A} cleanup (t : tree S A) (m : prog S A) s :
  (forall s, alone t s = m s) -> alone (tree_deferring cleanup t) s = deferring cleanup m s.
Proof. intros Ht. unfold tree_deferring, deferring. rewrite alone_then, Ht. by destruct (m s). Qed.

(** ** A pool *)

(** The goroutines that have not sent their result, the results in the channel, and the
    world. *)
Record pool := MkPool { po_threads : list (option (tree S unit)); po_out : list (result unit); po_world : S }.

Definition pool_start (n : nat) (f : nat -> tree S unit) (s : S) : pool := MkPool ((fun i => Some (f i)) <$> seq 0 n) [] s.

(** Goroutine [i] makes its next call, or sends its result and is done. *)
Definition pool_step (i : nat) (p : pool) : pool :=
  match po_threads p !! i with
  | Some (Some (Return r)) => MkPool (<[i := None]> (po_threads p)) (po_out p ++ [r]) (po_world p)
  | Some (Some (Call call k)) =>
      let '(b, s') := call (po_world p) in MkPool (<[i := Some (k b)]> (po_threads p)) (po_out p) s'
  | _ => p
  end.

Definition pool_run (schedule : list nat) (p : pool) : pool := foldl (fun p i => pool_step i p) p schedule.

(** Goroutine [i] runs to its end. *)
Fixpoint run_out (t : tree S unit) (i : nat) (p : pool) : pool :=
  match t with
  | Return r => MkPool (<[i := None]> (po_threads p)) (po_out p ++ [r]) (po_world p)
  | Call call k => let '(b, s') := call (po_world p) in run_out (k b) i (MkPool (<[i := Some (k b)]> (po_threads p)) (po_out p) s')
  end.

(** [wg.Wait()]: what the schedule leaves undone is done. *)
Definition pool_wait (p : pool) : pool :=
  foldl (fun p i => match po_threads p !! i with Some (Some t) => run_out t i p | _ => p end) p (seq 0 (length (po_threads p))).

(** [for err := range errorsOut { if err != nil { return err } }]. *)
Fixpoint first_error (out : list (result unit)) : result unit :=
  match out with
  | [] => Ok tt
  | Ok _ :: rest => first_error rest
  | Err e :: _ => Err e
  end.

Definition parallel (schedule : list nat) (n : nat) (f : nat -> tree S unit) : prog S unit := fun s =>
  let p := pool_wait (pool_run schedule (pool_start n f s)) in (first_error (po_out p), po_world p).

(** ** Waiting is one more schedule, after which every goroutine is done *)

Lemma run_out_schedule t i p :
  po_threads p !! i = Some (Some t) ->
  exists m, run_out t i p = pool_run (replicate m i) p /\ po_threads (run_out t i p) !! i = Some None /\
    length (po_threads (run_out t i p)) = length (po_threads p) /\
    forall j, j <> i -> po_threads (run_out t i p) !! j = po_threads p !! j.
Proof.
  revert p. induction t as [r|B c k IH]; intros p Hi; pose proof (lookup_lt_Some _ _ _ Hi) as Hlt.
  - exists 1. cbn [replicate pool_run foldl run_out]. unfold pool_step. rewrite Hi. split; [done|]. cbn [po_threads]. split; [by apply list_lookup_insert_eq|].
    split; [by rewrite length_insert|]. intros j Hj. by apply list_lookup_insert_ne.
  - cbn [run_out]. destruct (c (po_world p)) as [b s'] eqn:Ec.
    destruct (IH b (MkPool (<[i := Some (k b)]> (po_threads p)) (po_out p) s')) as (m & Hm & Hd & Hlen & Ho);
      [by apply list_lookup_insert_eq|]. cbn [po_threads] in Hlen, Ho.
    exists (Datatypes.S m). cbn [replicate pool_run foldl]. unfold pool_step at 2. rewrite Hi, Ec. split; [done|]. split; [done|].
    split; [by rewrite Hlen, length_insert|]. intros j Hj. rewrite Ho by done. by apply list_lookup_insert_ne.
Qed.

Lemma pool_run_app l l' p : pool_run (l ++ l') p = pool_run l' (pool_run l p).
Proof. apply foldl_app. Qed.

Lemma pool_step_length i p : length (po_threads (pool_step i p)) = length (po_threads p).
Proof.
  unfold pool_step. destruct (po_threads p !! i) as [[[r|B c k]|]|]; cbn [po_threads]; rewrite ?length_insert; try done.
  destruct (c (po_world p)). cbn [po_threads]. by rewrite length_insert.
Qed.

Lemma pool_run_length l p : length (po_threads (pool_run l p)) = length (po_threads p).
Proof. revert p. induction l as [|i l IH]; intros p; [done|]. cbn [pool_run foldl]. fold (pool_run l (pool_step i p)). by rewrite IH, pool_step_length. Qed.

Lemma wait_prefix m p n :
  length (po_threads p) = n + m ->
  let p' := foldl (fun p i => match po_threads p !! i with Some (Some t) => run_out t i p | _ => p end) p (seq n m) in
  (forall j, j < n -> po_threads p !! j = Some None) ->
  exists schedule, p' = pool_run schedule p /\ forall j, j < length (po_threads p) -> po_threads p' !! j = Some None.
Proof.
  revert p n. induction m as [|m IH]; intros p n Hl; cbn [seq foldl]; intros Hd.
  - exists []. split; [done|]. intros j Hj. apply Hd. lia.
  - set (p1 := match po_threads p !! n with Some (Some t) => _ | _ => _ end).
    assert (Hp1 : exists sch, p1 = pool_run sch p /\ po_threads p1 !! n = Some None /\ forall j, j <> n -> po_threads p1 !! j = po_threads p !! j).
    { unfold p1. destruct (lookup_lt_is_Some_2 (po_threads p) n ltac:(lia)) as [[t|] Ht]; rewrite Ht.
      - destruct (run_out_schedule t n p Ht) as (k & Hk & Hn & _ & Ho). by exists (replicate k n).
      - by exists []. }
    destruct Hp1 as (sch & Esch & Hn & Ho).
    assert (Hlen : length (po_threads p1) = length (po_threads p)) by (rewrite Esch; apply pool_run_length).
    destruct (IH p1 (Datatypes.S n)) as (sch' & Esch' & Hall).
    + rewrite Hlen, Hl. lia.
    + intros j Hj. destruct (decide (j = n)) as [->|Hne]; [done|]. rewrite Ho by done. apply Hd. lia.
    + exists (sch ++ sch'). rewrite pool_run_app, <- Esch. split; [exact Esch'|]. intros j Hj. apply Hall. lia.
Qed.

Lemma pool_wait_schedule p :
  exists schedule, pool_wait p = pool_run schedule p /\
    forall j, j < length (po_threads (pool_wait p)) -> po_threads (pool_wait p) !! j = Some None.
Proof.
  destruct (wait_prefix (length (po_threads p)) p 0 eq_refl) as (sch & E & Hd); [lia|]. exists sch. split; [exact E|].
  intros j Hj. apply Hd. fold (pool_wait p) in E. rewrite E, pool_run_length in Hj. exact Hj.
Qed.

(** ** Reasoning about a pool one goroutine at a time *)

Section Rule.
(** What each goroutine has of the world, how that fits together, and what it has when it
    returns. *)
Context {G : Type} (I : list G -> S -> Prop) (Q : G -> result unit -> Prop).

Fixpoint follows (t : tree S unit) (g : G) : Prop :=
  match t with
  | Return r => Q g r
  | Call call k => forall gs i s, gs !! i = Some g -> I gs s ->
      let '(b, s') := call s in exists g', I (<[i := g']> gs) s' /\ follows (k b) g'
  end.

Record pool_holds (p : pool) (gs : list G) : Prop := {
  ph_length : length gs = length (po_threads p);
  ph_world : I gs (po_world p);
  ph_running : forall i g t, gs !! i = Some g -> po_threads p !! i = Some (Some t) -> follows t g;
  ph_done : forall i g, gs !! i = Some g -> po_threads p !! i = Some None -> exists r, r ∈ po_out p /\ Q g r;
  ph_out : forall r, r ∈ po_out p -> exists i g, gs !! i = Some g /\ po_threads p !! i = Some None /\ Q g r
}.

Lemma pool_holds_return p gs i r :
  po_threads p !! i = Some (Some (Return r)) -> pool_holds p gs -> pool_holds (pool_step i p) gs.
Proof.
  intros Hi [Hl Hw Hr Hd Ho]. unfold pool_step. rewrite Hi. pose proof (lookup_lt_Some _ _ _ Hi) as Hlt.
  destruct (lookup_lt_is_Some_2 gs i ltac:(lia)) as [gi Hgi]. pose proof (Hr i gi _ Hgi Hi) as Hq. cbn in Hq.
  constructor; cbn [po_threads po_out po_world]; [by rewrite length_insert|done|..].
  - intros j g t Hg Ht. destruct (decide (i = j)) as [->|Hne]; [by rewrite list_lookup_insert_eq in Ht|].
    rewrite list_lookup_insert_ne in Ht by done. by eapply Hr.
  - intros j g Hg Ht. destruct (decide (i = j)) as [->|Hne].
    + rewrite Hgi in Hg. injection Hg as ->. exists r. split; [apply elem_of_app; right; left|done].
    + rewrite list_lookup_insert_ne in Ht by done. destruct (Hd j g Hg Ht) as (r' & Hin & Hr'). exists r'.
      split; [apply elem_of_app; by left|done].
  - intros r' [Hin|Hin]%elem_of_app.
    + destruct (Ho r' Hin) as (j & g & Hg & Ht & Hr'). exists j, g. split; [done|]. split; [|done].
      destruct (decide (i = j)) as [->|Hne]; [by apply list_lookup_insert_eq|by rewrite list_lookup_insert_ne].
    + apply list_elem_of_singleton in Hin as ->. exists i, gi. split; [done|]. split; [by apply list_lookup_insert_eq|done].
Qed.

Lemma pool_holds_call p gs i B (c : S -> B * S) k :
  po_threads p !! i = Some (Some (Call c k)) -> pool_holds p gs -> exists gs', pool_holds (pool_step i p) gs'.
Proof.
  intros Hi [Hl Hw Hr Hd Ho]. unfold pool_step. rewrite Hi. pose proof (lookup_lt_Some _ _ _ Hi) as Hlt.
  destruct (lookup_lt_is_Some_2 gs i ltac:(lia)) as [gi Hgi]. pose proof (Hr i gi _ Hgi Hi) as Hf. cbn in Hf.
  specialize (Hf gs i (po_world p) Hgi Hw). destruct (c (po_world p)) as [b s']. destruct Hf as (g' & Hw' & Hf').
  exists (<[i := g']> gs). constructor; cbn [po_threads po_out po_world]; [by rewrite !length_insert|done|..].
  - intros j g t Hg Ht. destruct (decide (i = j)) as [->|Hne].
    + rewrite list_lookup_insert_eq in Hg by lia. rewrite list_lookup_insert_eq in Ht by done. by simplify_eq.
    + rewrite list_lookup_insert_ne in Hg by done. rewrite list_lookup_insert_ne in Ht by done. by eapply Hr.
  - intros j g Hg Ht. destruct (decide (i = j)) as [->|Hne]; [by rewrite list_lookup_insert_eq in Ht by done|].
    rewrite list_lookup_insert_ne in Hg by done. rewrite list_lookup_insert_ne in Ht by done. by eapply Hd.
  - intros r Hin. destruct (Ho r Hin) as (j & g & Hg & Ht & Hq). destruct (decide (i = j)) as [->|Hne]; [by rewrite Hi in Ht|].
    exists j, g. by rewrite !list_lookup_insert_ne.
Qed.

Lemma pool_holds_run l p gs : pool_holds p gs -> exists gs', pool_holds (pool_run l p) gs'.
Proof.
  revert p gs. induction l as [|i l IH]; intros p gs Hp; [by exists gs|]. cbn [pool_run foldl].
  destruct (po_threads p !! i) as [[[r|B c k]|]|] eqn:Hi.
  - eapply IH. by eapply pool_holds_return.
  - destruct (pool_holds_call p gs i B c k Hi Hp) as (gs' & Hp'). by eapply IH.
  - eapply (IH _ gs). unfold pool_step. by rewrite Hi.
  - eapply (IH _ gs). unfold pool_step. by rewrite Hi.
Qed.

Lemma first_error_Ok out : first_error out = Ok tt <-> Forall (fun r => r = Ok tt) out.
Proof.
  induction out as [|[[]|e] out IH]; [done| |].
  - cbn. rewrite IH, Forall_cons. naive_solver.
  - cbn. rewrite Forall_cons. split; [done|]. by intros [? _].
Qed.

(** In every schedule: the world fits what the goroutines have at the end, and the results
    of all of them are Ok if the result is, and the other way round. *)
Lemma parallel_rule schedule n f s gs :
  length gs = n -> I gs s -> (forall i g, gs !! i = Some g -> follows (f i) g) ->
  exists gs', length gs' = n /\ I gs' (parallel schedule n f s).2 /\
    ((parallel schedule n f s).1 = Ok tt -> Forall (fun g => Q g (Ok tt)) gs') /\
    ((forall g r, Q g r -> r = Ok tt) -> (parallel schedule n f s).1 = Ok tt).
Proof.
  intros Hn Hi Hf.
  assert (Hstart : pool_holds (pool_start n f s) gs).
  { unfold pool_start. constructor; cbn [po_threads po_out po_world]; [by rewrite length_fmap, length_seq|done| | |].
    - intros i g t Hg Ht. rewrite list_lookup_fmap in Ht. apply fmap_Some in Ht as (j & Hj & [= ->]).
      apply lookup_seq in Hj as [-> _]. by apply Hf.
    - intros i g Hg Ht. rewrite list_lookup_fmap in Ht. by apply fmap_Some in Ht as (j & _ & ?).
    - by intros r ?%not_elem_of_nil. }
  destruct (pool_holds_run schedule _ _ Hstart) as (gs1 & H1).
  destruct (pool_wait_schedule (pool_run schedule (pool_start n f s))) as (sch & Esch & Hall).
  pose proof (pool_holds_run sch _ _ H1) as (gs2 & H2). rewrite <- Esch in H2.
  assert (Hlen : length gs2 = n).
  { rewrite (ph_length _ _ H2), Esch, !pool_run_length. cbn. by rewrite length_fmap, length_seq. }
  exists gs2. unfold parallel. cbv zeta. cbn [fst snd]. destruct H2 as [Hl Hw _ Hd Ho]. split; [done|]. split; [done|]. split.
  - intros Hok%first_error_Ok. apply Forall_lookup. intros i g Hg. pose proof (lookup_lt_Some _ _ _ Hg) as Hlt.
    destruct (Hd i g Hg) as (r & Hin & Hq); [apply Hall; lia|]. rewrite Forall_forall in Hok. by rewrite <- (Hok r Hin).
  - intros Hq. apply first_error_Ok, Forall_forall. intros r Hin. destruct (Ho r Hin) as (i & g & _ & _ & Hr). by eapply Hq.
Qed.

(** A goroutine that runs alone. *)
Lemma alone_rule t g s : I [g] s -> follows t g -> exists g', I [g'] (alone t s).2 /\ Q g' (alone t s).1.
Proof.
  revert g s. induction t as [r|B c k IH]; intros g s Hs Hf; [by exists g|]. cbn in *. specialize (Hf [g] 0 s eq_refl Hs).
  destruct (c s) as [b s']. destruct Hf as (g' & Hs' & Hf'). by apply (IH b g').
Qed.
End Rule.
End Trees.

Arguments pool : clear implicits.
