(* ===== verification/ClientModes.v ===== *)
(** * The modes of the interoperability client: cmd/m4-rfc9298-client/main.go

    The fixtures of the client and its modes matrix, idle and shutdown, over the class
    [Transport] of Interop, with what they leave behind: the sockets they opened are closed
    however they end, the streams when they end well.  The eight echoes that runMatrix runs
    in goroutines and waits for are a pool of Goroutines, whose schedule is an argument. *)

From stdpp Require Import base decidable numbers list gmap strings.
From Stdlib Require Import ZArith Lia Ascii.
From S2P Require Import Prelude GoStrings GoNet GoHttp GoUrl UdpProtocol UdpAdmission Padding Tunnel Interop Goroutines.

(** ** Early returns with a clean-up *)

(** [if err != nil { cleanup; return err }]. *)
Definition on_error {S A} (cleanup : S -> S) (m : prog S A) : prog S A := fun s =>
  match m s with (Err e, s') => (Err e, cleanup s') | r => r end.

(** A call whose error is a value the program looks at. *)
Definition attempting {S A} (m : prog S A) : prog S (option error) := fun s =>
  match m s with (Ok _, s') => (Ok None, s') | (Err e, s') => (Ok (Some e), s') end.

Definition reading {S A} (f : S -> A) : prog S A := fun s => (Ok (f s), s).

Definition Second : Z := 1000000000.
Definition localhost : gostring := go "127.0.0.1".
Definition privateDomainTarget : gostring := go "m4-private-target.localhost".
Definition privatePayload : gostring := go "m4-g5-private-payload".

(** [Duration.Round], to the nearest multiple and away from zero half way. *)
Definition Round (d m : Z) : Z :=
  if (d <? 0)%Z then (- (let r := - d mod m in if r + r <? m then - d - r else - d + (m - r)))%Z
  else (let r := d mod m in if r + r <? m then d - r else d + (m - r))%Z.

Definition matrix_lines : list outputLine :=
  Line <$> [go "M4_G5_IPV4_OK"; go "M4_G5_IPV6_OK"; go "M4_G5_DOMAIN_OK"; go "M4_G5_DNS_OK"; go "M4_G5_ZERO_MAX_OVERSIZE_OK";
            go "M4_G5_MULTISTREAM_CANCEL_OK";
            go "M4_G5_H3_DATAGRAM_EVIDENCE_OK settings=extended-connect,datagram transport=RequestStream.SendDatagram"].

Section Modes.
Context {S : Type} `{Transport S, UnicodeTables}.

(** The order in which the goroutines of runMatrix move. *)
Variable schedule : list nat.

(** Printing: the lines in their order, and the time since [started]. *)
Definition print_lines (lines : list outputLine) : prog S unit := modify (fun s => foldl (fun s l => Output l s) s lines).

Definition print_elapsed (started : Z) : prog S unit := modify (fun s => Output (IdleLine (Round (Now s - started) Second)) s).

(** ** A goroutine that echoes *)

Definition open_tree (c : client) (host : gostring) (port : Z) : tree S (nat * Z) :=
  stream ← call (OpenRequestStream (cl_quic c));
  request ← Return (open_request c host port);
  call (SendRequestHeader stream request) ≫= fun _ =>
  status ← call (ReadResponse stream);
  Return (Ok (stream, status)).

Definition exchange_tree (stream : nat) (status : Z) (payload : list byte) : tree S unit :=
  if negb (status =? StatusOK)%Z then Return (Err (client_msg "CONNECT-UDP status"))
  else
    call (SendDatagram stream (encode payload)) ≫= fun _ =>
    datagram ← call (ReceiveDatagram stream);
    got ← Return (decode datagram);
    if bool_decide (got = payload) then Return (Ok tt) else Return (Err (client_msg "echo mismatch")).

(** [client.echo] call by call. *)
Definition echo_tree (c : client) (host : gostring) (port : Z) (payload : list byte) : tree S unit :=
  '(stream, status) ← open_tree c host port;
  tree_deferring (closeStream stream) (exchange_tree stream status payload).

(** ** Fixtures *)

Definition startDualStackEcho : prog S (nat * nat * Z) :=
  '(ipv6, port) ← startEcho (go "udp6") (go "[::1]:0");
  '(ipv4, _) ← on_error (CloseSocket ipv6) (startEcho (go "udp4") (JoinHostPort localhost (Itoa port)));
  mret (ipv4, ipv6, port).

Definition startDNSFixture : prog S (nat * Z) :=
  '(conn, port) ← ListenUDP (go "udp4") (go "127.0.0.1:0");
  modify (ServeSocket conn 512 dns_fixture) ≫= fun _ => mret (conn, port).

(** ** runMatrix *)

(** The DNS exchange. *)
Definition matrix_dns (c : client) (port : Z) : prog S unit :=
  '(stream, status) ← open c localhost port;
  if negb (status =? StatusOK)%Z then modify (closeStream stream) ≫= fun _ => fail (client_msg "DNS CONNECT-UDP status")
  else
    on_error (closeStream stream) (SendDatagram stream (encode dnsQuery)) ≫= fun _ =>
    dnsDatagram ← deferring (closeStream stream) (ReceiveDatagram stream);
    match decode dnsDatagram with
    | Ok dnsResponse => if dns_valid dnsResponse then mret tt else fail (client_msg "invalid deterministic DNS response")
    | Err _ => fail (client_msg "invalid deterministic DNS response")
    end.

(** A datagram too large for the transport, and one after it. *)
Definition matrix_oversize (c : client) (port : Z) : prog S unit :=
  '(stream, status) ← open c localhost port;
  if negb (status =? StatusOK)%Z then fail (client_msg "oversize stream")
  else
    oversizeErr ← attempting (SendDatagram stream (encode (replicate (Z.to_nat 65535) zero_byte)));
    if match oversizeErr with Some ErrDatagramTooLarge => false | _ => true end then
      modify (closeStream stream) ≫= fun _ => fail (client_msg "oversize datagram was not rejected locally")
    else
      on_error (closeStream stream) (SendDatagram stream (encode (go "post-oversize"))) ≫= fun _ =>
      postOversize ← deferring (closeStream stream) (ReceiveDatagram stream);
      decoded ← lift (decode postOversize);
      if bool_decide (decoded = go "post-oversize") then mret tt else fail (client_msg "association unhealthy after oversize").

(** A stream that is cancelled, and an echo after it. *)
Definition matrix_cancel (c : client) (port : Z) : prog S unit :=
  '(stream, status) ← open c localhost port;
  if negb (status =? StatusOK)%Z then fail (client_msg "cancel stream")
  else
    modify (closeStream stream) ≫= fun _ =>
    modify (Sleep (50 * 1000000)) ≫= fun _ =>
    echo c localhost port (go "post-cancel").

(** What runMatrix does once its fixtures run. *)
Definition matrix_checks (c : client) (ipv4Port dualPort dnsPort : Z) : prog S unit :=
  echo c localhost ipv4Port (privatePayload ++ go "-ipv4") ≫= fun _ =>
  echo c (go "::1") dualPort (privatePayload ++ go "-ipv6") ≫= fun _ =>
  echo c privateDomainTarget dualPort (privatePayload ++ go "-domain") ≫= fun _ =>
  echo c localhost ipv4Port [] ≫= fun _ =>
  echo c localhost ipv4Port (replicate (Z.to_nat 1024) (byte_of_Z 165)) ≫= fun _ =>
  matrix_dns c dnsPort ≫= fun _ =>
  matrix_oversize c ipv4Port ≫= fun _ =>
  parallel schedule 8 (fun index => echo_tree c localhost ipv4Port (go "parallel-" ++ Itoa (Z.of_nat index))) ≫= fun _ =>
  matrix_cancel c ipv4Port ≫= fun _ =>
  print_lines matrix_lines.

Definition runMatrix (c : client) : prog S unit :=
  '(ipv4, ipv4Port) ← startEcho (go "udp4") (go "127.0.0.1:0");
  deferring (CloseSocket ipv4)
    ('(ipv4Domain, ipv6, dualPort) ← startDualStackEcho;
     deferring (CloseSocket ipv4Domain) (deferring (CloseSocket ipv6)
       ('(dns, dnsPort) ← startDNSFixture;
        deferring (CloseSocket dns) (matrix_checks c ipv4Port dualPort dnsPort)))).

(** ** runIdle and runShutdown *)

(** The stream has to fail on its own, not before the idle bound of the proxy, and stay
    dead; a new association works. *)
Definition idle_checks (c : client) (port : Z) (stream : nat) : prog S unit :=
  started ← reading Now;
  err ← attempting (ReceiveWithin stream (125 * Second));
  if match err with None => true | Some _ => false end then fail (client_msg "idle association unexpectedly produced a datagram")
  else
    now ← reading Now;
    if (now - started <? 120 * Second)%Z then fail (client_msg "association closed before production idle bound")
    else
      sent ← attempting (SendDatagram stream (encode (go "expired-stream")));
      match sent with
      | None =>
          late ← attempting (ReceiveWithin stream (500 * 1000000));
          match late with
          | None => fail (client_msg "expired association still echoed")
          | Some _ => echo c localhost port (go "post-idle") ≫= fun _ => print_elapsed started
          end
      | Some _ => echo c localhost port (go "post-idle") ≫= fun _ => print_elapsed started
      end.

Definition runIdle (c : client) : prog S unit :=
  '(conn, port) ← startEcho (go "udp4") (go "127.0.0.1:0");
  deferring (CloseSocket conn)
    ('(stream, status) ← open c localhost port;
     if negb (status =? StatusOK)%Z then fail (client_msg "idle stream")
     else deferring (closeStream stream) (idle_checks c port stream)).

Definition shutdown_checks (stream : nat) : prog S unit :=
  SendDatagram stream (encode (go "shutdown-ready")) ≫= fun _ =>
  ReceiveDatagram stream ≫= fun _ =>
  print_lines [Line (go "M4_G5_SHUTDOWN_CLIENT_READY")] ≫= fun _ =>
  StreamDone stream ≫= fun _ =>
  print_lines [Line (go "M4_G5_SERVER_SHUTDOWN_OBSERVED")].

Definition runShutdown (c : client) : prog S unit :=
  '(conn, port) ← startEcho (go "udp4") (go "127.0.0.1:0");
  deferring (CloseSocket conn)
    ('(stream, status) ← open c localhost port;
     if negb (status =? StatusOK)%Z then fail (client_msg "shutdown stream")
     else deferring (closeStream stream) (shutdown_checks stream)).
End Modes.

(** ** What the operations do to sockets and streams *)

(** A new socket or stream is one that was not open, closing removes it, and nothing else
    opens or closes one. *)
Class ResourceLaws (S : Type) `{Transport S} := {
  sockets : S -> gset nat;
  streams : S -> gset nat;
  rl_listen network address s : match ListenUDP network address s with
    | (Ok (conn, _), s') => (conn ∉ sockets s) /\ sockets s' = {[conn]} ∪ sockets s /\ streams s' = streams s
    | (Err _, s') => sockets s' = sockets s /\ streams s' = streams s
    end;
  rl_close conn s : sockets (CloseSocket conn s) = sockets s ∖ {[conn]} /\ streams (CloseSocket conn s) = streams s;
  rl_open conn s : match OpenRequestStream conn s with
    | (Ok id, s') => (id ∉ streams s) /\ streams s' = {[id]} ∪ streams s /\ sockets s' = sockets s
    | (Err _, s') => streams s' = streams s /\ sockets s' = sockets s
    end;
  rl_cancel id s : streams (CancelStream id s) = streams s ∖ {[id]} /\ sockets (CancelStream id s) = sockets s;
  rl_serve conn size answer s : sockets (ServeSocket conn size answer s) = sockets s /\ streams (ServeSocket conn size answer s) = streams s;
  rl_dial proxy host s : sockets (DialAddr proxy host s).2 = sockets s /\ streams (DialAddr proxy host s).2 = streams s;
  rl_settings conn s : sockets (ReceivedSettings conn s).2 = sockets s /\ streams (ReceivedSettings conn s).2 = streams s;
  rl_close_conn conn s : sockets (CloseWithError conn s) = sockets s /\ streams (CloseWithError conn s) ⊆ streams s;
  rl_header id r s : sockets (SendRequestHeader id r s).2 = sockets s /\ streams (SendRequestHeader id r s).2 = streams s;
  rl_response id s : sockets (ReadResponse id s).2 = sockets s /\ streams (ReadResponse id s).2 = streams s;
  rl_send id d s : sockets (SendDatagram id d s).2 = sockets s /\ streams (SendDatagram id d s).2 = streams s;
  rl_receive id s : sockets (ReceiveDatagram id s).2 = sockets s /\ streams (ReceiveDatagram id s).2 = streams s;
  rl_within id t s : sockets (ReceiveWithin id t s).2 = sockets s /\ streams (ReceiveWithin id t s).2 = streams s;
  rl_done id s : sockets (StreamDone id s).2 = sockets s /\ streams (StreamDone id s).2 = streams s;
  rl_sleep t s : sockets (Sleep t s) = sockets s /\ streams (Sleep t s) = streams s;
  rl_output l s : sockets (Output l s) = sockets s /\ streams (Output l s) = streams s
}.

(** A goroutine that is not interrupted does what [echo] does. *)
Lemma alone_echo {S} `{Transport S, UnicodeTables} c host port payload s :
  alone (echo_tree c host port payload) s = echo c host port payload s.
Proof.
  apply alone_bind.
  - intros s1. apply alone_bind; [apply alone_call|]. intros stream s2. apply alone_bind; [done|]. intros request s3.
    apply alone_bind; [apply alone_call|]. intros [] s4. apply alone_bind; [apply alone_call|done].
  - intros [stream status] s1. apply alone_deferring. intros s2. unfold exchange_tree. destruct (negb _); [done|].
    apply alone_bind; [apply alone_call|]. intros [] s3. apply alone_bind; [apply alone_call|]. intros datagram s4.
    apply alone_bind; [done|]. intros got s5. by destruct (bool_decide _).
Qed.

Section Resources.
Context {S : Type} `{ResourceLaws S, UnicodeTables}.

(** ** Sockets, on every path *)

Definition keeps {A} (m : prog S A) : Prop := forall s, sockets (m s).2 = sockets s.

(** Running a program and opening a socket. *)
Definition opens {A} (m : prog S (nat * A)) : Prop := forall s,
  match m s with
  | (Ok (conn, _), s') => (conn ∉ sockets s) /\ sockets s' = {[conn]} ∪ sockets s
  | (Err _, s') => sockets s' = sockets s
  end.

Lemma keeps_bind {A B} (m : prog S A) (k : A -> prog S B) : keeps m -> (forall a, keeps (k a)) -> keeps (m ≫= k).
Proof.
  intros Hm Hk s. unfold mbind, prog_bind. specialize (Hm s). destruct (m s) as [[a|e] s']; [|done].
  rewrite (Hk a s'). exact Hm.
Qed.

Lemma keeps_ret {A} (a : A) : keeps (mret a : prog S A).
Proof. done. Qed.

Lemma keeps_fail {A} e : keeps (fail e : prog S A).
Proof. done. Qed.

Lemma keeps_lift {A} (r : result A) : keeps (lift r).
Proof. done. Qed.

Lemma keeps_reading {A} (f : S -> A) : keeps (reading f).
Proof. done. Qed.

Lemma keeps_modify f : (forall s, sockets (f s) = sockets s) -> keeps (modify f).
Proof. intros Hf s. apply Hf. Qed.

Lemma keeps_deferring {A} f (m : prog S A) : (forall s, sockets (f s) = sockets s) -> keeps m -> keeps (deferring f m).
Proof. intros Hf Hm s. unfold deferring. specialize (Hm s). destruct (m s) as [r s']. cbn in *. by rewrite Hf. Qed.

Lemma keeps_on_error {A} f (m : prog S A) : (forall s, sockets (f s) = sockets s) -> keeps m -> keeps (on_error f m).
Proof. intros Hf Hm s. unfold on_error. specialize (Hm s). destruct (m s) as [[a|e] s']; cbn in *; by rewrite ?Hf. Qed.

Lemma keeps_attempting {A} (m : prog S A) : keeps m -> keeps (attempting m).
Proof. intros Hm s. unfold attempting. specialize (Hm s). by destruct (m s) as [[a|e] s']. Qed.

Lemma closeStream_sockets stream s : sockets (closeStream stream s) = sockets s.
Proof. apply rl_cancel. Qed.

Lemma sleep_sockets t s : sockets (Sleep t s) = sockets s.
Proof. apply rl_sleep. Qed.

Lemma keeps_open c host port : keeps (open c host port).
Proof.
  apply keeps_bind.
  - intros s. pose proof (rl_open (cl_quic c) s) as Ho. destruct (OpenRequestStream _ _) as [[id|e] s']; apply Ho.
  - intros stream. apply keeps_bind; [apply keeps_lift|]. intros request. apply keeps_bind; [intros s; apply rl_header|].
    intros _. apply keeps_bind; [intros s; apply rl_response|]. intros status. apply keeps_ret.
Qed.

Lemma keeps_send stream d : keeps (SendDatagram stream d).
Proof. intros s. apply rl_send. Qed.

Lemma keeps_receive stream : keeps (ReceiveDatagram stream).
Proof. intros s. apply rl_receive. Qed.

Lemma keeps_within stream t : keeps (ReceiveWithin stream t).
Proof. intros s. apply rl_within. Qed.

Lemma keeps_done stream : keeps (StreamDone stream).
Proof. intros s. apply rl_done. Qed.

Lemma output_kept lines s :
  let s' := foldl (fun s l => Output l s) s lines in sockets s' = sockets s /\ streams s' = streams s.
Proof.
  revert s. induction lines as [|l lines IH]; intros s; [done|]. cbn [foldl]. destruct (IH (Output l s)) as [-> ->]. apply rl_output.
Qed.

Lemma keeps_print lines : keeps (print_lines lines).
Proof. intros s. apply (output_kept lines s). Qed.

Lemma keeps_elapsed started : keeps (print_elapsed started).
Proof. intros s. apply rl_output. Qed.

Create HintDb modes.
Hint Resolve keeps_ret keeps_fail keeps_lift keeps_reading keeps_modify keeps_deferring keeps_on_error keeps_attempting
  closeStream_sockets sleep_sockets keeps_open keeps_send keeps_receive keeps_within keeps_done
  keeps_print keeps_elapsed : modes.

(** Through the binds and tests of a program. *)
Ltac program rule :=
  repeat first
    [ progress intros
    | solve [auto with modes]
    | apply rule
    | match goal with
      | |- context [let '(_, _) := ?p in _] => is_var p; destruct p
      | |- context [match ?x with _ => _ end] => destruct x
      end ].

Lemma keeps_echo c host port payload : keeps (echo c host port payload).
Proof. unfold echo. apply keeps_bind; [auto with modes|]. intros [stream status]. apply keeps_deferring; [auto with modes|]. program @keeps_bind. Qed.

Hint Resolve keeps_echo : modes.

(** *** Echoes in goroutines *)

(** The sockets are [sock], and the streams are [base] with the one each goroutine has. *)
Record sharing (sock base : gset nat) (gs : list (option nat)) (s : S) : Prop := {
  sh_sockets : sockets s = sock;
  sh_streams : forall id, id ∈ streams s <-> id ∈ base \/ exists i, gs !! i = Some (Some id);
  sh_new : forall i id, gs !! i = Some (Some id) -> id ∉ base;
  sh_own : forall i j id, gs !! i = Some (Some id) -> gs !! j = Some (Some id) -> i = j
}.

(** A goroutine that succeeds has no stream left. *)
Definition left_over (g : option nat) (r : result unit) : Prop := r = Ok tt -> g = None.

Lemma sharing_same sock base gs i g s s' :
  gs !! i = Some g -> sockets s' = sockets s /\ streams s' = streams s -> sharing sock base gs s -> sharing sock base (<[i := g]> gs) s'.
Proof.
  intros Hi [Hk Ht] [Hsk Hst Hnw How]. rewrite list_insert_id by done. constructor; [by rewrite Hk|by rewrite Ht|done|done].
Qed.

Lemma sharing_open sock base gs i id s s' :
  gs !! i = Some None -> (id ∉ streams s) -> streams s' = {[id]} ∪ streams s -> sockets s' = sockets s ->
  sharing sock base gs s -> sharing sock base (<[i := Some id]> gs) s'.
Proof.
  intros Hi Hn Ht Hk [Hsk Hst Hnw How]. pose proof (lookup_lt_Some _ _ _ Hi) as Hlt.
  assert (Hold : forall j x, <[i := Some id]> gs !! j = Some (Some x) -> (j = i /\ x = id) \/ (j <> i /\ gs !! j = Some (Some x))).
  { intros j x [(-> & [= <-] & _)|[Hne Hx]]%list_lookup_insert_Some; [by left|right; auto]. }
  constructor; [by rewrite Hk|..].
  - intros x. rewrite Ht, elem_of_union, elem_of_singleton, Hst. split.
    + intros [->|[Hb|[j Hj]]]; [right; exists i; by apply list_lookup_insert_eq|by left|]. right. exists j.
      rewrite list_lookup_insert_ne; [done|]. intros <-. by rewrite Hi in Hj.
    + intros [Hb|[j [[_ ->]|[_ Hj]]%Hold]]; [auto|by left|]. right; right. by exists j.
  - intros j x [[_ ->]|[_ Hj]]%Hold; [|by eapply Hnw]. intros Hb. apply Hn, Hst. by left.
  - intros j k x [[-> ->]|[Hj Hx]]%Hold [[-> Ek]|[Hk' Hy]]%Hold; [done| | |by eapply How].
    + exfalso. apply Hn, Hst. right. by exists k.
    + subst x. exfalso. apply Hn, Hst. right. by exists j.
Qed.

Lemma sharing_close sock base gs i id s s' :
  gs !! i = Some (Some id) -> streams s' = streams s ∖ {[id]} -> sockets s' = sockets s ->
  sharing sock base gs s -> sharing sock base (<[i := None]> gs) s'.
Proof.
  intros Hi Ht Hk [Hsk Hst Hnw How].
  assert (Hold : forall j x, <[i := None]> gs !! j = Some (Some x) -> j <> i /\ gs !! j = Some (Some x)).
  { intros j x [(-> & ? & _)|[Hne Hx]]%list_lookup_insert_Some; [done|auto]. }
  constructor; [by rewrite Hk|..].
  - intros x. rewrite Ht, elem_of_difference, elem_of_singleton, Hst. split.
    + intros [[Hb|[j Hj]] Hne]; [by left|]. right. exists j. rewrite list_lookup_insert_ne; [done|].
      intros <-. rewrite Hi in Hj. by injection Hj as ->.
    + intros [Hb|[j [Hne Hj]%Hold]].
      * split; [by left|]. intros ->. by apply (Hnw i id Hi).
      * split; [right; by exists j|]. intros ->. apply Hne. by apply (How j i id).
  - intros j x [_ Hj]%Hold. by eapply Hnw.
  - intros j k x [_ Hj]%Hold [_ Hx]%Hold. by eapply How.
Qed.

(** A call that keeps both sets. *)
Lemma follows_quiet {A} sock base (m : prog S A) (k : result A -> tree S unit) g :
  (forall s, sockets (m s).2 = sockets s /\ streams (m s).2 = streams s) ->
  (forall r, follows (sharing sock base) left_over (k r) g) -> follows (sharing sock base) left_over (Call m k) g.
Proof.
  intros Hm Hk gs i s Hi Hs. specialize (Hm s). destruct (m s) as [r s']. exists g. split; [by eapply sharing_same|apply Hk].
Qed.

(** Ending with the deferred close. *)
Lemma follows_close sock base id (r : result unit) :
  follows (sharing sock base) left_over (Call (fun s => (tt, closeStream id s)) (fun _ => Return r)) (Some id).
Proof.
  intros gs i s Hi Hs. exists None. split; [|done]. destruct (rl_cancel id s) as [Ht Hk]. by eapply sharing_close.
Qed.

Lemma echo_tree_follows sock base c host port payload :
  follows (sharing sock base) left_over (echo_tree c host port payload) None.
Proof.
  intros gs i s Hi Hs. pose proof (rl_open (cl_quic c) s) as Ho. destruct (OpenRequestStream _ s) as [[id|e] s'].
  - destruct Ho as (Hn & Ht & Hk). exists (Some id). split; [by eapply sharing_open|].
    cbn -[follows]. destruct (open_request c host port) as [request|e]; [|done]. cbn -[follows].
    apply follows_quiet; [apply rl_header|]. intros [[]|e]; [|done]. cbn -[follows].
    apply follows_quiet; [apply rl_response|]. intros [status|e]; [|done]. cbn -[follows]. unfold exchange_tree.
    destruct (negb _); [apply follows_close|]. cbn -[follows].
    apply follows_quiet; [apply rl_send|]. intros [[]|e]; [|apply follows_close]. cbn -[follows].
    apply follows_quiet; [apply rl_receive|]. intros [d|e]; [|apply follows_close]. cbn -[follows].
    destruct (decode d); [|apply follows_close]. cbn -[follows]. destruct (bool_decide _); apply follows_close.
  - exists None. split; [by eapply sharing_same; [..|split; apply Ho|]|done].
Qed.

(** In every schedule. *)
Lemma parallel_echoes schedule n c host port payload s :
  let '(r, s') := parallel schedule n (fun i => echo_tree c host port (payload i)) s in
  sockets s' = sockets s /\ (r = Ok tt -> streams s' = streams s).
Proof.
  destruct (parallel_rule (sharing (sockets s) (streams s)) left_over schedule n (fun i => echo_tree c host port (payload i)) s
    (replicate n None)) as (gs & _ & [Hk Ht _ _] & Hok & _).
  - apply length_replicate.
  - constructor; [done| | |].
    + intros id. split; [by left|]. intros [?|[i [? _]%lookup_replicate]]; done.
    + by intros i id [? _]%lookup_replicate.
    + by intros i j id [? _]%lookup_replicate.
  - intros i g [-> _]%lookup_replicate. apply echo_tree_follows.
  - destruct (parallel _ _ _ _) as [r s']. cbn in *. split; [done|]. intros Hr. specialize (Hok Hr). apply set_eq. intros id.
    rewrite Ht. split; [|by left]. intros [?|[i Hi]]; [done|]. rewrite Forall_lookup in Hok. by specialize (Hok i _ Hi eq_refl).
Qed.

(** A socket that is closed when the function returns. *)
Lemma keeps_with_socket {A B} (m : prog S (nat * A)) (k : nat -> A -> prog S B) :
  opens m -> (forall conn port, keeps (k conn port)) ->
  keeps (m ≫= fun '(conn, port) => deferring (CloseSocket conn) (k conn port)).
Proof.
  intros Hm Hk s. unfold mbind, prog_bind. specialize (Hm s). destruct (m s) as [[[conn port]|e] s1]; [|done].
  unfold deferring. specialize (Hk conn port s1). destruct (k conn port s1) as [r s2]. cbn in *.
  rewrite (proj1 (rl_close conn s2)), Hk. set_solver.
Qed.

Lemma opens_serving network address size answer :
  opens ('(conn, port) ← ListenUDP network address; modify (ServeSocket conn size answer) ≫= fun _ => mret (conn, port)).
Proof.
  intros s. unfold mbind, prog_bind, modify, mret, prog_ret. pose proof (rl_listen network address s) as Hl.
  destruct (ListenUDP network address s) as [[[conn port]|e] s']; [|apply Hl].
  destruct Hl as (Hn & Hs & _). split; [done|]. by rewrite (proj1 (rl_serve conn size answer s')).
Qed.

Lemma opens_echo network address : opens (startEcho network address).
Proof. apply opens_serving. Qed.

Lemma opens_dns : opens startDNSFixture.
Proof. apply opens_serving. Qed.

Lemma dual_stack_sockets s :
  match startDualStackEcho s with
  | (Ok (ipv4, ipv6, _), s') => (ipv6 ∉ sockets s) /\ (ipv4 ∉ sockets s) /\ sockets s' = {[ipv4]} ∪ ({[ipv6]} ∪ sockets s)
  | (Err _, s') => sockets s' = sockets s
  end.
Proof.
  unfold startDualStackEcho, mbind, prog_bind, on_error. pose proof (opens_echo (go "udp6") (go "[::1]:0") s) as H6.
  destruct (startEcho (go "udp6") (go "[::1]:0") s) as [[[ipv6 port]|e] s1]; [|done]. destruct H6 as [Hn6 H6].
  pose proof (opens_echo (go "udp4") (JoinHostPort localhost (Itoa port)) s1) as H4.
  destruct (startEcho (go "udp4") _ s1) as [[[ipv4 ?]|e] s2].
  - destruct H4 as [Hn4 H4]. cbn. rewrite H4, H6. set_solver.
  - rewrite (proj1 (rl_close ipv6 s2)), H4, H6. set_solver.
Qed.

Lemma keeps_dual_stack {A} (k : nat -> nat -> Z -> prog S A) :
  (forall ipv4 ipv6 port, keeps (k ipv4 ipv6 port)) ->
  keeps (startDualStackEcho ≫= fun '(ipv4, ipv6, port) => deferring (CloseSocket ipv4) (deferring (CloseSocket ipv6) (k ipv4 ipv6 port))).
Proof.
  intros Hk s. unfold mbind, prog_bind. pose proof (dual_stack_sockets s) as Hd.
  destruct (startDualStackEcho s) as [[[[ipv4 ipv6] port]|e] s1]; [|done]. destruct Hd as (H6 & H4 & Hs).
  unfold deferring. specialize (Hk ipv4 ipv6 port s1). destruct (k ipv4 ipv6 port s1) as [r s2]. cbn in *.
  rewrite (proj1 (rl_close ipv4 _)), (proj1 (rl_close ipv6 s2)), Hk, Hs. set_solver.
Qed.
(** *** The modes *)

Lemma keeps_dial proxy user pass : keeps (dialClient proxy user pass).
Proof.
  apply keeps_bind; [auto with modes|]. intros [host port]. apply keeps_bind; [intros s; apply rl_dial|].
  intros qconn s. unfold await_settings. pose proof (rl_settings qconn s) as [Hs _].
  destruct (ReceivedSettings qconn s) as [[st|e] s']; cbn in Hs; [destruct st as [st|]; [destruct (_ && _)|]|]; cbn;
    by rewrite ?(proj1 (rl_close_conn _ _)).
Qed.

Lemma admit_streams_sockets c second port count i streams s :
  sockets (admit_streams c second port count i streams s).2 = sockets s.
Proof.
  revert i streams s. induction count as [|count IH]; intros i streams s; [done|]. cbn [admit_streams].
  pose proof (keeps_open (if bool_decide (64 <= i) then second else c) (go "127.0.0.1") port s) as Ho.
  destruct (open _ _ _ s) as [[[stream status]|e] s1]; [|done]. destruct (negb _); [done|]. rewrite IH. exact Ho.
Qed.

Lemma replace_stream_sockets c port attempts streams s :
  sockets (replace_stream c port attempts streams s).2 = sockets s.
Proof.
  revert streams s. induction attempts as [|n IH]; intros streams s; [done|]. cbn [replace_stream].
  pose proof (keeps_open c (go "127.0.0.1") port (Sleep (50 * 1000000) s)) as Ho. rewrite sleep_sockets in Ho.
  destruct (open _ _ _ _) as [[[stream status]|e] s1]; [|done].
  destruct (_ =? _)%Z; [cbn; rewrite (proj1 (rl_output _ s1)); exact Ho|]. rewrite IH, closeStream_sockets. exact Ho.
Qed.

Lemma probe_limit_sockets c port streams s : sockets (probe_limit c port streams s).2 = sockets s.
Proof.
  unfold probe_limit. pose proof (keeps_open c (go "127.0.0.1") port s) as Ho.
  destruct (open _ _ _ s) as [[[stream status]|e] s1]; [|done]. cbn in Ho.
  destruct (negb _); [cbn; by rewrite closeStream_sockets|]. destruct streams as [|first rest]; [cbn; by rewrite closeStream_sockets|].
  by rewrite replace_stream_sockets, !closeStream_sockets.
Qed.

Lemma close_all_sockets l s : sockets (foldl (fun s stream => closeStream stream s) s l) = sockets s.
Proof. revert s. induction l as [|x l IH]; intros s; [done|]. cbn. by rewrite IH, closeStream_sockets. Qed.

Lemma keeps_limits_body c second port : keeps (limits_body c second port).
Proof.
  intros s. unfold limits_body. pose proof (admit_streams_sockets c second port 128 0 [] s) as Ha.
  destruct (admit_streams _ _ _ _ _ _ s) as [[err streams] s1]. cbn in Ha. destruct err as [e|].
  - cbn. by rewrite close_all_sockets.
  - pose proof (probe_limit_sockets c port streams s1) as Hp. destruct (probe_limit c port streams s1) as [[err streams'] s2].
    cbn in *. by rewrite close_all_sockets, Hp.
Qed.

(** [runLimits] also closes its second connection. *)
Lemma keeps_limits c : keeps (runLimits c).
Proof.
  apply keeps_bind; [apply keeps_dial|]. intros second. apply keeps_deferring; [intros s; apply rl_close_conn|].
  apply keeps_with_socket; [apply opens_echo|]. intros conn port. apply keeps_limits_body.
Qed.

Lemma keeps_parallel schedule n c host port payload : keeps (parallel schedule n (fun i => echo_tree c host port (payload i))).
Proof. intros s. pose proof (parallel_echoes schedule n c host port payload s) as Hp. destruct (parallel _ _ _ s). apply Hp. Qed.
Hint Resolve keeps_parallel : modes.

Lemma keeps_matrix schedule c : keeps (runMatrix schedule c).
Proof.
  apply keeps_with_socket; [apply opens_echo|]. intros ipv4 ipv4Port. apply keeps_dual_stack.
  intros ipv4Domain ipv6 dualPort. apply keeps_with_socket; [apply opens_dns|]. intros dns dnsPort.
  unfold matrix_checks, matrix_dns, matrix_oversize, matrix_cancel.
  program @keeps_bind.
Qed.

Lemma keeps_idle c : keeps (runIdle c).
Proof.
  apply keeps_with_socket; [apply opens_echo|]. intros conn port. apply keeps_bind; [auto with modes|]. intros [stream status].
  destruct (negb _); [auto with modes|]. apply keeps_deferring; [auto with modes|]. unfold idle_checks.
  program @keeps_bind.
Qed.

Lemma keeps_shutdown c : keeps (runShutdown c).
Proof.
  apply keeps_with_socket; [apply opens_echo|]. intros conn port. apply keeps_bind; [auto with modes|]. intros [stream status].
  destruct (negb _); [auto with modes|]. apply keeps_deferring; [auto with modes|]. program @keeps_bind.
Qed.

(** ** Streams, when a mode succeeds *)

Definition tidy {A} (m : prog S A) : Prop := forall s a s', m s = (Ok a, s') -> streams s' = streams s.

(** A program that ends one stream. *)
Definition ends (stream : nat) {A} (m : prog S A) : Prop :=
  forall s a s', m s = (Ok a, s') -> streams s' = streams s ∖ {[stream]}.

Lemma bind_Ok {A B} (m : prog S A) (k : A -> prog S B) s b s' :
  (m ≫= k) s = (Ok b, s') -> exists a s1, m s = (Ok a, s1) /\ k a s1 = (Ok b, s').
Proof. unfold mbind, prog_bind. destruct (m s) as [[a|e] s1]; [|done]. intros Hk. by exists a, s1. Qed.

Lemma tidy_bind {A B} (m : prog S A) (k : A -> prog S B) : tidy m -> (forall a, tidy (k a)) -> tidy (m ≫= k).
Proof. intros Hm Hk s b s' (a & s1 & E & E')%bind_Ok. by rewrite (Hk a _ _ _ E'), (Hm _ _ _ E). Qed.

Lemma ends_bind_l {A B} stream (m : prog S A) (k : A -> prog S B) :
  tidy m -> (forall a, ends stream (k a)) -> ends stream (m ≫= k).
Proof. intros Hm Hk s b s' (a & s1 & E & E')%bind_Ok. by rewrite (Hk a _ _ _ E'), (Hm _ _ _ E). Qed.

Lemma ends_bind_r {A B} stream (m : prog S A) (k : A -> prog S B) :
  ends stream m -> (forall a, tidy (k a)) -> ends stream (m ≫= k).
Proof. intros Hm Hk s b s' (a & s1 & E & E')%bind_Ok. by rewrite (Hk a _ _ _ E'), (Hm _ _ _ E). Qed.

Lemma tidy_value {A} (f : S -> A) (m : prog S A) : (forall s, (m s).2 = s) -> tidy m.
Proof. intros Hm s a s' E. specialize (Hm s). rewrite E in Hm. by subst. Qed.

Lemma tidy_ret {A} (a : A) : tidy (mret a : prog S A).
Proof. by intros s b s' [= _ <-]. Qed.

Lemma tidy_fail {A} e : tidy (fail e : prog S A).
Proof. by intros s b s' [=]. Qed.

Lemma ends_fail {A} stream e : ends stream (fail e : prog S A).
Proof. by intros s b s' [=]. Qed.

Lemma tidy_lift {A} (r : result A) : tidy (lift r).
Proof. by intros s b s' [= _ <-]. Qed.

Lemma tidy_reading {A} (f : S -> A) : tidy (reading f).
Proof. by intros s b s' [= _ <-]. Qed.

Lemma tidy_modify f : (forall s, streams (f s) = streams s) -> tidy (modify f).
Proof. intros Hf s b s' [= _ <-]. apply Hf. Qed.

Lemma ends_close stream : ends stream (modify (closeStream stream)).
Proof. intros s b s' [= _ <-]. apply rl_cancel. Qed.

Lemma tidy_on_error {A} f (m : prog S A) : tidy m -> tidy (on_error f m).
Proof. intros Hm s a s'. unfold on_error. destruct (m s) as [[b|e] s1] eqn:E; [|done]. intros [= _ <-]. by eapply Hm. Qed.

Lemma tidy_deferring {A} f (m : prog S A) : (forall s, streams (f s) = streams s) -> tidy m -> tidy (deferring f m).
Proof. intros Hf Hm s a s'. unfold deferring. destruct (m s) as [r s1] eqn:E. intros [= -> <-]. rewrite Hf. by eapply Hm. Qed.

Lemma ends_deferring {A} stream (m : prog S A) : tidy m -> ends stream (deferring (closeStream stream) m).
Proof.
  intros Hm s a s'. unfold deferring. destruct (m s) as [r s1] eqn:E. intros [= -> <-].
  rewrite (proj1 (rl_cancel stream s1)). by rewrite (Hm _ _ _ E).
Qed.

(** The operations on a stream that is open keep the set, also when they fail. *)
Lemma tidy_attempting {A} (m : prog S A) : (forall s, streams (m s).2 = streams s) -> tidy (attempting m).
Proof. intros Hm s a s'. unfold attempting. specialize (Hm s). destruct (m s) as [[b|e] s1]; by intros [= _ <-]. Qed.

Lemma steady {A} (m : prog S A) : (forall s, streams (m s).2 = streams s) -> tidy m.
Proof. intros Hm s a s' E. specialize (Hm s). by rewrite E in Hm. Qed.

Lemma send_streams stream d s : streams (SendDatagram stream d s).2 = streams s.
Proof. apply rl_send. Qed.

Lemma receive_streams stream s : streams (ReceiveDatagram stream s).2 = streams s.
Proof. apply rl_receive. Qed.

Lemma within_streams stream t s : streams (ReceiveWithin stream t s).2 = streams s.
Proof. apply rl_within. Qed.

Lemma done_streams stream s : streams (StreamDone stream s).2 = streams s.
Proof. apply rl_done. Qed.

Lemma close_socket_streams conn s : streams (CloseSocket conn s) = streams s.
Proof. apply rl_close. Qed.

Lemma sleep_streams t s : streams (Sleep t s) = streams s.
Proof. apply rl_sleep. Qed.

Hint Resolve tidy_ret tidy_fail ends_fail tidy_lift tidy_reading tidy_modify ends_close tidy_on_error tidy_deferring ends_deferring
  tidy_attempting steady send_streams receive_streams within_streams done_streams close_socket_streams sleep_streams : modes.

Lemma tidy_print lines : tidy (print_lines lines).
Proof. intros s a s' [= _ <-]. apply (output_kept lines s). Qed.

Lemma tidy_elapsed started : tidy (print_elapsed started).
Proof. intros s a s' [= _ <-]. apply rl_output. Qed.
Hint Resolve tidy_print tidy_elapsed : modes.

Lemma open_streams c host port s stream status s' :
  open c host port s = (Ok (stream, status), s') -> (stream ∉ streams s) /\ streams s' = {[stream]} ∪ streams s.
Proof.
  intros E. unfold open in E. apply bind_Ok in E as (id & t1 & E1 & E). pose proof (rl_open (cl_quic c) s) as Ho. rewrite E1 in Ho.
  apply bind_Ok in E as (request & t2 & [= _ <-] & E). apply bind_Ok in E as ([] & t3 & E3 & E).
  apply bind_Ok in E as (st & t4 & E4 & [= -> -> <-]). pose proof (rl_header stream request t1) as [_ H3]. rewrite E3 in H3.
  pose proof (rl_response stream t3) as [_ H4]. rewrite E4 in H4. cbn in H3, H4. rewrite H4, H3. split; apply Ho.
Qed.

(** A stream that is opened and ended. *)
Lemma tidy_with_stream {A} c host port (k : nat -> Z -> prog S A) :
  (forall stream status, ends stream (k stream status)) -> tidy (open c host port ≫= fun '(stream, status) => k stream status).
Proof.
  intros Hk s b s' ([stream status] & s1 & E & E')%bind_Ok. rewrite (Hk _ _ _ _ _ E').
  apply open_streams in E as [Hn ->]. set_solver.
Qed.

Lemma tidy_echo c host port payload : tidy (echo c host port payload).
Proof. unfold echo. apply tidy_with_stream. intros stream status. apply ends_deferring. program @tidy_bind. Qed.
Hint Resolve tidy_echo : modes.

Lemma tidy_listen network address : tidy (ListenUDP network address).
Proof. intros s [conn port] s' E. pose proof (rl_listen network address s) as Hl. rewrite E in Hl. apply Hl. Qed.

Lemma serve_streams conn size answer s : streams (ServeSocket conn size answer s) = streams s.
Proof. apply rl_serve. Qed.
Hint Resolve tidy_listen serve_streams : modes.

Lemma tidy_start network address : tidy (startEcho network address).
Proof. unfold startEcho. program @tidy_bind. Qed.

Lemma tidy_dns_fixture : tidy startDNSFixture.
Proof. unfold startDNSFixture. program @tidy_bind. Qed.
Hint Resolve tidy_start tidy_dns_fixture : modes.

Lemma tidy_dual_stack : tidy startDualStackEcho.
Proof. unfold startDualStackEcho. program @tidy_bind. Qed.
Hint Resolve tidy_dual_stack : modes.

Lemma tidy_matrix_dns c port : tidy (matrix_dns c port).
Proof.
  apply tidy_with_stream. intros stream status. destruct (negb _); [apply ends_bind_r; auto with modes|].
  apply ends_bind_l; [auto with modes|]. intros _. apply ends_bind_r; [auto with modes|]. program @tidy_bind.
Qed.

Lemma tidy_matrix_oversize c port : tidy (matrix_oversize c port).
Proof.
  apply tidy_with_stream. intros stream status. destruct (negb _); [auto with modes|].
  apply ends_bind_l; [auto with modes|]. intros err. destruct (match err with Some ErrDatagramTooLarge => false | _ => true end).
  - apply ends_bind_r; auto with modes.
  - apply ends_bind_l; [auto with modes|]. intros _. apply ends_bind_r; [auto with modes|]. program @tidy_bind.
Qed.

Lemma tidy_matrix_cancel c port : tidy (matrix_cancel c port).
Proof.
  apply tidy_with_stream. intros stream status. destruct (negb _); [auto with modes|].
  apply ends_bind_r; [auto with modes|]. program @tidy_bind.
Qed.
Hint Resolve tidy_matrix_dns tidy_matrix_oversize tidy_matrix_cancel : modes.

Lemma tidy_parallel schedule n c host port payload : tidy (parallel schedule n (fun i => echo_tree c host port (payload i))).
Proof.
  intros s [] s' E. pose proof (parallel_echoes schedule n c host port payload s) as Hp. rewrite E in Hp. by apply Hp.
Qed.
Hint Resolve tidy_parallel : modes.

Lemma tidy_matrix schedule c : tidy (runMatrix schedule c).
Proof.
  assert (Hc : forall p q r, tidy (matrix_checks schedule c p q r)) by (intros p q r; unfold matrix_checks; program @tidy_bind).
  unfold runMatrix. apply tidy_bind; [auto with modes|]. intros [ipv4 ipv4Port]. apply tidy_deferring; [auto with modes|].
  apply tidy_bind; [auto with modes|]. intros [[ipv4Domain ipv6] dualPort]. do 2 (apply tidy_deferring; [auto with modes|]).
  apply tidy_bind; [auto with modes|]. intros [dns dnsPort]. apply tidy_deferring; auto with modes.
Qed.

Lemma tidy_idle c : tidy (runIdle c).
Proof.
  unfold runIdle. apply tidy_bind; [auto with modes|]. intros [conn port]. apply tidy_deferring; [auto with modes|].
  apply tidy_with_stream. intros stream status. destruct (negb _); [auto with modes|]. apply ends_deferring.
  unfold idle_checks. program @tidy_bind.
Qed.

Lemma tidy_shutdown c : tidy (runShutdown c).
Proof.
  unfold runShutdown. apply tidy_bind; [auto with modes|]. intros [conn port]. apply tidy_deferring; [auto with modes|].
  apply tidy_with_stream. intros stream status. destruct (negb _); [auto with modes|]. apply ends_deferring.
  unfold shutdown_checks. program @tidy_bind.
Qed.

(** *** The streams of runLimits *)

(** What is open is in the list or was open before. *)
Definition within (base : gset nat) (l : list nat) (s : S) : Prop := streams s ⊆ list_to_set l ∪ base.

Lemma within_close base id l s : within base (id :: l) s -> within base l (closeStream id s).
Proof. unfold within, closeStream. rewrite (proj1 (rl_cancel id s)), list_to_set_cons. set_solver. Qed.

Lemma within_open base l c host port s stream status s' :
  open c host port s = (Ok (stream, status), s') -> within base l s -> within base (l ++ [stream]) s'.
Proof.
  unfold within. intros [_ E]%open_streams Hs. rewrite E, list_to_set_app, list_to_set_cons. cbn [list_to_set foldr]. set_solver.
Qed.

Lemma within_opened base l c host port s stream status s' :
  open c host port s = (Ok (stream, status), s') -> within base l s -> within base l (closeStream stream s').
Proof.
  intros E Hs. apply within_close. apply (within_open _ _ _ _ _ _ _ _ _ E) in Hs. unfold within in *.
  rewrite list_to_set_app, list_to_set_cons in Hs. cbn [list_to_set foldr] in Hs. rewrite list_to_set_cons. set_solver.
Qed.

Lemma within_same base l s s' : streams s' = streams s -> within base l s -> within base l s'.
Proof. unfold within. by intros ->. Qed.

Lemma admit_within base c second port count i l s l' s' :
  admit_streams c second port count i l s = ((None, l'), s') -> within base l s -> within base l' s'.
Proof.
  revert i l s. induction count as [|count IH]; intros i l s; cbn [admit_streams]; [by intros [= <- <-]|].
  destruct (open _ _ _ s) as [[[stream status]|e] s1] eqn:E; [|done]. destruct (negb _); [done|]. intros Ha Hs.
  eapply IH; [exact Ha|]. by eapply within_open.
Qed.

Lemma replace_within base c port attempts l s l' s' :
  replace_stream c port attempts l s = ((None, l'), s') -> within base l s -> within base l' s'.
Proof.
  revert l s. induction attempts as [|n IH]; intros l s; cbn [replace_stream]; [done|].
  destruct (open _ _ _ _) as [[[stream status]|e] s1] eqn:E; [|done]. intros Ha Hs.
  apply (within_same _ _ _ (Sleep (50 * 1000000) s)) in Hs; [|apply rl_sleep]. destruct (_ =? _)%Z.
  - injection Ha as <- <-. apply (within_same _ _ s1); [apply rl_output|]. by eapply within_open.
  - eapply IH; [exact Ha|]. by eapply within_opened.
Qed.

Lemma probe_within base c port l s l' s' :
  probe_limit c port l s = ((None, l'), s') -> within base l s -> within base l' s'.
Proof.
  unfold probe_limit. destruct (open _ _ _ s) as [[[stream status]|e] s1] eqn:E; [|done]. destruct (negb _); [done|].
  destruct l as [|first rest]; [done|]. intros Hr Hs. eapply replace_within; [exact Hr|]. apply within_close. by eapply within_opened.
Qed.

Lemma close_all_within base l s : within base l s -> within base [] (foldl (fun s stream => closeStream stream s) s l).
Proof. revert s. induction l as [|id l IH]; intros s Hs; [done|]. apply IH. by apply within_close. Qed.

Lemma limits_body_within c second port s a s' : limits_body c second port s = (Ok a, s') -> streams s' ⊆ streams s.
Proof.
  unfold limits_body. destruct (admit_streams _ _ _ _ _ _ s) as [[err l] s1] eqn:Ea. destruct err as [e|]; [done|].
  destruct (probe_limit c port l s1) as [[err l'] s2] eqn:Ep. destruct err as [e|]; [done|]. intros [= _ <-].
  assert (Hs : within (streams s) [] (foldl (fun s stream => closeStream stream s) s2 l')).
  { apply close_all_within. eapply probe_within; [exact Ep|]. eapply admit_within; [exact Ea|]. unfold within. set_solver. }
  unfold within in Hs. cbn [list_to_set foldr] in Hs. set_solver.
Qed.

Lemma dial_streams proxy user pass s c s' : dialClient proxy user pass s = (Ok c, s') -> streams s' = streams s.
Proof.
  intros ([h p] & s1 & [= _ <-] & E)%bind_Ok. apply bind_Ok in E as (qconn & s2 & E2 & E).
  pose proof (rl_dial proxy h s) as [_ Hd]. rewrite E2 in Hd. cbn in Hd. unfold await_settings in E.
  pose proof (rl_settings qconn s2) as [_ Hs]. destruct (ReceivedSettings qconn s2) as [[st|e] s3]; [|done].
  destruct (match st with Some _ => _ | None => _ end); [|done]. injection E as _ <-. cbn in Hs. congruence.
Qed.

Lemma deferring_Ok {A} f (m : prog S A) s a s' : deferring f m s = (Ok a, s') -> exists s1, m s = (Ok a, s1) /\ s' = f s1.
Proof. unfold deferring. destruct (m s) as [r s1]. intros [= -> <-]. by exists s1. Qed.

Lemma limits_streams c s a s' : runLimits c s = (Ok a, s') -> streams s' ⊆ streams s.
Proof.
  intros (second & s1 & E1 & E)%bind_Ok. apply dial_streams in E1. apply deferring_Ok in E as (s2 & E2 & ->).
  apply bind_Ok in E2 as ([conn port] & s3 & E3 & E2).
  assert (Hst : streams s3 = streams s1) by (eapply tidy_start; exact E3).
  apply deferring_Ok in E2 as (s4 & E4 & ->). apply limits_body_within in E4.
  pose proof (rl_close_conn (cl_quic second) (CloseSocket conn s4)) as [_ Hc]. rewrite close_socket_streams in Hc.
  etrans; [exact Hc|]. by rewrite <- E1, <- Hst.
Qed.

(** However a mode of the client ends, with success or an error at any point, every
    socket it opened is closed again and no other socket is; and when matrix, idle or
    shutdown succeed, so are exactly the streams they opened. *)
Theorem modes_release_resources schedule c s :
  (forall m, m ∈ [runMatrix schedule c; runLimits c; runIdle c; runShutdown c] -> sockets (m s).2 = sockets s) /\
  (forall m s', m ∈ [runMatrix schedule c; runIdle c; runShutdown c] -> m s = (Ok tt, s') -> streams s' = streams s).
Proof.
  split.
  - intros m Hm. repeat (apply elem_of_cons in Hm as [->|Hm]; [|]).
    + by apply keeps_matrix.
    + apply keeps_limits.
    + apply keeps_idle.
    + apply keeps_shutdown.
    + by apply not_elem_of_nil in Hm.
  - intros m s' Hm E. repeat (apply elem_of_cons in Hm as [->|Hm]; [|]).
    + by eapply (tidy_matrix schedule c).
    + by eapply tidy_idle.
    + by eapply tidy_shutdown.
    + by apply not_elem_of_nil in Hm.
Qed.
End Resources.

(** ** Witness: a process as the table of what it has open *)

Record table := MkTable { t_sockets : gset nat; t_streams : gset nat; t_listeners : gset nat }.

(** Every stream answers a datagram of its own. *)
#[local] Instance table_transport : Transport table := {|
  DialAddr _ _ s := (Ok 0, s);
  ReceivedSettings _ s := (Ok (Some (MkSettings true true)), s);
  CloseWithError _ s := s;
  OpenRequestStream _ s := let id := fresh (t_streams s) in (Ok id, MkTable (t_sockets s) ({[id]} ∪ t_streams s) (t_listeners s));
  SendRequestHeader _ _ s := (Ok tt, s);
  ReadResponse _ s := (Ok StatusOK, s);
  SendDatagram _ _ s := (Ok tt, s);
  ReceiveDatagram _ s := (Ok (encode (go "m4")), s);
  CancelStream id s := MkTable (t_sockets s) (t_streams s ∖ {[id]}) (t_listeners s);
  ListenUDP _ _ s := let id := fresh (t_sockets s) in (Ok (id, 7%Z), MkTable ({[id]} ∪ t_sockets s) (t_streams s) (t_listeners s));
  ServeSocket _ _ _ s := s;
  CloseSocket id s := MkTable (t_sockets s ∖ {[id]}) (t_streams s) (t_listeners s);
  ReceiveWithin _ _ s := (Err ErrDeadlineExceeded, s);
  StreamDone _ s := (Ok tt, s);
  Now _ := 0%Z;
  Sleep _ s := s;
  Output _ s := s
|}.

#[local] Instance table_laws : ResourceLaws table.
Proof.
  refine (Build_ResourceLaws table _ t_sockets t_streams _ _ _ _ _ _ _ _ _ _ _ _ _ _ _ _); try done.
  - intros network address s. cbn. split; [apply is_fresh|done].
  - intros conn s. cbn. split; [apply is_fresh|done].
Defined.

#[local] Instance modes_unicode : UnicodeTables :=
  {| unicode_lower := id; unicode_equal_fold := fun s t => bool_decide (s = t) |}.

Definition table_client : client := MkClient (go "127.0.0.1:19443") [] 0.

(** The goroutines take turns. *)
Definition round_robin : list nat := concat (replicate 6 (seq 0 8)).

Lemma modes_release_resources_witness :
  exists s', runShutdown table_client (MkTable {[3]} {[4]} ∅) = (Ok tt, s') /\ t_sockets s' = {[3]} /\ t_streams s' = {[4]} /\
    t_sockets (runMatrix round_robin table_client (MkTable {[3]} {[4]} ∅)).2 = {[3]}.
Proof.
  destruct (modes_release_resources round_robin table_client (MkTable {[3]} {[4]} ∅)) as [Hs Hst].
  destruct (runShutdown table_client (MkTable {[3]} {[4]} ∅)) as [r s'] eqn:E.
  assert (Hr : r = Ok tt) by (apply (f_equal fst) in E; vm_compute in E; by subst r).
  subst r. exists s'. split; [reflexivity|]. split; [|split].
  - assert (E2 := f_equal snd E). cbn [snd] in E2. rewrite <- E2. apply Hs. do 3 right. left.
  - apply (Hst (runShutdown table_client)); [do 2 right; left|exact E].
  - apply Hs. left.
Defined.
