(* ===== verification/ClientTrace.v ===== *)
(** * What a passing run of the interoperability client shows

    The modes matrix and limits of cmd/m4-rfc9298-client/main.go print lines that are read
    as evidence about the proxy.  Here every call a mode makes of its transport is recorded
    with its result, over any transport whatever, and the theorems say what is in the
    record when such a line was printed: which requests were answered with which status and
    which payloads came back.  Nothing is assumed of the network. *)

From stdpp Require Import base decidable numbers list gmap strings.
From Stdlib Require Import ZArith Lia Ascii.
From S2P Require Import Prelude GoStrings GoNet GoHttp GoUrl UdpProtocol UdpAdmission Padding Tunnel Interop Goroutines ClientModes.

(** ** The record *)

(** The calls of [Transport], with their arguments and results. *)
Inductive tcall :=
  | CDial (proxy host : gostring) (r : result nat)
  | CSettings (conn : nat) (r : result (option settings))
  | CCloseConn (conn : nat)
  | COpen (conn : nat) (r : result nat)
  | CHeader (stream : nat) (request : Request) (r : result unit)
  | CReply (stream : nat) (r : result Z)
  | CSend (stream : nat) (datagram : list byte) (r : result unit)
  | CReceive (stream : nat) (r : result (list byte))
  | CCancel (stream : nat)
  | CListen (network address : gostring) (r : result (nat * Z))
  | CServe (socket : nat) (size : Z) (answer : list byte -> option (list byte))
  | CCloseSocket (socket : nat)
  | CWithin (stream : nat) (timeout : Z) (r : result (list byte))
  | CDone (stream : nat) (r : result unit)
  | CSleep (time : Z)
  | COutput (line : outputLine).

Record recorded (S : Type) := MkRec { rec_world : S; rec_log : list tcall }.
Arguments MkRec {S}.
Arguments rec_world {S}.
Arguments rec_log {S}.

Section Recording.
Context {S : Type} `{HT : Transport S}.

Definition recording {A} (m : prog S A) (entry : result A -> tcall) : prog (recorded S) A := fun s =>
  let '(r, w) := m (rec_world s) in (r, MkRec w (rec_log s ++ [entry r])).

Definition record_update (f : S -> S) (entry : tcall) : recorded S -> recorded S := fun s =>
  MkRec (f (rec_world s)) (rec_log s ++ [entry]).

(** A transport, recorded. *)
#[export] Instance recorded_transport : Transport (recorded S) := {|
  DialAddr proxy host := recording (DialAddr proxy host) (CDial proxy host);
  ReceivedSettings conn := recording (ReceivedSettings conn) (CSettings conn);
  CloseWithError conn := record_update (CloseWithError conn) (CCloseConn conn);
  OpenRequestStream conn := recording (OpenRequestStream conn) (COpen conn);
  SendRequestHeader id r := recording (SendRequestHeader id r) (CHeader id r);
  ReadResponse id := recording (ReadResponse id) (CReply id);
  SendDatagram id d := recording (SendDatagram id d) (CSend id d);
  ReceiveDatagram id := recording (ReceiveDatagram id) (CReceive id);
  CancelStream id := record_update (CancelStream id) (CCancel id);
  ListenUDP network address := recording (ListenUDP network address) (CListen network address);
  ServeSocket conn size answer := record_update (ServeSocket conn size answer) (CServe conn size answer);
  CloseSocket conn := record_update (CloseSocket conn) (CCloseSocket conn);
  ReceiveWithin id t := recording (ReceiveWithin id t) (CWithin id t);
  StreamDone id := recording (StreamDone id) (CDone id);
  Now s := Now (rec_world s);
  Sleep t := record_update (Sleep t) (CSleep t);
  Output l := record_update (Output l) (COutput l);
|}.
End Recording.

(** ** Two judgements *)

(** Nothing was printed. *)
Definition mute (l : list tcall) : Prop := forall line, COutput line ∉ l.

Section Judgements.
Context {S : Type} `{HT : Transport S, HU : UnicodeTables}.

(** A program that prints nothing, with what its record shows if it succeeds. *)
Definition shows {A} (m : prog (recorded S) A) (P : A -> list tcall -> Prop) : Prop := forall s r s', m s = (r, s') ->
  exists l, rec_log s' = rec_log s ++ l /\ mute l /\ forall a, r = Ok a -> P a l.

(** A program that prints nothing unless it succeeds. *)
Definition tells {A} (m : prog (recorded S) A) (P : A -> list tcall -> Prop) : Prop := forall s r s', m s = (r, s') ->
  exists l, rec_log s' = rec_log s ++ l /\ match r with Ok a => P a l | Err _ => mute l end.

Lemma mute_nil : mute [].
Proof. intros line. apply not_elem_of_nil. Qed.

Lemma mute_app l l' : mute l -> mute l' -> mute (l ++ l').
Proof. intros H1 H2 line [?|?]%elem_of_app; [by apply (H1 line)|by apply (H2 line)]. Qed.

Lemma mute_one c : (forall line, c <> COutput line) -> mute [c].
Proof. intros Hc line E%list_elem_of_singleton. by apply (Hc line). Qed.

Lemma shows_weaken {A} (m : prog (recorded S) A) (P Q : A -> list tcall -> Prop) :
  shows m P -> (forall a l, P a l -> Q a l) -> shows m Q.
Proof. intros Hm Hpq s r s' E. destruct (Hm s r s' E) as (l & ? & ? & ?). exists l. eauto. Qed.

Lemma tells_weaken {A} (m : prog (recorded S) A) (P Q : A -> list tcall -> Prop) :
  tells m P -> (forall a l, P a l -> Q a l) -> tells m Q.
Proof. intros Hm Hpq s r s' E. destruct (Hm s r s' E) as (l & ? & ?). exists l. split; [done|]. destruct r; eauto. Qed.

(** What two programs show, one after the other. *)
Definition then_shows {A B} (P : A -> list tcall -> Prop) (Q : A -> B -> list tcall -> Prop) (b : B) (l : list tcall) : Prop :=
  exists a l1 l2, l = l1 ++ l2 /\ P a l1 /\ Q a b l2.

Lemma shows_bind {A B} (m : prog (recorded S) A) (k : A -> prog (recorded S) B) P Q :
  shows m P -> (forall a, shows (k a) (Q a)) -> shows (m ≫= k) (then_shows P Q).
Proof.
  intros Hm Hk s r s' E. unfold mbind, prog_bind in E. destruct (m s) as [[a|e] s1] eqn:Em.
  - destruct (Hm _ _ _ Em) as (l1 & E1 & M1 & H1). destruct (Hk a _ _ _ E) as (l2 & E2 & M2 & H2).
    exists (l1 ++ l2). rewrite E2, E1, app_assoc. split; [done|]. split; [by apply mute_app|]. intros b ->. exists a, l1, l2. auto.
  - injection E as <- <-. destruct (Hm _ _ _ Em) as (l1 & E1 & M1 & _). by exists l1.
Qed.

Lemma tells_bind {A B} (m : prog (recorded S) A) (k : A -> prog (recorded S) B) P Q :
  shows m P -> (forall a, tells (k a) (Q a)) -> tells (m ≫= k) (then_shows P Q).
Proof.
  intros Hm Hk s r s' E. unfold mbind, prog_bind in E. destruct (m s) as [[a|e] s1] eqn:Em.
  - destruct (Hm _ _ _ Em) as (l1 & E1 & M1 & H1). destruct (Hk a _ _ _ E) as (l2 & E2 & H2).
    exists (l1 ++ l2). rewrite E2, E1, app_assoc. split; [done|]. destruct r; [exists a, l1, l2; auto|by apply mute_app].
  - injection E as <- <-. destruct (Hm _ _ _ Em) as (l1 & E1 & M1 & _). by exists l1.
Qed.

(** A deferred call is recorded last. *)
Definition recorded_as (f : recorded S -> recorded S) (c : tcall) : Prop :=
  (forall s, rec_log (f s) = rec_log s ++ [c]) /\ forall line, c <> COutput line.

Lemma shows_deferring {A} f c (m : prog (recorded S) A) P :
  recorded_as f c -> shows m P -> shows (deferring f m) (fun a l => exists l1, l = l1 ++ [c] /\ P a l1).
Proof.
  intros [Hf Hc] Hm s r s' E. unfold deferring in E. destruct (m s) as [r1 s1] eqn:Em. injection E as <- <-.
  destruct (Hm _ _ _ Em) as (l & E1 & M & H). exists (l ++ [c]). rewrite Hf, E1, app_assoc. split; [done|].
  split; [by apply mute_app, mute_one|]. eauto.
Qed.

Lemma tells_deferring {A} f c (m : prog (recorded S) A) P :
  recorded_as f c -> tells m P -> tells (deferring f m) (fun a l => exists l1, l = l1 ++ [c] /\ P a l1).
Proof.
  intros [Hf Hc] Hm s r s' E. unfold deferring in E. destruct (m s) as [r1 s1] eqn:Em. injection E as <- <-.
  destruct (Hm _ _ _ Em) as (l & E1 & H). exists (l ++ [c]). rewrite Hf, E1, app_assoc. split; [done|].
  destruct r1; [eauto|by apply mute_app, mute_one].
Qed.

Lemma shows_on_error {A} f c (m : prog (recorded S) A) P : recorded_as f c -> shows m P -> shows (on_error f m) P.
Proof.
  intros [Hf Hc] Hm s r s' E. unfold on_error in E. destruct (m s) as [[a|e] s1] eqn:Em; injection E as <- <-.
  - by apply Hm.
  - destruct (Hm _ _ _ Em) as (l & E1 & M & _). exists (l ++ [c]). rewrite Hf, E1, app_assoc. split; [done|].
    split; [by apply mute_app, mute_one|done].
Qed.

(** An error that is looked at: the program's record in both cases. *)
Lemma shows_attempting {A} (m : prog S A) entry :
  (forall r line, entry r <> COutput line) ->
  shows (attempting (recording m entry)) (fun err l => exists r, l = [entry r] /\ err = match r with Ok _ => None | Err e => Some e end).
Proof.
  intros He s r s' E. unfold attempting, recording in E. destruct (m (rec_world s)) as [[a|e] w] eqn:Em; injection E as <- <-;
    (eexists; split; [reflexivity|]); (split; [by apply mute_one|]); intros err [= <-]; by eexists.
Qed.

Lemma shows_record {A} (m : prog S A) entry :
  (forall r line, entry r <> COutput line) -> shows (recording m entry) (fun a l => l = [entry (Ok a)]).
Proof.
  intros He s r s' E. unfold recording in E. destruct (m (rec_world s)) as [r1 w]. injection E as <- <-.
  eexists. split; [reflexivity|]. split; [by apply mute_one|]. by intros a ->.
Qed.

(** A program that tells prints exactly when it succeeds, if what it tells is printed. *)
Lemma tells_evidence (m : prog (recorded S) unit) (P : list tcall -> Prop) :
  tells m (fun _ => P) -> forall s r s', m s = (r, s') -> (forall l, P l -> exists line, COutput line ∈ l) ->
  exists l, rec_log s' = rec_log s ++ l /\ ((exists line, COutput line ∈ l) <-> r = Ok tt) /\ (r = Ok tt -> P l).
Proof.
  intros Hm s r s' E Hp. destruct (Hm s r s' E) as (l & El & Hl). exists l. split; [exact El|]. destruct r as [[]|e].
  - split; [|done]. split; [done|]. intros _. by apply Hp.
  - split; [|done]. split; [|done]. intros [line Hin]. by apply Hl in Hin.
Qed.

Lemma shows_modify f c : recorded_as f c -> shows (modify f) (fun _ l => l = [c]).
Proof. intros [Hf Hc] s r s' [= <- <-]. exists [c]. split; [apply Hf|]. split; [by apply mute_one|done]. Qed.

Lemma shows_pure {A} (r : result A) (m : prog (recorded S) A) :
  (forall s, m s = (r, s)) -> shows m (fun a l => l = [] /\ r = Ok a).
Proof. intros Hm s r1 s'. rewrite Hm. intros [= <- <-]. exists []. rewrite app_nil_r. split; [done|]. split; [apply mute_nil|auto]. Qed.

Lemma shows_fail {A} e P : shows (fail e : prog (recorded S) A) P.
Proof. intros s r s' [= <- <-]. exists []. rewrite app_nil_r. split; [done|]. split; [apply mute_nil|done]. Qed.

Lemma cancel_recorded id : recorded_as (closeStream id) (CCancel id).
Proof. by split. Qed.

Lemma close_socket_recorded id : recorded_as (CloseSocket id) (CCloseSocket id).
Proof. by split. Qed.

Lemma print_tells lines : tells (print_lines lines) (fun _ l => l = COutput <$> lines).
Proof.
  intros s r s' [= <- <-]. exists (COutput <$> lines). split; [|done]. revert s. induction lines as [|x lines IH]; intros s; cbn.
  - by rewrite app_nil_r.
  - rewrite IH. cbn. by rewrite <- app_assoc.
Qed.
End Judgements.

(** ** What the pieces show *)

Section Evidence.
Context {S : Type} `{HT : Transport S, HU : UnicodeTables}.

(** A request for a host and port was sent and answered with a status. *)
Definition opened (c : client) (host : gostring) (port : Z) (stream : nat) (status : Z) (l : list tcall) : Prop :=
  exists request, open_request c host port = Ok request /\
    l = [COpen (cl_quic c) (Ok stream); CHeader stream request (Ok tt); CReply stream (Ok status)].

(** A payload went out on a confirmed stream and came back as it was. *)
Definition echoed (c : client) (host : gostring) (port : Z) (payload : list byte) (l : list tcall) : Prop :=
  exists stream request, opened c host port stream StatusOK request /\
    l = request ++ [CSend stream (encode payload) (Ok tt); CReceive stream (Ok (encode payload)); CCancel stream].

(** The DNS query was answered by a valid response. *)
Definition dns_answered (c : client) (port : Z) (l : list tcall) : Prop :=
  exists stream request response, opened c localhost port stream StatusOK request /\ dns_valid response = true /\
    l = request ++ [CSend stream (encode dnsQuery) (Ok tt); CReceive stream (Ok (encode response)); CCancel stream].

(** A datagram was refused as too large, and the stream still relayed the next one. *)
Definition survives_oversize (c : client) (port : Z) (l : list tcall) : Prop :=
  exists stream request, opened c localhost port stream StatusOK request /\
    l = request ++ [CSend stream (encode (replicate (Z.to_nat 65535) zero_byte)) (Err ErrDatagramTooLarge);
                    CSend stream (encode (go "post-oversize")) (Ok tt); CReceive stream (Ok (encode (go "post-oversize"))); CCancel stream].

(** A stream was cancelled, and an echo on another worked 50 ms later. *)
Definition survives_cancel (c : client) (port : Z) (l : list tcall) : Prop :=
  exists stream request after, opened c localhost port stream StatusOK request /\ echoed c localhost port (go "post-cancel") after /\
    l = request ++ [CCancel stream; CSleep (50 * 1000000)] ++ after.

Lemma shows_open c host port :
  shows (open (S := recorded S) c host port) (fun x l => opened c host port x.1 x.2 l).
Proof.
  eapply shows_weaken.
  - apply shows_bind; [by apply shows_record|]. intros stream. apply shows_bind; [apply (shows_pure (open_request c host port)); done|].
    intros request. apply shows_bind; [by apply shows_record|]. intros ?. apply shows_bind; [by apply shows_record|].
    intros status. apply (shows_pure (Ok (stream, status))). done.
  - intros [stream status] l (id & l1 & l2 & -> & -> & request & l3 & l4 & -> & [-> Hr] & [] & l5 & l6 & -> & -> & st & l7 & l8 & -> & -> & -> & [= -> ->]).
    exists request. by split.
Qed.

(** A stream that is confirmed, and what is done with it then. *)
Lemma shows_with_stream {A} c host port (k : nat -> Z -> prog (recorded S) A) (R : nat -> A -> list tcall -> Prop) :
  (forall stream, shows (k stream StatusOK) (R stream)) ->
  (forall stream status, status <> StatusOK -> shows (k stream status) (fun _ _ => False)) ->
  shows (open c host port ≫= fun '(stream, status) => k stream status)
    (fun a l => exists stream request after, opened c host port stream StatusOK request /\ R stream a after /\ l = request ++ after).
Proof.
  intros Hok Hbad. eapply shows_weaken.
  - eapply (shows_bind _ _ _ (fun x a l => x.2 = StatusOK /\ R x.1 a l)); [apply shows_open|]. intros [stream status]. cbn [fst snd].
    destruct (decide (status = StatusOK)) as [->|Hne].
    + eapply shows_weaken; [apply Hok|]. auto.
    + eapply shows_weaken; [by apply Hbad|]. done.
  - intros a l ([stream status] & l1 & l2 & -> & Ho & Hs & Hr). cbn in *. subst status. by exists stream, l1, l2.
Qed.

(** The branches of a status that is not 200. *)
Lemma shows_refused {A} (m m' : prog (recorded S) A) status :
  status <> StatusOK -> shows m (fun _ _ => False) -> shows (if negb (status =? StatusOK)%Z then m else m') (fun _ _ => False).
Proof. intros Hs Hm. by rewrite (proj2 (Z.eqb_neq _ _)). Qed.

Lemma shows_close_fail {A} stream e : shows (modify (closeStream stream) ≫= fun _ => fail e : prog (recorded S) A) (fun _ _ => False).
Proof.
  eapply shows_weaken; [apply shows_bind; [apply (shows_modify _ _ (cancel_recorded stream))|]; intros u; apply (shows_fail e (fun _ _ => False))|].
  by intros a l (? & ? & ? & _ & _ & ?).
Qed.

(** A payload that has to be the one expected. *)
Lemma shows_expected d payload (e : error) :
  shows (S := S) (got ← lift (decode d); if bool_decide (got = payload) then mret tt else fail e) (fun _ l => l = [] /\ d = encode payload).
Proof.
  eapply shows_weaken.
  - eapply (shows_bind _ _ _ (fun got _ l => l = [] /\ got = payload)); [apply (shows_pure (decode d)); done|]. intros got.
    case_bool_decide; [|apply shows_fail]. eapply shows_weaken; [apply (shows_pure (Ok tt)); done|]. by intros _ l [-> _].
  - intros _ l (got & l1 & l2 & -> & [-> Hd%decode_spec] & -> & ->). done.
Qed.

Lemma shows_echo c host port payload :
  shows (echo (S := recorded S) c host port payload) (fun _ l => echoed c host port payload l).
Proof.
  eapply shows_weaken.
  - apply (shows_with_stream c host port _ (fun stream _ l =>
      l = [CSend stream (encode payload) (Ok tt); CReceive stream (Ok (encode payload)); CCancel stream])); intros stream.
    + eapply shows_weaken.
      * eapply (shows_deferring _ _ _ _ (cancel_recorded stream)). cbn [negb Z.eqb].
        apply shows_bind; [by apply shows_record|]. intros u. apply shows_bind; [by apply shows_record|]. intros d. apply shows_expected.
      * by intros _ l (l1 & -> & [] & l2 & l3 & -> & -> & d & l4 & l5 & -> & -> & -> & ->).
    + intros status Hs. eapply shows_weaken; [eapply (shows_deferring _ _ _ _ (cancel_recorded stream)), shows_refused, shows_fail; done|].
      by intros _ l (? & _ & ?).
  - intros _ l (stream & l1 & l2 & Ho & -> & ->). by exists stream, l1.
Qed.

(** A datagram sent on a stream and what came back, after which the stream is closed. *)
Lemma shows_exchange {A} stream d (k : list byte -> prog (recorded S) A) R :
  (forall answer, shows (k answer) (fun a l => l = [] /\ R a answer)) ->
  shows (on_error (closeStream stream) (SendDatagram stream d) ≫= fun _ =>
         answer ← deferring (closeStream stream) (ReceiveDatagram stream); k answer)
    (fun a l => exists answer, R a answer /\ l = [CSend stream d (Ok tt); CReceive stream (Ok answer); CCancel stream]).
Proof.
  intros Hk. eapply shows_weaken.
  - apply shows_bind; [eapply (shows_on_error _ _ _ _ (cancel_recorded stream)); by apply shows_record|]. intros u.
    apply shows_bind; [eapply (shows_deferring _ _ _ _ (cancel_recorded stream)); by apply shows_record|]. apply Hk.
  - intros a l ([] & l1 & l2 & -> & -> & answer & l3 & l4 & -> & (l5 & -> & ->) & -> & Hr). by exists answer.
Qed.

Lemma shows_dns c port : shows (matrix_dns (S := recorded S) c port) (fun _ l => dns_answered c port l).
Proof.
  eapply shows_weaken.
  - apply (shows_with_stream c localhost port _ (fun stream _ l => exists answer,
      (exists response, answer = encode response /\ dns_valid response = true) /\
      l = [CSend stream (encode dnsQuery) (Ok tt); CReceive stream (Ok answer); CCancel stream])); intros stream.
    + cbn [negb Z.eqb]. apply (shows_exchange stream _ _ (fun _ answer => exists response, answer = encode response /\ dns_valid response = true)).
      intros answer. destruct (decode answer) as [response|] eqn:Ed; [|apply shows_fail]. destruct (dns_valid response) eqn:Ev; [|apply shows_fail].
      eapply shows_weaken; [apply (shows_pure (Ok tt)); done|]. intros _ l [-> _]. split; [done|]. exists response. by apply decode_spec in Ed.
    + intros status Hs. apply shows_refused; [done|apply shows_close_fail].
  - intros _ l (stream & l1 & l2 & Ho & (answer & (response & -> & Hv) & ->) & ->). by exists stream, l1, response.
Qed.

Lemma shows_oversize c port : shows (matrix_oversize (S := recorded S) c port) (fun _ l => survives_oversize c port l).
Proof.
  eapply shows_weaken.
  - apply (shows_with_stream c localhost port _ (fun stream _ l => l =
      [CSend stream (encode (replicate (Z.to_nat 65535) zero_byte)) (Err ErrDatagramTooLarge);
       CSend stream (encode (go "post-oversize")) (Ok tt); CReceive stream (Ok (encode (go "post-oversize"))); CCancel stream])); intros stream.
    + cbn [negb Z.eqb]. eapply shows_weaken.
      * eapply (shows_bind _ _ _ (fun err _ l => err = Some ErrDatagramTooLarge /\
          exists answer, answer = encode (go "post-oversize") /\
          l = [CSend stream (encode (go "post-oversize")) (Ok tt); CReceive stream (Ok answer); CCancel stream]));
          [by apply shows_attempting|]. intros err.
        destruct (match err with Some ErrDatagramTooLarge => false | _ => true end) eqn:Ee;
          [eapply shows_weaken; [apply shows_close_fail|done]|].
        assert (err = Some ErrDatagramTooLarge) as -> by (by destruct err as [[]|]).
        eapply shows_weaken; [apply (shows_exchange stream _ _ (fun _ answer => answer = encode (go "post-oversize"))); intros answer; apply shows_expected|].
        auto.
      * intros _ l (err & l1 & l2 & -> & (r & -> & He) & -> & answer & -> & ->). by destruct r; simplify_eq.
    + intros status Hs. apply shows_refused; [done|apply shows_fail].
  - intros _ l (stream & l1 & l2 & Ho & -> & ->). by exists stream, l1.
Qed.

Lemma shows_cancel c port : shows (matrix_cancel (S := recorded S) c port) (fun _ l => survives_cancel c port l).
Proof.
  eapply shows_weaken.
  - apply (shows_with_stream c localhost port _ (fun stream _ l => exists after,
      echoed c localhost port (go "post-cancel") after /\ l = [CCancel stream; CSleep (50 * 1000000)] ++ after)); intros stream.
    + cbn [negb Z.eqb]. eapply shows_weaken.
      * apply shows_bind; [apply (shows_modify _ _ (cancel_recorded stream))|]. intros u.
        apply shows_bind; [apply (shows_modify _ (CSleep (50 * 1000000))); by split|]. intros v. apply shows_echo.
      * intros _ l ([] & l1 & l2 & -> & -> & [] & l3 & l4 & -> & -> & Ha). by exists l4.
    + intros status Hs. apply shows_refused; [done|apply shows_fail].
  - intros _ l (stream & l1 & l2 & Ho & (after & Ha & ->) & ->). by exists stream, l1, after.
Qed.
End Evidence.

(** ** The echoes in goroutines *)

(** The records of goroutines, merged into one in the order of their calls. *)
Inductive merged : list (list tcall) -> list tcall -> Prop :=
  | merged_none n : merged (replicate n []) []
  | merged_call gs i g c l : merged gs l -> gs !! i = Some g -> merged (<[i := g ++ [c]]> gs) (l ++ [c]).

Section Parallel.
Context {S : Type} `{HT : Transport S, HU : UnicodeTables}.
Variables (c : client) (host : gostring) (port : Z) (payloads : list (list byte)) (base : list tcall).

(** A goroutine has its payload and what it did so far. *)
Definition together (gs : list (list byte * list tcall)) (s : recorded S) : Prop :=
  gs.*1 = payloads /\ exists l, rec_log s = base ++ l /\ mute l /\ merged gs.*2 l.

Definition echo_done (g : list byte * list tcall) (r : result unit) : Prop := r = Ok tt -> echoed c host port g.1 g.2.

Lemma together_call gs i p g entry s w :
  gs !! i = Some (p, g) -> (forall line, entry <> COutput line) -> together gs s ->
  together (<[i := (p, g ++ [entry])]> gs) (MkRec w (rec_log s ++ [entry])).
Proof.
  intros Hi He [Hp (l & El & Hm & Hg)]. split.
  - rewrite list_fmap_insert, list_insert_id; [done|]. by rewrite list_lookup_fmap, Hi.
  - exists (l ++ [entry]). cbn [rec_log]. rewrite El, app_assoc. split; [done|]. split; [by apply mute_app, mute_one|].
    rewrite list_fmap_insert. apply merged_call; [done|]. by rewrite list_lookup_fmap, Hi.
Qed.

Lemma follows_record {A} (m : prog S A) entry (k : result A -> tree (recorded S) unit) p g :
  (forall r line, entry r <> COutput line) -> (forall r, follows together echo_done (k r) (p, g ++ [entry r])) ->
  follows together echo_done (Call (recording m entry) k) (p, g).
Proof.
  intros He Hk gs i s Hi Hs. unfold recording. destruct (m (rec_world s)) as [r w]. exists (p, g ++ [entry r]).
  split; [by apply together_call|apply Hk].
Qed.

(** Ending with the deferred close; on success the record is that of an echo. *)
Lemma follows_closed stream (r : result unit) p g :
  (r = Ok tt -> echoed c host port p (g ++ [CCancel stream])) ->
  follows together echo_done (Call (fun s => (tt, closeStream stream s)) (fun _ => Return r)) (p, g).
Proof.
  intros Hr gs i s Hi Hs. exists (p, g ++ [CCancel stream]). split; [|exact Hr]. by apply together_call.
Qed.

Lemma echo_tree_records p : follows together echo_done (echo_tree c host port p) (p, []).
Proof.
  apply follows_record; [done|]. intros [stream|e]; cbn -[follows recording]; [|done].
  destruct (open_request c host port) as [request|e] eqn:Er; cbn -[follows recording]; [|done].
  apply follows_record; [done|]. intros [[]|e]; cbn -[follows recording]; [|done].
  apply follows_record; [done|]. intros [status|e]; cbn -[follows recording]; [|done]. unfold exchange_tree.
  destruct (Z.eqb_spec status StatusOK) as [->|]; cbn -[follows recording closeStream]; [|by apply follows_closed].
  apply follows_record; [done|]. intros [[]|e]; cbn -[follows recording closeStream]; [|by apply follows_closed].
  apply follows_record; [done|]. intros [d|e]; cbn -[follows recording closeStream]; [|by apply follows_closed].
  destruct (decode d) as [got|] eqn:Ed; cbn -[follows recording closeStream]; [|by apply follows_closed].
  case_bool_decide as Hg; cbn -[follows recording closeStream]; apply follows_closed; [|done]. intros _. subst got.
  apply decode_spec in Ed as ->. exists stream. eexists. split; [by exists request|done].
Qed.
End Parallel.

Lemma replicate_fmap_seq {A} (x : A) n : (fun _ => x) <$> seq 0 n = replicate n x.
Proof. generalize 0. induction n as [|n IH]; intros k; [done|]. cbn. f_equal. apply IH. Qed.

(** In every schedule: the record is a merge of one record for each goroutine, that of an
    echo of its payload. *)
Lemma shows_parallel {S} `{HT : Transport S, HU : UnicodeTables} schedule n c host port (payload : nat -> list byte) :
  shows (S := S) (parallel schedule n (fun i => echo_tree c host port (payload i)))
    (fun _ l => exists logs, merged logs l /\ Forall2 (echoed c host port) (payload <$> seq 0 n) logs).
Proof.
  intros s r s' E. set (gs0 := (fun i => (payload i, [] : list tcall)) <$> seq 0 n).
  destruct (parallel_rule (together (S := S) (payload <$> seq 0 n) (rec_log s)) (echo_done c host port) schedule n
    (fun i => echo_tree c host port (payload i)) s gs0) as (gs & Hl & [Hp (l & El & Hm & Hg)] & Hok & _).
  - unfold gs0. by rewrite length_fmap, length_seq.
  - split.
    + unfold gs0. rewrite <- list_fmap_compose. reflexivity.
    + exists []. rewrite app_nil_r. split; [done|]. split; [apply mute_nil|]. unfold gs0. rewrite <- list_fmap_compose.
      change (merged ((fun _ => []) <$> seq 0 n) []). rewrite replicate_fmap_seq. constructor.
  - intros i g Hi. unfold gs0 in Hi. rewrite list_lookup_fmap in Hi. apply fmap_Some in Hi as (j & Hj & ->).
    apply lookup_seq in Hj as [-> _]. apply echo_tree_records.
  - rewrite E in *. cbn [fst snd] in *. exists l. split; [exact El|]. split; [exact Hm|]. intros [] ->. exists gs.*2. split; [done|].
    specialize (Hok eq_refl). rewrite <- Hp. clear -Hok. induction Hok as [|[p g] gs Hg _ IH]; [constructor|]. constructor; [by apply Hg|done].
Qed.

(** ** The fixtures and the mode matrix *)

(** A fixture was started on a new socket. *)
Definition started (network address : gostring) (size : Z) (answer : list byte -> option (list byte)) (socket : nat) (port : Z)
    (l : list tcall) : Prop :=
  l = [CListen network address (Ok (socket, port)); CServe socket size answer].

Section Modes.
Context {S : Type} `{HT : Transport S, HU : UnicodeTables}.

Lemma shows_serving network address size answer :
  shows (S := S) ('(conn, port) ← ListenUDP network address; modify (ServeSocket conn size answer) ≫= fun _ => mret (conn, port))
    (fun x l => started network address size answer x.1 x.2 l).
Proof.
  eapply shows_weaken.
  - eapply (shows_bind _ _ _ (fun x y l => x = y /\ l = [CServe x.1 size answer])); [by apply shows_record|]. intros [conn port].
    eapply shows_weaken; [apply shows_bind; [apply (shows_modify _ (CServe conn size answer)); by split|]; intros u; apply (shows_pure (Ok (conn, port))); done|].
    by intros y l (? & l1 & l2 & -> & -> & -> & [= <-]).
  - by intros [conn port] l (y & l1 & l2 & -> & -> & -> & ->).
Qed.

Lemma shows_dual_stack :
  shows (S := S) startDualStackEcho (fun x l => exists ipv4 ipv6 port port4 l6 l4, x = (ipv4, ipv6, port) /\ l = l6 ++ l4 /\
    started (go "udp6") (go "[::1]:0") 65535 Some ipv6 port l6 /\
    started (go "udp4") (JoinHostPort localhost (Itoa port)) 65535 Some ipv4 port4 l4).
Proof.
  eapply shows_weaken.
  - eapply (shows_bind _ _ _ (fun x y l => exists ipv4 port4, y = (ipv4, x.1, x.2) /\
      started (go "udp4") (JoinHostPort localhost (Itoa x.2)) 65535 Some ipv4 port4 l)); [apply shows_serving|]. intros [ipv6 port].
    eapply shows_weaken.
    + eapply (shows_bind _ _ _ (fun x y l => l = [] /\ y = (x.1, ipv6, port)));
        [eapply (shows_on_error _ _ _ _ (close_socket_recorded ipv6)); apply shows_serving|].
      intros [ipv4 port4]. eapply shows_weaken; [apply (shows_pure (Ok (ipv4, ipv6, port))); done|]. by intros y l [-> [= <-]].
    + intros y l ([ipv4 port4] & l1 & l2 & -> & Hs & -> & ->). exists ipv4, port4. rewrite app_nil_r. by split.
  - intros x l ([ipv6 port] & l1 & l2 & -> & H6 & ipv4 & port4 & -> & H4). by exists ipv4, ipv6, port, port4, l1, l2.
Qed.

(** What the checks of the matrix leave in the record, in the order of the source: five
    echoes, the DNS exchange, the oversize datagram, eight echoes at the same time, and the
    cancelled stream. *)
Definition matrix_passed (c : client) (ipv4Port dualPort dnsPort : Z) (l : list tcall) : Prop :=
  exists e1 e2 e3 e4 e5 dns oversize par cancelled logs,
    l = e1 ++ e2 ++ e3 ++ e4 ++ e5 ++ dns ++ oversize ++ par ++ cancelled /\
    echoed c localhost ipv4Port (privatePayload ++ go "-ipv4") e1 /\
    echoed c (go "::1") dualPort (privatePayload ++ go "-ipv6") e2 /\
    echoed c privateDomainTarget dualPort (privatePayload ++ go "-domain") e3 /\
    echoed c localhost ipv4Port [] e4 /\
    echoed c localhost ipv4Port (replicate (Z.to_nat 1024) (byte_of_Z 165)) e5 /\
    dns_answered c dnsPort dns /\ survives_oversize c ipv4Port oversize /\
    merged logs par /\
    Forall2 (echoed c localhost ipv4Port) ((fun i => go "parallel-" ++ Itoa (Z.of_nat i)) <$> seq 0 8) logs /\
    survives_cancel c ipv4Port cancelled.

Lemma tells_checks schedule c ipv4Port dualPort dnsPort :
  tells (S := S) (matrix_checks schedule c ipv4Port dualPort dnsPort)
    (fun _ l => exists l1, matrix_passed c ipv4Port dualPort dnsPort l1 /\ l = l1 ++ (COutput <$> matrix_lines)).
Proof.
  eapply tells_weaken.
  - do 5 (apply tells_bind; [apply shows_echo|]; intros ?). apply tells_bind; [apply shows_dns|]; intros ?.
    apply tells_bind; [apply shows_oversize|]; intros ?.
    apply tells_bind; [apply (shows_parallel schedule 8 c localhost ipv4Port (fun i => go "parallel-" ++ Itoa (Z.of_nat i)))|]; intros ?.
    apply tells_bind; [apply shows_cancel|]; intros ?. apply print_tells.
  - intros _ l (? & e1 & ? & -> & H1 & ? & e2 & ? & -> & H2 & ? & e3 & ? & -> & H3 & ? & e4 & ? & -> & H4 & ? & e5 & ? & -> & H5 &
      ? & dns & ? & -> & H6 & ? & oversize & ? & -> & H7 & ? & par & ? & -> & (logs & H8 & H9) & ? & cancelled & ? & -> & H10 & ->).
    eexists. split; [by exists e1, e2, e3, e4, e5, dns, oversize, par, cancelled, logs|]. by rewrite !app_assoc.
Qed.

(** The whole record: the fixtures, the checks, the lines, and the deferred closes. *)
Definition matrix_record (c : client) (l : list tcall) : Prop :=
  exists ipv4 ipv4Port ipv6 dualPort ipv4Domain port4 dns dnsPort f1 f2 f3 f4 checks,
    started (go "udp4") (go "127.0.0.1:0") 65535 Some ipv4 ipv4Port f1 /\
    started (go "udp6") (go "[::1]:0") 65535 Some ipv6 dualPort f2 /\
    started (go "udp4") (JoinHostPort localhost (Itoa dualPort)) 65535 Some ipv4Domain port4 f3 /\
    started (go "udp4") (go "127.0.0.1:0") 512 dns_fixture dns dnsPort f4 /\
    matrix_passed c ipv4Port dualPort dnsPort checks /\
    l = f1 ++ f2 ++ f3 ++ f4 ++ checks ++ (COutput <$> matrix_lines) ++
        [CCloseSocket dns; CCloseSocket ipv6; CCloseSocket ipv4Domain; CCloseSocket ipv4].

Lemma matrix_printed c l : matrix_record c l -> exists line, COutput line ∈ l.
Proof.
  intros (? & ? & ? & ? & ? & ? & ? & ? & f1 & f2 & f3 & f4 & checks & _ & _ & _ & _ & _ & ->). eexists.
  do 5 (apply elem_of_app; right). apply elem_of_app. left. left.
Qed.

Lemma tells_matrix schedule c : tells (S := S) (runMatrix schedule c) (fun _ l => matrix_record c l).
Proof.
  eapply tells_weaken.
  - eapply (tells_bind _ _ _ (fun x _ l => _ x l)); [apply shows_serving|]. intros x.
    instantiate (1 := fun x l => exists l1, l = l1 ++ [CCloseSocket x.1] /\
      exists ipv6 dualPort ipv4Domain port4 dns dnsPort f2 f3 f4 checks,
        started (go "udp6") (go "[::1]:0") 65535 Some ipv6 dualPort f2 /\
        started (go "udp4") (JoinHostPort localhost (Itoa dualPort)) 65535 Some ipv4Domain port4 f3 /\
        started (go "udp4") (go "127.0.0.1:0") 512 dns_fixture dns dnsPort f4 /\
        matrix_passed c x.2 dualPort dnsPort checks /\
        l1 = f2 ++ f3 ++ f4 ++ checks ++ (COutput <$> matrix_lines) ++
            [CCloseSocket dns; CCloseSocket ipv6; CCloseSocket ipv4Domain]).
    destruct x as [ipv4 ipv4Port]. cbn [fst snd]. eapply tells_deferring; [apply close_socket_recorded|]. eapply tells_weaken.
    + eapply (tells_bind _ _ _ (fun x _ l => _ x l)); [apply shows_dual_stack|]. intros x.
      instantiate (1 := fun x l => exists dns dnsPort f4 checks,
        started (go "udp4") (go "127.0.0.1:0") 512 dns_fixture dns dnsPort f4 /\
        matrix_passed c ipv4Port x.2 dnsPort checks /\
        l = f4 ++ checks ++ (COutput <$> matrix_lines) ++ [CCloseSocket dns; CCloseSocket x.1.2; CCloseSocket x.1.1]).
      destruct x as [[ipv4Domain ipv6] dualPort]. cbn [fst snd]. eapply tells_weaken.
      * eapply tells_deferring; [apply close_socket_recorded|]. eapply tells_deferring; [apply close_socket_recorded|].
        eapply (tells_bind _ _ _ (fun x _ l => exists l1, l = l1 ++ [CCloseSocket x.1] /\
          exists checks, matrix_passed c ipv4Port dualPort x.2 checks /\ l1 = checks ++ (COutput <$> matrix_lines))); [apply shows_serving|].
        intros [dns dnsPort]. cbn [fst snd]. eapply tells_deferring; [apply close_socket_recorded|]. apply tells_checks.
      * intros _ l (l1 & -> & l2 & -> & [dns dnsPort] & f4 & l3 & -> & Hs & l4 & -> & checks & Hc & ->). exists dns, dnsPort, f4, checks.
        split; [exact Hs|]. split; [exact Hc|]. by rewrite <- !app_assoc.
    + intros _ l (x & l1 & l2 & -> & (ipv4Domain & ipv6 & dualPort & port4 & l6 & l4 & -> & -> & H6 & H4) & dns & dnsPort & f4 & checks & Hs & Hc & ->).
      exists ipv6, dualPort, ipv4Domain, port4, dns, dnsPort, l6, l4, f4, checks. do 4 (split; [done|]). by rewrite <- !app_assoc.
  - intros _ l ([ipv4 ipv4Port] & f1 & l2 & -> & H1 & l3 & -> & ipv6 & dualPort & ipv4Domain & port4 & dns & dnsPort & f2 & f3 & f4 & checks & H2 & H3 & H4 & Hc & ->).
    exists ipv4, ipv4Port, ipv6, dualPort, ipv4Domain, port4, dns, dnsPort, f1, f2, f3, f4, checks. do 5 (split; [done|]). by rewrite <- !app_assoc.
Qed.
End Modes.

(** C12: the matrix is honest, over any transport and in every schedule of its goroutines: it
    prints one of its lines only if it succeeds, and then the record of its calls is exactly
    this: the four fixtures were started; for each of the five single payloads (one over
    IPv6, one through a host name, an empty one, one of 1024 bytes) a request for its host
    and port was answered with 200 and the payload came back unchanged; the DNS query got a
    valid response; an oversize datagram was refused by the transport and the stream
    relayed the next one; eight more payloads came back, in whatever order the goroutines
    ran; a stream was cancelled and a later echo worked; and all fixtures were closed. *)
Theorem matrix_evidence {S} `{HT : Transport S, HU : UnicodeTables} schedule c (s s' : recorded S) r :
  runMatrix schedule c s = (r, s') ->
  exists l, rec_log s' = rec_log s ++ l /\
    ((exists line, COutput line ∈ l) <-> r = Ok tt) /\ (r = Ok tt -> matrix_record c l).
Proof. intros E. apply (tells_evidence _ _ (tells_matrix schedule c) _ _ _ E). intros l. apply matrix_printed. Qed.

(** ** The mode limits *)

Section Limits.
Context {S : Type} `{HT : Transport S, HU : UnicodeTables}.

(** A connection with datagrams and extended CONNECT was made to the proxy. *)
Definition connected (proxy : gostring) (conn : nat) (l : list tcall) : Prop :=
  exists host port st, SplitHostPort proxy = Ok (host, port) /\ EnableDatagrams st = true /\ EnableExtendedConnect st = true /\
    l = [CDial proxy host (Ok conn); CSettings conn (Ok (Some st))].

(** Requests admitted one after the other, the first 64 of them over the first connection. *)
Fixpoint admissions (c second : client) (port : Z) (i : nat) (streams : list nat) (l : list tcall) : Prop :=
  match streams with
  | [] => l = []
  | stream :: rest => exists request after, l = request ++ after /\
      opened (if bool_decide (64 <= i) then second else c) localhost port stream StatusOK request /\
      admissions c second port (i + 1) rest after
  end.

(** Attempts, 50 ms apart, that were not admitted; their streams are cancelled. *)
Fixpoint refusals (c : client) (port : Z) (n : nat) (l : list tcall) : Prop :=
  match n with
  | O => l = []
  | Datatypes.S n' => exists stream status request after, status <> StatusOK /\ opened c localhost port stream status request /\
      l = CSleep (50 * 1000000) :: request ++ CCancel stream :: after /\ refusals c port n' after
  end.

Lemma shows_dial proxy user pass :
  shows (S := S) (dialClient proxy user pass) (fun x l => exists conn, x = MkClient proxy (basic_value user pass) conn /\ connected proxy conn l).
Proof.
  eapply shows_weaken.
  - eapply (shows_bind _ _ _ (fun hp x l => exists conn st, x = MkClient proxy (basic_value user pass) conn /\
      EnableDatagrams st = true /\ EnableExtendedConnect st = true /\
      l = [CDial proxy hp.1 (Ok conn); CSettings conn (Ok (Some st))])); [apply (shows_pure (SplitHostPort proxy)); done|].
    intros [host port]. eapply shows_weaken.
    + eapply (shows_bind _ _ _ (fun conn x l => exists st, x = MkClient proxy (basic_value user pass) conn /\
        EnableDatagrams st = true /\ EnableExtendedConnect st = true /\ l = [CSettings conn (Ok (Some st))])); [by apply shows_record|].
      intros conn s r s' E. unfold await_settings in E. cbn [ReceivedSettings CloseWithError recorded_transport] in E.
      unfold recording in E. destruct (ReceivedSettings conn (rec_world s)) as [[[[[] []]|]|e] w]; cbn in E; injection E as <- <-; cbn [record_update rec_log];
        rewrite <- ?app_assoc; (eexists; split; [reflexivity|]); (split; [intros line; set_solver|]); try done.
      intros x [= <-]. by exists (MkSettings true true).
    + intros x l (conn & l1 & l2 & -> & -> & st & -> & H1 & H2 & ->). by exists conn, st.
  - intros x l ([host port] & l1 & l2 & -> & [-> Hs] & conn & st & -> & H1 & H2 & ->). exists conn. split; [done|]. by exists host, port, st.
Qed.

Lemma admit_record c second port count i streams (s : recorded S) err streams' s' :
  admit_streams c second port count i streams s = ((err, streams'), s') ->
  exists l new, rec_log s' = rec_log s ++ l /\ mute l /\ streams' = streams ++ new /\
    (err = None -> length new = count /\ admissions c second port i new l).
Proof.
  revert i streams s. induction count as [|count IH]; intros i streams s; cbn [admit_streams].
  { intros [= <- <- <-]. exists [], []. rewrite !app_nil_r. split; [done|]. split; [apply mute_nil|]. by split. }
  destruct (open _ _ _ s) as [r s1] eqn:Eo. destruct (shows_open _ _ _ _ _ _ Eo) as (l1 & E1 & M1 & H1).
  destruct r as [[stream status]|e]; [destruct (Z.eqb_spec status StatusOK) as [->|]|]; cbn [negb].
  - intros (l2 & new & E2 & M2 & -> & H2)%IH. exists (l1 ++ l2), (stream :: new). rewrite E2, E1.
    split; [by rewrite app_assoc|]. split; [by apply mute_app|]. split; [by rewrite <- app_assoc|]. intros He. destruct (H2 He) as [Hl Ha]. split; [cbn; lia|].
    exists l1, l2. split; [done|]. split; [|exact Ha]. exact (H1 _ eq_refl).
  - intros [= <- <- <-]. exists l1, []. by rewrite app_nil_r.
  - intros [= <- <- <-]. exists l1, []. by rewrite app_nil_r.
Qed.

(** A place was free again within the attempts. *)
Definition replaced (c : client) (port : Z) (attempts : nat) (stream : nat) (l : list tcall) : Prop :=
  exists n refused request, n < attempts /\ refusals c port n refused /\ opened c localhost port stream StatusOK request /\
    l = refused ++ CSleep (50 * 1000000) :: request ++ [COutput (Line (go "M4_G5_RESOURCE_LIMIT_OK"))].

Lemma replace_record c port attempts streams (s : recorded S) err streams' s' :
  replace_stream c port attempts streams s = ((err, streams'), s') ->
  exists l, rec_log s' = rec_log s ++ l /\
    match err with None => exists stream, streams' = streams ++ [stream] /\ replaced c port attempts stream l | Some _ => mute l end.
Proof.
  revert s. induction attempts as [|n IH]; intros s; cbn [replace_stream].
  { intros [= <- <- <-]. exists []. rewrite app_nil_r. split; [done|apply mute_nil]. }
  destruct (open _ _ _ _) as [r s1] eqn:Eo. destruct (shows_open _ _ _ _ _ _ Eo) as (l1 & E1 & M1 & H1). cbn in E1. rewrite <- app_assoc in E1.
  assert (Hm : mute ([CSleep (50 * 1000000)] ++ l1)) by (apply mute_app; [by apply mute_one|done]).
  destruct r as [[stream status]|e]; [destruct (Z.eqb_spec status StatusOK) as [->|Hne]|].
  - intros [= <- <- <-]. eexists. cbn [Output recorded_transport record_update rec_log]. rewrite E1, <- !app_assoc. split; [reflexivity|].
    exists stream. split; [done|]. exists 0, [], l1. split; [lia|]. split; [done|]. split; [exact (H1 _ eq_refl)|done].
  - intros (l2 & E2 & H2)%IH. eexists. rewrite E2. cbn [closeStream CancelStream recorded_transport record_update rec_log].
    rewrite E1, <- !app_assoc. split; [reflexivity|]. destruct err as [e|].
    + rewrite app_assoc. apply mute_app; [done|]. apply mute_app; [by apply mute_one|done].
    + destruct H2 as (new & -> & m & refused & request & Hm' & Hr & Ho & ->). exists new. split; [done|].
      exists (Datatypes.S m), ([CSleep (50 * 1000000)] ++ l1 ++ [CCancel stream] ++ refused), request. split; [lia|].
      split; [|split; [exact Ho|by rewrite <- !app_assoc]]. exists stream, status, l1, refused. split; [done|]. split; [exact (H1 _ eq_refl)|done].
  - intros [= <- <- <-]. exists ([CSleep (50 * 1000000)] ++ l1). split; [by rewrite E1|done].
Qed.

(** The next request is refused with 503 while all are open; the first is closed; a place is
    free again. *)
Definition limit_probed (c : client) (port : Z) (first replacement : nat) (l : list tcall) : Prop :=
  exists rejected request after, opened c localhost port rejected StatusServiceUnavailable request /\
    replaced c port 20 replacement after /\ l = request ++ CCancel rejected :: CCancel first :: after.

Lemma probe_record c port streams (s : recorded S) err streams' s' :
  probe_limit c port streams s = ((err, streams'), s') ->
  exists l, rec_log s' = rec_log s ++ l /\
    match err with
    | None => exists first rest replacement, streams = first :: rest /\ streams' = rest ++ [replacement] /\ limit_probed c port first replacement l
    | Some _ => mute l
    end.
Proof.
  unfold probe_limit. destruct (open _ _ _ s) as [r s1] eqn:Eo. destruct (shows_open _ _ _ _ _ _ Eo) as (l1 & E1 & M1 & H1).
  destruct r as [[rejected status]|e]; [|intros [= <- <- <-]; by exists l1].
  assert (Hm : mute (l1 ++ [CCancel rejected])) by (apply mute_app; [done|by apply mute_one]).
  destruct (Z.eqb_spec status StatusServiceUnavailable) as [->|Hne]; cbn [negb].
  2: { intros [= <- <- <-]. exists (l1 ++ [CCancel rejected]). cbn. by rewrite E1, app_assoc. }
  destruct streams as [|first rest]; [intros [= <- <- <-]; exists (l1 ++ [CCancel rejected]); cbn; by rewrite E1, app_assoc|].
  intros (l2 & E2 & H2)%replace_record. eexists. rewrite E2. cbn. rewrite E1, <- !app_assoc. split; [reflexivity|].
  destruct err as [e|]; [rewrite app_assoc; apply mute_app; [done|]; apply mute_app; [by apply mute_one|done]|].
  destruct H2 as (new & -> & Hr). exists first, rest, new. split; [done|]. split; [done|]. exists rejected, l1, l2.
  split; [exact (H1 _ eq_refl)|]. split; [exact Hr|done].
Qed.

Lemma close_all_record l (s : recorded S) : rec_log (foldl (fun s stream => closeStream stream s) s l) = rec_log s ++ (CCancel <$> l).
Proof. revert s. induction l as [|x l IH]; intros s; cbn; [by rewrite app_nil_r|]. rewrite IH. cbn. by rewrite <- app_assoc. Qed.

Lemma mute_cancels l : mute (CCancel <$> l).
Proof. intros line (x & ? & _)%list_elem_of_fmap. done. Qed.

Definition limits_shown (c second : client) (port : Z) (l : list tcall) : Prop :=
  exists first rest replacement admitted probed, length rest = 127 /\ admissions c second port 0 (first :: rest) admitted /\
    limit_probed c port first replacement probed /\ l = admitted ++ probed ++ (CCancel <$> rest ++ [replacement]).

Lemma tells_limits_body c second port : tells (S := S) (limits_body c second port) (fun _ l => limits_shown c second port l).
Proof.
  intros s r s' E. unfold limits_body in E. destruct (admit_streams _ _ _ _ _ _ s) as [[err streams] s1] eqn:Ea.
  destruct (admit_record _ _ _ _ _ _ _ _ _ _ Ea) as (l1 & new & E1 & M1 & -> & H1). destruct err as [e|].
  { injection E as <- <-. eexists. rewrite close_all_record, E1, <- app_assoc. split; [reflexivity|]. by apply mute_app, mute_cancels. }
  destruct (probe_limit _ _ _ s1) as [[err streams] s2] eqn:Ep. destruct (probe_record _ _ _ _ _ _ _ Ep) as (l2 & E2 & H2).
  injection E as <- <-. eexists. rewrite close_all_record, E2, E1, <- !app_assoc. split; [reflexivity|]. destruct err as [e|].
  { apply mute_app; [done|]. by apply mute_app, mute_cancels. }
  destruct (H1 eq_refl) as [Hl Ha]. destruct H2 as (first & rest & replacement & Hn & -> & Hp). cbn in Hn. subst new. cbn in Hl.
  exists first, rest, replacement, l1, l2. split; [lia|]. done.
Qed.

(** The whole record: the second connection, the fixture, the requests, the closes. *)
Definition limits_record (c : client) (l : list tcall) : Prop :=
  exists conn socket port dial fixture shown,
    connected (cl_proxy c) conn dial /\ started (go "udp4") (go "127.0.0.1:0") 65535 Some socket port fixture /\
    limits_shown c (MkClient (cl_proxy c) (cl_auth c) conn) port shown /\
    l = dial ++ fixture ++ shown ++ [CCloseSocket socket; CCloseConn conn].

Lemma tells_limits c : tells (S := S) (runLimits c) (fun _ l => limits_record c l).
Proof.
  eapply tells_weaken.
  - eapply (tells_bind _ _ _ (fun x _ l => _ x l)); [apply shows_dial|]. intros second.
    instantiate (1 := fun second l => exists l1, l = l1 ++ [CCloseConn (cl_quic second)] /\ exists socket port fixture shown,
      started (go "udp4") (go "127.0.0.1:0") 65535 Some socket port fixture /\
      limits_shown c (MkClient (cl_proxy second) (cl_auth c) (cl_quic second)) port shown /\ l1 = fixture ++ shown ++ [CCloseSocket socket]).
    eapply tells_deferring; [by split|]. eapply tells_weaken.
    + eapply (tells_bind _ _ _ (fun x _ l => exists l1, l = l1 ++ [CCloseSocket x.1] /\
        limits_shown c (MkClient (cl_proxy second) (cl_auth c) (cl_quic second)) x.2 l1)); [apply shows_serving|].
      intros [socket port]. cbn [fst snd]. eapply tells_deferring; [apply close_socket_recorded|]. apply tells_limits_body.
    + intros _ l ([socket port] & f & l2 & -> & Hs & shown & -> & Hl). by exists socket, port, f, shown.
  - intros _ l (second & dial & l2 & -> & (conn & -> & Hd) & l3 & -> & socket & port & f & shown & Hs & Hl & ->). cbn in *.
    exists conn, socket, port, dial, f, shown. do 3 (split; [done|]). by rewrite <- !app_assoc.
Qed.

Lemma limits_printed c l : limits_record c l -> exists line, COutput line ∈ l.
Proof.
  intros (? & ? & ? & ? & ? & ? & _ & _ & (? & ? & ? & ? & ? & _ & _ & (? & ? & ? & _ & (? & ? & ? & _ & _ & _ & ->) & ->) & ->) & ->).
  exists (Line (go "M4_G5_RESOURCE_LIMIT_OK")). set_solver.
Qed.
End Limits.

(** C30: the limit probe is honest, over any transport: it prints its line only if it
    succeeds, and then the record of its calls is exactly this: a second connection to the
    proxy and the fixture; 128 requests answered with 200, the first 64 over the first
    connection, the others over the second, none of them cancelled before the next request,
    which was answered with 503; then the first stream was cancelled and, at one of at most
    20 attempts, 50 ms apart and cancelled when not admitted, a new request got a 200;
    and in the end every stream, the fixture and the second connection were closed. *)
Theorem limits_evidence {S} `{HT : Transport S, HU : UnicodeTables} c (s s' : recorded S) r :
  runLimits c s = (r, s') ->
  exists l, rec_log s' = rec_log s ++ l /\
    ((exists line, COutput line ∈ l) <-> r = Ok tt) /\ (r = Ok tt -> limits_record c l).
Proof. intros E. apply (tells_evidence _ _ (tells_limits c) _ _ _ E). intros l. apply limits_printed. Qed.

(** ** Witnesses: a proxy with 128 places *)

(** A place is given back only at the second [Sleep] after its stream was cancelled, so that
    the first attempt to use it again fails. *)
Record proxyStub := MkStub {
  st_next : nat;
  st_admitted : list nat;
  st_releasing : list (nat * nat);
  st_replies : list (nat * list byte);
}.

Definition stub_answer (d : list byte) : list byte :=
  match d with
  | context :: payload => context :: (if bool_decide (payload = dnsQuery) then default [] (dns_fixture payload) else payload)
  | [] => []
  end.

Definition stub_take (id : nat) (s : proxyStub) : result (list byte) * proxyStub :=
  match list_find (fun x => x.1 = id) (st_replies s) with
  | Some (i, (_, d)) => (Ok d, MkStub (st_next s) (st_admitted s) (st_releasing s) (take i (st_replies s) ++ drop (i + 1) (st_replies s)))
  | None => (Err ErrDeadlineExceeded, s)
  end.

Definition stub_sleep (s : proxyStub) : proxyStub :=
  let due := filter (fun x => x.2 = 0) (st_releasing s) in
  MkStub (st_next s) (filter (fun id => id ∉ due.*1) (st_admitted s))
    ((fun x => (x.1, pred x.2)) <$> filter (fun x => x.2 <> 0) (st_releasing s)) (st_replies s).

#[local] Instance stub_transport : Transport proxyStub := {|
  DialAddr _ _ s := (Ok 1, s);
  ReceivedSettings _ s := (Ok (Some (MkSettings true true)), s);
  CloseWithError _ s := s;
  OpenRequestStream _ s := (Ok (st_next s), MkStub (Datatypes.S (st_next s)) (st_admitted s) (st_releasing s) (st_replies s));
  SendRequestHeader _ _ s := (Ok tt, s);
  ReadResponse id s :=
    if bool_decide (length (st_admitted s) < 128)
    then (Ok StatusOK, MkStub (st_next s) (id :: st_admitted s) (st_releasing s) (st_replies s))
    else (Ok StatusServiceUnavailable, s);
  SendDatagram id d s :=
    if bool_decide (length d <= 1200)
    then (Ok tt, MkStub (st_next s) (st_admitted s) (st_releasing s) (st_replies s ++ [(id, stub_answer d)]))
    else (Err ErrDatagramTooLarge, s);
  ReceiveDatagram := stub_take;
  CancelStream id s := MkStub (st_next s) (st_admitted s) ((id, 1) :: st_releasing s) (st_replies s);
  ListenUDP _ _ s := (Ok (st_next s, 7000%Z), MkStub (Datatypes.S (st_next s)) (st_admitted s) (st_releasing s) (st_replies s));
  ServeSocket _ _ _ s := s;
  CloseSocket _ s := s;
  ReceiveWithin id _ := stub_take id;
  StreamDone _ s := (Ok tt, s);
  Now _ := 0%Z;
  Sleep _ := stub_sleep;
  Output _ s := s
|}.

#[local] Instance trace_unicode : UnicodeTables :=
  {| unicode_lower := id; unicode_equal_fold := fun s t => bool_decide (s = t) |}.

Definition stub_client : client := MkClient (go "127.0.0.1:19443") [] 0.
Definition stub_start : recorded proxyStub := MkRec (MkStub 0 [] [] []) [].

Lemma matrix_evidence_witness : exists l, matrix_record stub_client l /\ exists line, COutput line ∈ l.
Proof.
  destruct (runMatrix round_robin stub_client stub_start) as [r s'] eqn:E.
  assert (Hr : r = Ok tt) by (apply (f_equal fst) in E; vm_compute in E; by subst r).
  destruct (matrix_evidence _ _ _ _ _ E) as (l & _ & Hp & Hl). exists l. split; [by apply Hl|by apply Hp].
Defined.

(** The run has one attempt that is not admitted before the one that is. *)
Lemma limits_evidence_witness :
  exists l, limits_record stub_client l /\ (exists line, COutput line ∈ l) /\ CReply 130 (Ok StatusServiceUnavailable) ∈ l /\ CReply 131 (Ok StatusOK) ∈ l.
Proof.
  destruct (runLimits stub_client stub_start) as [r s'] eqn:E.
  assert (Hr : r = Ok tt) by (apply (f_equal fst) in E; vm_compute in E; by subst r).
  destruct (limits_evidence _ _ _ _ E) as (l & El & Hp & Hl). exists l. split; [by apply Hl|]. split; [by apply Hp|].
  change (rec_log s' = l) in El. assert (Es : rec_log s' = rec_log (runLimits stub_client stub_start).2) by by rewrite E.
  rewrite <- El, Es. clear. split; [apply (list_elem_of_lookup_2 _ 396)|apply (list_elem_of_lookup_2 _ 401)]; vm_compute; reflexivity.
Defined.
