(* ===== verification/ClientMain.v ===== *)
(** * The padding mode and main of the interoperability client

    runTCPPadding and main of cmd/m4-rfc9298-client/main.go: the TCP target it starts in a
    goroutine, the padded exchange over a request stream, and the choice of the mode with the
    exit status.  What a call does is the class [TcpTransport]; the goroutine is a tree of
    Goroutines that the environment runs. *)

From stdpp Require Import base decidable numbers list gmap strings.
From Stdlib Require Import ZArith Lia Ascii.
From S2P Require Import Prelude GoStrings GoNet GoHttp GoUrl UdpProtocol UdpAdmission Padding Tunnel Interop Goroutines ClientModes.

(** ** What the mode uses beyond the datagrams *)

(** Listeners, connections and channels are numbers.  [ListenTCP] gives the listener and the
    text of its address; [ReadConn] and [ReadStream] are io.ReadFull of that many bytes;
    [ReadReply] is ReadResponse with the header; [Go] starts a goroutine; a channel has the
    capacity it was made with, and [Receive] waits for a value. *)
Class TcpTransport (S : Type) := {
  ListenTCP : gostring -> gostring -> prog S (nat * gostring);
  CloseListener : nat -> S -> S;
  Accept : nat -> prog S nat;
  SetDeadline : nat -> Z -> S -> S;
  ReadConn : nat -> nat -> prog S (list byte);
  WriteConn : nat -> list byte -> prog S unit;
  CloseConn : nat -> S -> S;
  WriteStream : nat -> list byte -> prog S unit;
  ReadStream : nat -> nat -> prog S (list byte);
  ReadReply : nat -> prog S (Z * Header);
  MakeChan : nat -> S -> nat * S;
  SendChan : nat -> option error -> S -> S;
  Receive : nat -> prog S (option error);
  Go : tree S unit -> S -> S;
}.

Section Main.
Context {S : Type} `{Transport S, TcpTransport S, UnicodeTables}.

(** ** runTCPPadding *)

(** The goroutine of the target: it answers one byte with another and sends what happened. *)
Definition target_exchange (conn result : nat) : tree S unit :=
  update (fun s => SetDeadline conn (Now s + 10 * Second) s) ≫= fun _ =>
  tree_then (call (ReadConn conn 1)) (fun r =>
    match r with
    | Err err => update (SendChan result (Some err))
    | Ok request =>
        if negb (bool_decide (request !! 0 = Some "x"%char)) then update (SendChan result (Some (client_msg "unexpected TCP request byte")))
        else
          tree_then (call (WriteConn conn (go "y"))) (fun r =>
            update (SendChan result (match r with Ok _ => None | Err err => Some err end)))
    end).

Definition padding_target_tree (target result : nat) : tree S unit :=
  tree_then (call (Accept target)) (fun r =>
    match r with
    | Err err => update (SendChan result (Some err))
    | Ok conn => tree_deferring (CloseConn conn) (target_exchange conn result)
    end).

(** [http.NewRequest] with the headers of the mode. *)
Definition padding_mode_request (c : client) (address : gostring) : result Request :=
  u ← url_Parse (go "https://" ++ address ++ go "/");
  let header := if bool_decide (cl_auth c = []) then ∅ else Set_ ∅ (go "Proxy-Authorization") (cl_auth c) in
  let header := Set_ header (go "Padding") (go "cover") in
  Ok (MkRequest MethodConnect (go "HTTP/1.1") 1 1 (Set_ header (go "Padding-Type-Request") (go "1, 0")) (URL_Host u) [] [] (Some u)).

(** The padded answer of the target. *)
Definition read_answer (stream : nat) : prog S unit :=
  header ← ReadStream stream 3;
  let payloadSize := Z.to_nat (Z.lor (Z.shiftl (Z_of_byte (nth 0 header zero_byte)) 8) (Z_of_byte (nth 1 header zero_byte))) in
  let paddingSize := Z.to_nat (Z_of_byte (nth 2 header zero_byte)) in
  framed ← ReadStream stream (payloadSize + paddingSize);
  if negb (bool_decide (payloadSize = 1)) || negb (bool_decide (framed !! 0 = Some "y"%char))
  then fail (client_msg "TCP CONNECT padded response mismatch") else mret tt.

Definition padding_exchange_prog (c : client) (address : gostring) (result stream : nat) : prog S unit :=
  request ← lift (padding_mode_request c address);
  SendRequestHeader stream request ≫= fun _ =>
  WriteStream stream fast_open_frame ≫= fun _ =>
  '(status, header) ← ReadReply stream;
  match check_padding_response status header with
  | Some e => fail e
  | None =>
      read_answer stream ≫= fun _ =>
      err ← Receive result;
      match err with
      | Some e => fail e
      | None => print_lines [Line (go "M6_H3_TCP_PADDING_INTEROP_OK")]
      end
  end.

Definition padding_session (c : client) (address : gostring) (result : nat) : prog S unit :=
  stream ← OpenRequestStream (cl_quic c);
  deferring (closeStream stream) (padding_exchange_prog c address result stream).

Definition runTCPPadding (c : client) : prog S unit :=
  '(target, address) ← ListenTCP (go "tcp4") (go "127.0.0.1:0");
  deferring (CloseListener target) (fun s =>
    let '(result, s) := MakeChan 1 s in
    padding_session c address result (Go (padding_target_tree target result) s)).

(** ** main *)

Definition close (c : client) : S -> S := CloseWithError (cl_quic c).

(** The mode smoke; the socket it started is closed by a deferred call of main. *)
Definition runSmoke (c : client) : S -> (result unit * option nat) * S := fun s =>
  match startEcho (go "udp4") (go "127.0.0.1:0") s with
  | (Err e, s) => ((Err e, None), s)
  | (Ok (conn, port), s) =>
      let '(r, s) := (echo c localhost port (go "smoke") ≫= fun _ => print_lines [Line (go "M4_G5_BINARY_SMOKE_OK")]) s in ((r, Some conn), s)
  end.

(** The switch over the mode: its result, and the socket a deferred call will close. *)
Definition run_mode (schedule : list nat) (mode : gostring) (c : client) : S -> (result unit * option nat) * S := fun s =>
  let plain (m : prog S unit) := let '(r, s) := m s in ((r, None), s) in
  if bool_decide (mode = go "smoke") then runSmoke c s
  else if bool_decide (mode = go "matrix") then plain (runMatrix schedule c)
  else if bool_decide (mode = go "limits") then plain (runLimits c)
  else if bool_decide (mode = go "idle") then plain (runIdle c)
  else if bool_decide (mode = go "shutdown") then plain (runShutdown c)
  else if bool_decide (mode = go "tcp-padding") then plain (runTCPPadding c)
  else ((Err (client_msg "unknown mode"), None), s).

(** The process: its exit status; os.Exit leaves the deferred calls out. *)
Definition main (schedule : list nat) (mode proxy username password : gostring) : S -> Z * S := fun s =>
  match dialClient proxy username password s with
  | (Err e, s) => (1%Z, Output (ErrorLine e) s)
  | (Ok c, s) =>
      let '((r, deferred), s) := run_mode schedule mode c s in
      match r with
      | Err e => (1%Z, Output (ErrorLine e) s)
      | Ok _ => (0%Z, close c (match deferred with Some conn => CloseSocket conn s | None => s end))
      end
  end.
End Main.

(** ** What is left behind *)

(** The listeners of the process; only listening and closing changes them, and nothing here
    opens a socket or ends a stream. *)
Class TcpResourceLaws (S : Type) `{ResourceLaws S, TcpTransport S} := {
  listeners : S -> gset nat;
  kept (s s' : S) : Prop := sockets s' = sockets s /\ streams s' = streams s /\ listeners s' = listeners s;
  tl_listen network address s : match ListenTCP network address s with
    | (Ok (l, _), s') => (l ∉ listeners s) /\ listeners s' = {[l]} ∪ listeners s /\ sockets s' = sockets s /\ streams s' = streams s
    | (Err _, s') => kept s s'
    end;
  tl_close l s : listeners (CloseListener l s) = listeners s ∖ {[l]} /\
    sockets (CloseListener l s) = sockets s /\ streams (CloseListener l s) = streams s;
  tl_write id d s : kept s (WriteStream id d s).2;
  tl_read id k s : kept s (ReadStream id k s).2;
  tl_reply id s : kept s (ReadReply id s).2;
  tl_make k s : kept s (MakeChan k s).2;
  tl_receive ch s : kept s (Receive ch s).2;
  tl_go t s : kept s (Go t s);
  tl_open conn s : listeners (OpenRequestStream conn s).2 = listeners s;
  tl_header id r s : listeners (SendRequestHeader id r s).2 = listeners s;
  tl_cancel id s : listeners (CancelStream id s) = listeners s;
  tl_output l s : listeners (Output l s) = listeners s
}.

Section Left.
Context {S : Type} `{TcpResourceLaws S, UnicodeTables}.

Definition still {A} (m : prog S A) : Prop := forall s, kept s (m s).2.

Lemma kept_trans s1 s2 s3 : kept s1 s2 -> kept s2 s3 -> kept s1 s3.
Proof. intros (H1a & H1b & H1c) (H2a & H2b & H2c). split; [congruence|]. split; congruence. Qed.

Lemma still_bind {A B} (m : prog S A) (k : A -> prog S B) : still m -> (forall a, still (k a)) -> still (m ≫= k).
Proof.
  intros Hm Hk s. unfold mbind, prog_bind. specialize (Hm s). destruct (m s) as [[a|e] s']; [|done].
  eapply kept_trans; [exact Hm|apply Hk].
Qed.

Lemma still_fail {A} e : still (fail e : prog S A).
Proof. done. Qed.

Lemma still_ret {A} (a : A) : still (mret a : prog S A).
Proof. done. Qed.

Lemma still_print lines : still (print_lines lines).
Proof.
  intros s. cbn. revert s. induction lines as [|l lines IH]; intros s; [done|]. cbn [foldl]. eapply kept_trans; [|apply IH].
  split; [apply rl_output|]. split; [apply rl_output|apply tl_output].
Qed.

Lemma still_header id r : still (SendRequestHeader id r).
Proof. intros s. split; [apply rl_header|]. split; [apply rl_header|apply tl_header]. Qed.

Lemma still_answer stream : still (read_answer stream).
Proof.
  apply still_bind; [intros s; apply tl_read|]. intros header. apply still_bind; [intros s; apply tl_read|]. intros framed.
  destruct (_ || _); [apply still_fail|apply still_ret].
Qed.

Lemma still_exchange c address result stream : still (padding_exchange_prog c address result stream).
Proof.
  apply still_bind; [done|]. intros request. apply still_bind; [apply still_header|]. intros _.
  apply still_bind; [intros s; apply tl_write|]. intros _. apply still_bind; [intros s; apply tl_reply|]. intros [status header].
  destruct (check_padding_response _ _); [apply still_fail|]. apply still_bind; [apply still_answer|]. intros _.
  apply still_bind; [intros s; apply tl_receive|]. intros [e|]; [apply still_fail|apply still_print].
Qed.

(** The stream is closed however the exchange ends. *)
Lemma padding_stream c address result :
  still (padding_session c address result).
Proof.
  intros s. unfold padding_session, mbind, prog_bind. pose proof (rl_open (cl_quic c) s) as Ho. pose proof (tl_open (cl_quic c) s) as Hl.
  destruct (OpenRequestStream _ s) as [[stream|e] s1]; [|destruct Ho; by split]. destruct Ho as (Hn & Ht & Hk). unfold deferring.
  pose proof (still_exchange c address result stream s1) as (Ek & Et & El).
  destruct (padding_exchange_prog c address result stream s1) as [r s2]. cbn in *.
  destruct (rl_cancel stream s2) as [Ct Ck]. pose proof (tl_cancel stream s2) as Cl. unfold closeStream.
  split; [congruence|]. split; [|congruence]. rewrite Ct, Et, Ht. set_solver.
Qed.

Lemma padding_still c : still (runTCPPadding c).
Proof.
  intros s. unfold runTCPPadding, mbind, prog_bind at 1. pose proof (tl_listen (go "tcp4") (go "127.0.0.1:0") s) as Hl.
  destruct (ListenTCP _ _ s) as [[[target address]|e] s1]; [|done]. destruct Hl as (Hn & Hl & Hk & Ht). unfold deferring at 1.
  pose proof (tl_make 1 s1) as Hm. destruct (MakeChan 1 s1) as [result s2]. cbn in Hm.
  pose proof (tl_go (padding_target_tree target result) s2) as Hg.
  pose proof (padding_stream c address result (Go (padding_target_tree target result) s2)) as Hp.
  pose proof (kept_trans _ _ _ Hm (kept_trans _ _ _ Hg Hp)) as (Ka & Kb & Kc). clear Hm Hg Hp.
  destruct (padding_session c address result _) as [r s3]. cbn [fst snd] in *.
  destruct (tl_close target s3) as (Cl & Ck & Ct). split; [congruence|]. split; [congruence|]. rewrite Cl, Kc, Hl. set_solver.
Qed.

(** ** The modes of main *)

(** A mode that closes its own sockets. *)
Definition plain_mode (schedule : list nat) (c : client) (m : prog S unit) : Prop :=
  m ∈ [runMatrix schedule c; runLimits c; runIdle c; runShutdown c; runTCPPadding c].

Lemma plain_mode_left schedule c m s :
  plain_mode schedule c m -> sockets (m s).2 = sockets s /\ (forall a, (m s).1 = Ok a -> streams (m s).2 ⊆ streams s).
Proof.
  intros Hm. assert (Heq : forall m' : prog S unit, tidy m' -> forall a, (m' s).1 = Ok a -> streams (m' s).2 ⊆ streams s).
  { intros m' Ht a Ha. destruct (m' s) as [r s'] eqn:E. cbn in *. subst r. by rewrite (Ht _ _ _ E). }
  unfold plain_mode in Hm. repeat (apply elem_of_cons in Hm as [->|Hm]; [|]); [..|by apply not_elem_of_nil in Hm].
  - split; [apply keeps_matrix|apply Heq, tidy_matrix].
  - split; [apply keeps_limits|]. intros a Ha. destruct (runLimits c s) as [r s'] eqn:E. cbn in *. subst r. by eapply limits_streams.
  - split; [apply keeps_idle|apply Heq, tidy_idle].
  - split; [apply keeps_shutdown|apply Heq, tidy_shutdown].
  - destruct (padding_still c s) as (Hk & Ht & _). split; [done|]. intros a _. by rewrite Ht.
Qed.

Lemma smoke_left c s :
  let '((r, deferred), s') := runSmoke c s in
  match deferred with
  | Some conn => sockets (CloseSocket conn s') = sockets s /\ (r = Ok tt -> streams s' = streams s)
  | None => sockets s' = sockets s /\ r <> Ok tt
  end.
Proof.
  unfold runSmoke. pose proof (opens_echo (go "udp4") (go "127.0.0.1:0") s) as Ho.
  pose proof (tidy_start (go "udp4") (go "127.0.0.1:0") s) as Ht.
  destruct (startEcho _ _ s) as [[[conn port]|e] s1]; [|by split]. destruct Ho as [Hn Hs]. specialize (Ht _ _ eq_refl).
  set (m := echo c localhost port (go "smoke") ≫= _).
  assert (Hk : keeps m) by (apply keeps_bind; [apply keeps_echo|intros _; apply keeps_print]).
  assert (Hm : tidy m) by (apply tidy_bind; [apply tidy_echo|intros _; apply tidy_print]).
  specialize (Hk s1). destruct (m s1) as [r s2] eqn:E. cbn in Hk. split.
  - rewrite (proj1 (rl_close conn s2)), Hk, Hs. set_solver.
  - intros ->. by rewrite (Hm _ _ _ E), Ht.
Qed.

(** What run_mode does is one of these. *)
Lemma run_mode_cases schedule mode c s :
  (mode = go "smoke" /\ run_mode schedule mode c s = runSmoke c s) \/
  (mode <> go "smoke" /\ exists m, plain_mode schedule c m /\ run_mode schedule mode c s = (((m s).1, None), (m s).2)) \/
  (mode <> go "smoke" /\ exists e, run_mode schedule mode c s = ((Err e, None), s)).
Proof.
  unfold run_mode, plain_mode. case_bool_decide; [by left|]. right.
  repeat (case_bool_decide;
    [left; split; [done|]; eexists; split; [|rewrite (surjective_pairing (_ s)) at 1; reflexivity];
     repeat first [left; reflexivity|right]|]).
  right. split; [done|]. by eexists.
Qed.

(** ** Theorems *)

(** The status is 0 exactly when the connection is made and the mode succeeds. *)
Lemma main_status schedule mode proxy user pass s :
  ((main schedule mode proxy user pass s).1 = 0%Z \/ (main schedule mode proxy user pass s).1 = 1%Z) /\
  ((main schedule mode proxy user pass s).1 = 0%Z <->
     exists c s1 deferred s2, dialClient proxy user pass s = (Ok c, s1) /\ run_mode schedule mode c s1 = ((Ok tt, deferred), s2)).
Proof.
  unfold main. destruct (dialClient proxy user pass s) as [[c|e] s1]; [|split; [by right|]; split; [done|]; naive_solver].
  destruct (run_mode schedule mode c s1) as [[[[]|e] deferred] s2] eqn:E; (split; [auto|]).
  - split; [|done]. intros _. exists c, s1, deferred, s2. by rewrite E.
  - split; [done|]. intros (c' & s1' & d' & s2' & [= <- <-] & E'). congruence.
Qed.

(** C36: the exit status of the interoperability client tells whether its mode passed, and
    the modes leave nothing behind: main exits with 0 or 1, with 0 exactly when the
    connection was made and the mode succeeded, so never for an unknown mode; when it exits
    with 0 every socket it opened is closed and no stream it opened is open; and when it
    exits with 1 the sockets are closed as well, except in the mode smoke, whose deferred
    close os.Exit leaves out. *)
Theorem main_exit schedule mode proxy user pass s :
  let '(status, s') := main schedule mode proxy user pass s in
  (status = 0%Z \/ status = 1%Z) /\
  (status = 0%Z <-> exists c s1 deferred s2, dialClient proxy user pass s = (Ok c, s1) /\ run_mode schedule mode c s1 = ((Ok tt, deferred), s2)) /\
  (status = 0%Z -> sockets s' = sockets s /\ streams s' ⊆ streams s) /\
  (mode <> go "smoke" -> sockets s' = sockets s) /\
  ((mode ∉ [go "smoke"; go "matrix"; go "limits"; go "idle"; go "shutdown"; go "tcp-padding"]) -> status = 1%Z).
Proof.
  pose proof (main_status schedule mode proxy user pass s) as [H01 Hiff].
  destruct (main schedule mode proxy user pass s) as [status s'] eqn:Em. cbn [fst] in H01, Hiff.
  split; [done|]. split; [done|]. unfold main in Em. pose proof (keeps_dial proxy user pass s) as Hd.
  pose proof (dial_streams proxy user pass s) as Hds.
  destruct (dialClient proxy user pass s) as [[c|e] s1]; cbn in Hd.
  2: { injection Em as <- <-. rewrite (proj1 (rl_output _ s1)). by split; [|split]. }
  specialize (Hds c s1 eq_refl).
  assert (Hunknown : (mode ∉ [go "smoke"; go "matrix"; go "limits"; go "idle"; go "shutdown"; go "tcp-padding"]) -> status = 1%Z).
  { intros Hm. rewrite !not_elem_of_cons in Hm. destruct Hm as (M1 & M2 & M3 & M4 & M5 & M6 & _).
    unfold run_mode in Em. rewrite !bool_decide_false in Em by done. by injection Em as <- <-. }
  assert (Hclose : forall t, sockets (close c t) = sockets t /\ streams (close c t) ⊆ streams t) by (intros t; apply rl_close_conn).
  destruct (run_mode_cases schedule mode c s1) as [[-> E]|[(Hne & m & Hm & E)|(Hne & e & E)]]; rewrite E in Em.
  - pose proof (smoke_left c s1) as Hs. destruct (runSmoke c s1) as [[[[]|e] [conn|]] s2]; injection Em as <- <-;
      [|by destruct Hs|by split; [|split]|by split; [|split]].
    split; [|by split]. intros _. destruct Hs as [Hk Ht]. destruct (Hclose (CloseSocket conn s2)) as [Ck Ct].
    split; [congruence|]. etrans; [exact Ct|]. by rewrite close_socket_streams, Ht, Hds.
  - destruct (plain_mode_left schedule c m s1 Hm) as [Hk Ht]. destruct (m s1) as [[[]|e] s2]; cbn in *; injection Em as <- <-.
    + destruct (Hclose s2) as [Ck Ct]. specialize (Ht tt eq_refl). split; [|split; [congruence|done]]. intros _. split; [congruence|].
      etrans; [exact Ct|]. by rewrite <- Hds.
    + rewrite (proj1 (rl_output _ s2)). split; [done|]. split; [congruence|done].
  - injection Em as <- <-. rewrite (proj1 (rl_output _ s1)). by split; [|split].
Qed.

(** The padding mode passes only on evidence, and closes its listener and its stream in any
    case: when it succeeds, the response had status 200, named padding variant 1 and carried
    padding, the bytes that followed are a frame whose one payload byte is the target's
    answer, and the target had received the byte sent ahead of the response. *)
Theorem padding_mode_evidence c s :
  kept s (runTCPPadding c s).2 /\
  ((runTCPPadding c s).1 = Ok tt ->
   exists stream result s1 header s2 frame_header s3 framed s4 s5,
     ReadReply stream s1 = (Ok (StatusOK, header), s2) /\
     Get header (go "Padding-Type-Reply") = go "1" /\ Get header (go "Padding") <> [] /\
     ReadStream stream 3 s2 = (Ok frame_header, s3) /\
     Z.lor (Z.shiftl (Z_of_byte (nth 0 frame_header zero_byte)) 8) (Z_of_byte (nth 1 frame_header zero_byte)) = 1%Z /\
     ReadStream stream (1 + Z.to_nat (Z_of_byte (nth 2 frame_header zero_byte))) s3 = (Ok framed, s4) /\
     framed !! 0 = Some "y"%char /\
     Receive result s4 = (Ok None, s5)).
Proof.
  split; [apply padding_still|]. intros Hr. destruct (runTCPPadding c s) as [r s'] eqn:E. cbn in Hr. subst r.
  apply bind_Ok in E as ([target address] & t1 & _ & E). apply deferring_Ok in E as (t2 & E & _).
  destruct (MakeChan 1 t1) as [result t3]. apply bind_Ok in E as (stream & t4 & _ & E). apply deferring_Ok in E as (t5 & E & _).
  apply bind_Ok in E as (request & t6 & _ & E). apply bind_Ok in E as (_ & t7 & _ & E). apply bind_Ok in E as (_ & s1 & _ & E).
  apply bind_Ok in E as ([status header] & s2 & Ereply & E). unfold check_padding_response in E.
  destruct (negb (status =? StatusOK)%Z) eqn:Est; [done|]. apply negb_false_iff, Z.eqb_eq in Est. subst status.
  destruct (_ || _) eqn:Ehd; [done|]. apply orb_false_iff in Ehd as [Ehd1%negb_false_iff%bool_decide_eq_true Ehd2%bool_decide_eq_false].
  apply bind_Ok in E as ([] & s4 & Eans & E). apply bind_Ok in E as (err & s5 & Erecv & E). destruct err as [e|]; [done|].
  apply bind_Ok in Eans as (frame_header & s3 & Eh & Eans). apply bind_Ok in Eans as (framed & s4' & Ef & Eans).
  destruct (_ || _) eqn:Efr in Eans; [done|].
  apply orb_false_iff in Efr as [Ep%negb_false_iff%bool_decide_eq_true Ey%negb_false_iff%bool_decide_eq_true].
  injection Eans as <-. rewrite Ep in Ef. exists stream, result, s1, header, s2, frame_header, s3, framed, s4', s5.
  split; [done|]. split; [done|]. split; [done|]. split; [done|]. split; [lia|]. done.
Qed.
End Left.

(** ** Witness: the process of ClientModes, with listeners *)

#[local] Existing Instance table_transport.
#[local] Existing Instance table_laws.
#[local] Existing Instance modes_unicode.

(** A target that answers, and a proxy that pads. *)
#[local] Instance table_tcp : TcpTransport table := {|
  ListenTCP _ _ s := let id := fresh (t_listeners s) in
    (Ok (id, go "127.0.0.1:9"), MkTable (t_sockets s) (t_streams s) ({[id]} ∪ t_listeners s));
  CloseListener id s := MkTable (t_sockets s) (t_streams s) (t_listeners s ∖ {[id]});
  Accept _ s := (Ok 0, s);
  SetDeadline _ _ s := s;
  ReadConn _ _ s := (Ok (go "x"), s);
  WriteConn _ _ s := (Ok tt, s);
  CloseConn _ s := s;
  WriteStream _ _ s := (Ok tt, s);
  ReadStream _ k s := (Ok (if bool_decide (k = 3) then z_bytes [0; 1; 0]%Z else go "y"), s);
  ReadReply _ s := (Ok (StatusOK, Set_ (Set_ ∅ (go "Padding") (go "cover")) (go "Padding-Type-Reply") (go "1")), s);
  MakeChan _ s := (0, s);
  SendChan _ _ s := s;
  Receive _ s := (Ok None, s);
  Go _ s := s
|}.

#[local] Instance table_tcp_laws : TcpResourceLaws table.
Proof.
  refine (Build_TcpResourceLaws table _ _ _ t_listeners _ _ _ _ _ _ _ _ _ _ _ _); try done.
  intros network address s. cbn. split; [apply is_fresh|done].
Defined.

Lemma main_exit_witness :
  let '(status, s') := main round_robin (go "tcp-padding") (go "127.0.0.1:19443") (go "test") (go "pass") (MkTable {[3]} {[4]} ∅) in
  (status = 0%Z -> sockets s' = {[3]} /\ streams s' ⊆ {[4]}).
Proof.
  pose proof (main_exit round_robin (go "tcp-padding") (go "127.0.0.1:19443") (go "test") (go "pass") (MkTable {[3]} {[4]} ∅)) as H.
  destruct (main _ _ _ _ _ _) as [status s']. exact (proj1 (proj2 (proj2 H))).
Defined.

(** The modes padding and shutdown pass on this process, an unknown one does not. *)
Example main_statuses :
  (fun mode => (main [] mode (go "127.0.0.1:19443") [] [] (MkTable ∅ ∅ ∅)).1) <$> [go "tcp-padding"; go "shutdown"; go "other"] = [0; 0; 1]%Z.
Proof. vm_compute. reflexivity. Qed.
