(* ===== verification/Probe.v ===== *)
(** * The resolver probe: experiments/w2w3/realprobe/main.go

    The DNS fixture the probe points a resolver at: parsing a query, the table of
    behaviours the scenarios set up, the response, and [serveLoop] with its handler
    goroutines as a step relation.  The receive buffer is shared: what [parseQuery]
    returns are slices of it, and the loop copies them before it starts a handler.
    What the probe measures around the fixture is in ProbeMain. *)

From stdpp Require Import base decidable numbers list gmap strings.
From Stdlib Require Import ZArith Lia Ascii.
From S2P Require Import Prelude GoStrings GoNet.

(** ** Wire format *)

Definition uint16_bytes (v : Z) : list byte := [byte_of_Z (v / 256); byte_of_Z v].
Definition uint16_val (b : list byte) : Z := Z_of_byte (nth 0 b zero_byte) * 256 + Z_of_byte (nth 1 b zero_byte).

(** The labels of a name from [off] on, and where they end.  Each round moves [off] on, so
    the length of the packet is enough fuel ([read_labels_fuel]). *)
Fixpoint read_labels (fuel : nat) (buf : list byte) (off : nat) : option (list gostring * nat) :=
  match fuel with
  | O => Some ([], off)
  | S fuel' =>
      match buf !! off with
      | None => Some ([], off)
      | Some c =>
          let l := Z.to_nat (Z_of_byte c) in
          let off := off + 1 in
          if bool_decide (l = 0) then Some ([], off)
          else if bool_decide (length buf < off + l) then None
          else
            match read_labels fuel' buf (off + l) with
            | Some (parts, stop) => Some (take l (drop off buf) :: parts, stop)
            | None => None
            end
      end
  end.

(** Bytes of the receive buffer, or bytes of one's own. *)
Inductive bytes :=
  | Shared (off len : nat)
  | Own (b : list byte).

Definition contents (buf : list byte) (d : bytes) : list byte :=
  match d with Shared off len => take len (drop off buf) | Own b => b end.

Record query := MkQuery { q_id : bytes; q_question : bytes; q_name : gostring; q_type : Z }.

(** The identifier and the question are slices of the packet. *)
Definition parseQuery `{UnicodeTables} (buf : list byte) : option query :=
  if bool_decide (length buf < 12) then None
  else
    match read_labels (length buf) buf 12 with
    | None => None
    | Some (parts, off) =>
        if bool_decide (length buf < off + 4) then None
        else Some (MkQuery (Shared 0 2) (Shared 12 (off + 4 - 12)) (ToLower (Join parts (go ".")))
                     (uint16_val (take 2 (drop off buf))))
    end.

(** The response code is an argument the code does not use. *)
Definition buildResponse (id question : list byte) (rcode : Z) (answer : list byte) : list byte :=
  let ancount := if bool_decide (0 < length answer) then 1%Z else 0%Z in
  id ++ z_bytes [129; 128]%Z ++ uint16_bytes 1 ++ uint16_bytes ancount ++ uint16_bytes 0 ++ uint16_bytes 0 ++
  question ++ answer.

Definition answerRR (namePtr : byte * byte) (rrtype : Z) (rdata : list byte) : list byte :=
  [namePtr.1; namePtr.2] ++ uint16_bytes rrtype ++ z_bytes [0; 1]%Z ++ z_bytes [0; 0; 0; 60]%Z ++
  uint16_bytes (Z.of_nat (length rdata)) ++ rdata.

Definition aAnswer : list byte := default [] (ParseIP (go "192.0.2.20") ≫= To4).
Definition aaaaAnswer : list byte := default [] (ParseIP (go "2001:db8:20::20") ≫= To16).

(** ** The table of behaviours *)

Definition Millisecond : Z := 1000000.
Definition fast : Z := 20 * Millisecond.
Definition slow : Z := 700 * Millisecond.

Record behavior := MkBehavior { b_kind : gostring; b_delay : Z }.
Abbreviation behaviors := (gmap gostring (gmap gostring behavior)).

Definition setBehavior (name qtype : gostring) (b : behavior) (table : behaviors) : behaviors :=
  <[name := <[qtype := b]> (default ∅ (table !! name))]> table.

(** A scenario: its name in the zone and the behaviours of its A and AAAA records. *)
Record scenario := MkScenario { sc_id : gostring; sc_name : gostring; sc_a : behavior; sc_aaaa : behavior; sc_repeats : nat; sc_cancelMs : Z }.

Definition answer_after (d : Z) : behavior := MkBehavior (go "answer") d.

Definition scenarios : list scenario := [
  MkScenario (go "P1_dual_fast") (go "p1.w2w3.example") (answer_after fast) (answer_after fast) 5 0;
  MkScenario (go "P2_a_fast_aaaa_slow") (go "p2.w2w3.example") (answer_after fast) (answer_after slow) 5 0;
  MkScenario (go "P3_aaaa_fast_a_slow") (go "p3.w2w3.example") (answer_after slow) (answer_after fast) 5 0;
  MkScenario (go "P4_aaaa_dropped") (go "p4.w2w3.example") (answer_after fast) (MkBehavior (go "drop") 0) 3 0;
  MkScenario (go "P5_a_dropped") (go "p5.w2w3.example") (MkBehavior (go "drop") 0) (answer_after fast) 3 0;
  MkScenario (go "P6_aaaa_nodata") (go "p6.w2w3.example") (answer_after fast) (MkBehavior (go "nodata") 0) 5 0;
  MkScenario (go "P7_both_dropped") (go "p7.w2w3.example") (MkBehavior (go "drop") 0) (MkBehavior (go "drop") 0) 2 0;
  MkScenario (go "P8_both_servfail") (go "p8.w2w3.example") (MkBehavior (go "servfail") fast) (MkBehavior (go "servfail") fast) 5 0;
  MkScenario (go "P9_cancel") (go "p9.w2w3.example") (answer_after slow) (answer_after slow) 3 100].

Definition set_scenario (table : behaviors) (sc : scenario) : behaviors :=
  setBehavior (sc_name sc) (go "28") (sc_aaaa sc) (setBehavior (sc_name sc) (go "1") (sc_a sc) table).

Definition build_table (scs : list scenario) : behaviors := foldl set_scenario ∅ scs.

Definition behavior_of (table : behaviors) (name : gostring) (qtype : Z) : behavior :=
  match default ∅ (table !! name) !! Itoa qtype with
  | Some b => b
  | None => MkBehavior (go "nodata") 0
  end.

(** What a handler goroutine writes to the peer, if anything. *)
Definition respond (b : behavior) (qtype : Z) (id question : list byte) : option (list byte) :=
  if bool_decide (b_kind b = go "drop") then None
  else
    let pointer := (byte_of_Z 192, byte_of_Z 12) in
    let answer :=
      if bool_decide (b_kind b = go "answer") then
        if (qtype =? 1)%Z then answerRR pointer 1 aAnswer else answerRR pointer 28 aaaaAnswer
      else [] in
    let rcode := if bool_decide (b_kind b = go "servfail") then 2%Z else 0%Z in
    Some (buildResponse id question rcode answer).

(** ** serveLoop *)

Section serving.
Context `{UnicodeTables} {Peer : Type} (table : behaviors).

Record goroutine := MkGoroutine { g_peer : Peer; g_id : bytes; g_question : bytes; g_qtype : Z; g_behavior : behavior }.

(** The receive buffer, the handlers that run and what was written; [received] is the
    history of the packets, for the statements. *)
Record loop := MkLoop {
  buf : list byte;
  running : list goroutine;
  sent : list (list byte * Peer);
  received : list (list byte * option Peer)
}.

(** ReadFromUDP fills the front of the buffer and drops what does not fit. *)
Definition ReadFromUDP (buf packet : list byte) : list byte * nat :=
  let n := length buf `min` length packet in (take n packet ++ drop n buf, n).

(** One round of the loop: the packet, and the handler it starts. *)
Definition receive_packet (packet : list byte) (peer : option Peer) (s : loop) : loop :=
  let '(buf', n) := ReadFromUDP (buf s) packet in
  let started :=
    match parseQuery (take n buf'), peer with
    | Some q, Some p =>
        [MkGoroutine p (Own (contents buf' (q_id q))) (Own (contents buf' (q_question q))) (q_type q)
           (behavior_of table (q_name q) (q_type q))]
    | _, _ => []
    end in
  MkLoop buf' (started ++ running s) (sent s) (received s ++ [(packet, peer)]).

(** What a handler writes, with the buffer as it is when it runs. *)
Definition written (buf : list byte) (g : goroutine) : list (list byte * Peer) :=
  match respond (g_behavior g) (g_qtype g) (contents buf (g_id g)) (contents buf (g_question g)) with
  | Some r => [(r, g_peer g)]
  | None => []
  end.

(** The loop reads a packet, or a handler ends; they end in any order. *)
Inductive turn : loop -> loop -> Prop :=
  | turn_receive packet peer s : turn s (receive_packet packet peer s)
  | turn_respond gs g gs' s :
      running s = gs ++ g :: gs' ->
      turn s (MkLoop (buf s) (gs ++ gs') (sent s ++ written (buf s) g) (received s)).

Definition start : loop := MkLoop (replicate 1500 zero_byte) [] [] [].

(** The response to a packet, as a function of the packet alone. *)
Definition serve_query (packet : list byte) : option (list byte) :=
  let packet := take 1500 packet in
  match parseQuery packet with
  | None => None
  | Some q =>
      respond (behavior_of table (q_name q) (q_type q)) (q_type q) (contents packet (q_id q)) (contents packet (q_question q))
  end.

Definition answers (rx : list (list byte * option Peer)) : list (list byte * Peer) :=
  omap (fun '(packet, peer) => p ← peer; r ← serve_query packet; Some (r, p)) rx.
End serving.

Arguments goroutine : clear implicits.
Arguments loop : clear implicits.

(** ** Lemmas *)

(** A question as a resolver writes it. *)
Definition label_bytes (l : gostring) : list byte := byte_of_Z (Z.of_nat (length l)) :: l.
Definition question_bytes (labels : list gostring) (qtype : Z) : list byte :=
  concat (label_bytes <$> labels) ++ [zero_byte] ++ uint16_bytes qtype ++ z_bytes [0; 1]%Z.

Definition proper_label (l : gostring) : Prop := 0 < length l < 256.

Lemma uint16_roundtrip v rest : (0 <= v < 65536)%Z -> uint16_val (uint16_bytes v ++ rest) = v.
Proof.
  intros Hv. unfold uint16_val, uint16_bytes. cbn [app nth]. rewrite !Z_of_byte_of_Z.
  rewrite (Z.mod_small (v / 256)) by (split; [apply Z.div_pos; lia|apply Z.div_lt_upper_bound; lia]).
  pose proof (Z.div_mod v 256). lia.
Qed.

Lemma length_label l : length (label_bytes l) = S (length l).
Proof. done. Qed.

Lemma read_labels_question fuel pre labels rest :
  Forall proper_label labels -> length labels < fuel ->
  read_labels fuel (pre ++ concat (label_bytes <$> labels) ++ zero_byte :: rest) (length pre) =
  Some (labels, length pre + length (concat (label_bytes <$> labels)) + 1).
Proof.
  intros Hl. revert fuel pre. induction Hl as [|l labels [Hl Hl'] _ IH]; intros fuel pre Hf; (destruct fuel as [|fuel]; [lia|]).
  - cbn [read_labels fmap list_fmap concat app]. rewrite list_lookup_middle by done. cbn. do 2 f_equal. lia.
  - rewrite fmap_cons. cbn [concat]. set (tl := concat (label_bytes <$> labels)). unfold label_bytes at 1.
    rewrite <- app_assoc. cbn [app read_labels]. rewrite list_lookup_middle by done.
    rewrite Z_of_byte_of_Z, Z.mod_small, Nat2Z.id by lia. rewrite bool_decide_false by lia.
    rewrite bool_decide_false by (rewrite length_app; cbn [length]; rewrite length_app; lia).
    assert (Hb : pre ++ byte_of_Z (Z.of_nat (length l)) :: l ++ tl ++ zero_byte :: rest =
      (pre ++ label_bytes l) ++ tl ++ zero_byte :: rest) by (unfold label_bytes; by rewrite <- app_assoc).
    assert (Hn : length pre + 1 + length l = length (pre ++ label_bytes l))
      by (rewrite length_app; unfold label_bytes; cbn [length]; lia).
    assert (Hd : take (length l) (drop (length pre + 1) (pre ++ byte_of_Z (Z.of_nat (length l)) :: l ++ tl ++ zero_byte :: rest)) = l).
    { rewrite (drop_app_ge pre) by lia. replace (length pre + 1 - length pre) with 1 by lia. cbn [drop]. apply take_app_length. }
    rewrite Hd. rewrite Hb, Hn. unfold tl. rewrite IH by (cbn [length] in Hf; lia).
    do 2 f_equal. rewrite <- Hn, length_app, length_label. lia.
Qed.

(** A packet whose header is followed by a question is parsed. *)
Lemma parseQuery_question `{UnicodeTables} header labels qtype rest :
  length header = 12 -> Forall proper_label labels -> (0 <= qtype < 65536)%Z ->
  parseQuery (header ++ question_bytes labels qtype ++ rest) =
  Some (MkQuery (Shared 0 2) (Shared 12 (length (question_bytes labels qtype))) (ToLower (Join labels (go "."))) qtype).
Proof.
  intros Hh Hl Hq. unfold parseQuery, question_bytes. set (names := concat (label_bytes <$> labels)).
  set (tail := uint16_bytes qtype ++ z_bytes [0; 1]%Z).
  assert (Ht : length tail = 4) by reflexivity.
  assert (Hlen : length labels <= length names).
  { unfold names. clear -Hl. induction Hl as [|l labels _ _ IH]; [done|]. rewrite fmap_cons. cbn [concat length].
    rewrite length_app, length_label. lia. }
  set (buf := header ++ (names ++ [zero_byte] ++ tail) ++ rest).
  assert (Hbuf : length buf = 12 + length names + 5 + length rest)
    by (unfold buf; rewrite !length_app, Hh, Ht; cbn [length]; lia).
  rewrite bool_decide_false by lia.
  assert (E : buf = header ++ names ++ zero_byte :: tail ++ rest) by (unfold buf; by rewrite <- !app_assoc).
  assert (R : read_labels (length buf) buf 12 = Some (labels, 12 + length names + 1)).
  { rewrite <- Hh at 1 2. rewrite E at 2. unfold names at 1. rewrite read_labels_question by (done || lia). done. }
  rewrite R, bool_decide_false by lia. f_equal. f_equal.
  - f_equal. rewrite !length_app, Ht. cbn [length]. lia.
  - rewrite E. replace (header ++ names ++ zero_byte :: tail ++ rest) with ((header ++ names ++ [zero_byte]) ++ tail ++ rest)
      by (by rewrite <- !app_assoc).
    rewrite drop_app_length' by (rewrite !length_app; cbn [length]; lia). unfold tail. rewrite <- app_assoc.
    change (take 2 (uint16_bytes qtype ++ z_bytes [0; 1]%Z ++ rest)) with (uint16_bytes qtype ++ []).
    by apply uint16_roundtrip.
Qed.

(** Enough fuel is the length of what is left. *)
Lemma read_labels_fuel buf f g off :
  length buf - off <= f -> length buf - off <= g -> 0 < f -> 0 < g -> read_labels f buf off = read_labels g buf off.
Proof.
  revert g off. induction f as [|f IH]; intros [|g] off Hf Hg Pf Pg; try lia.
  cbn [read_labels]. destruct (buf !! off) as [c|] eqn:E; [|done]. apply lookup_lt_Some in E.
  set (l := Z.to_nat (Z_of_byte c)). destruct (bool_decide_reflect (l = 0)); [done|].
  destruct (bool_decide_reflect (length buf < off + 1 + l)); [done|].
  destruct (decide (length buf - (off + 1 + l) = 0)) as [Z0|].
  - assert (L : buf !! (off + 1 + l) = None) by (apply lookup_ge_None; lia).
    assert (St : forall h, read_labels h buf (off + 1 + l) = Some ([], off + 1 + l)) by (intros [|h]; cbn [read_labels]; [done|by rewrite L]).
    by rewrite !St.
  - rewrite (IH g) by lia. done.
Qed.

(** The slices of a packet lie in it, so they are the same bytes in a longer buffer. *)
Lemma contents_take off len n (buf : list byte) :
  off + len <= n -> contents (take n buf) (Shared off len) = contents buf (Shared off len).
Proof. intros Hn. cbn [contents]. rewrite !take_drop_commute, take_take. by rewrite Nat.min_l by lia. Qed.

Lemma parseQuery_slices `{UnicodeTables} packet q :
  parseQuery packet = Some q ->
  q_id q = Shared 0 2 /\ exists l, q_question q = Shared 12 l /\ 12 + l <= length packet.
Proof.
  unfold parseQuery. destruct (bool_decide_reflect (length packet < 12)); [done|].
  destruct (read_labels _ _ _) as [[parts off]|]; [|done].
  destruct (bool_decide_reflect (length packet < off + 4)); [done|].
  intros [= <-]. split; [done|]. exists (off + 4 - 12). split; [done|lia].
Qed.

Lemma parseQuery_contents `{UnicodeTables} n (buf : list byte) q :
  n <= length buf -> parseQuery (take n buf) = Some q ->
  contents (take n buf) (q_id q) = contents buf (q_id q) /\
  contents (take n buf) (q_question q) = contents buf (q_question q).
Proof.
  intros Hn Hp. destruct (parseQuery_slices _ _ Hp) as (-> & l & -> & Hl). rewrite length_take in Hl.
  split; apply contents_take; lia.
Qed.

(** ** The loop *)

Section loop_lemmas.
Context `{UnicodeTables} {Peer : Type} (table : behaviors).

Definition owned (g : goroutine Peer) : Prop :=
  (exists i, g_id g = Own i) /\ (exists q, g_question g = Own q).

(** What holds at every turn: the buffer keeps its size, the handlers own their bytes, and
    what was written with what the handlers will write is the answers to what came in. *)
Record served (s : loop Peer) : Prop := MkServed {
  served_buffer : length (buf s) = 1500;
  served_owned : Forall owned (running s);
  served_answers : sent s ++ (running s ≫= written []) ≡ₚ answers table (received s)
}.

Lemma written_owned b c g : owned g -> written b g = written c g.
Proof. intros [[i Hi] [q Hq]]. unfold written. by rewrite Hi, Hq. Qed.

Lemma served_start : served start.
Proof. split; [apply length_replicate|constructor|done]. Qed.

Lemma receive_started packet peer s :
  length (buf s) = 1500 ->
  exists gs, running (receive_packet table packet peer s) = gs ++ running s /\ Forall owned gs /\
    gs ≫= written [] = answers table [(packet, peer)] /\ length (buf (receive_packet table packet peer s)) = 1500.
Proof.
  intros Hb. unfold receive_packet, ReadFromUDP. rewrite Hb. set (n := 1500 `min` length packet).
  set (b := take n packet ++ drop n (buf s)).
  assert (Hl : length b = 1500) by (unfold b, n; rewrite length_app, length_take, length_drop, Hb; lia).
  assert (Ht : take n b = take 1500 packet).
  { unfold b. rewrite take_app_length' by (unfold n; rewrite length_take; lia). unfold n.
    destruct (decide (1500 <= length packet)); [by rewrite Nat.min_l by lia|].
    rewrite Nat.min_r by lia. by rewrite !take_ge by lia. }
  cbn [running buf]. eexists. split; [done|].
  destruct (parseQuery (take n b)) as [q|] eqn:Eq, peer as [p|].
  2-4: split_and!; try done; unfold answers, serve_query; cbn [omap list_omap]; rewrite <- ?Ht, ?Eq; done.
  split_and!; [|..|done].
  - repeat constructor; eexists; done.
  - destruct (parseQuery_contents n b q) as [Hi Hq]; [unfold n; lia|done|].
    cbn [mbind list_bind]. unfold answers, serve_query. cbn [omap list_omap]. rewrite <- Ht, Eq.
    cbn [mbind option_bind]. unfold written. cbn [g_behavior g_qtype g_id g_question contents g_peer].
    rewrite Hi, Hq. by destruct (respond _ _ _ _).
Qed.

Lemma served_turn s s' : turn table s s' -> served s -> served s'.
Proof.
  intros Hs [Hb Ho Ha]. destruct Hs as [packet peer s|gs g gs' s Hr].
  - destruct (receive_started packet peer s Hb) as (gs & Hg & Hown & Hw & Hl). split; [done| |].
    + rewrite Hg. by apply Forall_app.
    + rewrite Hg, bind_app, Hw. change (sent (receive_packet table packet peer s)) with (sent s).
      change (received (receive_packet table packet peer s)) with (received s ++ [(packet, peer)]).
      unfold answers at 2. rewrite omap_app. fold (answers table (received s)). rewrite <- Ha.
      change (omap _ [(packet, peer)]) with (answers table [(packet, peer)]). solve_Permutation.
  - rewrite Hr in Ho, Ha. apply Forall_app in Ho as [Ho1 Ho2]. apply Forall_cons in Ho2 as [Hg Ho2].
    split; cbn [buf running sent received]; [done|by apply Forall_app|].
    rewrite <- Ha, !bind_app, bind_cons, (written_owned (buf s) []) by done. solve_Permutation.
Qed.

Lemma served_reachable s : rtc (turn table) start s -> served s.
Proof.
  intros Hr. pose proof served_start as Hs. revert Hs.
  induction Hr as [|x y z Hxy _ IH]; intros Hx; [done|]. by apply IH, (served_turn x).
Qed.

(** The handlers that run can all end. *)
Lemma drain (s : loop Peer) : exists s' : loop Peer, rtc (turn table) s s' /\ running s' = [] /\ received s' = received s.
Proof.
  remember (running s) as gs eqn:Hg. revert s Hg. induction gs as [|g gs IH]; intros s Hg; [by exists s|].
  destruct (IH (MkLoop (buf s) gs (sent s ++ written (buf s) g) (received s))) as (s' & Hs & Hn & Hr); [done|].
  exists s'. split_and!; [|done|done]. eapply rtc_l; [|exact Hs]. by apply (turn_respond table [] g gs).
Qed.

(** However the handlers interleave with the loop, which reuses its receive buffer,
    every response written answers a packet that came in, for the peer it came from, and
    at most as often; the handlers can end, and then every packet that asks for a
    response has exactly the response it asks for. *)
Theorem fixture_answers_each (s : loop Peer) :
  rtc (turn table) start s ->
  sent s ⊆+ answers table (received s) /\
  (running s = [] -> sent s ≡ₚ answers table (received s)) /\
  exists s' : loop Peer, rtc (turn table) s s' /\ running s' = [] /\ received s' = received s /\
    sent s' ≡ₚ answers table (received s).
Proof.
  intros Hr. pose proof (served_reachable s Hr) as [_ _ Ha]. split_and!.
  - rewrite <- Ha. by apply submseteq_inserts_r.
  - intros Hn. by rewrite Hn, app_nil_r in Ha.
  - destruct (drain s) as (s' & Hs & Hn & Hrec). exists s'. split_and!; [done..|].
    destruct (served_reachable s') as [_ _ Ha']; [by trans s|]. by rewrite Hn, app_nil_r, Hrec in Ha'.
Qed.
End loop_lemmas.

(** ** The response *)

(** A resource record as a resolver reads it: the name, the type, the data. *)
Definition read_rr (b : list byte) : list byte * Z * list byte :=
  (take 2 b, uint16_val (drop 2 b), take (Z.to_nat (uint16_val (drop 10 b))) (drop 12 b)).

(** The response code of the header. *)
Definition response_code (packet : list byte) : Z := Z.land (Z_of_byte (nth 3 packet zero_byte)) 15.

Lemma buildResponse_header id question rcode answer :
  exists header, buildResponse id question rcode answer = (id ++ header) ++ question ++ answer /\ length header = 10 /\
    nth 1 header zero_byte = byte_of_Z 128.
Proof.
  exists (z_bytes [129; 128]%Z ++ uint16_bytes 1 ++ uint16_bytes (if bool_decide (0 < length answer) then 1%Z else 0%Z) ++
    uint16_bytes 0 ++ uint16_bytes 0).
  split; [|by case_bool_decide]. unfold buildResponse. rewrite <- !app_assoc. reflexivity.
Qed.

Lemma read_a : read_rr (answerRR (byte_of_Z 192, byte_of_Z 12) 1 aAnswer) = (z_bytes [192; 12]%Z, 1%Z, aAnswer).
Proof. vm_compute. reflexivity. Qed.

Lemma read_aaaa : read_rr (answerRR (byte_of_Z 192, byte_of_Z 12) 28 aaaaAnswer) = (z_bytes [192; 12]%Z, 28%Z, aaaaAnswer).
Proof. vm_compute. reflexivity. Qed.

Section response.
Context `{UnicodeTables} (table : behaviors).

Lemma serve_question header labels qtype rest :
  length header = 12 -> Forall proper_label labels -> (0 <= qtype < 65536)%Z ->
  length (header ++ question_bytes labels qtype ++ rest) <= 1500 ->
  serve_query table (header ++ question_bytes labels qtype ++ rest) =
  respond (behavior_of table (ToLower (Join labels (go "."))) qtype) qtype (take 2 header) (question_bytes labels qtype).
Proof.
  intros Hh Hl Hq Hlen. unfold serve_query. rewrite (take_ge _ 1500) by done.
  rewrite parseQuery_question by done. cbn [q_name q_type q_id q_question contents].
  rewrite drop_0, drop_app_length', take_app_length by done. by rewrite take_app_le by lia.
Qed.

(** The response to a question carries the question's identifier and asks the same
    question; where the table has an answer it carries one record, which reads back as the
    documentation address of the type asked for, and without one it carries none.  Its
    response code says success whatever the table says, a server failure included. *)
Theorem response_reads_back header labels qtype rest :
  length header = 12 -> Forall proper_label labels -> (0 <= qtype < 65536)%Z ->
  length (header ++ question_bytes labels qtype ++ rest) <= 1500 ->
  let b := behavior_of table (ToLower (Join labels (go "."))) qtype in
  let packet := header ++ question_bytes labels qtype ++ rest in
  if bool_decide (b_kind b = go "drop") then serve_query table packet = None
  else
    exists response, serve_query table packet = Some response /\
      take 2 response = take 2 packet /\ parseQuery response = parseQuery packet /\ response_code response = 0%Z /\
      let record := drop (12 + length (question_bytes labels qtype)) response in
      if bool_decide (b_kind b = go "answer") then
        read_rr record =
          if (qtype =? 1)%Z then (z_bytes [192; 12]%Z, 1%Z, aAnswer) else (z_bytes [192; 12]%Z, 28%Z, aaaaAnswer)
      else record = [].
Proof.
  intros Hh Hl Hq Hlen b packet. unfold packet. rewrite serve_question by done. fold b. unfold respond.
  destruct (bool_decide_reflect (b_kind b = go "drop")); [done|].
  match goal with |- context [buildResponse ?i ?q ?r ?a] => destruct (buildResponse_header i q r a) as (h & -> & Lh & Nh) end.
  eexists. split; [done|]. set (q := question_bytes labels qtype).
  set (id := take 2 header). assert (Li : length id = 2) by (unfold id; rewrite length_take; lia).
  assert (L12 : length (id ++ h) = 12) by (rewrite length_app; lia).
  split_and!.
  - rewrite <- app_assoc, take_app_length' by done. unfold id. by rewrite take_app_le by lia.
  - unfold q. by rewrite !parseQuery_question.
  - unfold response_code. rewrite <- !app_assoc, app_nth2 by lia. rewrite Li. cbn [Nat.sub]. rewrite app_nth1 by lia. by rewrite Nh.
  - rewrite app_assoc, drop_app_length' by (rewrite length_app; lia).
    destruct (bool_decide_reflect (b_kind b = go "answer")); [|done].
    destruct (qtype =? 1)%Z; [apply read_a|apply read_aaaa].
Qed.
End response.

(** ** Witnesses *)

#[local] Instance probe_unicode : UnicodeTables :=
  {| unicode_lower := id; unicode_equal_fold := fun s t => bool_decide (s = t) |}.

Definition probe_table : behaviors := build_table scenarios.

Definition probe_header : list byte := z_bytes [18; 52; 1; 0; 0; 1; 0; 0; 0; 0; 0; 0]%Z.
Definition probe_query (host : gostring) (qtype : Z) : list byte :=
  probe_header ++ question_bytes [host; go "w2w3"; go "example"] qtype ++ [].

(** The scenarios of the table, by what the fixture does with the A and AAAA question. *)
Example scenarios_ex :
  (fun sc => (b_kind (behavior_of probe_table (sc_name sc) 1), b_kind (behavior_of probe_table (sc_name sc) 28))) <$> scenarios =
  (fun sc => (b_kind (sc_a sc), b_kind (sc_aaaa sc))) <$> scenarios.
Proof. vm_compute. reflexivity. Qed.

(** A resolver that changes the case of a name has the same answer; a packet that ends in
    the middle of a name has none, nor has one cut off after it. *)
Example query_ex :
  is_Some (serve_query probe_table (probe_query (go "P1") 28)) /\
  serve_query probe_table (probe_query (go "p5") 1) = None /\
  serve_query probe_table (take 20 (probe_query (go "p1") 1)) = None /\
  serve_query probe_table (take 31 (probe_query (go "p1") 1)) = None /\
  option_map response_code (serve_query probe_table (probe_query (go "p8") 1)) = Some 0%Z.
Proof. vm_compute. repeat split; eauto. Qed.

Example probe_labels : Forall proper_label [go "p1"; go "w2w3"; go "example"].
Proof. repeat constructor; vm_compute; lia. Qed.

Example p1_answers : b_kind (behavior_of probe_table (ToLower (Join [go "p1"; go "w2w3"; go "example"] (go "."))) 28) = go "answer".
Proof. vm_compute. reflexivity. Qed.

Lemma response_reads_back_witness :
  length probe_header = 12 /\ Forall proper_label [go "p1"; go "w2w3"; go "example"] /\
  exists response, serve_query probe_table (probe_query (go "p1") 28) = Some response /\
    read_rr (drop (12 + 21) response) = (z_bytes [192; 12]%Z, 28%Z, aaaaAnswer).
Proof.
  split; [reflexivity|]. split; [apply probe_labels|].
  pose proof (response_reads_back probe_table probe_header [go "p1"; go "w2w3"; go "example"] 28 []
    eq_refl probe_labels ltac:(lia) ltac:(vm_compute; lia)) as R.
  cbv zeta in R. rewrite p1_answers in R. rewrite bool_decide_false in R by (vm_compute; discriminate).
  destruct R as (response & Hs & _ & _ & _ & Hr). rewrite bool_decide_true in Hr by reflexivity.
  exists response. split; [exact Hs|exact Hr].
Defined.

(** Two queries are in hand when the second packet has overwritten the buffer. *)
Lemma fixture_answers_each_witness :
  exists s : loop nat, rtc (turn probe_table) start s /\ running s = [] /\
    sent s ≡ₚ answers probe_table [(probe_query (go "p2") 1, Some 7); (probe_query (go "p1") 28, Some 8)].
Proof.
  assert (Hr : rtc (turn probe_table) start
    (receive_packet probe_table (probe_query (go "p1") 28) (Some 8) (receive_packet probe_table (probe_query (go "p2") 1) (Some 7) start))).
  { eapply rtc_l; [apply turn_receive|]. eapply rtc_l; [apply turn_receive|]. apply rtc_refl. }
  destruct (fixture_answers_each probe_table _ Hr) as (_ & _ & s & Hs & Hn & _ & Ha).
  exists s. split; [etrans; [exact Hr|exact Hs]|]. split; [exact Hn|exact Ha].
Defined.
