(* ===== verification/Diag.v ===== *)
(** * The diagnostic lookup: experiments/w2w3/realprobe/diag/main.go

    The fixture of the diagnostic: it parses a query in its receive buffer, without
    checking the bounds of the packet, and answers every question with the documentation
    address of its type.  A slice beyond the buffer panics.  For a well-formed question it
    answers as the probe's fixture does. *)

From stdpp Require Import base decidable numbers list gmap strings.
From Stdlib Require Import ZArith Lia Ascii.
From S2P Require Import Prelude GoStrings GoNet Probe.

(** ** The fixture *)

(** Reading the labels of the packet [buf[:n]]: where the name ends, [None] when a label's
    slice goes beyond the buffer. *)
Fixpoint read_parts (fuel : nat) (buf : list byte) (n off : nat) : option (list gostring * nat) :=
  match fuel with
  | O => Some ([], off)
  | S fuel' =>
      if bool_decide (n <= off) then Some ([], off)
      else
        let l := Z.to_nat (Z_of_byte (nth off buf zero_byte)) in
        let off := off + 1 in
        if bool_decide (l = 0) then Some ([], off)
        else if bool_decide (length buf < off + l) then None
        else
          match read_parts fuel' buf n (off + l) with
          | Some (parts, stop) => Some (take l (drop off buf) :: parts, stop)
          | None => None
          end
  end.

(** Without the bytes of the type in the packet, the type is 0. *)
Definition parts_qtype (buf : list byte) (n off : nat) : Z :=
  if bool_decide (off + 2 <= n) then uint16_val (take 2 (drop off buf)) else 0%Z.

Definition rr (rrtype : Z) (rdata : list byte) : list byte :=
  z_bytes [192; 12]%Z ++ uint16_bytes rrtype ++ z_bytes [0; 1]%Z ++ z_bytes [0; 0; 0; 60]%Z ++
  uint16_bytes (Z.of_nat (length rdata)) ++ rdata.

Definition diag_response (id question : list byte) (qtype : Z) : list byte :=
  let a := default [] (ParseIP (go "192.0.2.20") ≫= To4) in
  let v6 := default [] (ParseIP (go "2001:db8:20::20") ≫= To16) in
  let answer := if (qtype =? 1)%Z then rr 1 a else rr 28 v6 in
  let ancount := if bool_decide (0 < length answer) then 1%Z else 0%Z in
  id ++ z_bytes [129; 128]%Z ++ uint16_bytes 1 ++ uint16_bytes ancount ++ uint16_bytes 0 ++ uint16_bytes 0 ++
  question ++ answer.

Inductive round :=
  | Ignored
  | Panicked
  | Answered (response : list byte).

(** One round: a packet of [n] bytes is in the buffer. *)
Definition diag_round (buf : list byte) (n : nat) : round :=
  if bool_decide (n < 16) then Ignored
  else
    match read_parts n buf n 12 with
    | None => Panicked
    | Some (_, off) =>
        if bool_decide (length buf < off + 4) then Panicked
        else
          Answered (diag_response (take 2 buf) (take (off + 4 - 12) (drop 12 buf)) (parts_qtype buf n off))
    end.

(** ** Lemmas *)

(** Where reading stops is in the packet or at most one label beyond it. *)
Lemma read_parts_stop fuel buf n off : off <= n + 255 -> n - off < fuel ->
  match read_parts fuel buf n off with
  | Some (_, stop) => stop <= n + 255
  | None => length buf < n + 255 + 1
  end.
Proof.
  revert off. induction fuel as [|fuel IH]; intros off Ho Hf; [done|]. cbn [read_parts].
  destruct (bool_decide_reflect (n <= off)); [done|].
  pose proof (Z_of_byte_range (nth off buf zero_byte)) as Hc.
  set (l := Z.to_nat (Z_of_byte (nth off buf zero_byte))) in *.
  destruct (bool_decide_reflect (l = 0)); [lia|].
  destruct (bool_decide_reflect (length buf < off + 1 + l)); [lia|].
  specialize (IH (off + 1 + l)). destruct (read_parts fuel buf n (off + 1 + l)) as [[parts stop]|]; apply IH; lia.
Qed.

(** A packet that leaves the longest label and the type of the question room in the
    buffer never panics the fixture, whatever its bytes and those an earlier packet left. *)
Theorem short_packets_safe buf n :
  n + 259 <= length buf -> diag_round buf n <> Panicked.
Proof.
  intros Hn. unfold diag_round. destruct (bool_decide_reflect (n < 16)); [done|].
  pose proof (read_parts_stop n buf n 12) as Hs.
  destruct (read_parts n buf n 12) as [[parts stop]|]; [|lia].
  destruct (bool_decide_reflect (length buf < stop + 4)); [lia|done].
Qed.

(** The probe's reader and this one agree where the packet holds the whole name. *)
Lemma read_parts_labels fuel buf n off parts stop :
  n <= length buf -> read_labels fuel (take n buf) off = Some (parts, stop) -> read_parts fuel buf n off = Some (parts, stop).
Proof.
  intros Hn. revert off parts stop. induction fuel as [|fuel IH]; intros off parts stop; [done|]. cbn [read_labels read_parts].
  destruct (bool_decide_reflect (n <= off)) as [Ho|Ho].
  - rewrite (proj2 (lookup_ge_None (take n buf) off)) by (rewrite length_take; lia). done.
  - rewrite lookup_take_lt by lia. destruct (buf !! off) as [c|] eqn:E; [|apply lookup_ge_None in E; lia].
    rewrite (nth_lookup_Some _ _ _ _ E). set (l := Z.to_nat (Z_of_byte c)).
    destruct (bool_decide_reflect (l = 0)); [done|]. rewrite length_take, Nat.min_l by lia.
    destruct (bool_decide_reflect (n < off + 1 + l)); [done|]. rewrite bool_decide_false by lia.
    destruct (read_labels fuel (take n buf) (off + 1 + l)) as [[ps st]|] eqn:Er; [|done].
    rewrite (IH _ _ _ Er). intros [= <- <-]. do 3 f_equal.
    pose proof (contents_take (off + 1) l n buf ltac:(lia)) as C. cbn [contents] in C. done.
Qed.

Lemma read_labels_ge fuel buf off parts stop : read_labels fuel buf off = Some (parts, stop) -> off <= stop.
Proof.
  revert off parts stop. induction fuel as [|fuel IH]; intros off parts stop; cbn [read_labels]; [by intros [= _ <-]|].
  destruct (buf !! off) as [c|]; [|by intros [= _ <-]].
  case_bool_decide; [intros [= _ <-]; lia|]. case_bool_decide; [done|].
  destruct (read_labels fuel buf _) as [[ps st]|] eqn:E; [|done]. intros [= _ <-]. apply IH in E. lia.
Qed.

Lemma rr_answerRR t d : rr t d = answerRR (byte_of_Z 192, byte_of_Z 12) t d.
Proof. reflexivity. Qed.

(** On a packet the probe's fixture can parse, whatever the rest of the receive buffer
    holds, the diagnostic answers, and with the very bytes the probe's fixture sends when
    its table has an answer for the name and type. *)
Theorem diag_answers_as_probe `{UnicodeTables} table buf n q :
  n <= length buf -> n <= 1500 -> parseQuery (take n buf) = Some q ->
  b_kind (behavior_of table (q_name q) (q_type q)) = go "answer" ->
  exists response, diag_round buf n = Answered response /\ serve_query table (take n buf) = Some response.
Proof.
  intros Hn Hm Hq Hk.
  destruct (parseQuery_contents n buf q Hn Hq) as [Hid Hqu]. exists (diag_response (take 2 buf) (contents buf (q_question q)) (q_type q)).
  split.
  - unfold parseQuery in Hq. rewrite length_take, Nat.min_l in Hq by done. case_bool_decide; [done|].
    destruct (read_labels _ _ _) as [[parts off]|] eqn:E; [|done]. case_bool_decide; [done|]. injection Hq as <-.
    pose proof (read_labels_ge _ _ _ _ _ E). unfold diag_round. rewrite bool_decide_false by lia.
    rewrite (read_parts_labels _ _ _ _ _ _ Hn E), bool_decide_false by lia. cbn [q_question contents q_type].
    unfold parts_qtype. rewrite bool_decide_true by lia.
    pose proof (contents_take off 2 n buf ltac:(lia)) as C. cbn [contents] in C. by rewrite C.
  - unfold serve_query. rewrite (take_ge (take n buf)) by (rewrite length_take; lia). rewrite Hq, Hid, Hqu.
    destruct (parseQuery_slices _ _ Hq) as (-> & l & -> & Hl). cbn [contents]. rewrite drop_0.
    unfold respond. rewrite Hk, bool_decide_false by (vm_compute; discriminate). rewrite (bool_decide_true (go "answer" = go "answer")) by reflexivity.
    unfold diag_response. fold aAnswer aaaaAnswer. cbv zeta. rewrite (rr_answerRR 1 aAnswer), (rr_answerRR 28 aaaaAnswer).
    destruct (q_type q =? 1)%Z; reflexivity.
Qed.

(** ** Witnesses *)

Lemma short_packets_safe_witness : 16 + 259 <= length (replicate 1500 zero_byte) /\ diag_round (replicate 1500 zero_byte) 16 <> Panicked.
Proof. split; [vm_compute; lia|]. apply (short_packets_safe (replicate 1500 zero_byte) 16). vm_compute. lia. Defined.

(** A packet that fills the buffer can panic it: its last label reaches beyond the end. *)
Example long_packet_panics : diag_round (replicate 1500 (byte_of_Z 255)) 1500 = Panicked.
Proof. vm_compute. reflexivity. Qed.

#[local] Instance diag_unicode : UnicodeTables :=
  {| unicode_lower := id; unicode_equal_fold := fun s t => bool_decide (s = t) |}.

Definition diag_packet : list byte :=
  z_bytes [18; 52; 1; 0; 0; 1; 0; 0; 0; 0; 0; 0]%Z ++ question_bytes [go "diag1"; go "w2w3"; go "example"] 28.
Definition diag_table : behaviors := setBehavior (go "diag1.w2w3.example") (go "28") (answer_after fast) ∅.

Lemma diag_answers_as_probe_witness :
  exists response, diag_round (diag_packet ++ replicate 100 (byte_of_Z 7)) 36 = Answered response /\
    serve_query diag_table (take 36 (diag_packet ++ replicate 100 (byte_of_Z 7))) = Some response.
Proof.
  apply (diag_answers_as_probe diag_table (diag_packet ++ replicate 100 (byte_of_Z 7)) 36
    (MkQuery (Shared 0 2) (Shared 12 24) (go "diag1.w2w3.example") 28));
    [vm_compute; lia|vm_compute; lia|vm_compute; reflexivity|vm_compute; reflexivity].
Defined.
