(* ===== verification/ProbeMain.v ===== *)
(** * The measurements around the DNS fixtures: main of the resolver probe and diagnostic

    main of experiments/w2w3/realprobe/main.go, with its scenarios, repeats and rows, and of
    experiments/w2w3/realprobe/diag/main.go.  The resolver, the sockets, the clock and the
    output file are the operations of a class; the fixtures they start are those of Probe
    and Diag. *)

From stdpp Require Import base decidable numbers list gmap strings sorting.
From Stdlib Require Import ZArith Lia Ascii.
From S2P Require Import Prelude GoStrings GoNet Probe Diag.

(** ** Records of the output *)

(** [elapsed] in nanoseconds; it is written in milliseconds. *)
Record row := MkRow {
  row_id : gostring;
  row_run : nat;
  row_elapsed : Z;
  row_n_addrs : nat;
  row_order : list gostring;
  row_error : option error
}.

Inductive record :=
  | Meta (host : list gostring)
  | Row (r : row).

(** The context of a lookup: cancelled after a time, or with a timeout. *)
Inductive lookupContext := CancelAfter (d : Z) | WithTimeout (d : Z) | Background.

(** What is printed: a row, a fatal error, the fixture's address, or the diagnostic's result. *)
Inductive report :=
  | RowLine (r : row)
  | Fatal (what : gostring) (err : error)
  | FixtureLine (address : gostring)
  | ResultLine (addrs : list IP) (err : option error) (elapsed : Z).

(** A lookup names the fixture its resolver dials; [GoServe] and [GoDiag] start the loops of
    the fixtures on a socket, the first with the table as it is then. *)
Class ProbeEnv (S : Type) := {
  ListenLoopback : S -> result (nat * Z) * S;
  ClosePacketConn : nat -> S -> S;
  GoServe : nat -> behaviors -> S -> S;
  GoDiag : nat -> S -> S;
  Create : gostring -> S -> result nat * S;
  CloseFile : nat -> S -> S;
  EncodeRecord : nat -> record -> S -> S;
  Interfaces : S -> list (list gostring);
  Time : S -> Z;
  LookupIPAddr : gostring -> lookupContext -> gostring -> S -> (list IP * option error) * S;
  Report : report -> S -> S
}.

(** ** Sorting *)

(** The order of Go's strings. *)
Fixpoint string_leb (s t : gostring) : bool :=
  match s, t with
  | [], _ => true
  | _ :: _, [] => false
  | c :: s', d :: t' =>
      if (Z_of_byte c <? Z_of_byte d)%Z then true else if (Z_of_byte d <? Z_of_byte c)%Z then false else string_leb s' t'
  end.

Definition string_le (s t : gostring) : Prop := string_leb s t = true.

#[export] Instance string_le_dec s t : Decision (string_le s t).
Proof. unfold string_le. apply _. Defined.

(** [sort.Strings]. *)
Definition Strings (l : list gostring) : list gostring := merge_sort string_le l.

Section Measuring.
Context {S : Type} `{ProbeEnv S}.

(** ** The probe *)

Definition w2w3HostInfo (s : S) : list gostring := Strings (concat (Interfaces s)).

Definition lookup_context (sc : scenario) : lookupContext :=
  if (0 <? sc_cancelMs sc)%Z then CancelAfter (sc_cancelMs sc * Millisecond) else WithTimeout (40 * 1000000000).

(** One run of a scenario. *)
Definition measure (fixture : gostring) (out : nat) (sc : scenario) (i : nat) (s : S) : S :=
  let start := Time s in
  let '((addrs, lerr), s) := LookupIPAddr fixture (lookup_context sc) (sc_name sc) s in
  let elapsed := (Time s - start)%Z in
  let order := IP_String <$> addrs in
  let r := MkRow (sc_id sc) i elapsed (length addrs) order lerr in
  Report (RowLine r) (EncodeRecord out (Row r) s).

Definition measure_scenario (fixture : gostring) (out : nat) (s : S) (sc : scenario) : S :=
  foldl (fun s i => measure fixture out sc i s) s (seq 1 (sc_repeats sc)).

(** The process and its exit status; [args] are the arguments of the command. *)
Definition probe_main (args : list gostring) (s : S) : Z * S :=
  let outPath := match args with path :: _ => path | [] => go "w2_real_resolver.jsonl" end in
  match ListenLoopback s with
  | (Err e, s) => (1%Z, Report (Fatal (go "listen") e) s)
  | (Ok (pc, fixturePort), s) =>
      let fixtureAddr := go "127.0.0.1:" ++ Itoa fixturePort in
      let table := build_table scenarios in
      let s := GoServe pc table s in
      match Create outPath s with
      | (Err e, s) => (1%Z, Report (Fatal (go "create output") e) s)
      | (Ok out, s) =>
          let s := EncodeRecord out (Meta (w2w3HostInfo s)) s in
          let s := foldl (measure_scenario fixtureAddr out) s scenarios in
          (0%Z, ClosePacketConn pc (CloseFile out s))
      end
  end.

(** ** The diagnostic *)

(** How it ends: a panic, or the return of main. *)
Inductive diagEnd := DiagPanic (err : error) | DiagReturn.

Definition diag_main (s : S) : diagEnd * S :=
  match ListenLoopback s with
  | (Err e, s) => (DiagPanic e, s)
  | (Ok (pc, port), s) =>
      let fixtureAddr := go "127.0.0.1:" ++ Itoa port in
      let s := Report (FixtureLine fixtureAddr) s in
      let s := GoDiag pc s in
      let start := Time s in
      let '((addrs, err), s) := LookupIPAddr fixtureAddr Background (go "diag1.w2w3.example") s in
      (DiagReturn, ClosePacketConn pc (Report (ResultLine addrs err (Time s - start)) s))
  end.
End Measuring.

(** The loop of the diagnostic's fixture: the packets it receives, one at a time, into one
    buffer; a panic ends the process. *)
Fixpoint diag_serve {Peer : Type} (packets : list (list byte * Peer)) (buf : list byte) : list (list byte * Peer) * bool :=
  match packets with
  | [] => ([], false)
  | (packet, peer) :: rest =>
      let '(buf, n) := ReadFromUDP buf packet in
      match diag_round buf n with
      | Ignored => diag_serve rest buf
      | Panicked => ([], true)
      | Answered response => let '(sent, panicked) := diag_serve rest buf in ((response, peer) :: sent, panicked)
      end
  end.

(** ** What is written *)

(** The records of each file: encoding adds one, a file is created empty, and nothing else
    changes them. *)
Class ProbeLaws (S : Type) `{ProbeEnv S} := {
  records : S -> nat -> list record;
  pl_encode out r s f : records (EncodeRecord out r s) f = if decide (f = out) then records s f ++ [r] else records s f;
  pl_create path s f : match Create path s with
    | (Ok out, s') => records s' f = if decide (f = out) then [] else records s f
    | (Err _, s') => records s' f = records s f
    end;
  pl_listen s f : records (ListenLoopback s).2 f = records s f;
  pl_close pc s f : records (ClosePacketConn pc s) f = records s f;
  pl_close_file out s f : records (CloseFile out s) f = records s f;
  pl_serve pc table s f : records (GoServe pc table s) f = records s f;
  pl_lookup fixture ctx name s f : records (LookupIPAddr fixture ctx name s).2 f = records s f;
  pl_report r s f : records (Report r s) f = records s f
}.

Lemma string_le_total s t : string_le s t \/ string_le t s.
Proof.
  unfold string_le. revert t. induction s as [|c s IH]; intros [|d t]; cbn; auto.
  destruct (Z_of_byte c <? Z_of_byte d)%Z eqn:E1, (Z_of_byte d <? Z_of_byte c)%Z eqn:E2; auto.
Qed.

Lemma Strings_sorted l : Sorted string_le (Strings l) /\ Strings l ≡ₚ l.
Proof. split; [apply Sorted_merge_sort; exact string_le_total|apply merge_sort_Permutation]. Qed.

(** The runs the scenarios ask for. *)
Definition planned (scs : list scenario) : list (gostring * nat) := scs ≫= fun sc => (fun i => (sc_id sc, i)) <$> seq 1 (sc_repeats sc).

(** A row is of a run and counts the addresses it lists. *)
Definition row_of (p : gostring * nat) (r : row) : Prop := (row_id r, row_run r) = p /\ row_n_addrs r = length (row_order r).

Section Written.
Context {S : Type} `{ProbeLaws S}.

Lemma measure_writes fixture out sc i s :
  exists r, row_of (sc_id sc, i) r /\ records (measure fixture out sc i s) out = records s out ++ [Row r] /\
    forall f, f <> out -> records (measure fixture out sc i s) f = records s f.
Proof.
  unfold measure. pose proof (pl_lookup fixture (lookup_context sc) (sc_name sc) s) as Hl.
  destruct (LookupIPAddr _ _ _ s) as [[addrs lerr] s1]. cbn in Hl.
  exists (MkRow (sc_id sc) i (Time s1 - Time s) (length addrs) (IP_String <$> addrs) lerr). split; [|split].
  - split; [reflexivity|]. cbn. by rewrite length_fmap.
  - rewrite pl_report, pl_encode, decide_True by done. by rewrite Hl.
  - intros f Hf. by rewrite pl_report, pl_encode, decide_False, Hl.
Qed.

(** A sequence of steps that each write one row. *)
Lemma steps_write {X} (step : S -> X -> S) (plan : X -> list (gostring * nat)) out xs s :
  (forall x s, exists rows, Forall2 row_of (plan x) rows /\ records (step s x) out = records s out ++ (Row <$> rows) /\
     forall f, f <> out -> records (step s x) f = records s f) ->
  exists rows, Forall2 row_of (xs ≫= plan) rows /\ records (foldl step s xs) out = records s out ++ (Row <$> rows) /\
    forall f, f <> out -> records (foldl step s xs) f = records s f.
Proof.
  intros Hstep. revert s. induction xs as [|x xs IH]; intros s; [exists []; cbn; rewrite app_nil_r; by split; [constructor|]|].
  destruct (Hstep x s) as (rows1 & F1 & R1 & O1). destruct (IH (step s x)) as (rows2 & F2 & R2 & O2). exists (rows1 ++ rows2).
  cbn [foldl]. rewrite bind_cons. split; [by apply Forall2_app|]. split; [by rewrite R2, R1, fmap_app, app_assoc|].
  intros f Hf. by rewrite O2, O1.
Qed.

Lemma scenario_writes fixture out s sc :
  exists rows, Forall2 row_of ((fun i => (sc_id sc, i)) <$> seq 1 (sc_repeats sc)) rows /\
    records (measure_scenario fixture out s sc) out = records s out ++ (Row <$> rows) /\
    forall f, f <> out -> records (measure_scenario fixture out s sc) f = records s f.
Proof.
  destruct (steps_write (fun s i => measure fixture out sc i s) (fun i => [(sc_id sc, i)]) out (seq 1 (sc_repeats sc)) s)
    as (rows & F & R & O).
  - intros i s'. destruct (measure_writes fixture out sc i s') as (r & Hr & E & O). exists [r].
    split; [apply Forall2_cons; split; [exact Hr|by apply Forall2_nil]|done].
  - exists rows. split; [|done]. replace (_ <$> _) with (seq 1 (sc_repeats sc) ≫= fun i => [(sc_id sc, i)]); [done|].
    clear. induction (seq 1 (sc_repeats sc)) as [|i l IH]; [done|]. rewrite bind_cons, fmap_cons, IH. done.
Qed.

(** A probe that exits with 0 has written everything it promises and nothing else: one
    record about the host, whose addresses are all those of its interfaces in order, and
    then one row for each run of each scenario, 36 in all, in their order and whether its
    lookup failed or not, each with as many addresses as it counts; when the socket or the
    file cannot be opened it exits with 1 and has written nothing. *)
Theorem probe_writes args s :
  let '(status, s') := probe_main args s in
  (status = 1%Z /\ forall f, records s' f = records s f) \/
  (status = 0%Z /\ exists out host rows interfaces,
     records s' out = Meta host :: (Row <$> rows) /\ (forall f, f <> out -> records s' f = records s f) /\
     Sorted string_le host /\ host ≡ₚ concat interfaces /\
     Forall2 row_of (planned scenarios) rows /\ length rows = 36).
Proof.
  unfold probe_main. pose proof (pl_listen s) as Hl. destruct (ListenLoopback s) as [[[pc port]|e] s1]; cbn in Hl.
  2: { left. split; [done|]. intros f. by rewrite pl_report. }
  set (path := match args with [] => _ | _ => _ end). pose proof (pl_create path (GoServe pc (build_table scenarios) s1)) as Hc.
  destruct (Create path _) as [[out|e] s2]; [|left; split; [done|]; intros f; by rewrite pl_report, Hc, pl_serve].
  assert (Hc' : forall f, records s2 f = if decide (f = out) then [] else records s f) by (intros f; by rewrite Hc, pl_serve, Hl).
  clear Hc Hl.
  right. split; [done|]. set (fixture := go "127.0.0.1:" ++ Itoa port). set (s3 := EncodeRecord out _ s2).
  destruct (steps_write (measure_scenario fixture out) (fun sc => (fun i => (sc_id sc, i)) <$> seq 1 (sc_repeats sc)) out scenarios s3)
    as (rows & F & R & O); [intros sc s'; apply scenario_writes|].
  exists out, (w2w3HostInfo s2), rows, (Interfaces s2). destruct (Strings_sorted (concat (Interfaces s2))) as [Hs Hp].
  assert (Hclose : forall t f, records (ClosePacketConn pc (CloseFile out t)) f = records t f)
    by (intros t f; by rewrite pl_close, pl_close_file).
  rewrite Hclose. split; [|split; [|split; [exact Hs|split; [exact Hp|split; [exact F|]]]]].
  - rewrite R. unfold s3. rewrite pl_encode, decide_True, Hc', decide_True by done. done.
  - intros f Hf. rewrite Hclose, O by done. unfold s3. by rewrite pl_encode, decide_False, Hc', decide_False.
  - apply Forall2_length in F. rewrite <- F. vm_compute. reflexivity.
Qed.
End Written.

(** ** The diagnostic's fixture *)

(** A run of the diagnostic's fixture over packets that leave room for a label and a type
    never panics, and answers each packet of which the probe's fixture has an answer with
    that answer. *)
Theorem diag_serves `{UnicodeTables} {Peer : Type} table (packets : list (list byte * Peer)) buf :
  length buf = 1500 -> Forall (fun p => length p.1 + 259 <= 1500) packets ->
  (diag_serve packets buf).2 = false /\
  forall packet peer q, (packet, peer) ∈ packets -> parseQuery packet = Some q ->
    b_kind (behavior_of table (q_name q) (q_type q)) = go "answer" ->
    exists response, (response, peer) ∈ (diag_serve packets buf).1 /\ serve_query table packet = Some response.
Proof.
  intros Hb Hp. revert buf Hb. induction Hp as [|[packet peer] rest Hlen _ IH]; intros buf Hb.
  { split; [done|]. by intros packet peer q ?%not_elem_of_nil. }
  cbn [fst] in Hlen. cbn [diag_serve]. unfold ReadFromUDP. rewrite Hb, Nat.min_r by lia. rewrite (take_ge packet) by lia.
  set (buf' := packet ++ drop (length packet) buf).
  assert (Hb' : length buf' = 1500) by (unfold buf'; rewrite length_app, length_drop; lia).
  specialize (IH buf' Hb') as [IH1 IH2].
  assert (Hround : diag_round buf' (length packet) <> Panicked) by (apply short_packets_safe; lia).
  assert (Htake : take (length packet) buf' = packet) by apply take_app_length.
  assert (Hanswer : forall q, parseQuery packet = Some q -> b_kind (behavior_of table (q_name q) (q_type q)) = go "answer" ->
    exists response, diag_round buf' (length packet) = Answered response /\ serve_query table packet = Some response).
  { intros q Hq Hk. pose proof (diag_answers_as_probe table buf' (length packet) q) as Ha. rewrite Htake in Ha.
    apply Ha; [lia|lia|exact Hq|exact Hk]. }
  destruct (diag_round buf' (length packet)) as [| |response] eqn:Er; [|done|].
  - split; [done|]. intros packet' peer' q [[= -> ->]|Hin]%elem_of_cons Hq Hk; [|by eapply IH2].
    by destruct (Hanswer q Hq Hk) as (? & ? & _).
  - destruct (diag_serve rest buf') as [sent panicked]. cbn in IH1, IH2 |- *. split; [done|].
    intros packet' peer' q [[= -> ->]|Hin]%elem_of_cons Hq Hk.
    + destruct (Hanswer q Hq Hk) as (response' & [= <-] & Hs). exists response. split; [left|exact Hs].
    + destruct (IH2 packet' peer' q Hin Hq Hk) as (response' & Hin' & Hs). exists response'. split; [by right|exact Hs].
Qed.

(** ** Witnesses *)

(** A process that keeps what it wrote, with a resolver that gives one address. *)
Record process := MkProcess { p_time : Z; p_files : nat; p_records : list (nat * record) }.

#[local] Instance process_env : ProbeEnv process := {|
  ListenLoopback s := (Ok (0, 5353%Z), s);
  ClosePacketConn _ s := s;
  GoServe _ _ s := s;
  GoDiag _ s := s;
  Create _ s := (Ok (p_files s), MkProcess (p_time s) (Datatypes.S (p_files s)) (filter (fun e => e.1 <> p_files s) (p_records s)));
  CloseFile _ s := s;
  EncodeRecord out r s := MkProcess (p_time s) (p_files s) (p_records s ++ [(out, r)]);
  Interfaces _ := [[go "192.0.2.9/24"; go "127.0.0.1/8"]; [go "::1/128"]];
  Time s := p_time s;
  LookupIPAddr _ _ _ s := (([aAnswer], None), MkProcess (p_time s + fast) (p_files s) (p_records s));
  Report _ s := s
|}.

Definition process_records (s : process) (f : nat) : list record := omap (fun e => if decide (f = e.1) then Some e.2 else None) (p_records s).

#[local] Instance process_laws : ProbeLaws process.
Proof.
  refine (Build_ProbeLaws process _ process_records _ _ _ _ _ _ _ _); try done.
  - intros out r s f. unfold process_records. cbn [EncodeRecord process_env p_records]. rewrite omap_app. csimpl.
    case_decide; by rewrite ?app_nil_r.
  - intros path s f. unfold process_records. cbn [Create process_env p_records]. induction (p_records s) as [|[g r] l IH]; [by case_decide|].
    rewrite filter_cons. cbn [fst]. destruct (decide (g <> p_files s)) as [Hg|Hg]; csimpl; rewrite IH; repeat case_decide; csimpl; try done.
    + congruence.
    + destruct Hg. congruence.
Defined.

Lemma probe_writes_witness :
  (probe_main [] (MkProcess 0 0 [])).1 = 0%Z /\ exists out rows interfaces host,
    process_records (probe_main [] (MkProcess 0 0 [])).2 out = Meta host :: (Row <$> rows) /\ length rows = 36 /\ host ≡ₚ concat interfaces.
Proof.
  split; [vm_compute; reflexivity|]. pose proof (probe_writes [] (MkProcess 0 0 [])) as Hw.
  destruct (probe_main [] (MkProcess 0 0 [])) as [status s'] eqn:E.
  assert (Hs : status = 0%Z) by (apply (f_equal fst) in E; vm_compute in E; congruence).
  destruct Hw as [[H1 _]|(_ & out & host & rows & interfaces & Hr & _ & _ & Hp & _ & Hl)]; [exfalso; subst; discriminate|].
  exists out, rows, interfaces, host. split; [exact Hr|]. split; [exact Hl|exact Hp].
Defined.

#[local] Instance probe_main_unicode : UnicodeTables :=
  {| unicode_lower := id; unicode_equal_fold := fun s t => bool_decide (s = t) |}.

Lemma diag_serves_witness :
  (diag_serve [(diag_packet, 1); (go "short", 2); (diag_packet, 3)] (replicate 1500 zero_byte)).2 = false.
Proof.
  apply (diag_serves diag_table [(diag_packet, 1); (go "short", 2); (diag_packet, 3)] (replicate 1500 zero_byte)).
  - apply length_replicate.
  - repeat apply Forall_cons_2; try apply Forall_nil_2; vm_compute (length _); lia.
Defined.
